(** * Visualizae: canvas interaction, layer store, generation and studio

    A shallow embedding of the client-side engine of the compositing tool:
    the pointer/touch handlers of [useCanvasInteraction], the undo/redo
    handlers of [useCanvasLayers], [getClosestAspectRatio], the generation
    orchestrator [triggerGeneration], the studio [SceneRow.handleGenerate]
    and the movie export pipeline [handleExportFullMovie].

    Numbers.  A JavaScript number is modelled by [Num.num]: an exact rational
    or one of the three non-finite values.  Rounding to binary64 and the sign
    of zero are outside the model (a zero divisor is taken as +0); every
    other behaviour of the arithmetic and of the comparisons, including the
    propagation of NaN and of the infinities, is written out.
    [getClosestAspectRatio] compares differences that the subtraction has
    rounded, so it alone is written over the binary64 numbers of
    [PrimFloat]. *)

From Stdlib Require Import QArith Qabs Qround ZArith List String Ascii Bool Lia Lqa.
From Stdlib Require Import Permutation.
From Stdlib Require DecimalString.
From Stdlib Require Floats.
Import ListNotations.
Local Open Scope Q_scope.

(** A decimal literal such as 1.33 denotes the nearest binary64 number, in
    JavaScript as in [PrimFloat]. *)
Set Warnings "-inexact-float".

(* ================================================================== *)
(** ** JavaScript numbers *)

Module Num.

Inductive num : Type :=
| Fin (q : Q)
| PInf
| NInf
| NaN.

(** [Number.MAX_VALUE] = (2^53 - 1) * 2^971. *)
Definition MAX_Q : Q := inject_Z ((2 ^ 53 - 1) * 2 ^ 971).
Definition MAX_VALUE : num := Fin MAX_Q.

Definition Qltb (a b : Q) : bool := negb (Qle_bool b a).

(** Sign of a rational as a comparison with zero. *)
Definition Qsgn (a : Q) : comparison := (Qnum a ?= 0)%Z.

Definition neg (a : num) : num :=
  match a with
  | Fin x => Fin (- x)
  | PInf => NInf
  | NInf => PInf
  | NaN => NaN
  end.

Definition add (a b : num) : num :=
  match a, b with
  | NaN, _ | _, NaN => NaN
  | Fin x, Fin y => Fin (x + y)
  | PInf, NInf | NInf, PInf => NaN
  | PInf, _ | _, PInf => PInf
  | NInf, _ | _, NInf => NInf
  end.

Definition sub (a b : num) : num := add a (neg b).

(** An infinity scaled by a factor of the given sign. *)
Definition scale_inf (pos : bool) (s : comparison) : num :=
  match s with
  | Eq => NaN
  | Gt => if pos then PInf else NInf
  | Lt => if pos then NInf else PInf
  end.

Definition sgn (a : num) : comparison :=
  match a with
  | Fin x => Qsgn x
  | PInf => Gt
  | NInf => Lt
  | NaN => Eq
  end.

Definition mul (a b : num) : num :=
  match a, b with
  | NaN, _ | _, NaN => NaN
  | Fin x, Fin y => Fin (x * y)
  | PInf, _ => scale_inf true (sgn b)
  | NInf, _ => scale_inf false (sgn b)
  | _, PInf => scale_inf true (sgn a)
  | _, NInf => scale_inf false (sgn a)
  end.

(** Division; a zero divisor counts as +0. *)
Definition div (a b : num) : num :=
  match a, b with
  | NaN, _ | _, NaN => NaN
  | Fin x, Fin y =>
      match Qsgn y with
      | Eq => match Qsgn x with Eq => NaN | Gt => PInf | Lt => NInf end
      | _ => Fin (x / y)
      end
  | Fin _, (PInf | NInf) => Fin 0
  | (PInf | NInf), (PInf | NInf) => NaN
  | PInf, Fin y => match Qsgn y with Lt => NInf | _ => PInf end
  | NInf, Fin y => match Qsgn y with Lt => PInf | _ => NInf end
  end.

(** [Math.abs]. *)
Definition abs (a : num) : num :=
  match a with
  | Fin x => Fin (Qabs x)
  | PInf | NInf => PInf
  | NaN => NaN
  end.

(** [a < b]; false as soon as one side is NaN. *)
Definition ltb (a b : num) : bool :=
  match a, b with
  | NaN, _ | _, NaN => false
  | Fin x, Fin y => Qltb x y
  | _, NInf => false
  | NInf, _ => true
  | PInf, _ => false
  | Fin _, PInf => true
  end.

(** [a === b] on numbers. *)
Definition eqb (a b : num) : bool :=
  match a, b with
  | Fin x, Fin y => Qeq_bool x y
  | PInf, PInf | NInf, NInf => true
  | _, _ => false
  end.

Definition gtb (a b : num) : bool := ltb b a.
Definition leb (a b : num) : bool := ltb a b || eqb a b.
Definition geb (a b : num) : bool := leb b a.

(** [Math.max] and [Math.min] of two arguments: NaN if either is NaN. *)
Definition max (a b : num) : num :=
  match a, b with
  | NaN, _ | _, NaN => NaN
  | _, _ => if ltb a b then b else a
  end.

Definition min (a b : num) : num :=
  match a, b with
  | NaN, _ | _, NaN => NaN
  | _, _ => if ltb b a then b else a
  end.

(** Truthiness of a number: 0 and NaN are falsy. *)
Definition truthy (a : num) : bool :=
  match a with
  | Fin x => negb (Qeq_bool x 0)
  | PInf | NInf => true
  | NaN => false
  end.

Definition is_fin (a : num) : bool :=
  match a with Fin _ => true | _ => false end.

(** Equality of numbers as values: rationals are compared by [Qeq]. *)
Definition eqv (a b : num) : Prop :=
  match a, b with
  | Fin x, Fin y => x == y
  | PInf, PInf | NInf, NInf | NaN, NaN => True
  | _, _ => False
  end.

End Num.

Import Num.
Declare Scope num_scope.
Delimit Scope num_scope with num.
Notation "a +' b" := (Num.add a b) (at level 50, left associativity) : num_scope.
Notation "a -' b" := (Num.sub a b) (at level 50, left associativity) : num_scope.
Notation "a *' b" := (Num.mul a b) (at level 40, left associativity) : num_scope.
Notation "a /' b" := (Num.div a b) (at level 40, left associativity) : num_scope.
Notation "a <? b" := (Num.ltb a b) (at level 70) : num_scope.
Notation "a >? b" := (Num.gtb a b) (at level 70) : num_scope.
Notation "a <=? b" := (Num.leb a b) (at level 70) : num_scope.
Notation "a >=? b" := (Num.geb a b) (at level 70) : num_scope.
Notation "a =? b" := (Num.eqb a b) (at level 70) : num_scope.
Notation "a ~= b" := (Num.eqv a b) (at level 70) : num_scope.

Local Open Scope string_scope.
Local Open Scope num_scope.

(* ================================================================== *)
(** ** Data model (types.ts) *)

Inductive ToolType := select | eraser | move | hand | decor.

Inductive ModelType := NANO_BANANA_1 | NANO_BANANA_2 | KLING_PRO.

Inductive LayerType := image | generation | video.

Inductive RenderMode := cover | fill.

Module Point.
Record t := mk { x : num; y : num }.

Definition finite (p : t) : bool := Num.is_fin (x p) && Num.is_fin (y p).

(** The same point, coordinates compared as values. *)
Definition eqv (p q : t) : Prop := Num.eqv (x p) (x q) /\ Num.eqv (y p) (y q).
End Point.

(** The selection rectangle [{x, y, w, h}], in world units. *)
Module Rect.
Record t := mk { x : num; y : num; w : num; h : num }.

Definition finite (r : t) : bool :=
  Num.is_fin (x r) && Num.is_fin (y r) && Num.is_fin (w r) && Num.is_fin (h r).
End Rect.

Module Resolution.
Record t := mk { w : num; h : num; ratio : num; label : option string }.

(** An entry of the resolution table as the application declares them: its
    ratio is a positive number below [Number.MAX_VALUE]. *)
Definition positive (r : t) : bool :=
  Num.ltb (Fin 0) (ratio r) && Num.ltb (ratio r) Num.MAX_VALUE.
End Resolution.

Module DecorData.
Record t := mk {
  points : list Point.t;
  label : string;
  color : string;
  fontSize : num }.
End DecorData.

Module Layer.
Record t := mk {
  id : string;
  name : string;
  visible : bool;
  locked : bool;
  type : LayerType;
  src : option string;
  thumbnail : option string;
  x : num;
  y : num;
  width : num;
  height : num;
  initialX : option num;
  initialY : option num;
  initialWidth : option num;
  initialHeight : option num;
  feather : option num;
  renderMode : option RenderMode;
  isPlaying : option bool;
  decorData : option DecorData.t }.

(** [{ ...l, x: newX, y: newY }] *)
Definition with_xy (l : t) (newX newY : num) : t :=
  mk (id l) (name l) (visible l) (locked l) (type l) (src l) (thumbnail l)
     newX newY (width l) (height l)
     (initialX l) (initialY l) (initialWidth l) (initialHeight l)
     (feather l) (renderMode l) (isPlaying l) (decorData l).
End Layer.

Module Shot.
Record t := mk { prompt : string; duration : string }.
End Shot.

Module Scene.
Record t := mk {
  id : string;
  startFrame : option string;
  endFrame : option string;
  shots : list Shot.t;
  videos : list string;
  selectedVideoIndex : Z;
  isGenerating : bool;
  variationCount : nat }.
End Scene.

(* ================================================================== *)
(** ** Strings: the String.prototype methods the handlers use *)

Module Str.

Definition byte_in (lo hi : nat) (c : ascii) : bool :=
  (lo <=? nat_of_ascii c)%nat && (nat_of_ascii c <=? hi)%nat.

Definition shift_byte (c : ascii) (d : nat) : ascii :=
  ascii_of_nat (nat_of_ascii c + d).

(** [toLowerCase] on UTF-8 text: the ASCII letters, and the capital letters
    of the Latin-1 supplement (lead byte 0xC3, second byte 0x80..0x9E
    without the multiplication sign 0x97).  Other scripts are left as they
    are. *)
Fixpoint toLowerCase (s : string) : string :=
  match s with
  | EmptyString => EmptyString
  | String c rest =>
      if byte_in 65 90 c then String (shift_byte c 32) (toLowerCase rest)
      else if (nat_of_ascii c =? 195)%nat then
        match rest with
        | String d rest' =>
            if byte_in 128 158 d && negb (nat_of_ascii d =? 151)%nat
            then String c (String (shift_byte d 32) (toLowerCase rest'))
            else String c (String d (toLowerCase rest'))
        | EmptyString => String c EmptyString
        end
      else String c (toLowerCase rest)
  end.

(** [s.startsWith(p)] *)
Fixpoint startsWith (p s : string) : bool :=
  match p, s with
  | EmptyString, _ => true
  | String a p', String b s' => Ascii.eqb a b && startsWith p' s'
  | String _ _, EmptyString => false
  end.

(** [s.includes(p)] *)
Fixpoint includes (p s : string) : bool :=
  startsWith p s ||
  match s with
  | EmptyString => false
  | String _ s' => includes p s'
  end.

(** White space and line terminators as [trim] and [parseInt] skip them,
    in UTF-8.  One byte: U+0009..U+000D and U+0020. *)
Definition is_space (c : ascii) : bool :=
  let n := nat_of_ascii c in
  (n =? 32)%nat || ((9 <=? n)%nat && (n <=? 13)%nat).

(** Two bytes: U+00A0 (C2 A0). *)
Definition is_space2 (a b : ascii) : bool :=
  (nat_of_ascii a =? 194)%nat && (nat_of_ascii b =? 160)%nat.

(** Three bytes: U+1680 (E1 9A 80), U+2000..U+200A, U+2028, U+2029 and
    U+202F (E2 80 80..8A, A8, A9, AF), U+205F (E2 81 9F), U+3000 (E3 80 80)
    and U+FEFF (EF BB BF). *)
Definition is_space3 (a b c : ascii) : bool :=
  let a := nat_of_ascii a in
  let b := nat_of_ascii b in
  let c := nat_of_ascii c in
  ((a =? 225) && (b =? 154) && (c =? 128))%nat
  || ((a =? 226) && (b =? 128)
      && (((128 <=? c) && (c <=? 138)) || (c =? 168) || (c =? 169) || (c =? 175)))%nat
  || ((a =? 226) && (b =? 129) && (c =? 159))%nat
  || ((a =? 227) && (b =? 128) && (c =? 128))%nat
  || ((a =? 239) && (b =? 187) && (c =? 191))%nat.

Fixpoint trimStart (s : string) : string :=
  match s with
  | EmptyString => EmptyString
  | String a r1 =>
      if is_space a then trimStart r1
      else
        match r1 with
        | EmptyString => s
        | String b r2 =>
            if is_space2 a b then trimStart r2
            else
              match r2 with
              | EmptyString => s
              | String c r3 => if is_space3 a b c then trimStart r3 else s
              end
        end
  end.

(** [s.trim().length > 0]: some character is not white space. *)
Definition trim_nonempty (s : string) : bool :=
  match trimStart s with
  | EmptyString => false
  | String _ _ => true
  end.

Definition digit_val (c : ascii) : option Z :=
  if byte_in 48 57 c then Some (Z.of_nat (nat_of_ascii c) - 48)%Z else None.

Definition hex_val (c : ascii) : option Z :=
  if byte_in 48 57 c then Some (Z.of_nat (nat_of_ascii c) - 48)%Z
  else if byte_in 97 102 c then Some (Z.of_nat (nat_of_ascii c) - 87)%Z
  else if byte_in 65 70 c then Some (Z.of_nat (nat_of_ascii c) - 55)%Z
  else None.

(** The longest prefix of digits in the given radix, as a number; [None]
    when there is no digit. *)
Fixpoint digits (dv : ascii -> option Z) (radix : Z) (acc : option Z) (s : string)
  : option Z :=
  match s with
  | EmptyString => acc
  | String c rest =>
      match dv c with
      | Some d =>
          digits dv radix
            (Some (match acc with Some a => a * radix + d | None => d end)%Z) rest
      | None => acc
      end
  end.

Definition is_x (c : ascii) : bool :=
  (nat_of_ascii c =? 120)%nat || (nat_of_ascii c =? 88)%nat.

Definition unsigned_int (s : string) : option Z :=
  match s with
  | String z (String x rest) =>
      if (nat_of_ascii z =? 48)%nat && is_x x
      then digits hex_val 16 None rest
      else digits digit_val 10 None s
  | _ => digits digit_val 10 None s
  end.

(** [parseInt(s)] without a radix; [None] is NaN. *)
Definition parseInt (s : string) : option Z :=
  match trimStart s with
  | String c rest =>
      if (nat_of_ascii c =? 45)%nat then option_map Z.opp (unsigned_int rest)
      else if (nat_of_ascii c =? 43)%nat then unsigned_int rest
      else unsigned_int (String c rest)
  | EmptyString => None
  end.

Fixpoint mem (a : string) (l : list string) : bool :=
  match l with
  | [] => false
  | b :: l' => String.eqb a b || mem a l'
  end.

(** The high surrogate of the character that the four bytes encode,
    written in three bytes as WTF-8 writes a lone surrogate. *)
Definition highSurrogate (a b c d : ascii) : string :=
  let cp := ((N_of_ascii a mod 8) * 262144 + (N_of_ascii b mod 64) * 4096
             + (N_of_ascii c mod 64) * 64 + N_of_ascii d mod 64)%N in
  let hi := (55296 + (cp - 65536) / 1024)%N in
  String (ascii_of_N (224 + hi / 4096))
    (String (ascii_of_N (128 + (hi / 64) mod 64))
       (String (ascii_of_N (128 + hi mod 64)) EmptyString)).

(** [s.slice(0, n)]: the first [n] UTF-16 code units of UTF-8 text.  A
    character of one to three bytes is one code unit and a character of four
    bytes is a surrogate pair; a pair cut in two leaves its high
    surrogate. *)
Fixpoint sliceTo (n : nat) (s : string) : string :=
  match n, s with
  | O, _ => EmptyString
  | _, EmptyString => EmptyString
  | S n', String a r1 =>
      if (nat_of_ascii a <? 192)%nat then String a (sliceTo n' r1)
      else if (nat_of_ascii a <? 224)%nat then
        match r1 with
        | String b r2 => String a (String b (sliceTo n' r2))
        | _ => s
        end
      else if (nat_of_ascii a <? 240)%nat then
        match r1 with
        | String b (String c r3) => String a (String b (String c (sliceTo n' r3)))
        | _ => s
        end
      else
        match r1 with
        | String b (String c (String d r4)) =>
            match n' with
            | O => highSurrogate a b c d
            | S n'' => String a (String b (String c (String d (sliceTo n'' r4))))
            end
        | _ => s
        end
  end.

End Str.

(* ================================================================== *)
(** ** The layer store shared by the hooks of CanvasMode

    [layers] is the state of the parent component; [redoStack],
    [selectedLayerIds] and [showLayerMenuMobile] are the state of
    [useCanvasLayers], whose setters are handed to the other hooks. *)

Module Store.
Record t := mk {
  layers : list Layer.t;
  redoStack : list Layer.t;
  selectedLayerIds : list string;
  showLayerMenuMobile : bool }.

Definition setLayers (v : list Layer.t) (s : t) : t :=
  mk v (redoStack s) (selectedLayerIds s) (showLayerMenuMobile s).
Definition setRedoStack (v : list Layer.t) (s : t) : t :=
  mk (layers s) v (selectedLayerIds s) (showLayerMenuMobile s).
Definition setSelectedLayerIds (v : list string) (s : t) : t :=
  mk (layers s) (redoStack s) v (showLayerMenuMobile s).
Definition setShowLayerMenuMobile (v : bool) (s : t) : t :=
  mk (layers s) (redoStack s) (selectedLayerIds s) v.
End Store.

(* ================================================================== *)
(** ** useCanvasLayers (undo, redo, delete) *)

Module Layers.
Import Store.

Definition id_neqb (a b : string) : bool := negb (String.eqb a b).

Definition handleUndo (s : Store.t) : Store.t :=
  match layers s with
  | [] => s
  | removed :: remaining =>
      let s1 := setLayers remaining s in
      let s2 := setRedoStack (removed :: redoStack s1) s1 in
      if Str.mem (Layer.id removed) (selectedLayerIds s)
      then setShowLayerMenuMobile false
             (setSelectedLayerIds
                (filter (fun x => id_neqb x (Layer.id removed)) (selectedLayerIds s2)) s2)
      else s2
  end.

Definition handleRedo (s : Store.t) : Store.t :=
  match redoStack s with
  | [] => s
  | restored :: remainingStack =>
      let s1 := setRedoStack remainingStack s in
      let s2 := setLayers (restored :: layers s1) s1 in
      setSelectedLayerIds [Layer.id restored] s2
  end.

Definition handleDeleteLayer (id : string) (s : Store.t) : Store.t :=
  let s1 := setLayers (filter (fun l => id_neqb (Layer.id l) id) (layers s)) s in
  let s2 :=
    if Str.mem id (selectedLayerIds s)
    then setShowLayerMenuMobile false
           (setSelectedLayerIds (filter (fun x => id_neqb x id) (selectedLayerIds s1)) s1)
    else s1 in
  setRedoStack [] s2.

(** [prev.findIndex(l => l.id === id)]; [None] stands for -1. *)
Fixpoint findIndex (id : string) (ls : list Layer.t) : option nat :=
  match ls with
  | [] => None
  | l :: rest =>
      if String.eqb (Layer.id l) id then Some 0%nat
      else option_map S (findIndex id rest)
  end.

(** [a[i] = v] for an index inside the array; the handlers never write
    outside it. *)
Fixpoint assign (i : nat) (v : Layer.t) (ls : list Layer.t) : list Layer.t :=
  match ls, i with
  | [], _ => []
  | _ :: rest, O => v :: rest
  | x :: rest, S i' => x :: assign i' v rest
  end.

(** [const temp = a[i]; a[i] = a[j]; a[j] = temp] on a copy of the array. *)
Definition exchange (i j : nat) (ls : list Layer.t) : list Layer.t :=
  match nth_error ls i, nth_error ls j with
  | Some temp, Some other => assign j temp (assign i other ls)
  | _, _ => ls
  end.

Inductive Direction := up | down.

Definition handleMoveLayer (id : string) (direction : Direction) (s : Store.t) : Store.t :=
  let prev := layers s in
  setLayers
    (match findIndex id prev with
     | None => prev
     | Some index =>
         match direction with
         | up =>
             if Nat.eqb index 0 then prev
             else exchange index (index - 1) prev
         | down =>
             if Nat.eqb index (List.length prev - 1) then prev
             else exchange index (index + 1) prev
         end
     end) s.

(** The updater of [handleReorderLayers], for indices that are natural
    numbers.  The entries of the array it returns are optional: [None] is
    the [undefined] that the second [splice] inserts when the first one,
    called past the end, removed nothing. *)
Definition handleReorderLayers (fromIndex toIndex : nat) (prev : list Layer.t)
  : list (option Layer.t) :=
  let newLayers := map Some prev in
  let movedItem := match nth_error newLayers fromIndex with
                   | Some item => item
                   | None => None
                   end in
  let newLayers := (firstn fromIndex newLayers ++ skipn (S fromIndex) newLayers)%list in
  (firstn toIndex newLayers ++ movedItem :: skipn toIndex newLayers)%list.

(** A number field read through [!] while it is [undefined]: every later
    arithmetic and comparison takes it as NaN. *)
Definition unwrap (v : option num) : num :=
  match v with
  | Some n => n
  | None => NaN
  end.

Definition handleResetLayer (s : Store.t) : Store.t :=
  match selectedLayerIds s with
  | [] => s
  | _ :: _ =>
      setLayers
        (map (fun l =>
                match Layer.initialX l with
                | Some initialX =>
                    if Str.mem (Layer.id l) (selectedLayerIds s) then
                      Layer.mk (Layer.id l) (Layer.name l) (Layer.visible l) (Layer.locked l)
                        (Layer.type l) (Layer.src l) (Layer.thumbnail l)
                        initialX (unwrap (Layer.initialY l))
                        (unwrap (Layer.initialWidth l)) (unwrap (Layer.initialHeight l))
                        (Layer.initialX l) (Layer.initialY l)
                        (Layer.initialWidth l) (Layer.initialHeight l)
                        (Layer.feather l) (Layer.renderMode l) (Layer.isPlaying l)
                        (Layer.decorData l)
                    else l
                | None => l
                end)
             (layers s)) s
  end.

Definition handleMobileLayerSelect (id : string) (s : Store.t) : Store.t :=
  match selectedLayerIds s with
  | [only] =>
      if String.eqb only id
      then setShowLayerMenuMobile (negb (showLayerMenuMobile s)) s
      else setShowLayerMenuMobile true (setSelectedLayerIds [id] s)
  | _ => setShowLayerMenuMobile true (setSelectedLayerIds [id] s)
  end.

(** [[...new Set(l)]]: the entries in the order of their first occurrence;
    [seen] holds the entries met so far. *)
Fixpoint unique (seen l : list string) : list string :=
  match l with
  | [] => []
  | x :: rest =>
      if Str.mem x seen then unique seen rest else x :: unique (x :: seen) rest
  end.

(** [a.slice(start, stop)] for natural indices. *)
Definition slice {A : Type} (start stop : nat) (l : list A) : list A :=
  firstn (stop - start) (skipn start l).

(** [handleLayerSelect(id, e)], from the three modifier keys of the event. *)
Definition handleLayerSelect (id : string) (ctrlKey metaKey shiftKey : bool) (s : Store.t)
  : Store.t :=
  if ctrlKey || metaKey then
    setSelectedLayerIds
      (if Str.mem id (selectedLayerIds s)
       then filter (fun x => id_neqb x id) (selectedLayerIds s)
       else (selectedLayerIds s ++ [id])%list) s
  else if shiftKey then
    let lastIdx :=
      match rev (selectedLayerIds s) with
      | lastId :: _ => findIndex lastId (layers s)
      | [] => None
      end in
    let currIdx := findIndex id (layers s) in
    match lastIdx, currIdx with
    | Some lastIdx, Some currIdx =>
        let start := Nat.min lastIdx currIdx in
        let stop := Nat.max lastIdx currIdx in
        let rangeIds := map Layer.id (slice start (stop + 1) (layers s)) in
        setSelectedLayerIds (unique [] (selectedLayerIds s ++ rangeIds)%list) s
    | _, _ => setSelectedLayerIds [id] s
    end
  else setSelectedLayerIds [id] s.

End Layers.

(* ================================================================== *)
(** ** useCanvasInteraction *)

Module Interaction.

Inductive Axis := horizontal | vertical.

(** The props of the hook that the handlers read. *)
Record Props := mkProps {
  selectedTool : ToolType;
  availableResolutions : list Resolution.t;
  isGenerating : bool }.

(** [useState] cells first, then the [useRef] cells. *)
Record t := mk {
  selection : option Rect.t;
  isDragging : bool;
  dragStart : option Point.t;
  draggingLayerId : option string;
  layerDragOffset : option Point.t;
  zoom : num;
  canvasOffset : Point.t;
  isMiddlePanning : bool;
  dragStartRef : option Point.t;
  isDraggingRef : bool;
  isDraggingLayerRef : bool;
  isDraggingSelectionRef : bool;
  selectionDragStartRef : option Point.t;
  initialSelectionPosRef : option Point.t;
  dragAxisRef : option Axis;
  lastTouchDist : option num;
  lastTouchCenter : option Point.t }.

Definition setSelection v (s : t) : t :=
  mk v (isDragging s) (dragStart s) (draggingLayerId s) (layerDragOffset s) (zoom s)
     (canvasOffset s) (isMiddlePanning s) (dragStartRef s) (isDraggingRef s)
     (isDraggingLayerRef s) (isDraggingSelectionRef s) (selectionDragStartRef s)
     (initialSelectionPosRef s) (dragAxisRef s) (lastTouchDist s) (lastTouchCenter s).
Definition setIsDragging v (s : t) : t :=
  mk (selection s) v (dragStart s) (draggingLayerId s) (layerDragOffset s) (zoom s)
     (canvasOffset s) (isMiddlePanning s) (dragStartRef s) (isDraggingRef s)
     (isDraggingLayerRef s) (isDraggingSelectionRef s) (selectionDragStartRef s)
     (initialSelectionPosRef s) (dragAxisRef s) (lastTouchDist s) (lastTouchCenter s).
Definition setDragStart v (s : t) : t :=
  mk (selection s) (isDragging s) v (draggingLayerId s) (layerDragOffset s) (zoom s)
     (canvasOffset s) (isMiddlePanning s) (dragStartRef s) (isDraggingRef s)
     (isDraggingLayerRef s) (isDraggingSelectionRef s) (selectionDragStartRef s)
     (initialSelectionPosRef s) (dragAxisRef s) (lastTouchDist s) (lastTouchCenter s).
Definition setDraggingLayerId v (s : t) : t :=
  mk (selection s) (isDragging s) (dragStart s) v (layerDragOffset s) (zoom s)
     (canvasOffset s) (isMiddlePanning s) (dragStartRef s) (isDraggingRef s)
     (isDraggingLayerRef s) (isDraggingSelectionRef s) (selectionDragStartRef s)
     (initialSelectionPosRef s) (dragAxisRef s) (lastTouchDist s) (lastTouchCenter s).
Definition setLayerDragOffset v (s : t) : t :=
  mk (selection s) (isDragging s) (dragStart s) (draggingLayerId s) v (zoom s)
     (canvasOffset s) (isMiddlePanning s) (dragStartRef s) (isDraggingRef s)
     (isDraggingLayerRef s) (isDraggingSelectionRef s) (selectionDragStartRef s)
     (initialSelectionPosRef s) (dragAxisRef s) (lastTouchDist s) (lastTouchCenter s).
Definition setZoom v (s : t) : t :=
  mk (selection s) (isDragging s) (dragStart s) (draggingLayerId s) (layerDragOffset s) v
     (canvasOffset s) (isMiddlePanning s) (dragStartRef s) (isDraggingRef s)
     (isDraggingLayerRef s) (isDraggingSelectionRef s) (selectionDragStartRef s)
     (initialSelectionPosRef s) (dragAxisRef s) (lastTouchDist s) (lastTouchCenter s).
Definition setCanvasOffset v (s : t) : t :=
  mk (selection s) (isDragging s) (dragStart s) (draggingLayerId s) (layerDragOffset s)
     (zoom s) v (isMiddlePanning s) (dragStartRef s) (isDraggingRef s)
     (isDraggingLayerRef s) (isDraggingSelectionRef s) (selectionDragStartRef s)
     (initialSelectionPosRef s) (dragAxisRef s) (lastTouchDist s) (lastTouchCenter s).
Definition set_isMiddlePanning v (s : t) : t :=
  mk (selection s) (isDragging s) (dragStart s) (draggingLayerId s) (layerDragOffset s)
     (zoom s) (canvasOffset s) v (dragStartRef s) (isDraggingRef s)
     (isDraggingLayerRef s) (isDraggingSelectionRef s) (selectionDragStartRef s)
     (initialSelectionPosRef s) (dragAxisRef s) (lastTouchDist s) (lastTouchCenter s).
Definition set_dragStartRef v (s : t) : t :=
  mk (selection s) (isDragging s) (dragStart s) (draggingLayerId s) (layerDragOffset s)
     (zoom s) (canvasOffset s) (isMiddlePanning s) v (isDraggingRef s)
     (isDraggingLayerRef s) (isDraggingSelectionRef s) (selectionDragStartRef s)
     (initialSelectionPosRef s) (dragAxisRef s) (lastTouchDist s) (lastTouchCenter s).
Definition set_isDraggingRef v (s : t) : t :=
  mk (selection s) (isDragging s) (dragStart s) (draggingLayerId s) (layerDragOffset s)
     (zoom s) (canvasOffset s) (isMiddlePanning s) (dragStartRef s) v
     (isDraggingLayerRef s) (isDraggingSelectionRef s) (selectionDragStartRef s)
     (initialSelectionPosRef s) (dragAxisRef s) (lastTouchDist s) (lastTouchCenter s).
Definition set_isDraggingLayerRef v (s : t) : t :=
  mk (selection s) (isDragging s) (dragStart s) (draggingLayerId s) (layerDragOffset s)
     (zoom s) (canvasOffset s) (isMiddlePanning s) (dragStartRef s) (isDraggingRef s)
     v (isDraggingSelectionRef s) (selectionDragStartRef s)
     (initialSelectionPosRef s) (dragAxisRef s) (lastTouchDist s) (lastTouchCenter s).
Definition set_isDraggingSelectionRef v (s : t) : t :=
  mk (selection s) (isDragging s) (dragStart s) (draggingLayerId s) (layerDragOffset s)
     (zoom s) (canvasOffset s) (isMiddlePanning s) (dragStartRef s) (isDraggingRef s)
     (isDraggingLayerRef s) v (selectionDragStartRef s)
     (initialSelectionPosRef s) (dragAxisRef s) (lastTouchDist s) (lastTouchCenter s).
Definition set_selectionDragStartRef v (s : t) : t :=
  mk (selection s) (isDragging s) (dragStart s) (draggingLayerId s) (layerDragOffset s)
     (zoom s) (canvasOffset s) (isMiddlePanning s) (dragStartRef s) (isDraggingRef s)
     (isDraggingLayerRef s) (isDraggingSelectionRef s) v
     (initialSelectionPosRef s) (dragAxisRef s) (lastTouchDist s) (lastTouchCenter s).
Definition set_initialSelectionPosRef v (s : t) : t :=
  mk (selection s) (isDragging s) (dragStart s) (draggingLayerId s) (layerDragOffset s)
     (zoom s) (canvasOffset s) (isMiddlePanning s) (dragStartRef s) (isDraggingRef s)
     (isDraggingLayerRef s) (isDraggingSelectionRef s) (selectionDragStartRef s)
     v (dragAxisRef s) (lastTouchDist s) (lastTouchCenter s).
Definition set_dragAxisRef v (s : t) : t :=
  mk (selection s) (isDragging s) (dragStart s) (draggingLayerId s) (layerDragOffset s)
     (zoom s) (canvasOffset s) (isMiddlePanning s) (dragStartRef s) (isDraggingRef s)
     (isDraggingLayerRef s) (isDraggingSelectionRef s) (selectionDragStartRef s)
     (initialSelectionPosRef s) v (lastTouchDist s) (lastTouchCenter s).
Definition set_lastTouchDist v (s : t) : t :=
  mk (selection s) (isDragging s) (dragStart s) (draggingLayerId s) (layerDragOffset s)
     (zoom s) (canvasOffset s) (isMiddlePanning s) (dragStartRef s) (isDraggingRef s)
     (isDraggingLayerRef s) (isDraggingSelectionRef s) (selectionDragStartRef s)
     (initialSelectionPosRef s) (dragAxisRef s) v (lastTouchCenter s).
Definition set_lastTouchCenter v (s : t) : t :=
  mk (selection s) (isDragging s) (dragStart s) (draggingLayerId s) (layerDragOffset s)
     (zoom s) (canvasOffset s) (isMiddlePanning s) (dragStartRef s) (isDraggingRef s)
     (isDraggingLayerRef s) (isDraggingSelectionRef s) (selectionDragStartRef s)
     (initialSelectionPosRef s) (dragAxisRef s) (lastTouchDist s) v.

(** The hit test of the move and eraser tools:
    [x >= l.x && x <= l.x + l.width && y >= l.y && y <= l.y + l.height
     && l.visible && !l.locked]. *)
Definition hit (x y : num) (l : Layer.t) : bool :=
  (x >=? Layer.x l) && (x <=? Layer.x l +' Layer.width l) &&
  (y >=? Layer.y l) && (y <=? Layer.y l +' Layer.height l) &&
  Layer.visible l && negb (Layer.locked l).

(** [[...layersRef.current].reverse().find(hit)] *)
Definition clickedLayer (x y : num) (layers : list Layer.t) : option Layer.t :=
  find (hit x y) (rev layers).

(** [canvasRef] is [None] while the canvas element is not mounted, and
    otherwise holds the [left] and [top] of its bounding client rectangle. *)
Definition handleStart (p : Props) (canvasRef : option Point.t)
    (clientX clientY : num) (button : Z) (s : t) (st : Store.t) : t * Store.t :=
  match canvasRef with
  | None => (s, st)
  | Some rect =>
    if zoom s <=? Fin (1 # 1000) then (s, st)
    else if isGenerating p then (s, st)
    else
      let st :=
        if Store.showLayerMenuMobile st then Store.setShowLayerMenuMobile false st
        else st in
      if (button =? 1)%Z then
        (setDragStart (Some (Point.mk clientX clientY))
           (set_dragStartRef (Some (Point.mk clientX clientY))
              (setIsDragging true (set_isDraggingRef true (set_isMiddlePanning true s)))),
         st)
      else
        let x := (clientX -' Point.x rect -' Point.x (canvasOffset s)) /' zoom s in
        let y := (clientY -' Point.y rect -' Point.y (canvasOffset s)) /' zoom s in
        match selectedTool p with
        | select =>
            let inside :=
              match selection s with
              | Some sel =>
                  (x >=? Rect.x sel) && (x <=? Rect.x sel +' Rect.w sel) &&
                  (y >=? Rect.y sel) && (y <=? Rect.y sel +' Rect.h sel)
              | None => false
              end in
            match selection s with
            | Some sel =>
                if inside then
                  (set_dragAxisRef None
                     (set_initialSelectionPosRef (Some (Point.mk (Rect.x sel) (Rect.y sel)))
                        (set_selectionDragStartRef (Some (Point.mk x y))
                           (set_isDraggingSelectionRef true s))), st)
                else
                  (setSelection None
                     (setDragStart (Some (Point.mk x y))
                        (set_dragStartRef (Some (Point.mk x y))
                           (setIsDragging true (set_isDraggingRef true s)))), st)
            | None =>
                (setSelection None
                   (setDragStart (Some (Point.mk x y))
                      (set_dragStartRef (Some (Point.mk x y))
                         (setIsDragging true (set_isDraggingRef true s)))), st)
            end
        | hand =>
            (setDragStart (Some (Point.mk clientX clientY))
               (set_dragStartRef (Some (Point.mk clientX clientY))
                  (setIsDragging true (set_isDraggingRef true s))), st)
        | move =>
            match clickedLayer x y (Store.layers st) with
            | Some l =>
                (setLayerDragOffset
                   (Some (Point.mk (x -' Layer.x l) (y -' Layer.y l)))
                   (setDraggingLayerId (Some (Layer.id l))
                      (set_isDraggingLayerRef true s)),
                 Store.setSelectedLayerIds [Layer.id l] st)
            | None => (s, st)
            end
        | eraser =>
            match clickedLayer x y (Store.layers st) with
            | Some l =>
                (s, Store.setRedoStack []
                      (Store.setLayers
                         (filter (fun l' => Layers.id_neqb (Layer.id l') (Layer.id l))
                                 (Store.layers st)) st))
            | None => (s, st)
            end
        | decor => (s, st)
        end
  end.

(** "Handle Layer Dragging"; [None] when the branch is not taken.
    A string is truthy when it is not empty. *)
Definition handleMove_layerDrag (p : Props) (canvasRef : option Point.t)
    (clientX clientY : num) (s : t) (st : Store.t) : option Store.t :=
  match selectedTool p, isDraggingLayerRef s, draggingLayerId s,
        layerDragOffset s, canvasRef with
  | move, true, Some id, Some off, Some rect =>
      if String.eqb id "" then None
      else
        let currentX := (clientX -' Point.x rect -' Point.x (canvasOffset s)) /' zoom s in
        let currentY := (clientY -' Point.y rect -' Point.y (canvasOffset s)) /' zoom s in
        let newX := currentX -' Point.x off in
        let newY := currentY -' Point.y off in
        Some (Store.setLayers
                (map (fun l => if String.eqb (Layer.id l) id
                               then Layer.with_xy l newX newY else l)
                     (Store.layers st)) st)
  | _, _, _, _, _ => None
  end.

(** "Handle Selection Dragging (Restricted Axis)"; [None] when the branch
    is not taken. *)
Definition handleMove_selectionDrag (canvasRef : option Point.t)
    (clientX clientY : num) (s : t) : option t :=
  match isDraggingSelectionRef s, selectionDragStartRef s,
        initialSelectionPosRef s, selection s, canvasRef with
  | true, Some start, Some init, Some _, Some rect =>
      let currentX := (clientX -' Point.x rect -' Point.x (canvasOffset s)) /' zoom s in
      let currentY := (clientY -' Point.y rect -' Point.y (canvasOffset s)) /' zoom s in
      let dx := currentX -' Point.x start in
      let dy := currentY -' Point.y start in
      let s1 :=
        match dragAxisRef s with
        | None =>
            let threshold := Fin 5 in
            if (Num.abs dx >? threshold) || (Num.abs dy >? threshold)
            then set_dragAxisRef
                   (Some (if Num.abs dx >? Num.abs dy then horizontal else vertical)) s
            else s
        | Some _ => s
        end in
      match dragAxisRef s1 with
      | Some axis =>
          let newX := match axis with
                      | horizontal => Point.x init +' dx
                      | vertical => Point.x init
                      end in
          let newY := match axis with
                      | horizontal => Point.y init
                      | vertical => Point.y init +' dy
                      end in
          Some (setSelection
                  (match selection s1 with
                   | Some prev => Some (Rect.mk newX newY (Rect.w prev) (Rect.h prev))
                   | None => None
                   end) s1)
      | None => Some s1
      end
  | _, _, _, _, _ => None
  end.

(** The default entry used when [availableResolutions] is empty. *)
Definition defaultResolution : Resolution.t :=
  Resolution.mk (Fin 1024) (Fin 1024) (Fin 1) None.

(** The [for (const res of resolutions)] loop: the running [(minDiff, bestRes)]. *)
Definition bestResolution (currentRatio : num) (resolutions : list Resolution.t)
  : num * Resolution.t :=
  fold_left
    (fun (acc : num * Resolution.t) res =>
       let diff := Num.abs (Resolution.ratio res -' currentRatio) in
       if diff <? fst acc then (diff, res) else acc)
    resolutions
    (Num.MAX_VALUE, hd defaultResolution resolutions).

(** The select-tool branch of [handleMove], from the world point under the
    pointer and the anchor [dragStartRef.current]. *)
Definition snapSelection (availableResolutions : list Resolution.t)
    (currentX currentY startX startY : num) : Rect.t :=
  let rawW := Num.abs (currentX -' startX) in
  let rawH := Num.abs (currentY -' startY) in
  let resolutions :=
    match availableResolutions with
    | [] => [defaultResolution]
    | _ :: _ => availableResolutions
    end in
  let currentRatio := if rawH =? Fin 0 then Fin 1 else rawW /' rawH in
  let bestRes := snd (bestResolution currentRatio resolutions) in
  let newH := if currentRatio >? Resolution.ratio bestRes
              then rawH else rawW /' Resolution.ratio bestRes in
  let newW := if currentRatio >? Resolution.ratio bestRes
              then rawH *' Resolution.ratio bestRes else rawW in
  let isLeft := currentX <? startX in
  let isUp := currentY <? startY in
  let finalX := if isLeft then startX -' newW else startX in
  let finalY := if isUp then startY -' newH else startY in
  Rect.mk finalX finalY newW newH.

Definition handleMove (p : Props) (canvasRef : option Point.t)
    (clientX clientY : num) (s : t) (st : Store.t) : t * Store.t :=
  match handleMove_layerDrag p canvasRef clientX clientY s st with
  | Some st' => (s, st')
  | None =>
  match handleMove_selectionDrag canvasRef clientX clientY s with
  | Some s' => (s', st)
  | None =>
  match isDraggingRef s, dragStartRef s with
  | true, Some start =>
      if isMiddlePanning s || match selectedTool p with hand => true | _ => false end
      then
        let dx := clientX -' Point.x start in
        let dy := clientY -' Point.y start in
        (set_dragStartRef (Some (Point.mk clientX clientY))
           (setCanvasOffset
              (Point.mk (Point.x (canvasOffset s) +' dx) (Point.y (canvasOffset s) +' dy))
              s), st)
      else
        match selectedTool p, canvasRef with
        | select, Some rect =>
            let currentX := (clientX -' Point.x rect -' Point.x (canvasOffset s)) /' zoom s in
            let currentY := (clientY -' Point.y rect -' Point.y (canvasOffset s)) /' zoom s in
            (setSelection
               (Some (snapSelection (availableResolutions p) currentX currentY
                        (Point.x start) (Point.y start))) s, st)
        | _, _ => (s, st)
        end
  | _, _ => (s, st)
  end end end.

Definition handleEnd (p : Props) (s : t) : t :=
  let s :=
    match selectedTool p with
    | select =>
        setSelection
          (match selection s with
           | Some prev =>
               if (Rect.w prev <? Fin 10) || (Rect.h prev <? Fin 10) then None
               else Some prev
           | None => None
           end) s
    | _ => s
    end in
  set_dragAxisRef None
    (set_initialSelectionPosRef None
       (set_selectionDragStartRef None
          (set_isDraggingSelectionRef false
             (set_lastTouchCenter None
                (set_lastTouchDist None
                   (set_dragStartRef None
                      (setDragStart None
                         (setLayerDragOffset None
                            (setDraggingLayerId None
                               (setIsDragging false
                                  (set_isDraggingLayerRef false
                                     (set_isDraggingRef false
                                        (set_isMiddlePanning false s))))))))))))).

(** The hit test of the double click: locked layers count too. *)
Definition hitVisible (x y : num) (l : Layer.t) : bool :=
  (x >=? Layer.x l) && (x <=? Layer.x l +' Layer.width l) &&
  (y >=? Layer.y l) && (y <=? Layer.y l +' Layer.height l) &&
  Layer.visible l.

Definition handleDoubleClick (canvasRef : option Point.t)
    (clientX clientY : num) (s : t) (st : Store.t) : t * Store.t :=
  match canvasRef with
  | None => (s, st)
  | Some rect =>
      let x := (clientX -' Point.x rect -' Point.x (canvasOffset s)) /' zoom s in
      let y := (clientY -' Point.y rect -' Point.y (canvasOffset s)) /' zoom s in
      match find (hitVisible x y) (rev (Store.layers st)) with
      | Some clickedLayer =>
          (setSelection
             (Some (Rect.mk (Layer.x clickedLayer) (Layer.y clickedLayer)
                      (Layer.width clickedLayer) (Layer.height clickedLayer))) s,
           Store.setSelectedLayerIds [Layer.id clickedLayer] st)
      | None => (s, st)
      end
  end.

Definition CANVAS_SIZE : num := Fin 4000.
Definition INITIAL_VIEWPORT_WIDTH : num := Fin 2500.

(** [initialZoom]; [innerWidth] is [None] where there is no [window]. *)
Definition initialZoom (innerWidth : option num) : num :=
  match innerWidth with
  | Some w => Num.max (Fin (5 # 100)) (w /' INITIAL_VIEWPORT_WIDTH)
  | None => Fin (15 # 100)
  end.

(** The initial value of the [canvasOffset] cell. *)
Definition initialCanvasOffset (innerWidth innerHeight : option num) : Point.t :=
  let zoom0 := initialZoom innerWidth in
  Point.mk
    ((match innerWidth with Some w => w | None => Fin 1920 end) /' Fin 2
       -' (CANVAS_SIZE /' Fin 2) *' zoom0)
    ((match innerHeight with Some h => h | None => Fin 1080 end) /' Fin 2
       -' (CANVAS_SIZE /' Fin 2) *' zoom0).

Section Runtime.

(** [Math.sqrt] and [Math.exp] of the JavaScript runtime. *)
Variable Math_sqrt : num -> num.
Variable Math_exp : num -> num.

Definition getTouchDistance (t0 t1 : Point.t) : num :=
  let dx := Point.x t0 -' Point.x t1 in
  let dy := Point.y t0 -' Point.y t1 in
  Math_sqrt (dx *' dx +' dy *' dy).

Definition getTouchCenter (t0 t1 : Point.t) : Point.t :=
  Point.mk ((Point.x t0 +' Point.x t1) /' Fin 2) ((Point.y t0 +' Point.y t1) /' Fin 2).

(** [e.touches] is the list of the client positions of the fingers. *)
Definition handleTouchMove (p : Props) (canvasRef : option Point.t)
    (touches : list Point.t) (s : t) (st : Store.t) : t * Store.t :=
  match touches with
  | [t0] => handleMove p canvasRef (Point.x t0) (Point.y t0) s st
  | [t0; t1] =>
      match lastTouchDist s, lastTouchCenter s, canvasRef with
      | Some lastDist, Some lastCenter, Some rect =>
          if Num.truthy lastDist then
            let currentDist := getTouchDistance t0 t1 in
            let currentCenter := getTouchCenter t0 t1 in
            let scale := currentDist /' lastDist in
            let newZoom := Num.min (Num.max (Fin (5 # 100)) (zoom s *' scale)) (Fin 5) in
            let centerX := Point.x lastCenter -' Point.x rect in
            let centerY := Point.y lastCenter -' Point.y rect in
            let worldX := (centerX -' Point.x (canvasOffset s)) /' zoom s in
            let worldY := (centerY -' Point.y (canvasOffset s)) /' zoom s in
            let newOffsetX := Point.x currentCenter -' Point.x rect -' worldX *' newZoom in
            let newOffsetY := Point.y currentCenter -' Point.y rect -' worldY *' newZoom in
            (set_lastTouchCenter (Some currentCenter)
               (set_lastTouchDist (Some currentDist)
                  (setCanvasOffset (Point.mk newOffsetX newOffsetY)
                     (setZoom newZoom s))), st)
          else (s, st)
      | _, _, _ => (s, st)
      end
  | _ => (s, st)
  end.

Definition handleTouchStart (p : Props) (canvasRef : option Point.t)
    (touches : list Point.t) (s : t) (st : Store.t) : t * Store.t :=
  match touches with
  | [t0] => handleStart p canvasRef (Point.x t0) (Point.y t0) 0 s st
  | [t0; t1] =>
      (set_lastTouchCenter (Some (getTouchCenter t0 t1))
         (set_lastTouchDist (Some (getTouchDistance t0 t1))
            (set_dragStartRef None
               (setDragStart None
                  (setIsDragging false (set_isDraggingRef false s))))), st)
  | _ => (s, st)
  end.

Definition handleWheel (canvasRef : option Point.t)
    (deltaY clientX clientY : num) (s : t) : t :=
  match canvasRef with
  | None => s
  | Some rect =>
      if Num.abs deltaY <? Fin (1 # 1000) then s
      else
        let zoomIntensity := Fin (1 # 1000) in
        let newZoom :=
          Num.min (Num.max (Fin (5 # 100))
                     (zoom s *' Math_exp (Num.neg deltaY *' zoomIntensity))) (Fin 5) in
        let mouseX := clientX -' Point.x rect in
        let mouseY := clientY -' Point.y rect in
        let worldX := (mouseX -' Point.x (canvasOffset s)) /' zoom s in
        let worldY := (mouseY -' Point.y (canvasOffset s)) /' zoom s in
        let newOffsetX := mouseX -' worldX *' newZoom in
        let newOffsetY := mouseY -' worldY *' newZoom in
        setCanvasOffset (Point.mk newOffsetX newOffsetY) (setZoom newZoom s)
  end.

End Runtime.

End Interaction.

(* ================================================================== *)
(** ** Errors and the remote generation service *)

(** A thrown value as the handlers inspect it: [err?.message] and
    [err?.code]. *)
Module JsError.
Record t := mk { message : string; code : option string }.
End JsError.

(** What a Cloud Function callable does when awaited: it resolves with the
    field of [result.data] that the caller reads (absent, or a string), or it
    rejects. *)
Inductive Outcome :=
| Resolved (field : option string)
| Rejected (e : JsError.t).

(** [value || null] on an optional string: the empty string is falsy. *)
Definition orNull (v : option string) : option string :=
  match v with
  | Some s => if String.eqb s "" then None else Some s
  | None => None
  end.

(** [value || fallback] on a string. *)
Definition orElse (v fallback : string) : string :=
  if String.eqb v "" then fallback else v.

(** The credit ledger of the Cloud Functions. *)
Module Functions.

(** Decimal form of an integer, as a template literal prints it. *)
Definition showZ (z : Z) : string := DecimalString.NilZero.string_of_int (Z.to_int z).

(** [deductCredits]: the error thrown inside the transaction when the
    balance is short, or the new balance.  The callable SDK hands the
    status [resource-exhausted] to the client as the code
    [functions/resource-exhausted]. *)
Definition deductCredits (currentCredits cost : Z) : JsError.t + Z :=
  if (currentCredits <? cost)%Z then
    inl (JsError.mk
           ("Créditos insuficientes. Você tem " ++ showZ currentCredits
              ++ ", mas precisa de " ++ showZ cost ++ ".")
           (Some "functions/resource-exhausted"))
  else inr (currentCredits - cost)%Z.

End Functions.

Module Gemini.

Definition is_resource_exhausted (e : JsError.t) : bool :=
  match JsError.code e with
  | Some c => String.eqb c "functions/resource-exhausted"
  | None => false
  end.

(** The result of an awaited call of the service layer: a value or a throw. *)
Definition Result := (JsError.t + option string)%type.

(** [generateImageContent]: [data.imageBase64 || null], and the [catch]
    that rethrows. *)
Definition generateImageContent (callable : Outcome) : Result :=
  match callable with
  | Resolved field => inr (orNull field)
  | Rejected error =>
      if is_resource_exhausted error
      then inl (JsError.mk (orElse (JsError.message error) "Créditos insuficientes.") None)
      else inl error
  end.

(** [generateVideo]. *)
Definition generateVideo (callable : Outcome) : Result :=
  match callable with
  | Resolved field => inr (orNull field)
  | Rejected error =>
      if is_resource_exhausted error
      then inl (JsError.mk (orElse (JsError.message error) "Créditos insuficientes.") None)
      else if Str.includes "SAFETY_FILTER" (JsError.message error)
      then inl (JsError.mk (JsError.message error) None)
      else inl error
  end.

(** [generateVideoMultiShot]. *)
Definition generateVideoMultiShot (callable : Outcome) : Result :=
  match callable with
  | Resolved field => inr (orNull field)
  | Rejected error =>
      if is_resource_exhausted error
      then inl (JsError.mk (orElse (JsError.message error) "Créditos insuficientes.") None)
      else inl error
  end.

Section ClosestRatio.
Import PrimFloat.

(** The table of [getClosestAspectRatio]; each value is the binary64
    number that its literal denotes. *)
Definition ratios : list (string * float) :=
  [ ("1:1", 1.0%float);
    ("3:4", 0.75%float);
    ("4:3", 1.33%float);
    ("9:16", 0.5625%float);
    ("16:9", 1.77%float) ].

(** [Math.abs(entry.val - ratio)] *)
Definition difference (ratio : float) (entry : string * float) : float :=
  abs (snd entry - ratio).

(** The callback of the [reduce]. *)
Definition closer (ratio : float) (prev curr : string * float) : string * float :=
  if (difference ratio curr <? difference ratio prev)%float then curr else prev.

(** [ratios.reduce((prev, curr) => ...)] without an initial value starts
    from the first entry. *)
Definition getClosestAspectRatio (ratio : float) : string :=
  fst (fold_left (closer ratio) (tl ratios) (hd ("1:1", 1.0%float) ratios)).

(** The subtraction [entry.val - ratio] gives a number, not NaN. *)
Definition number (ratio : float) (entry : string * float) : Prop :=
  FloatOps.Prim2SF (snd entry - ratio)%float <> SpecFloat.S754_nan.

End ClosestRatio.

End Gemini.

(* ================================================================== *)
(** ** useCanvasGeneration *)

Module Generation.

Inductive Alert :=
| InsufficientCredits   (* "Créditos insuficientes! ..." *)
| SafetyFilterBlocked   (* "O vídeo foi bloqueado pelo filtro de segurança ..." *)
| GenerationError.      (* "Erro na geração. Verifique o console ..." *)

Definition ALL_EFFECTS : list string :=
  ["effect-rainbow-linear"; "effect-rainbow-diagonal"; "effect-rainbow-vertical"].

(** The state the hook reads and writes: the selection of the interaction
    hook, the layer store, and the two cells of the parent component. *)
Record t := mk {
  selection : option Rect.t;
  store : Store.t;
  isGenerating : bool;
  generatingEffect : string }.

Definition setStore v (s : t) : t := mk (selection s) v (isGenerating s) (generatingEffect s).
Definition setSelection v (s : t) : t := mk v (store s) (isGenerating s) (generatingEffect s).
Definition setIsGenerating v (s : t) : t := mk (selection s) (store s) v (generatingEffect s).
Definition setGeneratingEffect v (s : t) : t := mk (selection s) (store s) (isGenerating s) v.

Record Props := mkProps {
  referenceImages : list string;
  activeModel : ModelType;
  variationCount : nat;
  onAutoSave : bool }.

(** What the run observes of its surroundings: the index drawn by
    [Math.random], the canvas snapshot, [Date.now()] in iteration [i], and
    the outcome of the callable awaited in iteration [i].  The arguments of
    the request ([apiAspectRatio], [sizeLabel], the prompt and the images)
    reach the run only through that outcome. *)
Record Env := mkEnv {
  randomIndex : nat;
  snapshot : option string;
  now : nat -> Z;
  callable : nat -> Outcome }.

(** What the run leaves behind besides the state. *)
Record Run := mkRun {
  final : t;
  alerts : list Alert;
  autoSaveScheduled : bool }.

Definition isVideoModel (m : ModelType) : bool :=
  match m with KLING_PRO => true | _ => false end.

(** [finalPrompt.slice(0, 10)] *)
Definition slice10 (s : string) : string := Str.sliceTo 10 s.

Definition newVideoLayer (sel : Rect.t) (finalPrompt videoUrl : string)
    (now : Z) (i : nat) : Layer.t :=
  Layer.mk (Functions.showZ now ++ Functions.showZ (Z.of_nat i))
    ("Video: " ++ slice10 finalPrompt ++ "...")
    true false video (Some videoUrl) None
    (Rect.x sel) (Rect.y sel) (Rect.w sel) (Rect.h sel)
    (Some (Rect.x sel)) (Some (Rect.y sel)) (Some (Rect.w sel)) (Some (Rect.h sel))
    (Some (Fin 0)) (Some cover) (Some true) None.

Definition newImageLayer (sel : Rect.t) (finalPrompt base64Image : string)
    (defaultFeather : option num) (layerRenderMode : RenderMode)
    (now : Z) (i : nat) : Layer.t :=
  Layer.mk (Functions.showZ now ++ Functions.showZ (Z.of_nat i))
    ("Gen " ++ Functions.showZ (Z.of_nat (i + 1)) ++ ": " ++ slice10 finalPrompt ++ "...")
    true false generation (Some base64Image) None
    (Rect.x sel) (Rect.y sel) (Rect.w sel) (Rect.h sel)
    (Some (Rect.x sel)) (Some (Rect.y sel)) (Some (Rect.w sel)) (Some (Rect.h sel))
    (Some (match defaultFeather with
           | Some f => if Num.truthy f then f else Fin 0
           | None => Fin 0
           end))
    (Some layerRenderMode) None None.

(** [setLayers(prev => [newLayer, ...prev]); setSelectedLayerIds([newLayer.id])] *)
Definition addLayer (l : Layer.t) (s : t) : t :=
  setStore
    (Store.setSelectedLayerIds [Layer.id l]
       (Store.setLayers (l :: Store.layers (store s)) (store s))) s.

(** One iteration of the [for] loop: the state after it, or the error
    thrown by the awaited call. *)
Definition iteration (p : Props) (env : Env) (sel : Rect.t)
    (imagesToSend : list string) (finalPrompt : string)
    (defaultFeather : option num) (layerRenderMode : RenderMode)
    (i : nat) (s : t) : JsError.t + t :=
  if isVideoModel (activeModel p) && negb (Nat.eqb (List.length imagesToSend) 0) then
    match Gemini.generateVideo (callable env i) with
    | inl err => inl err
    | inr (Some videoUrl) =>
        inr (addLayer (newVideoLayer sel finalPrompt videoUrl (now env i) i) s)
    | inr None => inr s
    end
  else
    match Gemini.generateImageContent (callable env i) with
    | inl err => inl err
    | inr (Some base64Image) =>
        inr (addLayer (newImageLayer sel finalPrompt base64Image defaultFeather
                         layerRenderMode (now env i) i) s)
    | inr None => inr s
    end.

(** [for (let i = 0; i < loops; i++)], from iteration [i] with [n]
    iterations left; the state reached comes with the error that cut the
    loop short, if any. *)
Fixpoint loop (p : Props) (env : Env) (sel : Rect.t)
    (imagesToSend : list string) (finalPrompt : string)
    (defaultFeather : option num) (layerRenderMode : RenderMode)
    (n i : nat) (s : t) : t * option JsError.t :=
  match n with
  | O => (s, None)
  | S n' =>
      match iteration p env sel imagesToSend finalPrompt defaultFeather
              layerRenderMode i s with
      | inl err => (s, Some err)
      | inr s' =>
          loop p env sel imagesToSend finalPrompt defaultFeather layerRenderMode
               n' (S i) s'
      end
  end.

(** The classification of the [catch] block. *)
Definition classify (err : JsError.t) : Alert :=
  let msg := JsError.message err in
  if Str.includes "créditos insuficientes" (Str.toLowerCase msg)
     || Str.includes "insufficient" (Str.toLowerCase msg)
     || match JsError.code err with
        | Some c => String.eqb c "functions/resource-exhausted"
        | None => false
        end
  then InsufficientCredits
  else if Str.startsWith "SAFETY_FILTER:" msg then SafetyFilterBlocked
  else GenerationError.

Definition triggerGeneration (p : Props) (env : Env) (promptText : string)
    (defaultFeather : option num) (s : t) : Run :=
  match selection s with
  | None => mkRun s [] false
  | Some sel =>
      let randomEffect := nth (randomIndex env) ALL_EFFECTS "" in
      let s := setIsGenerating true (setGeneratingEffect randomEffect s) in
      (* [apiAspectRatio = getClosestAspectRatio(selection.w / selection.h)]
         is an argument of the request *)
      let hasRefs := negb (Nat.eqb (List.length (referenceImages p)) 0) in
      let imagesToSend :=
        match orNull (snapshot env) with
        | Some snap => if hasRefs then snap :: referenceImages p else [snap]
        | None => if hasRefs then referenceImages p else []
        end in
      let finalPrompt :=
        match orNull (snapshot env) with
        | Some _ =>
            if hasRefs
            then promptText ++ " . Blend the object from the reference image(s) naturally into the scene."
            else promptText ++ " . Maintain exact scale, perspective and position of original image elements."
        | None => promptText
        end in
      let layerRenderMode :=
        if isVideoModel (activeModel p) then cover
        else match orNull (snapshot env) with
             | Some _ => fill
             | None => if hasRefs then cover else fill
             end in
      let loops := if isVideoModel (activeModel p) then 1%nat else variationCount p in
      let '(s, thrown) :=
        loop p env sel imagesToSend finalPrompt defaultFeather layerRenderMode loops 0 s in
      let s :=
        match thrown with
        | None => setStore (Store.setRedoStack [] (store s)) s
        | Some _ => s
        end in
      let shown :=
        match thrown with
        | None => []
        | Some err => [classify err]
        end in
      mkRun (setGeneratingEffect "" (setSelection None (setIsGenerating false s)))
            shown (onAutoSave p)
  end.

End Generation.

(* ================================================================== *)
(** ** Studio: SceneRow.handleGenerate *)

Module Studio.

Inductive Orientation := Auto | Horizontal | Vertical.

Inductive Alert :=
| StartFrameRequired            (* "Frame inicial obrigatório." *)
| PromptRequired                (* "Escreva pelo menos um prompt." *)
| TooManyShots                  (* "Multi-shot suporta no máximo 6 shots." *)
| DurationExceeded (total : Z)  (* "Duração total ...s excede o máximo de 15s ..." *)
| InsufficientCredits
| SafetyFilterBlocked
| SceneError (msg : string).    (* "Erro ao gerar cena: ..." *)

(** What the handler does to the outside, in order. *)
Inductive Action :=
| ShowAlert (a : Alert)
| UpdateIsGenerating (b : bool)
| CallGenerateVideo (prompt startImage : string) (endImage : option string)
    (aspectRatio duration : string) (generateAudio : bool)
| CallGenerateVideoMultiShot (scenes : list Shot.t) (startImage aspectRatio : string)
    (generateAudio : bool)
| UpdateVideos (videos : list string) (selectedVideoIndex : Z)
| ChainNextScene (lastFrame : string).

(** The two endpoints of the video service. *)
Definition is_network_call (a : Action) : bool :=
  match a with
  | CallGenerateVideo _ _ _ _ _ _ | CallGenerateVideoMultiShot _ _ _ _ => true
  | _ => false
  end.



(** What the run observes: the natural size of the start frame, the
    cover-fit crop, the outcome of the callable awaited in variation [i]
    and the frame extracted from its video. *)
Record Env := mkEnv {
  naturalWidth : Z;
  naturalHeight : Z;
  cropImageToRatio : string -> Z -> Z -> string;
  callable : nat -> Outcome;
  extractLastFrame : nat -> option string }.

(** [scene.shots.filter(s => s.prompt.trim().length > 0)] *)
Definition validShots (scene : Scene.t) : list Shot.t :=
  filter (fun s => Str.trim_nonempty (Shot.prompt s)) (Scene.shots scene).

(** [shots.reduce((sum, s) => sum + parseInt(s.duration || '5'), 0)];
    [None] is NaN. *)
Definition totalDuration (shots : list Shot.t) : option Z :=
  fold_left
    (fun sum s =>
       match sum, Str.parseInt (orElse (Shot.duration s) "5") with
       | Some a, Some b => Some (a + b)%Z
       | _, _ => None
       end)
    shots (Some 0%Z).

(** [n > 15] on a number that may be NaN. *)
Definition exceeds15 (n : option Z) : bool :=
  match n with
  | Some t => (15 <? t)%Z
  | None => false
  end.

Definition classify (err : JsError.t) : Alert :=
  let msg := JsError.message err in
  if Str.includes "créditos insuficientes" (Str.toLowerCase msg)
     || Str.includes "insufficient" (Str.toLowerCase msg)
     || match JsError.code err with
        | Some c => String.eqb c "functions/resource-exhausted"
        | None => false
        end
  then InsufficientCredits
  else if Str.startsWith "SAFETY_FILTER:" msg then SafetyFilterBlocked
  else SceneError msg.

(** One variation: what it does, and the error of the awaited call if it
    threw. *)
Definition variation (scene : Scene.t) (env : Env) (generateAudio : bool)
    (shots : list Shot.t) (cleanStart : string) (cleanEnd : option string)
    (aspectRatio : string) (i : nat) : list Action * option JsError.t :=
  let '(call, result) :=
    match shots with
    | [only] =>
        (CallGenerateVideo
           (orElse (Shot.prompt only) "Smooth cinematic camera movement")
           cleanStart cleanEnd aspectRatio (orElse (Shot.duration only) "5")
           generateAudio,
         Gemini.generateVideo (callable env i))
    | _ =>
        (CallGenerateVideoMultiShot
           (map (fun s =>
                   Shot.mk (orElse (Shot.prompt s) "Smooth cinematic camera movement")
                           (orElse (Shot.duration s) "5")) shots)
           cleanStart aspectRatio generateAudio,
         Gemini.generateVideoMultiShot (callable env i))
    end in
  match result with
  | inl err => ([call], Some err)
  | inr None => ([call], None)
  | inr (Some videoUrl) =>
      (call
       :: UpdateVideos (Scene.videos scene ++ [videoUrl])%list
            (if (Scene.selectedVideoIndex scene =? -1)%Z then 0%Z
             else Scene.selectedVideoIndex scene)
       :: match extractLastFrame env i with
          | Some lastFrame => [ChainNextScene lastFrame]
          | None => []
          end,
       None)
  end.

(** [for (let i = 0; i < scene.variationCount; i++)] *)
Fixpoint loop (scene : Scene.t) (env : Env) (generateAudio : bool)
    (shots : list Shot.t) (cleanStart : string) (cleanEnd : option string)
    (aspectRatio : string) (n i : nat) : list Action * option JsError.t :=
  match n with
  | O => ([], None)
  | S n' =>
      match variation scene env generateAudio shots cleanStart cleanEnd aspectRatio i with
      | (acts, Some err) => (acts, Some err)
      | (acts, None) =>
          let '(rest, thrown) :=
            loop scene env generateAudio shots cleanStart cleanEnd aspectRatio n' (S i) in
          ((acts ++ rest)%list, thrown)
      end
  end.

Definition handleGenerate (scene : Scene.t) (orientation : Orientation)
    (generateAudio : bool) (env : Env) : list Action :=
  match orNull (Scene.startFrame scene) with
  | None => [ShowAlert StartFrameRequired]
  | Some startFrame =>
      let shots := validShots scene in
      if Nat.eqb (List.length shots) 0 then [ShowAlert PromptRequired]
      else if (2 <=? List.length shots)%nat && (6 <? List.length shots)%nat
      then [ShowAlert TooManyShots]
      else if (2 <=? List.length shots)%nat && exceeds15 (totalDuration shots)
      then [ShowAlert (DurationExceeded
                         (match totalDuration shots with Some t => t | None => 0%Z end))]
      else
        let finalOrientation :=
          match orientation with
          | Auto =>
              let w := naturalWidth env in
              let h := naturalHeight env in
              if (0 <? w)%Z && (0 <? h)%Z
              then (if (w <? h)%Z then Vertical else Horizontal)
              else Horizontal
          | o => o
          end in
        let isHorizontal :=
          match finalOrientation with Horizontal => true | _ => false end in
        let aspectRatio := if isHorizontal then "16:9" else "9:16" in
        let targetW := if isHorizontal then 1920%Z else 1080%Z in
        let targetH := if isHorizontal then 1080%Z else 1920%Z in
        let cleanStart := cropImageToRatio env startFrame targetW targetH in
        let cleanEnd :=
          match orNull (Scene.endFrame scene) with
          | Some endFrame => Some (cropImageToRatio env endFrame targetW targetH)
          | None => None
          end in
        let '(acts, thrown) :=
          loop scene env generateAudio shots cleanStart cleanEnd aspectRatio
               (Scene.variationCount scene) 0 in
        (UpdateIsGenerating true
         :: acts
         ++ match thrown with
            | Some err => [ShowAlert (classify err)]
            | None => []
            end
         ++ [UpdateIsGenerating false])%list
  end.

End Studio.

(* ================================================================== *)
(** ** Studio: the movie export pipeline (useStudioExport)

    [handleExportFullMovie] is an asynchronous function; between two
    suspension points it runs to completion.  [start] is its synchronous
    beginning and [step] what runs when the media element, the recorder or
    the timer wakes it up.  A [Phase] names the suspension point the
    function waits at.  An event is accepted only at the suspension point
    that listens to it: [canplaythrough] after [load()], [ended] while the
    element plays.  The per-frame redraw is left out. *)

Module StudioExport.

Inductive Phase :=
| Idle
| Probing                (* awaiting [loadedmetadata] of the probe video *)
| Loading (i : nat)      (* [playNext]: awaiting [canplaythrough] of scene i *)
| Starting (i : nat)     (* [playNext]: awaiting [videoEl.play()] *)
| Playing (i : nat)      (* [onended] installed, scene i plays *)
| Flushing               (* [setTimeout(() => recorder.stop(), 500)] pending *)
| Finished.              (* [recorder.onstop] ran *)

Inductive Event :=
| LoadedMetadata (videoWidth videoHeight : Z)
| CanPlayThrough
| PlaySettled
| Ended
| TimerFired.

Inductive Action :=
| AlertNoScenes          (* "Nenhuma cena gerada para exportar." *)
| AlertExportError       (* "Erro na exportação." *)
| SetIsExporting (b : bool)
| CreateCanvas (width height : Z)
| RecorderStart (mimeType : option string)
| LoadVideo (i : nat) (url : option string)
| Play (i : nat) (url : option string)
| ScheduleStop
| RecorderStop
| Download (fileExt : string).

(** The capabilities of the browser the run depends on. *)
Record Env := mkEnv {
  contextAvailable : bool;
  isTypeSupported : string -> bool;
  recorderAccepts : string -> bool }.

(** [scenes.filter(s => s.videos.length > 0 && s.selectedVideoIndex !== -1)] *)
Definition validScenes (scenes : list Scene.t) : list Scene.t :=
  filter (fun s => negb (Nat.eqb (List.length (Scene.videos s)) 0)
                   && negb (Scene.selectedVideoIndex s =? -1)%Z) scenes.

(** [scene.videos[scene.selectedVideoIndex]]; [None] is [undefined]. *)
Definition selectedVideoUrl (s : Scene.t) : option string :=
  if (Scene.selectedVideoIndex s <? 0)%Z then None
  else nth_error (Scene.videos s) (Z.to_nat (Scene.selectedVideoIndex s)).

Definition mimeOptions : list string :=
  ["video/mp4;codecs=avc1"; "video/mp4"; "video/webm;codecs=vp9"; "video/webm"].

(** The [for (const mime of mimeOptions)] loop: the first supported type
    whose recorder could be constructed. *)
Definition pickMime (env : Env) : option string :=
  find (fun mime => isTypeSupported env mime && recorderAccepts env mime) mimeOptions.

Definition fileExt (usedMimeType : string) : string :=
  if Str.startsWith "video/mp4" usedMimeType then "mp4" else "webm".

(** [playNext] up to its first suspension point. *)
Definition playNext (valid : list Scene.t) (currentSceneIndex : nat)
  : Phase * list Action :=
  match nth_error valid currentSceneIndex with
  | None => (Flushing, [ScheduleStop])
  | Some scene => (Loading currentSceneIndex,
                   [LoadVideo currentSceneIndex (selectedVideoUrl scene)])
  end.

Definition start (scenes : list Scene.t) : Phase * list Action :=
  match validScenes scenes with
  | [] => (Idle, [AlertNoScenes])
  | _ :: _ => (Probing, [SetIsExporting true])
  end.

Definition step (env : Env) (scenes : list Scene.t) (ph : Phase) (ev : Event)
  : option (Phase * list Action) :=
  let valid := validScenes scenes in
  match ph, ev with
  | Probing, LoadedMetadata videoWidth videoHeight =>
      let width := if (videoWidth =? 0)%Z then 1920%Z else videoWidth in
      let height := if (videoHeight =? 0)%Z then 1080%Z else videoHeight in
      if contextAvailable env then
        let '(ph', acts) := playNext valid 0 in
        Some (ph', CreateCanvas width height :: RecorderStart (pickMime env) :: acts)
      else
        Some (Idle, [CreateCanvas width height; AlertExportError; SetIsExporting false])
  | Loading i, CanPlayThrough =>
      match nth_error valid i with
      | Some scene => Some (Starting i, [Play i (selectedVideoUrl scene)])
      | None => None
      end
  | Starting i, PlaySettled => Some (Playing i, [])
  | Playing i, Ended => Some (playNext valid (S i))
  | Flushing, TimerFired =>
      Some (Finished,
            [RecorderStop;
             Download (fileExt (match pickMime env with
                                | Some mime => mime
                                | None => "video/webm"
                                end));
             SetIsExporting false])
  | _, _ => None
  end.

(** The log of a run: what came in and what went out, in order. *)
Inductive Item :=
| Got (ev : Event)
| Did (a : Action).

(** The run on a sequence of events; [None] when an event arrives that
    nothing listens to. *)
Fixpoint steps (env : Env) (scenes : list Scene.t) (ph : Phase) (evs : list Event)
  : option (Phase * list Item) :=
  match evs with
  | [] => Some (ph, [])
  | ev :: rest =>
      match step env scenes ph ev with
      | None => None
      | Some (ph', acts) =>
          match steps env scenes ph' rest with
          | None => None
          | Some (ph'', log) => Some (ph'', (Got ev :: map Did acts ++ log)%list)
          end
      end
  end.

Definition handleExportFullMovie (env : Env) (scenes : list Scene.t)
    (evs : list Event) : option (Phase * list Item) :=
  let '(ph, acts) := start scenes in
  match steps env scenes ph evs with
  | None => None
  | Some (ph', log) => Some (ph', (map Did acts ++ log)%list)
  end.

(** The videos played, in the order of the log. *)
Fixpoint played (log : list Item) : list (option string) :=
  match log with
  | [] => []
  | Did (Play _ url) :: rest => url :: played rest
  | _ :: rest => played rest
  end.

(** No video starts while the one before it has not ended: [playing] tells
    whether a started video is still to end. *)
Fixpoint serialized (playing : bool) (log : list Item) : bool :=
  match log with
  | [] => true
  | Did (Play _ _) :: rest => negb playing && serialized true rest
  | Got Ended :: rest => serialized false rest
  | _ :: rest => serialized playing rest
  end.

Definition is_output (a : Action) : bool :=
  match a with
  | RecorderStart _ | RecorderStop | Download _ => true
  | _ => false
  end.

Fixpoint outputs (log : list Item) : list Action :=
  match log with
  | [] => []
  | Did a :: rest => if is_output a then a :: outputs rest else outputs rest
  | Got _ :: rest => outputs rest
  end.

End StudioExport.

(* ================================================================== *)
(** ** The viewport transform *)

Module Viewport.

(** The world coordinate under a client position, as every handler computes
    it: [(clientX - rect.left - canvasOffset.x) / zoom]. *)
Definition toWorld (s : Interaction.t) (rect client : Point.t) : Point.t :=
  Point.mk
    ((Point.x client -' Point.x rect -' Point.x (Interaction.canvasOffset s))
       /' Interaction.zoom s)
    ((Point.y client -' Point.y rect -' Point.y (Interaction.canvasOffset s))
       /' Interaction.zoom s).

(** The client position of a world coordinate: CanvasMode renders the world
    inside the canvas element under
    [translate3d(canvasOffset.x, canvasOffset.y, 0) scale(zoom)] with origin
    [0 0]. *)
Definition toClient (s : Interaction.t) (rect world : Point.t) : Point.t :=
  Point.mk
    (Point.x rect +' Point.x (Interaction.canvasOffset s)
       +' Point.x world *' Interaction.zoom s)
    (Point.y rect +' Point.y (Interaction.canvasOffset s)
       +' Point.y world *' Interaction.zoom s).

(** [clamp(v, lo, hi)] as the specification writes the zoom step. *)
Definition spec_clamp (v lo hi : num) : num :=
  if v <? lo then lo else if hi <? v then hi else v.

End Viewport.

(* ================================================================== *)
(** ** Sample values *)

Module Sample.

(** [Math.sqrt], exact on the perfect squares among the integers. *)
Definition sqrt (a : num) : num :=
  match a with
  | Fin q => if Num.Qltb q 0 then NaN else Fin (inject_Z (Z.sqrt (Qfloor q)))
  | PInf => PInf
  | NInf | NaN => NaN
  end.

(** [Math.exp] cut after the term of degree four. *)
Definition exp (a : num) : num :=
  match a with
  | Fin x => Fin (1 + x + x * x / 2 + x * x * x / 6 + x * x * x * x / 24)
  | PInf => PInf
  | NInf => Fin 0
  | NaN => NaN
  end.

Definition layerAt (id : string) (x y w h : Q) : Layer.t :=
  Layer.mk id id true false image (Some "data:image/png;base64,AAAA") None
    (Fin x) (Fin y) (Fin w) (Fin h)
    (Some (Fin x)) (Some (Fin y)) (Some (Fin w)) (Some (Fin h))
    (Some (Fin 0)) (Some fill) None None.

(** The interaction hook at rest, at zoom 1 with the origin at the corner
    of the canvas element. *)
Definition idle : Interaction.t :=
  Interaction.mk None false None None None (Fin 1) (Point.mk (Fin 0) (Fin 0))
    false None false false false None None None None None.

Definition origin : Point.t := Point.mk (Fin 0) (Fin 0).

Definition tool (t : ToolType) (res : list Resolution.t) : Interaction.Props :=
  Interaction.mkProps t res false.

Definition square : Resolution.t := Resolution.mk (Fin 1024) (Fin 1024) (Fin 1) None.
Definition wide : Resolution.t :=
  Resolution.mk (Fin 1344) (Fin 768) (Fin (177 # 100)) None.

Definition emptyStore : Store.t := Store.mk [] [] [] false.

(** Two fingers down, 10 pixels apart around the client point (100, 100). *)
Definition pinching : Interaction.t :=
  Interaction.set_lastTouchCenter (Some (Point.mk (Fin 100) (Fin 100)))
    (Interaction.set_lastTouchDist (Some (Fin 10)) idle).

(** The same fingers, still 10 pixels apart, moved 50 pixels to the right. *)
Definition fingers : list Point.t :=
  [Point.mk (Fin 147) (Fin 96); Point.mk (Fin 153) (Fin 104)].

(** A 100 x 100 selection at the world origin, seen at the given zoom. *)
Definition selected (zoom : Q) : Interaction.t :=
  Interaction.setSelection (Some (Rect.mk (Fin 0) (Fin 0) (Fin 100) (Fin 100)))
    (Interaction.setZoom (Fin zoom) idle).

(** The select tool pressed at the client point (0, 0) of the idle hook:
    a selection is being drawn from the world origin. *)
Definition drawing (res : list Resolution.t) : Interaction.t :=
  fst (Interaction.handleStart (tool select res) (Some origin) (Fin 0) (Fin 0) 0
         idle emptyStore).

(** The error of [deductCredits] for a balance of 3 and a cost of 10. *)
Definition creditError : JsError.t :=
  JsError.mk "Créditos insuficientes. Você tem 3, mas precisa de 10."
             (Some "functions/resource-exhausted").

(** Two variations asked of the image model; the first call resolves with
    an image and the second is refused for want of credits. *)
Definition twoVariations : Generation.Props :=
  Generation.mkProps [] NANO_BANANA_2 2 true.

Definition secondCallRefused : Generation.Env :=
  Generation.mkEnv 0 (Some "data:image/png;base64,SNAP") (fun _ => 1700000000000%Z)
    (fun i => match i with
              | O => Resolved (Some "data:image/png;base64,BBBB")
              | S _ => Rejected creditError
              end).

Definition region : Rect.t := Rect.mk (Fin 0) (Fin 0) (Fin 512) (Fin 512).

Definition readyToGenerate : Generation.t :=
  Generation.mk (Some region)
    (Store.mk [layerAt "a" 0 0 100 100] [layerAt "c" 10 10 20 20] ["a"] false)
    false "".

Definition frame : string := "data:image/png;base64,AAAA".


Definition studioEnv : Studio.Env :=
  Studio.mkEnv 1920 1080 (fun img _ _ => img)
    (fun _ => Resolved (Some "https://storage/v.mp4")) (fun _ => Some frame).

(** Three scenes with a chosen video, and one without any in between. *)
Definition clip (id url : string) : Scene.t :=
  Scene.mk id (Some frame) None [Shot.mk "walk" "5"] [url] 0 false 1.

Definition movie : list Scene.t :=
  [ clip "1" "https://storage/1.mp4";
    Scene.mk "2" (Some frame) None [Shot.mk "walk" "5"] [] (-1) false 1;
    clip "3" "https://storage/3.mp4";
    clip "4" "https://storage/4.mp4" ].

Definition browser : StudioExport.Env :=
  StudioExport.mkEnv true (fun mime => String.eqb mime "video/webm") (fun _ => true).

End Sample.

(* ================================================================== *)
(** ** The minimum search of the select tool *)

(** The body of a loop that carries the least key seen so far and its
    entry, as in the select branch of [handleMove]. *)
Definition stepMin {A : Type} (key : A -> num) (acc : num * A) (x : A) : num * A :=
  if key x <? fst acc then (key x, x) else acc.

(* ================================================================== *)
(** ** Gestures: a press followed by pointer moves *)

Module Gesture.

(** The pointer-move events of a gesture, handled one after the other. *)
Definition moves (p : Interaction.Props) (canvasRef : option Point.t)
    (ms : list Point.t) (s : Interaction.t) (st : Store.t) : Interaction.t * Store.t :=
  fold_left
    (fun acc m =>
       Interaction.handleMove p canvasRef (Point.x m) (Point.y m) (fst acc) (snd acc))
    ms (s, st).

(** The displacement of the pointer at [m] from the point pressed, as the
    selection-drag branch computes it: a difference of world coordinates. *)
Definition dx (s : Interaction.t) (rect press m : Point.t) : num :=
  Point.x (Viewport.toWorld s rect m) -' Point.x (Viewport.toWorld s rect press).

Definition dy (s : Interaction.t) (rect press m : Point.t) : num :=
  Point.y (Viewport.toWorld s rect m) -' Point.y (Viewport.toWorld s rect press).

(** [Math.abs(dx) > threshold || Math.abs(dy) > threshold] *)
Definition exceeds (threshold : num) (s : Interaction.t) (rect press m : Point.t) : bool :=
  (Num.abs (dx s rect press m) >? threshold) || (Num.abs (dy s rect press m) >? threshold).

(** [Math.abs(dx) > Math.abs(dy) ? 'horizontal' : 'vertical'] *)
Definition dominant (s : Interaction.t) (rect press m : Point.t) : Interaction.Axis :=
  if Num.abs (dx s rect press m) >? Num.abs (dy s rect press m)
  then Interaction.horizontal else Interaction.vertical.

(** A rectangle translated along one axis. *)
Definition slid (axis : Interaction.Axis) (sel : Rect.t) (dx dy : num) : Rect.t :=
  match axis with
  | Interaction.horizontal =>
      Rect.mk (Rect.x sel +' dx) (Rect.y sel) (Rect.w sel) (Rect.h sel)
  | Interaction.vertical =>
      Rect.mk (Rect.x sel) (Rect.y sel +' dy) (Rect.w sel) (Rect.h sel)
  end.

(** The distance the pointer travelled on screen, per axis, in client
    pixels. *)
Definition screen_dx (press m : Point.t) : num := Num.abs (Point.x m -' Point.x press).
Definition screen_dy (press m : Point.t) : num := Num.abs (Point.y m -' Point.y press).

(** What a selection drag keeps from the press on: the refs set by
    [handleStart], the viewport of the state [s0] pressed in, and the size
    of the selection [sel0] pressed on. *)
Record SelDrag (s0 s : Interaction.t) (sel0 : Rect.t) (start : Point.t) : Prop := {
  sd_flag : Interaction.isDraggingSelectionRef s = true;
  sd_start : Interaction.selectionDragStartRef s = Some start;
  sd_init : Interaction.initialSelectionPosRef s
            = Some (Point.mk (Rect.x sel0) (Rect.y sel0));
  sd_zoom : Interaction.zoom s = Interaction.zoom s0;
  sd_off : Interaction.canvasOffset s = Interaction.canvasOffset s0;
  sd_sel : exists r, Interaction.selection s = Some r /\
                     Rect.w r = Rect.w sel0 /\ Rect.h r = Rect.h sel0 }.

End Gesture.

(** The quantity the loop of the select branch minimises:
    [Math.abs(res.ratio - currentRatio)]. *)
Definition distance (currentRatio : num) (res : Resolution.t) : num :=
  Num.abs (Resolution.ratio res -' currentRatio).

(* ================================================================== *)
(** ** What a whole generated layer is *)

(** A layer as a completed generation call leaves it: it shows the result
    [src], it is visible and unlocked, and its position, its size and the
    snapshot kept for the reset are those of the selection. *)
Definition materialized (sel : Rect.t) (src : string) (l : Layer.t) : Prop :=
  Layer.src l = Some src /\
  Layer.visible l = true /\ Layer.locked l = false /\
  Layer.x l = Rect.x sel /\ Layer.y l = Rect.y sel /\
  Layer.width l = Rect.w sel /\ Layer.height l = Rect.h sel /\
  Layer.initialX l = Some (Rect.x sel) /\ Layer.initialY l = Some (Rect.y sel) /\
  Layer.initialWidth l = Some (Rect.w sel) /\ Layer.initialHeight l = Some (Rect.h sel) /\
  Layer.feather l <> None /\ Layer.renderMode l <> None.

(** What the loop of [triggerGeneration] keeps and what it adds over the
    calls [lo], ..., [hi - 1]: whole layers of resolved calls in front of
    the list, the newest of them selected, and nothing else of the store or
    of the cells of the user interface. *)
Record Grew (sel : Rect.t) (env : Generation.Env) (lo hi : nat)
    (s s' : Generation.t) : Prop := {
  grew_layers : exists added,
      Store.layers (Generation.store s')
        = (added ++ Store.layers (Generation.store s))%list /\
      (List.length added <= hi - lo)%nat /\
      Forall (fun l => exists i src, (lo <= i < hi)%nat /\
                                     Generation.callable env i = Resolved (Some src) /\
                                     materialized sel src l) added /\
      Store.selectedLayerIds (Generation.store s')
        = match added with
          | [] => Store.selectedLayerIds (Generation.store s)
          | newest :: _ => [Layer.id newest]
          end;
  grew_redo : Store.redoStack (Generation.store s') = Store.redoStack (Generation.store s);
  grew_menu : Store.showLayerMenuMobile (Generation.store s')
              = Store.showLayerMenuMobile (Generation.store s);
  grew_selection : Generation.selection s' = Generation.selection s;
  grew_busy : Generation.isGenerating s' = Generation.isGenerating s;
  grew_effect : Generation.generatingEffect s' = Generation.generatingEffect s }.

(** The error the service layer throws when the callable rejects with [e]. *)
Definition rethrown (e err : JsError.t) : Prop :=
  Gemini.generateImageContent (Rejected e) = inl err \/
  Gemini.generateVideo (Rejected e) = inl err.

(* ================================================================== *)
(** ** The durations a scene row offers *)



(** The network calls among the actions of a run. *)
Definition networkCalls (acts : list Studio.Action) : list Studio.Action :=
  filter Studio.is_network_call acts.

(* ================================================================== *)
(** ** Reading a run of the export pipeline *)

Module ExportRun.

(** How many videos have been started once the pipeline waits at a phase:
    the index of the scene it loads, or one more once it plays. *)
Definition started (valid : list Scene.t) (ph : StudioExport.Phase) : nat :=
  match ph with
  | StudioExport.Idle | StudioExport.Probing => 0
  | StudioExport.Loading i => i
  | StudioExport.Starting i | StudioExport.Playing i => S i
  | StudioExport.Flushing | StudioExport.Finished => List.length valid
  end.

(** Whether a started video is still to end. *)
Definition playing (ph : StudioExport.Phase) : bool :=
  match ph with
  | StudioExport.Starting _ | StudioExport.Playing _ => true
  | _ => false
  end.

(** The scene a phase refers to is one of the qualifying scenes. *)
Definition in_range (valid : list Scene.t) (ph : StudioExport.Phase) : Prop :=
  match ph with
  | StudioExport.Loading i | StudioExport.Starting i | StudioExport.Playing i =>
      (i < List.length valid)%nat
  | _ => True
  end.

(** The events of a browser that loads, plays and ends each of [n] videos
    in turn, and then fires the flush timer. *)
Fixpoint rounds (n : nat) : list StudioExport.Event :=
  match n with
  | O => [StudioExport.TimerFired]
  | S n' =>
      StudioExport.CanPlayThrough :: StudioExport.PlaySettled :: StudioExport.Ended
      :: rounds n'
  end.

Definition natural (videoWidth videoHeight : Z) (n : nat) : list StudioExport.Event :=
  StudioExport.LoadedMetadata videoWidth videoHeight :: rounds n.

End ExportRun.

(* ================================================================== *)
(** ** Reading a drag of a layer and a pan *)

Module LayerDrag.

(** The hook between two gestures, as [handleEnd] leaves its flags. *)
Definition released (s : Interaction.t) : Prop :=
  Interaction.isDraggingRef s = false /\
  Interaction.isDraggingLayerRef s = false /\
  Interaction.isDraggingSelectionRef s = false.

(** A layer that rests where it was created: its position and its size are
    the ones kept for the reset. *)
Definition pristine (l : Layer.t) : Prop :=
  Layer.initialX l = Some (Layer.x l) /\ Layer.initialY l = Some (Layer.y l) /\
  Layer.initialWidth l = Some (Layer.width l) /\
  Layer.initialHeight l = Some (Layer.height l).

(** What a drag of the layer [grabbed] by [(dx, dy)] makes of the layer
    [l0]: a layer with the id of the grabbed one is put where the grabbed
    one goes and keeps every other field; any other layer is left alone. *)
Definition carried (grabbed : Layer.t) (dx dy : num) (l0 l' : Layer.t) : Prop :=
  if String.eqb (Layer.id l0) (Layer.id grabbed)
  then exists x' y', l' = Layer.with_xy l0 x' y' /\
                     x' ~= Layer.x grabbed +' dx /\ y' ~= Layer.y grabbed +' dy
  else l' = l0.

(** [{ ...l, x: newX, y: newY }] on the layers with the given id. *)
Definition place (id : string) (newX newY : num) (l : Layer.t) : Layer.t :=
  if String.eqb (Layer.id l) id then Layer.with_xy l newX newY else l.

End LayerDrag.

(** ** Reading a pan *)

Module Pan.

(** What a pan keeps from the press at [press] in the state [s0] up to the
    last pointer position [last]: the drag goes on from [last], the view
    is moved by the displacement of the pointer on screen, and the zoom and
    the selection are those of the press. *)
Record Panning (p : Interaction.Props) (s0 s : Interaction.t) (press last : Point.t)
  : Prop := {
  pn_drag : Interaction.isDraggingRef s = true;
  pn_start : Interaction.dragStartRef s = Some last;
  pn_layer : Interaction.isDraggingLayerRef s = false;
  pn_sel : Interaction.isDraggingSelectionRef s = false;
  pn_mode : Interaction.isMiddlePanning s
            || match Interaction.selectedTool p with hand => true | _ => false end = true;
  pn_zoom : Interaction.zoom s = Interaction.zoom s0;
  pn_selection : Interaction.selection s = Interaction.selection s0;
  pn_finite : Point.finite (Interaction.canvasOffset s) = true;
  pn_offset :
    Point.eqv (Interaction.canvasOffset s)
      (Point.mk
         (Point.x (Interaction.canvasOffset s0) +' (Point.x last -' Point.x press))
         (Point.y (Interaction.canvasOffset s0) +' (Point.y last -' Point.y press))) }.

End Pan.

(** ** More sample values *)

Module Scenario.

(** Three layers created at different places of the canvas, the first one
    selected. *)
Definition threeLayers : Store.t :=
  Store.mk
    [ Sample.layerAt "a" 0 0 100 100;
      Sample.layerAt "b" 50 50 100 100;
      Sample.layerAt "c" 300 300 50 50 ]
    [] ["a"] false.

(** A press at the client point (60, 60), which lies on the layers "a" and
    "b", and a drag over (70, 70) to (80, 90). *)
Definition press : Point.t := Point.mk (Fin 60) (Fin 60).
Definition over : list Point.t := [Point.mk (Fin 70) (Fin 70)].
Definition release : Point.t := Point.mk (Fin 80) (Fin 90).

End Scenario.

(* ================================================================== *)
(** ** The bounding box of layers

    The loop that [handleFitScreen], [handleDownload], [compositeLayers]
    and [generateThumbnailFromLayers] each run over layers:
    [let minX = Infinity, minY = Infinity, maxX = -Infinity, maxY = -Infinity]
    and four comparisons per layer. *)

Module Bounds.

Record t := mk { minX : num; minY : num; maxX : num; maxY : num }.

Definition empty : t := mk PInf PInf NInf NInf.

Definition grow (b : t) (layer : Layer.t) : t :=
  mk (if Layer.x layer <? minX b then Layer.x layer else minX b)
     (if Layer.y layer <? minY b then Layer.y layer else minY b)
     (if Layer.x layer +' Layer.width layer >? maxX b
      then Layer.x layer +' Layer.width layer else maxX b)
     (if Layer.y layer +' Layer.height layer >? maxY b
      then Layer.y layer +' Layer.height layer else maxY b).

(** [layers.forEach(layer => { ... })] *)
Definition ofAll (layers : list Layer.t) : t := fold_left grow layers empty.

(** [layers.forEach(layer => { if (!layer.visible) return; ... })] *)
Definition ofVisible (layers : list Layer.t) : t :=
  fold_left (fun b layer => if Layer.visible layer then grow b layer else b) layers empty.

(** A layer whose position and size are finite numbers, the size not
    negative. *)
Definition measurable (l : Layer.t) : bool :=
  Num.is_fin (Layer.x l) && Num.is_fin (Layer.y l) &&
  Num.is_fin (Layer.width l) && Num.is_fin (Layer.height l) &&
  (Fin 0 <=? Layer.width l) && (Fin 0 <=? Layer.height l).

End Bounds.

(* ================================================================== *)
(** ** canvasUtils *)

Module CanvasUtils.

(** [handleFitScreen]; [innerWidth] and [innerHeight] are those of the
    window, and [setZoom] and [setCanvasOffset] write the two cells of the
    interaction hook. *)
Definition handleFitScreen (innerWidth innerHeight : num) (layers : list Layer.t)
    (initialZoom CANVAS_SIZE : num) (s : Interaction.t) : Interaction.t :=
  match layers with
  | [] =>
      let newZoom := initialZoom in
      let newOffset :=
        Point.mk (innerWidth /' Fin 2 -' (CANVAS_SIZE /' Fin 2) *' newZoom)
                 (innerHeight /' Fin 2 -' (CANVAS_SIZE /' Fin 2) *' newZoom) in
      Interaction.setCanvasOffset newOffset (Interaction.setZoom newZoom s)
  | _ :: _ =>
      let b := Bounds.ofVisible layers in
      if Bounds.minX b =? PInf then s
      else
        let contentW := Bounds.maxX b -' Bounds.minX b in
        let contentH := Bounds.maxY b -' Bounds.minY b in
        let padding := Fin 100 in
        let scaleX := innerWidth /' (contentW +' padding *' Fin 2) in
        let scaleY := innerHeight /' (contentH +' padding *' Fin 2) in
        let newZoom := Num.min (Num.min scaleX scaleY) (Fin (15 # 10)) in
        let centerX := Bounds.minX b +' contentW /' Fin 2 in
        let centerY := Bounds.minY b +' contentH /' Fin 2 in
        let newOffset :=
          Point.mk (innerWidth /' Fin 2 -' centerX *' newZoom)
                   (innerHeight /' Fin 2 -' centerY *' newZoom) in
        Interaction.setCanvasOffset newOffset (Interaction.setZoom newZoom s)
  end.

(** [getCurrentResolutionMatch]; an [undefined] table is the empty one,
    which finds nothing either. *)
Definition getCurrentResolutionMatch (selection : option Rect.t)
    (availableResolutions : list Resolution.t) : option Resolution.t :=
  match selection with
  | None => None
  | Some sel =>
      find (fun r => Num.abs (Resolution.ratio r -' Rect.w sel /' Rect.h sel)
                     <? Fin (2 # 100))
           availableResolutions
  end.

(** The result of [getResolutionStatus]: [{ status: 'ok', msg: '' }], or
    the warning whose message prints the two limits. *)
Inductive Status :=
| ok
| warning (maxW maxH : num).

Definition getResolutionStatus (selection : option Rect.t)
    (currentMatch : option Resolution.t) (activeModel : ModelType) : Status :=
  match selection, currentMatch with
  | Some sel, Some currentMatch =>
      let maxW := Resolution.w currentMatch in
      let maxH := Resolution.h currentMatch in
      let scale :=
        match activeModel with
        | NANO_BANANA_2 => if Num.max maxW maxH <=? Fin 2048 then Fin 2 else Fin 1
        | _ => Fin 1
        end in
      let maxW := match activeModel with NANO_BANANA_2 => maxW *' scale | _ => maxW end in
      let maxH := match activeModel with NANO_BANANA_2 => maxH *' scale | _ => maxH end in
      if (Rect.w sel >? maxW +' Fin 2) || (Rect.h sel >? maxH +' Fin 2)
      then warning maxW maxH
      else ok
  | _, _ => ok
  end.

End CanvasUtils.

(* ================================================================== *)
(** ** studioUtils *)

Module StudioUtils.

(** What [compositeLayers] resolves with: [null], the [src] of the single
    layer, or the picture of a canvas of the given size after the listed
    [drawImage] calls, each with the layer drawn and its destination
    rectangle. *)
Inductive Composite :=
| Null
| Source (src : string)
| Canvas (width height : num) (drawn : list (Layer.t * Rect.t)).

Definition isImageLayer (l : Layer.t) : bool :=
  negb (match Layer.type l with video => true | _ => false end) && Layer.visible l.

(** What [canvas.width = v] and [canvas.height = v] store.  The attribute
    is an [unsigned long]: NaN and the infinities become 0, any other
    number loses its fraction (toward zero) and is reduced modulo 2^32; a
    result above 2147483647 is replaced by the default of the attribute,
    300 for the width and 150 for the height. *)
Definition dimension (default : Z) (v : num) : num :=
  match v with
  | Fin q =>
      let n := (Z.quot (Qnum q) (Z.pos (Qden q)) mod 2 ^ 32)%Z in
      Fin (inject_Z (if (n <=? 2147483647)%Z then n else default))
  | _ => Fin 0
  end.

(** [compositeLayers]; [ctx] tells whether the canvas gives a 2d context
    and [loads] which layers' images load. *)
Definition compositeLayers (ctx : bool) (loads : Layer.t -> bool) (layers : list Layer.t)
  : Composite :=
  match layers with
  | [] => Null
  | first :: rest =>
      match rest, orNull (Layer.src first) with
      | [], Some src => Source src
      | _, _ =>
          let imageLayers := filter isImageLayer layers in
          match imageLayers with
          | [] => Null
          | _ :: _ =>
              let b := Bounds.ofAll imageLayers in
              let width := Bounds.maxX b -' Bounds.minX b in
              let height := Bounds.maxY b -' Bounds.minY b in
              if negb ctx then Null
              else
                let layersToDraw := rev imageLayers in
                Canvas (dimension 300 width) (dimension 150 height)
                  (map (fun layer =>
                          (layer,
                           Rect.mk (Layer.x layer -' Bounds.minX b)
                                   (Layer.y layer -' Bounds.minY b)
                                   (Layer.width layer) (Layer.height layer)))
                       (filter loads layersToDraw))
          end
      end
  end.

(** The arguments [x, y, w, h] of the [drawImage] call of
    [cropImageToRatio], from the target size and the size of the loaded
    image. *)
Definition cropImageToRatio_drawImage (targetWidth targetHeight imgWidth imgHeight : num)
  : Rect.t :=
  let scale := Num.max (targetWidth /' imgWidth) (targetHeight /' imgHeight) in
  let w := imgWidth *' scale in
  let h := imgHeight *' scale in
  let x := (targetWidth -' w) /' Fin 2 in
  let y := (targetHeight -' h) /' Fin 2 in
  Rect.mk x y w h.

End StudioUtils.

(* ================================================================== *)
(** ** useCanvasUpload *)

Module Upload.

(** The layer that [img.onload] of [handleImageUpload] builds and puts in
    front of the list: [now] is [Date.now()], [name] the name of the file,
    [src] the data URL read from it, [imgWidth] and [imgHeight] the size of
    the decoded image. *)
Definition newLayer (innerWidth innerHeight : num) (s : Interaction.t)
    (now : Z) (name src : string) (imgWidth imgHeight : num) : Layer.t :=
  let viewportCenterX :=
    (innerWidth /' Fin 2 -' Point.x (Interaction.canvasOffset s)) /' Interaction.zoom s in
  let viewportCenterY :=
    (innerHeight /' Fin 2 -' Point.y (Interaction.canvasOffset s)) /' Interaction.zoom s in
  Layer.mk (Functions.showZ now) name true false image (Some src) None
    (viewportCenterX -' imgWidth /' Fin 2) (viewportCenterY -' imgHeight /' Fin 2)
    imgWidth imgHeight
    (Some (viewportCenterX -' imgWidth /' Fin 2))
    (Some (viewportCenterY -' imgHeight /' Fin 2))
    (Some imgWidth) (Some imgHeight)
    (Some (Fin 0)) (Some fill) None None.

Definition handleImageUpload (innerWidth innerHeight : num) (s : Interaction.t)
    (now : Z) (name src : string) (imgWidth imgHeight : num) (st : Store.t) : Store.t :=
  let l := newLayer innerWidth innerHeight s now name src imgWidth imgHeight in
  Store.setRedoStack []
    (Store.setSelectedLayerIds [Layer.id l]
       (Store.setLayers (l :: Store.layers st) st)).

End Upload.

(* ================================================================== *)
(** ** The Cloud Functions that charge credits

    The three callables are modelled over the document [users/uid] of the
    caller and over what their awaited calls to the outside give.  Errors
    are written as the client receives them: an [HttpsError] of status [s]
    arrives with the code [functions/s].  A [TypeError] is no [HttpsError]
    and no [catch] of the functions meets it.  The calls to Firestore
    themselves are taken to succeed. *)

Module Server.

Definition IMAGE_COST : Z := 1.
Definition VIDEO_COST : Z := 10.
Definition SPECIAL_EMAIL : string := "castilho.arq.br@gmail.com".
Definition SPECIAL_CREDITS : Z := 5000.

(** [new HttpsError(status, message)] *)
Definition HttpsError (status message : string) : JsError.t :=
  JsError.mk message (Some ("functions/" ++ status)).

(** The document of the caller: [None] while it does not exist, and
    otherwise its [credits] field, which may be missing. *)
Definition UserDoc := option (option Z).

(** [userDoc.data()?.credits ?? 0] *)
Definition creditsOf (field : option Z) : Z :=
  match field with
  | Some c => c
  | None => 0%Z
  end.

(** [request.auth]: the uid and [token.email]. *)
Record Auth := mkAuth { uid : string; email : option string }.

Definition ensureUserDoc (email : option string) (doc : UserDoc) : UserDoc * Z :=
  match doc with
  | None =>
      let initialCredits :=
        match email with
        | Some e => if String.eqb e SPECIAL_EMAIL then SPECIAL_CREDITS else 0%Z
        | None => 0%Z
        end in
      (Some (Some initialCredits), initialCredits)
  | Some field => (doc, creditsOf field)
  end.

(** What a function throws: an [HttpsError], or the [TypeError] of
    [const { ... } = request.data] when [request.data] is [null] or
    [undefined].  The statement stands after the charge and outside [try]. *)
Inductive Thrown :=
| Https (e : JsError.t)
| TypeError.

(** [deductCredits(uid, cost)]: the transaction. *)
Definition deductCredits (cost : Z) (doc : UserDoc) : UserDoc * (JsError.t + Z) :=
  match doc with
  | None => (doc, inl (HttpsError "not-found" "Usuário não encontrado."))
  | Some field =>
      match Functions.deductCredits (creditsOf field) cost with
      | inl e => (doc, inl e)
      | inr newCredits => (Some (Some newCredits), inr newCredits)
      end
  end.

(** [update({ credits: FieldValue.increment(cost) })] *)
Definition refund (cost : Z) (doc : UserDoc) : UserDoc :=
  match doc with
  | Some field => Some (Some (creditsOf field + cost)%Z)
  | None => None
  end.

(** An awaited call inside [try]: it throws something that is not an
    [HttpsError], or it gives a value. *)
Inductive Awaited (A : Type) :=
| Threw (e : JsError.t)
| Gave (a : A).
Arguments Threw {A} e.
Arguments Gave {A} a.

(** {2 generateImage} *)

Record InlineData := mkInlineData { mimeType : option string; data : option string }.
Record Part := mkPart { inlineData : option InlineData }.

(** A candidate of the response: its [content.parts], if it has any. *)
Definition Candidate := option (list Part).

(** The [for (const part of content.parts)] loop. *)
Fixpoint firstImage (parts : list Part) : option string :=
  match parts with
  | [] => None
  | part :: rest =>
      match inlineData part with
      | Some d =>
          match orNull (data d) with
          | Some payload =>
              Some ("data:"
                    ++ match orNull (mimeType d) with Some m => m | None => "image/png" end
                    ++ ";base64," ++ payload)
          | None => firstImage rest
          end
      | None => firstImage rest
      end
  end.

Record ImageResult := mkImageResult { imageBase64 : string; imageRemainingCredits : Z }.

(** [generateImage]: [data] is [request.data], [None] when it is [null]
    or [undefined] and its fields otherwise; [api] is what the call to the
    image model gives, with the [candidates] of its response. *)
Definition generateImage {D : Type} (auth : option Auth) (data : option D)
    (api : Awaited (option (list Candidate))) (doc : UserDoc)
  : UserDoc * (Thrown + ImageResult) :=
  match auth with
  | None => (doc, inl (Https (HttpsError "unauthenticated" "Você precisa estar logado.")))
  | Some a =>
      let doc := fst (ensureUserDoc (email a) doc) in
      match deductCredits IMAGE_COST doc with
      | (doc, inl e) => (doc, inl (Https e))
      | (doc, inr remainingCredits) =>
          match data with
          | None => (doc, inl TypeError)
          | Some _ =>
              match api with
              | Threw error =>
                  (refund IMAGE_COST doc,
                   inl (Https (HttpsError "internal"
                                 (orElse (JsError.message error) "Erro ao gerar imagem."))))
              | Gave response =>
                  let found :=
                    match response with
                    | Some (Some parts :: _) => firstImage parts
                    | _ => None
                    end in
                  match found with
                  | Some base64 => (doc, inr (mkImageResult base64 remainingCredits))
                  | None =>
                      (refund IMAGE_COST doc,
                       inl (Https (HttpsError "internal"
                                     "A API não retornou nenhuma imagem. Tente novamente.")))
                  end
              end
          end
      end
  end.

(** {2 The video job} *)

(** A [fetch] and the reading of its body: one of the two throws, or the
    response is not [ok], or it is and the body is read. *)
Inductive Fetched (A : Type) :=
| FetchThrew (e : JsError.t)
| NotOk (status : Z)
| Ok (body : A).
Arguments FetchThrew {A} e.
Arguments NotOk {A} status.
Arguments Ok {A} body.

(** What a video job observes: the API key, the [request_id] returned by
    the submission, the status read by the poll number [i], the
    [video.url] of the result, the download, the write to the bucket (the
    error it throws, if it does), the name of the bucket and
    [Date.now()]. *)
Record Job := mkJob {
  FAL_API_KEY : option string;
  submit : Fetched string;
  poll : nat -> Fetched string;
  result : Fetched (option string);
  download : Fetched unit;
  store : option JsError.t;
  bucketName : string;
  now : Z }.

(** The texts in which the two video functions differ. *)
Record Wording := mkWording {
  submitRefused : string;
  jobFailed : string;
  resultRefused : string;
  noVideo : string;
  suffix : string;
  fallback : string }.

Definition single : Wording :=
  mkWording "Erro ao submeter para Kling: "
            "Kling: geração falhou. Tente com outro prompt."
            "Erro ao buscar resultado do Kling."
            "Nenhum vídeo retornado pelo Kling. Tente novamente."
            ".mp4"
            "Erro ao gerar vídeo.".

Definition multi : Wording :=
  mkWording "Erro ao submeter multi-shot: "
            "Kling multi-shot falhou. Tente com outros prompts."
            "Erro ao buscar resultado multi-shot."
            "Nenhum vídeo multi-shot retornado."
            "_multishot.mp4"
            "Erro ao gerar multi-shot.".

Inductive Polled :=
| Settled               (* COMPLETED was read, or the polls ran out *)
| JobFailed             (* FAILED was read *)
| PollThrew (e : JsError.t).

(** [for (let i = 0; i < maxPolls; i++)], from poll [i] with [n] polls
    left. *)
Fixpoint polling (poll : nat -> Fetched string) (n i : nat) : Polled :=
  match n with
  | O => Settled
  | S n' =>
      match poll i with
      | FetchThrew e => PollThrew e
      | NotOk _ => polling poll n' (S i)
      | Ok status =>
          if String.eqb status "COMPLETED" then Settled
          else if String.eqb status "FAILED" then JobFailed
          else polling poll n' (S i)
      end
  end.

Definition maxPolls : nat := 96.

(** What the body of [try] ends with. *)
Inductive Tried :=
| Returned (videoUrl : string)
| ThrewHttps (refunded : bool) (e : JsError.t)   (* [throw new HttpsError], after a refund or not *)
| ThrewOther (e : JsError.t).

(** From the submission to the public URL. *)
Definition runJob (w : Wording) (uid : string) (job : Job) : Tried :=
  match submit job with
  | FetchThrew e => ThrewOther e
  | NotOk status =>
      ThrewHttps true (HttpsError "internal" (submitRefused w ++ Functions.showZ status))
  | Ok requestId =>
      match polling (poll job) maxPolls 0 with
      | PollThrew e => ThrewOther e
      | JobFailed => ThrewHttps true (HttpsError "internal" (jobFailed w))
      | Settled =>
          match result job with
          | FetchThrew e => ThrewOther e
          | NotOk _ => ThrewHttps true (HttpsError "internal" (resultRefused w))
          | Ok videoUrl =>
              match orNull videoUrl with
              | None => ThrewHttps true (HttpsError "internal" (noVideo w))
              | Some _ =>
                  match download job with
                  | FetchThrew e => ThrewOther e
                  | NotOk status =>
                      ThrewHttps true
                        (HttpsError "internal"
                           ("Erro ao baixar vídeo: " ++ Functions.showZ status))
                  | Ok _ =>
                      match store job with
                      | Some e => ThrewOther e
                      | None =>
                          let videoFileName :=
                            "videos/" ++ uid ++ "/" ++ Functions.showZ (now job)
                              ++ "_" ++ requestId ++ suffix w in
                          Returned ("https://storage.googleapis.com/" ++ bucketName job
                                      ++ "/" ++ videoFileName)
                      end
                  end
              end
          end
      end
  end.

Record VideoResult := mkVideoResult { videoUrl : string; remainingCredits : Z }.

(** [try { ... } catch (error) { ... }] around the body: an [HttpsError]
    is rethrown as it is, anything else is refunded and wrapped. *)
Definition settle (w : Wording) (remaining : Z) (doc : UserDoc) (t : Tried)
  : UserDoc * (Thrown + VideoResult) :=
  match t with
  | Returned url => (doc, inr (mkVideoResult url remaining))
  | ThrewHttps refunded e =>
      ((if refunded then refund VIDEO_COST doc else doc), inl (Https e))
  | ThrewOther error =>
      (refund VIDEO_COST doc,
       inl (Https (HttpsError "internal" (orElse (JsError.message error) (fallback w)))))
  end.

(** {2 generateVideo} *)

(** [data] is [request.data], [None] when it is [null] or [undefined]. *)
Definition generateVideo {D : Type} (auth : option Auth) (data : option D) (job : Job)
    (doc : UserDoc) : UserDoc * (Thrown + VideoResult) :=
  match auth with
  | None => (doc, inl (Https (HttpsError "unauthenticated" "Você precisa estar logado.")))
  | Some a =>
      let doc := fst (ensureUserDoc (email a) doc) in
      match deductCredits VIDEO_COST doc with
      | (doc, inl e) => (doc, inl (Https e))
      | (doc, inr remainingCredits) =>
          match data with
          | None => (doc, inl TypeError)
          | Some _ =>
              match orNull (FAL_API_KEY job) with
              | None =>
                  (refund VIDEO_COST doc,
                   inl (Https (HttpsError "internal"
                                 "FAL_API_KEY não configurada no servidor.")))
              | Some _ => settle single remainingCredits doc (runJob single (uid a) job)
              end
          end
      end
  end.

(** {2 generateVideoMultiShot} *)

(** [data] is [request.data], [None] when it is [null] or [undefined], and
    otherwise its field [scenes]: [None] when the request carries none or
    something that is not an array. *)
Definition generateVideoMultiShot (auth : option Auth)
    (data : option (option (list Shot.t))) (job : Job) (doc : UserDoc)
  : UserDoc * (Thrown + VideoResult) :=
  match auth with
  | None => (doc, inl (Https (HttpsError "unauthenticated" "Você precisa estar logado.")))
  | Some a =>
      let doc := fst (ensureUserDoc (email a) doc) in
      match deductCredits VIDEO_COST doc with
      | (doc, inl e) => (doc, inl (Https e))
      | (doc, inr remainingCredits) =>
          match data with
          | None => (doc, inl TypeError)
          | Some scenes =>
              let tooFew :=
                match scenes with
                | Some l => (List.length l <? 2)%nat
                | None => true
                end in
              if tooFew then
                (refund VIDEO_COST doc,
                 inl (Https (HttpsError "invalid-argument"
                               "Multi-shot requer pelo menos 2 cenas.")))
              else
                let scenes := match scenes with Some l => l | None => [] end in
                if (6 <? List.length scenes)%nat then
                  (refund VIDEO_COST doc,
                   inl (Https (HttpsError "invalid-argument"
                                 "Multi-shot suporta no máximo 6 cenas.")))
                else
                  match orNull (FAL_API_KEY job) with
                  | None =>
                      (refund VIDEO_COST doc,
                       inl (Https (HttpsError "internal"
                                     "FAL_API_KEY não configurada no servidor.")))
                  | Some _ =>
                      settle multi remainingCredits doc
                        match Studio.totalDuration scenes with
                        | Some totalDuration =>
                            if (15 <? totalDuration)%Z then
                              ThrewHttps false
                                (HttpsError "invalid-argument"
                                   ("Duração total " ++ Functions.showZ totalDuration
                                      ++ "s excede o máximo de 15s para multi-shot."))
                            else if (totalDuration <? 3)%Z then
                              ThrewHttps false
                                (HttpsError "invalid-argument"
                                   ("Duração total " ++ Functions.showZ totalDuration
                                      ++ "s abaixo do mínimo de 3s."))
                            else runJob multi (uid a) job
                        | None => runJob multi (uid a) job
                        end
                  end
          end
      end
  end.

(** The balance a document stands for. *)
Definition balance (doc : UserDoc) : Z :=
  match doc with
  | Some field => creditsOf field
  | None => 0%Z
  end.

(** The request is turned away for the total duration of its shots. *)
Definition durationRejected (scenes : option (list Shot.t)) : bool :=
  match scenes with
  | Some l =>
      match Studio.totalDuration l with
      | Some t => (15 <? t)%Z || (t <? 3)%Z
      | None => false
      end
  | None => false
  end.

End Server.

(** ** More sample values: a video job *)

Module Backstage.

Definition caller : Server.Auth := Server.mkAuth "u1" (Some "ana@example.com").

(** A job that goes through: submitted, completed at the second poll,
    resolved, downloaded and stored. *)
Definition smooth : Server.Job :=
  Server.mkJob (Some "key") (Server.Ok "r1")
    (fun i => match i with
              | O => Server.Ok "IN_PROGRESS"
              | S _ => Server.Ok "COMPLETED"
              end)
    (Server.Ok (Some "https://fal.media/v.mp4")) (Server.Ok tt) None
    "bucket" 1700000000000.

(** A request of two shots of one second each, and one of two shots of
    five seconds each. *)
Definition tooShort : option (list Shot.t) :=
  Some [Shot.mk "walk" "1"; Shot.mk "run" "1"].

Definition fine : option (list Shot.t) :=
  Some [Shot.mk "walk" "5"; Shot.mk "run" "5"].

End Backstage.

(* ================================================================== *)
(** ** The project history (services/projectHistory)

    [localStorage] holds, under each key, the JSON text of a value; the
    model keeps the value itself, that is, it takes [JSON.parse] of
    [JSON.stringify] to give the value back and [setItem] to succeed.  The
    keys are [visualizae_project_history], [visualizae_project_<id>] and
    [visualizae_studio_<id>], in one store: the layer key of the project
    with id [history] is the key of the history list. *)

Module ProjectHistory.

Definition HISTORY_KEY : string := "visualizae_project_history".
Definition PROJECT_KEY_PREFIX : string := "visualizae_project_".
Definition STUDIO_KEY_PREFIX : string := "visualizae_studio_".
Definition MAX_PROJECTS : nat := 10.

Record Entry := mkEntry {
  id : string;
  name : string;
  thumbnail : string;
  createdAt : Z;
  updatedAt : Z;
  userId : string;
  layerCount : nat;
  canvasSize : num * num;
  studioOrientation : option Studio.Orientation }.

(** [ProjectLayerData] *)
Record LayerData := mkLayerData {
  ld_id : string;
  ld_name : string;
  ld_visible : bool;
  ld_locked : bool;
  ld_type : LayerType;
  ld_storagePath : option string;
  ld_thumbnail : option string;
  ld_x : num;
  ld_y : num;
  ld_width : num;
  ld_height : num;
  ld_initialX : option num;
  ld_initialY : option num;
  ld_initialWidth : option num;
  ld_initialHeight : option num;
  ld_feather : option num;
  ld_renderMode : option RenderMode;
  ld_isPlaying : option bool }.

(** [StudioSceneData] *)
Record SceneData := mkSceneData {
  sd_id : string;
  sd_shots : list Shot.t;
  sd_selectedVideoIndex : Z;
  sd_variationCount : nat;
  sd_startFrameStoragePath : option string;
  sd_endFrameStoragePath : option string;
  sd_videoStoragePaths : list string }.

(** The value under a key, by the function that wrote it:
    [saveHistoryList], [saveProjectLayers] or [saveStudioData]. *)
Inductive Item :=
| Entries (list : list Entry)
| Layers (layers : list LayerData)
| Scenes (scenes : list SceneData).

(** [localStorage] *)
Definition Storage := string -> option Item.

Definition empty : Storage := fun _ => None.

Definition setItem (key : string) (v : Item) (st : Storage) : Storage :=
  fun k => if String.eqb k key then Some v else st k.

Definition removeItem (key : string) (st : Storage) : Storage :=
  fun k => if String.eqb k key then None else st k.

(** What a getter finds under its key: nothing, the value that its own
    setter wrote, or the value of another setter.  The last happens under
    [visualizae_project_history] only; the code then goes on with entries
    in the place of layer data, or the reverse, and the model does not
    follow it: a function that meets such a value gives [None]. *)
Inductive Read (A : Type) :=
| Null
| Parsed (a : A)
| Foreign.
Arguments Null {A}.
Arguments Parsed {A} a.
Arguments Foreign {A}.

(** [raw ? JSON.parse(raw) : []] *)
Definition getHistoryList (st : Storage) : Read (list Entry) :=
  match st HISTORY_KEY with
  | None => Parsed []
  | Some (Entries list) => Parsed list
  | Some _ => Foreign
  end.

Definition saveHistoryList (list : list Entry) (st : Storage) : Storage :=
  setItem HISTORY_KEY (Entries list) st.

(** [raw ? JSON.parse(raw) : null] *)
Definition getProjectLayers (projectId : string) (st : Storage) : Read (list LayerData) :=
  match st (PROJECT_KEY_PREFIX ++ projectId) with
  | None => Null
  | Some (Layers layers) => Parsed layers
  | Some _ => Foreign
  end.

Definition saveProjectLayers (projectId : string) (layers : list LayerData) (st : Storage)
  : Storage :=
  setItem (PROJECT_KEY_PREFIX ++ projectId) (Layers layers) st.

Definition deleteProjectLayers (projectId : string) (st : Storage) : Storage :=
  removeItem (STUDIO_KEY_PREFIX ++ projectId)
    (removeItem (PROJECT_KEY_PREFIX ++ projectId) st).

Definition getStudioData (projectId : string) (st : Storage) : Read (list SceneData) :=
  match st (STUDIO_KEY_PREFIX ++ projectId) with
  | None => Null
  | Some (Scenes scenes) => Parsed scenes
  | Some _ => Foreign
  end.

Definition saveStudioData (projectId : string) (scenes : list SceneData) (st : Storage)
  : Storage :=
  setItem (STUDIO_KEY_PREFIX ++ projectId) (Scenes scenes) st.

(** [localStorage.removeItem(STUDIO_KEY_PREFIX + projectId)] *)
Definition removeStudioData (projectId : string) (st : Storage) : Storage :=
  removeItem (STUDIO_KEY_PREFIX ++ projectId) st.

(** [history.findIndex(p => p.id === projectId)] *)
Fixpoint findIndex (projectId : string) (l : list Entry) : option nat :=
  match l with
  | [] => None
  | p :: rest =>
      if String.eqb (id p) projectId then Some 0%nat
      else option_map S (findIndex projectId rest)
  end.

(** [history[i] = entry] for an index inside the array. *)
Fixpoint assign (i : nat) (entry : Entry) (l : list Entry) : list Entry :=
  match l, i with
  | [], _ => []
  | _ :: rest, O => entry :: rest
  | p :: rest, S i' => p :: assign i' entry rest
  end.

(** [while (history.length > MAX_PROJECTS) { const removed = history.pop();
    deleteProjectLayers(removed.id); ... }]; [fuel] bounds the number of
    turns, and the length of the list is enough. *)
Fixpoint evict (fuel : nat) (history : list Entry) (st : Storage) : list Entry * Storage :=
  match fuel with
  | O => (history, st)
  | S fuel' =>
      if (MAX_PROJECTS <? List.length history)%nat then
        match rev history with
        | removed :: _ =>
            evict fuel' (removelast history) (deleteProjectLayers (id removed) st)
        | [] => (history, st)
        end
      else (history, st)
  end.

Definition toLayerData (layer : Layer.t) : LayerData :=
  mkLayerData (Layer.id layer) (Layer.name layer) (Layer.visible layer) (Layer.locked layer)
    (Layer.type layer) None (Layer.thumbnail layer)
    (Layer.x layer) (Layer.y layer) (Layer.width layer) (Layer.height layer)
    (Layer.initialX layer) (Layer.initialY layer)
    (Layer.initialWidth layer) (Layer.initialHeight layer)
    (Layer.feather layer) (Layer.renderMode layer) (Layer.isPlaying layer).

(** [frame && frame.startsWith('data:') ? frame : undefined] *)
Definition inlineFrame (frame : option string) : option string :=
  match orNull frame with
  | Some f => if Str.startsWith "data:" f then Some f else None
  | None => None
  end.

Definition toSceneData (scene : Scene.t) : SceneData :=
  mkSceneData (Scene.id scene) (Scene.shots scene) (Scene.selectedVideoIndex scene)
    (Scene.variationCount scene)
    (inlineFrame (Scene.startFrame scene)) (inlineFrame (Scene.endFrame scene))
    (filter (Str.startsWith "https://") (Scene.videos scene)).

(** [existingProjectId || crypto.randomUUID()] *)
Definition projectIdOf (existingProjectId : option string) (randomUUID : string) : string :=
  match orNull existingProjectId with
  | Some i => i
  | None => randomUUID
  end.

(** [saveProject]: [now] is [Date.now()], [randomUUID] what
    [crypto.randomUUID()] gives, and [stamp] the date and the time of [now]
    as the locale prints them.  The uploads it starts in the background
    are the steps [uploaded] below. *)
Definition saveProject (now : Z) (randomUUID stamp : string)
    (userId : string) (layers : list Layer.t) (thumbnail : string)
    (canvasSize : num * num) (existingProjectId : option string)
    (scenes : option (list Scene.t)) (studioOrientation : option Studio.Orientation)
    (st : Storage) : option (string * Storage) :=
  match getHistoryList st with
  | Parsed history =>
      let projectId := projectIdOf existingProjectId randomUUID in
      let existingIndex := findIndex projectId history in
      let existing :=
        match existingIndex with
        | Some i => nth_error history i
        | None => None
        end in
      let name :=
        match existing with
        | Some p => name p
        | None => "Projeto " ++ stamp
        end in
      let st := saveProjectLayers projectId (map toLayerData layers) st in
      let entry :=
        mkEntry projectId name thumbnail
          (match existing with Some p => createdAt p | None => now end)
          now userId (List.length layers) canvasSize studioOrientation in
      let history :=
        match existingIndex with
        | Some i => assign i entry history
        | None => entry :: history
        end in
      let '(history, st) := evict (List.length history) history st in
      let st := saveHistoryList history st in
      let st :=
        match scenes with
        | Some ((_ :: _) as l) => saveStudioData projectId (map toSceneData l) st
        | _ => removeStudioData projectId st
        end in
      Some (projectId, st)
  | _ => None
  end.

(** One upload of [uploadLayerImagesInBackground] that has completed:
    the storage path is written into the saved layer, if the project and
    the layer are still there. *)
Fixpoint setStoragePath (layerId storagePath : string) (l : list LayerData)
  : option (list LayerData) :=
  match l with
  | [] => None
  | d :: rest =>
      if String.eqb (ld_id d) layerId then
        Some (mkLayerData (ld_id d) (ld_name d) (ld_visible d) (ld_locked d) (ld_type d)
                (Some storagePath) (ld_thumbnail d)
                (ld_x d) (ld_y d) (ld_width d) (ld_height d)
                (ld_initialX d) (ld_initialY d) (ld_initialWidth d) (ld_initialHeight d)
                (ld_feather d) (ld_renderMode d) (ld_isPlaying d) :: rest)
      else option_map (cons d) (setStoragePath layerId storagePath rest)
  end.

Definition uploaded (projectId layerId storagePath : string) (st : Storage)
  : option Storage :=
  match getProjectLayers projectId st with
  | Foreign => None
  | Null => Some st
  | Parsed savedLayers =>
      match setStoragePath layerId storagePath savedLayers with
      | Some l => Some (saveProjectLayers projectId l st)
      | None => Some st
      end
  end.

Record Loaded := mkLoaded {
  layers : list Layer.t;
  scenes : list Scene.t;
  loadedOrientation : Studio.Orientation }.

(** The layer rebuilt from its saved data; [download] gives the URL of a
    storage path, or [None] when the download throws. *)
Definition toLayer (download : string -> option string) (ld : LayerData) : Layer.t :=
  Layer.mk (ld_id ld) (ld_name ld) (ld_visible ld) (ld_locked ld) (ld_type ld)
    (match orNull (ld_storagePath ld) with
     | Some path => download path
     | None => None
     end)
    (ld_thumbnail ld)
    (ld_x ld) (ld_y ld) (ld_width ld) (ld_height ld)
    (ld_initialX ld) (ld_initialY ld) (ld_initialWidth ld) (ld_initialHeight ld)
    (ld_feather ld) (ld_renderMode ld) (ld_isPlaying ld) None.

Definition toScene (sd : SceneData) : Scene.t :=
  Scene.mk (sd_id sd)
    (orNull (sd_startFrameStoragePath sd)) (orNull (sd_endFrameStoragePath sd))
    (sd_shots sd) (sd_videoStoragePaths sd)
    (match sd_videoStoragePaths sd with
     | _ :: _ => sd_selectedVideoIndex sd
     | [] => (-1)%Z
     end)
    false
    (match sd_variationCount sd with O => 2%nat | n => n end).

(** [history[idx].updatedAt = Date.now()] *)
Definition touch (now : Z) (p : Entry) : Entry :=
  mkEntry (id p) (name p) (thumbnail p) (createdAt p) now (userId p) (layerCount p)
    (canvasSize p) (studioOrientation p).

(** [loadProject]: the storage it leaves and what it resolves or rejects
    with. *)
Definition loadProject (now : Z) (download : string -> option string)
    (projectId : string) (st : Storage) : option (Storage * (JsError.t + Loaded)) :=
  match getProjectLayers projectId st with
  | Foreign => None
  | Null => Some (st, inl (JsError.mk "Projeto não encontrado" None))
  | Parsed layerData =>
      let layers := map (toLayer download) layerData in
      match getStudioData projectId st with
      | Foreign => None
      | studioData =>
          match getHistoryList st with
          | Parsed history =>
              let found :=
                match findIndex projectId history with
                | Some idx => nth_error history idx
                | None => None
                end in
              let st :=
                match findIndex projectId history, found with
                | Some idx, Some p => saveHistoryList (assign idx (touch now p) history) st
                | _, _ => st
                end in
              let studioOrientation :=
                match found with
                | Some p =>
                    match studioOrientation p with
                    | Some o => o
                    | None => Studio.Auto
                    end
                | None => Studio.Auto
                end in
              let scenes :=
                match studioData with
                | Parsed ((_ :: _) as l) => map toScene l
                | _ => []
                end in
              Some (st, inr (mkLoaded layers scenes studioOrientation))
          | _ => None
          end
      end
  end.

Definition deleteProject (projectId : string) (st : Storage) : option Storage :=
  match getHistoryList st with
  | Parsed list =>
      let history := filter (fun p => negb (String.eqb (id p) projectId)) list in
      Some (deleteProjectLayers projectId (saveHistoryList history st))
  | _ => None
  end.

Definition rename (newName : string) (p : Entry) : Entry :=
  mkEntry (id p) newName (thumbnail p) (createdAt p) (updatedAt p) (userId p)
    (layerCount p) (canvasSize p) (studioOrientation p).

Definition renameProject (projectId newName : string) (st : Storage) : option Storage :=
  match getHistoryList st with
  | Parsed history =>
      match findIndex projectId history with
      | Some idx =>
          match nth_error history idx with
          | Some p => Some (saveHistoryList (assign idx (rename newName p) history) st)
          | None => Some st
          end
      | None => Some st
      end
  | _ => None
  end.

(** The calls that change the storage, as the application makes them. *)
Inductive Op :=
| Save (now : Z) (randomUUID stamp userId : string) (layers : list Layer.t)
       (thumbnail : string) (canvasSize : num * num) (existingProjectId : option string)
       (scenes : option (list Scene.t)) (studioOrientation : option Studio.Orientation)
| Uploaded (projectId layerId storagePath : string)
| Load (now : Z) (download : string -> option string) (projectId : string)
| Delete (projectId : string)
| Rename (projectId newName : string).

(** The project that a call is about. *)
Definition target (op : Op) : string :=
  match op with
  | Save _ randomUUID _ _ _ _ _ existingProjectId _ _ =>
      projectIdOf existingProjectId randomUUID
  | Uploaded projectId _ _ => projectId
  | Load _ _ projectId => projectId
  | Delete projectId => projectId
  | Rename projectId _ => projectId
  end.

Definition step (st : Storage) (op : Op) : option Storage :=
  match op with
  | Save now randomUUID stamp userId layers thumbnail canvasSize existingProjectId
         scenes studioOrientation =>
      option_map snd
        (saveProject now randomUUID stamp userId layers thumbnail canvasSize
           existingProjectId scenes studioOrientation st)
  | Uploaded projectId layerId storagePath => uploaded projectId layerId storagePath st
  | Load now download projectId => option_map fst (loadProject now download projectId st)
  | Delete projectId => deleteProject projectId st
  | Rename projectId newName => renameProject projectId newName st
  end.

(** The calls one after the other, from the empty storage. *)
Definition run (ops : list Op) : option Storage :=
  fold_left (fun acc op => match acc with Some st => step st op | None => None end)
    ops (Some empty).

(** What the getters give on a storage. *)
Definition history (st : Storage) : list Entry :=
  match getHistoryList st with
  | Parsed list => list
  | _ => []
  end.

Definition projectLayers (st : Storage) (projectId : string) : option (list LayerData) :=
  match getProjectLayers projectId st with
  | Parsed layers => Some layers
  | _ => None
  end.

Definition studioData (st : Storage) (projectId : string) : option (list SceneData) :=
  match getStudioData projectId st with
  | Parsed scenes => Some scenes
  | _ => None
  end.

(** Each key holds a value of its own kind. *)
Record Sorted (st : Storage) : Prop := {
  so_history : getHistoryList st <> Foreign;
  so_layers : forall k, k <> "history" -> getProjectLayers k st <> Foreign;
  so_studio : forall k, getStudioData k st <> Foreign }.

(** The history and the stored projects agree: each key holds a value of
    its own kind, there are at most [MAX_PROJECTS] entries, with ids that
    differ, and layer data and studio data are stored for listed projects
    only, layer data for each of them. *)
Record Consistent (st : Storage) : Prop := {
  cs_sorted : Sorted st;
  cs_length : (List.length (history st) <= MAX_PROJECTS)%nat;
  cs_nodup : NoDup (map id (history st));
  cs_layers : forall k, projectLayers st k <> None <-> In k (map id (history st));
  cs_studio : forall k, studioData st k <> None -> In k (map id (history st)) }.

(** A scene that the storage keeps whole: its frames are absent or data
    URLs, its videos are [https] URLs, it is not being generated, it asks
    for at least one variation, and without videos none is selected. *)
Definition portable (s : Scene.t) : Prop :=
  inlineFrame (Scene.startFrame s) = Scene.startFrame s /\
  inlineFrame (Scene.endFrame s) = Scene.endFrame s /\
  Forall (fun v => Str.startsWith "https://" v = true) (Scene.videos s) /\
  Scene.isGenerating s = false /\
  Scene.variationCount s <> 0%nat /\
  (Scene.videos s = [] -> Scene.selectedVideoIndex s = (-1)%Z).

End ProjectHistory.

(* ================================================================== *)
(** ** Rounding *)

Module JsMath.

(** [Math.round]: the nearest integer, a half going up. *)
Definition round (a : num) : num :=
  match a with
  | Fin q => Fin (inject_Z (Qfloor (q + (1 # 2))))
  | other => other
  end.

End JsMath.

(* ================================================================== *)
(** ** useCanvasGeneration: the 4K upscale *)

Module Upscale.

Inductive Alert :=
| SelectionRequired   (* "Desenhe um retângulo de seleção ..." *)
| NothingSelected     (* "Nenhum conteúdo encontrado na seleção." *)
| UpscaleFailed       (* "Upscale falhou. Tente novamente." *)
| UpscaleError.       (* "Erro no upscale 4K. Verifique o console." *)

(** What the run observes: the index drawn by [Math.random], the canvas
    snapshot, whether the canvas gives a 2d context, whether the snapshot
    loads as an image, the outcome of the callable, and [Date.now()]. *)
Record Env := mkEnv {
  randomIndex : nat;
  snapshot : option string;
  context : bool;
  imageLoads : bool;
  callable : Outcome;
  now : Z }.

Record Run := mkRun {
  final : Generation.t;
  alerts : list Alert }.

Definition TARGET_PIXELS : num := Fin 8000000.
Definition MAX_SIDE : num := Fin 4096.

Section Runtime.

Variable Math_sqrt : num -> num.

(** [targetW] and [targetH], after the two corrections. *)
Definition target (selRect : Rect.t) : num * num :=
  let ratio := Rect.w selRect /' Rect.h selRect in
  let targetW := JsMath.round (Math_sqrt (TARGET_PIXELS *' ratio)) in
  let targetH := JsMath.round (targetW /' ratio) in
  let '(targetW, targetH) :=
    if targetW >? MAX_SIDE then (MAX_SIDE, JsMath.round (MAX_SIDE /' ratio))
    else (targetW, targetH) in
  if targetH >? MAX_SIDE then (JsMath.round (MAX_SIDE *' ratio), MAX_SIDE)
  else (targetW, targetH).

Definition newLayer (selRect : Rect.t) (result : string) (now : Z) : Layer.t :=
  let '(targetW, targetH) := target selRect in
  Layer.mk (Functions.showZ now) "4K Upscale" true false generation (Some result) None
    (Rect.x selRect) (Rect.y selRect) targetW targetH
    (Some (Rect.x selRect)) (Some (Rect.y selRect)) (Some targetW) (Some targetH)
    (Some (Fin 0)) (Some fill) None None.

(** The body of [try], with the alert it raises, if any; [None] stands
    for the [catch] block being entered. *)
Definition attempt (env : Env) (selRect : Rect.t) (s : Generation.t)
  : option (Generation.t * list Alert) :=
  match orNull (snapshot env) with
  | None => Some (s, [NothingSelected])
  | Some _ =>
      if negb (context env) then None
      else if negb (imageLoads env) then None
      else
        match Gemini.generateImageContent (callable env) with
        | inl _ => None
        | inr (Some result) =>
            Some (Generation.setStore
                    (Store.setRedoStack []
                       (Store.setSelectedLayerIds
                          [Layer.id (newLayer selRect result (now env))]
                          (Store.setLayers
                             (newLayer selRect result (now env)
                              :: Store.layers (Generation.store s))
                             (Generation.store s)))) s,
                  [])
        | inr None => Some (s, [UpscaleFailed])
        end
  end.

Definition handleUpscale4K (env : Env) (s : Generation.t) : Run :=
  match Generation.selection s with
  | None => mkRun s [SelectionRequired]
  | Some selection =>
      let randomEffect := nth (randomIndex env) Generation.ALL_EFFECTS "" in
      let s := Generation.setGeneratingEffect randomEffect (Generation.setIsGenerating true s) in
      let '(s, shown) :=
        match attempt env selection s with
        | Some r => r
        | None => (s, [UpscaleError])
        end in
      mkRun (Generation.setGeneratingEffect ""
               (Generation.setSelection None (Generation.setIsGenerating false s)))
            shown
  end.

End Runtime.

End Upscale.

(* ================================================================== *)
(** ** useCanvasLayers: updating a layer *)

Module LayerEdit.

(** [Partial<Layer>]: a key that is absent is [None]; an optional field
    whose key is present holds the value written, [undefined] included.
    No caller writes [undefined] to a field that [Layer] requires. *)
Record Partial := mkPartial {
  p_id : option string;
  p_name : option string;
  p_visible : option bool;
  p_locked : option bool;
  p_type : option LayerType;
  p_src : option (option string);
  p_thumbnail : option (option string);
  p_x : option num;
  p_y : option num;
  p_width : option num;
  p_height : option num;
  p_initialX : option (option num);
  p_initialY : option (option num);
  p_initialWidth : option (option num);
  p_initialHeight : option (option num);
  p_feather : option (option num);
  p_renderMode : option (option RenderMode);
  p_isPlaying : option (option bool);
  p_decorData : option (option DecorData.t) }.

(** [{}] *)
Definition nothing : Partial :=
  mkPartial None None None None None None None None None None None None None None
            None None None None None.

Definition over {A : Type} (update : option A) (current : A) : A :=
  match update with
  | Some v => v
  | None => current
  end.

(** [{ ...l, ...updates }] *)
Definition spread (l : Layer.t) (updates : Partial) : Layer.t :=
  Layer.mk (over (p_id updates) (Layer.id l)) (over (p_name updates) (Layer.name l))
    (over (p_visible updates) (Layer.visible l)) (over (p_locked updates) (Layer.locked l))
    (over (p_type updates) (Layer.type l)) (over (p_src updates) (Layer.src l))
    (over (p_thumbnail updates) (Layer.thumbnail l))
    (over (p_x updates) (Layer.x l)) (over (p_y updates) (Layer.y l))
    (over (p_width updates) (Layer.width l)) (over (p_height updates) (Layer.height l))
    (over (p_initialX updates) (Layer.initialX l))
    (over (p_initialY updates) (Layer.initialY l))
    (over (p_initialWidth updates) (Layer.initialWidth l))
    (over (p_initialHeight updates) (Layer.initialHeight l))
    (over (p_feather updates) (Layer.feather l))
    (over (p_renderMode updates) (Layer.renderMode l))
    (over (p_isPlaying updates) (Layer.isPlaying l))
    (over (p_decorData updates) (Layer.decorData l)).

Definition handleUpdateLayer (id : string) (updates : Partial) (s : Store.t) : Store.t :=
  Store.setLayers
    (map (fun l => if String.eqb (Layer.id l) id then spread l updates else l)
         (Store.layers s)) s.

(** [{ visible: v }] *)
Definition visibleOnly (v : bool) : Partial :=
  mkPartial None None (Some v) None None None None None None None None None None None
            None None None None None.

(** The [onToggleVisibility] of the layer panel:
    [handleUpdateLayer(id, { visible: !layers.find(l => l.id === id)?.visible })]. *)
Definition onToggleVisibility (id : string) (s : Store.t) : Store.t :=
  handleUpdateLayer id
    (visibleOnly
       (negb match find (fun l => String.eqb (Layer.id l) id) (Store.layers s) with
             | Some l => Layer.visible l
             | None => false
             end)) s.

(** [selectedLayerIds.length === 1 ? layers.find(l => l.id === selectedLayerIds[0]) : null] *)
Definition activeLayer (s : Store.t) : option Layer.t :=
  match Store.selectedLayerIds s with
  | [only] => find (fun l => String.eqb (Layer.id l) only) (Store.layers s)
  | _ => None
  end.

End LayerEdit.

(* ================================================================== *)
(** ** useDecorZones *)

Module Decor.

Definition ZONE_COLORS : list string :=
  ["#e91e8c"; "#2196f3"; "#4caf50"; "#ff9800"; "#9c27b0"; "#00bcd4"; "#f44336"; "#ffc107"].

Definition DEFAULT_LABELS : list string :=
  ["Sofá"; "Mesa"; "Poltrona"; "Estante"; "Tapete"; "Cadeira"; "Luminária"; "Rack TV"].

(** A call that may throw. *)
Inductive Attempt (A : Type) :=
| Throws
| Returns (a : A).
Arguments Throws {A}.
Arguments Returns {A} a.

(** [pts.length] as a number. *)
Definition count {A : Type} (l : list A) : num := Fin (inject_Z (Z.of_nat (List.length l))).

Definition centroid (pts : list Point.t) : Point.t :=
  match pts with
  | [] => Point.mk (Fin 0) (Fin 0)
  | _ =>
      let sx := fold_left (fun s p => s +' Point.x p) pts (Fin 0) in
      let sy := fold_left (fun s p => s +' Point.y p) pts (Fin 0) in
      Point.mk (sx /' count pts) (sy /' count pts)
  end.

Definition grow (b : Bounds.t) (p : Point.t) : Bounds.t :=
  Bounds.mk (if Point.x p <? Bounds.minX b then Point.x p else Bounds.minX b)
            (if Point.y p <? Bounds.minY b then Point.y p else Bounds.minY b)
            (if Point.x p >? Bounds.maxX b then Point.x p else Bounds.maxX b)
            (if Point.y p >? Bounds.maxY b then Point.y p else Bounds.maxY b).

Definition boundingBox (pts : list Point.t) : Rect.t :=
  let b := fold_left grow pts Bounds.empty in
  Rect.mk (Bounds.minX b) (Bounds.minY b)
          (Bounds.maxX b -' Bounds.minX b) (Bounds.maxY b -' Bounds.minY b).

(** [s.split('\n')] *)
Fixpoint split_lines (s : string) : list string :=
  match s with
  | EmptyString => [""]
  | String c rest =>
      if Ascii.eqb c "010"%char then "" :: split_lines rest
      else match split_lines rest with
           | first :: others => String c first :: others
           | [] => [String c ""]
           end
  end.

(** What is painted on the canvas of the zone: its size, the vertices of
    the polygon, the pill behind the label, and each line of text with the
    point it is centred on. *)
Record Drawing := mkDrawing {
  canvasW : num;
  canvasH : num;
  path : list Point.t;
  pill : Rect.t;
  text : list (string * Point.t) }.

(** What a render observes of the browser: whether each of the three
    canvases gives a 2d context, and the PNG of the painted canvas. *)
Record Canvas := mkCanvas {
  layoutMeasure : bool;
  pngMeasure : bool;
  pngContext : bool;
  toDataURL : Drawing -> string }.

Record Layout := mkLayout {
  textLines : list string;
  lineHeight : num;
  textPillW : num;
  textPillH : num;
  padLeft : num;
  padRight : num;
  padTop : num;
  padBottom : num;
  layoutW : num;
  layoutH : num }.

Record Placed := mkPlaced {
  placedSrc : string;
  placedPadLeft : num;
  placedPadTop : num;
  placedW : num;
  placedH : num }.

Section Runtime.

Variable toUpperCase : string -> string.

(** [measureText(line).width] under the font [bold <fontSize>px sans-serif]. *)
Variable measureText : num -> string -> num.

(** The measuring that [renderPolygonPng] and [renderPolygonWithLayout]
    both start with. *)
Definition layout (points : list Point.t) (label : string) (fontSize : num)
    (bb : Rect.t) : Layout :=
  let textLines :=
    match filter (fun l => negb (String.eqb l "")) (split_lines (toUpperCase label)) with
    | [] => [""]
    | lines => lines
    end in
  let lineHeight := fontSize *' Fin (13 # 10) in
  let maxLineW :=
    fold_left (fun maxLineW line =>
                 if measureText fontSize line >? maxLineW
                 then measureText fontSize line else maxLineW)
              textLines (Fin 0) in
  let textPillW := maxLineW +' Fin 20 in
  let textPillH := lineHeight *' count textLines +' Fin 14 in
  let c := centroid points in
  let labelLeft := Point.x c -' textPillW /' Fin 2 in
  let labelRight := Point.x c +' textPillW /' Fin 2 in
  let labelTop := Point.y c -' textPillH /' Fin 2 in
  let labelBottom := Point.y c +' textPillH /' Fin 2 in
  let basePad := Fin 20 in
  let padLeft := Num.max basePad ((Rect.x bb -' labelLeft) +' basePad) in
  let padRight := Num.max basePad ((labelRight -' (Rect.x bb +' Rect.w bb)) +' basePad) in
  let padTop := Num.max basePad ((Rect.y bb -' labelTop) +' basePad) in
  let padBottom := Num.max basePad ((labelBottom -' (Rect.y bb +' Rect.h bb)) +' basePad) in
  mkLayout textLines lineHeight textPillW textPillH padLeft padRight padTop padBottom
    (JsMath.round (Rect.w bb +' padLeft +' padRight))
    (JsMath.round (Rect.h bb +' padTop +' padBottom)).

(** The paint calls of [renderPolygonPng], once the contexts are there. *)
Definition drawing (points : list Point.t) (label : string) (fontSize : num)
    (bb : Rect.t) : Drawing :=
  let m := layout points label fontSize bb in
  let offsetX := Num.neg (Rect.x bb) +' padLeft m in
  let offsetY := Num.neg (Rect.y bb) +' padTop m in
  let c := centroid points in
  let lx := Point.x c +' offsetX in
  let ly := Point.y c +' offsetY in
  let startY := ly -' (count (textLines m) -' Fin 1) *' lineHeight m /' Fin 2 in
  mkDrawing (layoutW m) (layoutH m)
    (map (fun pt => Point.mk (Point.x pt +' offsetX) (Point.y pt +' offsetY)) points)
    (Rect.mk (lx -' textPillW m /' Fin 2) (ly -' textPillH m /' Fin 2)
             (textPillW m) (textPillH m))
    (map (fun il => (snd il,
                     Point.mk lx (startY +' Fin (inject_Z (Z.of_nat (fst il))) *' lineHeight m)))
         (combine (seq 0 (List.length (textLines m))) (textLines m))).

(** [renderPolygonPng]; reading [points[0]] of an empty list throws. *)
Definition renderPolygonPng (canvas : Canvas) (points : list Point.t)
    (label color : string) (fontSize : num) (bb : Rect.t) : Attempt (option string) :=
  if negb (pngMeasure canvas) then Returns None
  else if negb (pngContext canvas) then Returns None
  else match points with
       | [] => Throws
       | _ => Returns (Some (toDataURL canvas (drawing points label fontSize bb)))
       end.

Definition renderPolygonWithLayout (canvas : Canvas) (points : list Point.t)
    (label color : string) (fontSize : num) (bb : Rect.t) : Attempt (option Placed) :=
  if negb (layoutMeasure canvas) then Returns None
  else
    let m := layout points label fontSize bb in
    match renderPolygonPng canvas points label color fontSize bb with
    | Throws => Throws
    | Returns src =>
        match orNull src with
        | None => Returns None
        | Some src => Returns (Some (mkPlaced src (padLeft m) (padTop m) (layoutW m) (layoutH m)))
        end
    end.

(** The name of a zone: a couch, a space, the label. *)
Definition zoneName (label : string) : string := "🛋️ " ++ label.

Definition createLayerFromPolygon (canvas : Canvas) (now : Z) (points : list Point.t)
    (label color : string) (fontSize : option num) : Attempt (option Layer.t) :=
  if (List.length points <? 3)%nat then Returns None
  else
    let bb := boundingBox points in
    let fs :=
      match fontSize with
      | Some fontSize => fontSize
      | None =>
          Num.max (Fin 18)
            (Num.min (Num.min (Rect.w bb /' Fin 5) (Rect.h bb /' Fin 3)) (Fin 56))
      end in
    match renderPolygonWithLayout canvas points label color fs bb with
    | Throws => Throws
    | Returns None => Returns None
    | Returns (Some result) =>
        Returns (Some
          (Layer.mk ("decor-" ++ Functions.showZ now) (zoneName label) true false generation
             (Some (placedSrc result)) None
             (Rect.x bb -' placedPadLeft result) (Rect.y bb -' placedPadTop result)
             (placedW result) (placedH result)
             (Some (Rect.x bb -' placedPadLeft result))
             (Some (Rect.y bb -' placedPadTop result))
             (Some (placedW result)) (Some (placedH result))
             (Some (Fin 0)) (Some fill) None
             (Some (DecorData.mk points label color fs))))
    end.

(** [updates.label ?? decorData.label] and the like: the two optional keys
    of [updates]. *)
Definition rerenderDecorLayer (canvas : Canvas) (decorData : DecorData.t)
    (label : option string) (fontSize : option num)
  : Attempt (option LayerEdit.Partial) :=
  let newLabel := LayerEdit.over label (DecorData.label decorData) in
  let newFontSize := LayerEdit.over fontSize (DecorData.fontSize decorData) in
  let bb := boundingBox (DecorData.points decorData) in
  match renderPolygonPng canvas (DecorData.points decorData) newLabel
          (DecorData.color decorData) newFontSize bb with
  | Throws => Throws
  | Returns src =>
      match orNull src with
      | None => Returns None
      | Some src =>
          Returns (Some
            (LayerEdit.mkPartial None (Some (zoneName newLabel)) None None None
               (Some (Some src)) None None None None None None None None None None None None
               (Some (Some (DecorData.mk (DecorData.points decorData) newLabel
                              (DecorData.color decorData) newFontSize)))))
      end
  end.

(** The state of the hook. *)
Record t := mk {
  isDecorMode : bool;
  zoneCount : nat;
  drawingPoints : list Point.t;
  cursorPos : option Point.t }.

Definition initial : t := mk false 0 [] None.

Definition nextColor (s : t) : string :=
  nth (zoneCount s mod List.length ZONE_COLORS) ZONE_COLORS "".

Definition nextLabel (s : t) : string :=
  nth (zoneCount s mod List.length DEFAULT_LABELS) DEFAULT_LABELS "".

(** Each handler gives the next state and the layer handed to
    [onLayerCreated], if any. *)
Definition commitPolygon (canvas : Canvas) (now : Z) (pts : list Point.t)
    (label color : string) (s : t) : t * option Layer.t :=
  match createLayerFromPolygon canvas now pts label color None with
  | Throws => (s, None)
  | Returns (Some layer) =>
      (mk (isDecorMode s) (S (zoneCount s)) [] None, Some layer)
  | Returns None => (mk (isDecorMode s) (zoneCount s) [] None, None)
  end.

Variable Math_sqrt : num -> num.

Definition addPoint (canvas : Canvas) (now : Z) (x y : num) (s : t)
  : t * option Layer.t :=
  let append :=
    (mk (isDecorMode s) (zoneCount s) (drawingPoints s ++ [Point.mk x y])%list (cursorPos s),
     None) in
  if (3 <=? List.length (drawingPoints s))%nat then
    match drawingPoints s with
    | first :: _ =>
        let dist :=
          Math_sqrt ((x -' Point.x first) *' (x -' Point.x first)
                     +' (y -' Point.y first) *' (y -' Point.y first)) in
        if dist <? Fin 15
        then commitPolygon canvas now (drawingPoints s) (nextLabel s) (nextColor s) s
        else append
    | [] => append
    end
  else append.

Definition closePolygon (canvas : Canvas) (now : Z) (s : t) : t * option Layer.t :=
  if (List.length (drawingPoints s) <? 3)%nat
  then (mk (isDecorMode s) (zoneCount s) [] None, None)
  else commitPolygon canvas now (drawingPoints s) (nextLabel s) (nextColor s) s.

Definition cancelDrawing (s : t) : t :=
  mk (isDecorMode s) (zoneCount s) [] None.

(** [prev.slice(0, -1)] *)
Definition undoLastPoint (s : t) : t :=
  mk (isDecorMode s) (zoneCount s) (removelast (drawingPoints s)) (cursorPos s).

Definition setIsDecorMode (v : bool) (s : t) : t :=
  mk v (zoneCount s) (drawingPoints s) (cursorPos s).

Definition setCursorPos (v : option Point.t) (s : t) : t :=
  mk (isDecorMode s) (zoneCount s) (drawingPoints s) v.

(** What the user and the browser do to the hook, one event at a time. *)
Inductive Event :=
| AddPoint (canvas : Canvas) (now : Z) (x y : num)
| ClosePolygon (canvas : Canvas) (now : Z)
| CancelDrawing
| UndoLastPoint
| SetIsDecorMode (v : bool)
| SetCursorPos (v : option Point.t).

(** The state and the layers created so far, oldest first. *)
Definition step (acc : t * list Layer.t) (e : Event) : t * list Layer.t :=
  let '(s, created) := acc in
  let emit (r : t * option Layer.t) :=
    (fst r, match snd r with
            | Some layer => (created ++ [layer])%list
            | None => created
            end) in
  match e with
  | AddPoint canvas now x y => emit (addPoint canvas now x y s)
  | ClosePolygon canvas now => emit (closePolygon canvas now s)
  | CancelDrawing => (cancelDrawing s, created)
  | UndoLastPoint => (undoLastPoint s, created)
  | SetIsDecorMode v => (setIsDecorMode v s, created)
  | SetCursorPos v => (setCursorPos v s, created)
  end.

Definition run (events : list Event) : t * list Layer.t :=
  fold_left step events (initial, []).

End Runtime.

End Decor.

(* ================================================================== *)
(** ** LayerMenu: editing a zone *)

Module LayerMenu.

(** Both handlers give the updates handed to [onUpdate], if it is called. *)
Definition handleDecorLabelChange (canvas : Decor.Canvas)
    (toUpperCase : string -> string) (measureText : num -> string -> num)
    (layer : Layer.t) (newLabel : string) : Decor.Attempt (option LayerEdit.Partial) :=
  match Layer.decorData layer with
  | None => Decor.Returns None
  | Some decorData =>
      Decor.rerenderDecorLayer toUpperCase measureText canvas decorData (Some newLabel) None
  end.

Definition handleDecorFontSizeChange (canvas : Decor.Canvas)
    (toUpperCase : string -> string) (measureText : num -> string -> num)
    (layer : Layer.t) (newSize : num) : Decor.Attempt (option LayerEdit.Partial) :=
  match Layer.decorData layer with
  | None => Decor.Returns None
  | Some decorData =>
      Decor.rerenderDecorLayer toUpperCase measureText canvas decorData None (Some newSize)
  end.

(** The [onUpdate] that the canvas passes to the menu of the active layer:
    [(updates) => handleUpdateLayer(activeLayer.id, updates)]. *)
Definition onUpdate (activeLayer : Layer.t) (updates : Decor.Attempt (option LayerEdit.Partial))
    (s : Store.t) : Store.t :=
  match updates with
  | Decor.Returns (Some updates) =>
      LayerEdit.handleUpdateLayer (Layer.id activeLayer) updates s
  | _ => s
  end.

End LayerMenu.

(* ================================================================== *)
(** ** Zones: what is said of their points and of their layers *)

Module Zone.

(** A point with two finite coordinates. *)
Definition finitePoint (p : Point.t) : Prop :=
  exists px py, p = Point.mk (Fin px) (Fin py).

(** The box from [(a, b)] to [(c, d)] holds every point of the list. *)
Definition holds (a b c d : Q) (pts : list Point.t) : Prop :=
  Forall (fun p => exists px py, p = Point.mk (Fin px) (Fin py) /\
                                 a <= px /\ px <= c /\ b <= py /\ py <= d) pts.

(** Two layers that differ at most in name, source and zone data. *)
Definition sameFrame (l l' : Layer.t) : Prop :=
  Layer.id l' = Layer.id l /\ Layer.visible l' = Layer.visible l /\
  Layer.locked l' = Layer.locked l /\ Layer.type l' = Layer.type l /\
  Layer.thumbnail l' = Layer.thumbnail l /\
  Layer.x l' = Layer.x l /\ Layer.y l' = Layer.y l /\
  Layer.width l' = Layer.width l /\ Layer.height l' = Layer.height l /\
  Layer.initialX l' = Layer.initialX l /\ Layer.initialY l' = Layer.initialY l /\
  Layer.initialWidth l' = Layer.initialWidth l /\
  Layer.initialHeight l' = Layer.initialHeight l /\
  Layer.feather l' = Layer.feather l /\ Layer.renderMode l' = Layer.renderMode l /\
  Layer.isPlaying l' = Layer.isPlaying l.

(** What an edit of the zone [decorData] of the layer [activeLayer] to
    [label] and [fontSize] makes of the store: every layer keeps its frame,
    and is either left alone or a layer with the id of the active one that
    took the new name and the new zone data. *)
Definition relabelled (activeLayer : Layer.t) (decorData : DecorData.t) (label : string)
    (fontSize : num) (s s' : Store.t) : Prop :=
  Store.selectedLayerIds s' = Store.selectedLayerIds s /\
  Store.redoStack s' = Store.redoStack s /\
  Forall2 (fun l l' =>
             sameFrame l l' /\
             (l' = l \/
              (Layer.id l = Layer.id activeLayer /\
               Layer.name l' = Decor.zoneName label /\
               Layer.decorData l'
                 = Some (DecorData.mk (DecorData.points decorData) label
                           (DecorData.color decorData) fontSize))))
          (Store.layers s) (Store.layers s').

(** The zones created so far are as many as the count says, and the zone of
    rank [i] has the label and the colour of rank [i mod 8]. *)
Definition cycling (acc : Decor.t * list Layer.t) : Prop :=
  Decor.zoneCount (fst acc) = List.length (snd acc) /\
  forall i layer, nth_error (snd acc) i = Some layer ->
    Layer.name layer = Decor.zoneName (nth (i mod 8) Decor.DEFAULT_LABELS "") /\
    Layer.type layer = generation /\
    LayerDrag.pristine layer /\
    exists points fs,
      (3 <= List.length points)%nat /\
      Layer.decorData layer
        = Some (DecorData.mk points (nth (i mod 8) Decor.DEFAULT_LABELS "")
                  (nth (i mod 8) Decor.ZONE_COLORS "") fs).

End Zone.

(* ================================================================== *)
(** ** StudioMode: the storyboard *)

Module Storyboard.

(** [Partial<Scene>] *)
Record Partial := mkPartial {
  p_id : option string;
  p_startFrame : option (option string);
  p_endFrame : option (option string);
  p_shots : option (list Shot.t);
  p_videos : option (list string);
  p_selectedVideoIndex : option Z;
  p_isGenerating : option bool;
  p_variationCount : option nat }.

Definition nothing : Partial := mkPartial None None None None None None None None.

(** [{ ...s, ...updates }] *)
Definition spread (s : Scene.t) (updates : Partial) : Scene.t :=
  Scene.mk (LayerEdit.over (p_id updates) (Scene.id s))
    (LayerEdit.over (p_startFrame updates) (Scene.startFrame s))
    (LayerEdit.over (p_endFrame updates) (Scene.endFrame s))
    (LayerEdit.over (p_shots updates) (Scene.shots s))
    (LayerEdit.over (p_videos updates) (Scene.videos s))
    (LayerEdit.over (p_selectedVideoIndex updates) (Scene.selectedVideoIndex s))
    (LayerEdit.over (p_isGenerating updates) (Scene.isGenerating s))
    (LayerEdit.over (p_variationCount updates) (Scene.variationCount s)).


(** The scene that [handleAddScene] and [onChainNextScene] append. *)
Definition newScene (now : Z) (startFrame : option string) : Scene.t :=
  Scene.mk (Functions.showZ now) startFrame None [Shot.mk "" "5"] [] (-1) false 1.

Definition handleAddScene (now : Z) (scenes : list Scene.t) : list Scene.t :=
  let newStartFrame :=
    match nth_error scenes (List.length scenes - 1) with
    | Some lastScene =>
        match orNull (Scene.endFrame lastScene) with
        | Some endFrame => Some endFrame
        | None => Scene.startFrame lastScene
        end
    | None => None
    end in
  (scenes ++ [newScene now newStartFrame])%list.

Definition handleDeleteScene (id : string) (scenes : list Scene.t) : list Scene.t :=
  if (List.length scenes <=? 1)%nat then scenes
  else filter (fun s => negb (String.eqb (Scene.id s) id)) scenes.







End Storyboard.

(* ================================================================== *)
(** ** projectHistory: the thumbnail of a project *)

Module Thumbnail.

(** What [generateThumbnailFromLayers] resolves with: the empty string, or
    the JPEG of a canvas of the given size after the listed [drawImage]
    calls, each with the layer drawn and its destination rectangle. *)
Inductive Result :=
| Empty
| Jpeg (width height : num) (drawn : list (Layer.t * Rect.t)).

(** [l.visible && l.src && l.type !== 'video'] *)
Definition shown (l : Layer.t) : bool :=
  Layer.visible l
  && match orNull (Layer.src l) with Some _ => true | None => false end
  && negb (match Layer.type l with video => true | _ => false end).

(** [ctx] tells whether the canvas gives a 2d context and [loads] which
    layers' images load. *)
Definition generateThumbnailFromLayers (ctx : bool) (loads : Layer.t -> bool)
    (layers : list Layer.t) (maxSize : num) : Result :=
  let visibleLayers := filter shown layers in
  match visibleLayers with
  | [] => Empty
  | _ :: _ =>
      let b := Bounds.ofAll visibleLayers in
      let fullW := Bounds.maxX b -' Bounds.minX b in
      let fullH := Bounds.maxY b -' Bounds.minY b in
      if (fullW <=? Fin 0) || (fullH <=? Fin 0) then Empty
      else
        let ratio := fullW /' fullH in
        let thumbW := if ratio >=? Fin 1 then maxSize else JsMath.round (maxSize *' ratio) in
        let thumbH := if ratio >=? Fin 1 then JsMath.round (maxSize /' ratio) else maxSize in
        let scale := thumbW /' fullW in
        if negb ctx then Empty
        else
          Jpeg thumbW thumbH
            (map (fun layer =>
                    (layer,
                     Rect.mk ((Layer.x layer -' Bounds.minX b) *' scale)
                             ((Layer.y layer -' Bounds.minY b) *' scale)
                             (Layer.width layer *' scale) (Layer.height layer *' scale)))
                 (filter loads (rev visibleLayers)))
  end.

(** [maxSize = 200] *)
Definition defaultMaxSize : num := Fin 200.

End Thumbnail.

(* ================================================================== *)
(** * Properties *)

(** ** Numbers *)

Lemma Qltb_lt (a b : Q) : Num.Qltb a b = true <-> (a < b)%Q.
Proof.
  unfold Num.Qltb. rewrite negb_true_iff. split; intro H.
  - apply Qnot_le_lt. intro Hle. apply Qle_bool_iff in Hle. congruence.
  - destruct (Qle_bool b a) eqn:E; [|reflexivity].
    apply Qle_bool_iff in E. exfalso. apply (Qlt_not_le _ _ H E).
Qed.

Lemma Qltb_ge (a b : Q) : Num.Qltb a b = false <-> (b <= a)%Q.
Proof.
  unfold Num.Qltb. rewrite negb_false_iff. apply Qle_bool_iff.
Qed.

Lemma Qsgn_Eq (y : Q) : Num.Qsgn y = Eq <-> (y == 0)%Q.
Proof.
  unfold Num.Qsgn, Qeq. destruct y as [n d]. simpl. rewrite Z.compare_eq_iff. lia.
Qed.

Lemma Qsgn_Gt (y : Q) : Num.Qsgn y = Gt <-> (0 < y)%Q.
Proof.
  unfold Num.Qsgn, Qlt. destruct y as [n d]. simpl. rewrite Z.compare_gt_iff. lia.
Qed.

Lemma div_fin (x y : Q) : ~ (y == 0)%Q -> Fin x /' Fin y = Fin (x / y).
Proof.
  intro H. simpl. destruct (Num.Qsgn y) eqn:E; try reflexivity.
  apply Qsgn_Eq in E. contradiction.
Qed.

Lemma ltb_trans (a b c : num) : (a <? b) = true -> (b <? c) = true -> (a <? c) = true.
Proof.
  destruct a, b, c; simpl; try congruence.
  rewrite !Qltb_lt. apply Qlt_trans.
Qed.

Lemma ltb_lt_ge_fin (a b c : num) :
  Num.is_fin a = true -> Num.is_fin b = true -> Num.is_fin c = true ->
  (a <? b) = true -> (c <? b) = false -> (a <? c) = true.
Proof.
  destruct a, b, c; simpl; try congruence. intros _ _ _.
  rewrite !Qltb_lt, Qltb_ge. intros. lra.
Qed.

Lemma leb_fin (x y : Q) : (Fin x <=? Fin y) = true <-> (x <= y)%Q.
Proof.
  unfold Num.leb. simpl. rewrite orb_true_iff, Qltb_lt, Qeq_bool_iff. split.
  - intros [H|H]; lra.
  - intro H. destruct (Qlt_le_dec x y); [left; assumption|right; lra].
Qed.

Lemma leb_of_not_ltb (a b : num) :
  Num.is_fin a = true -> Num.is_fin b = true -> (b <? a) = false -> (a <=? b) = true.
Proof.
  destruct a, b; simpl; try congruence. intros _ _ H.
  apply leb_fin. apply Qltb_ge. exact H.
Qed.

(** ** Minimum search by a left fold *)

Section FirstMin.
Context {A : Type} (key : A -> num).

Lemma fold_stepMin (l : list A) (m0 : num) (b0 : A) :
  let r := fold_left (stepMin key) l (m0, b0) in
  (r = (m0, b0) \/ (In (snd r) l /\ fst r = key (snd r) /\ (fst r <? m0) = true)) /\
  Forall (fun e => (key e <? fst r) = false) l.
Proof.
  induction l as [|x l IH] using rev_ind; simpl.
  - auto.
  - rewrite fold_left_app. simpl.
    destruct IH as [IH1 IH2].
    set (r := fold_left (stepMin key) l (m0, b0)) in *.
    unfold stepMin.
    destruct (key x <? fst r) eqn:E; simpl.
    + split.
      * right. split; [apply in_or_app; right; left; reflexivity|].
        split; [reflexivity|].
        destruct IH1 as [-> | (_ & _ & H)]; [exact E|].
        eapply ltb_trans; eauto.
      * apply Forall_app. split.
        -- eapply Forall_impl; [|exact IH2]. intros e He. simpl in He.
           destruct (key e <? key x) eqn:E2; [|reflexivity].
           rewrite (ltb_trans _ _ _ E2 E) in He. discriminate.
        -- constructor; [|constructor].
           destruct (key x) as [q| | |]; simpl; try reflexivity.
           apply Qltb_ge. lra.
    + split.
      * destruct IH1 as [H | (H1 & H2 & H3)]; [left; exact H|].
        right. split; [apply in_or_app; left; exact H1|auto].
      * apply Forall_app. split; [exact IH2|]. constructor; [exact E|constructor].
Qed.

End FirstMin.

(* ================================================================== *)
(** ** getClosestAspectRatio *)

Section ClosestRatio.
Import SpecFloat FloatOps FloatAxioms PrimFloat.

(** Shifting and rounding keep a mantissa that is not negative. *)
Lemma shr_1_nonneg (mrs : shr_record) : (0 <= shr_m mrs -> 0 <= shr_m (shr_1 mrs))%Z.
Proof.
  destruct mrs as [m r s]. cbn. destruct m as [|[p|p|]|[p|p|]]; cbn; lia.
Qed.

Lemma iter_shr_1_nonneg (p : positive) :
  forall mrs, (0 <= shr_m mrs -> 0 <= shr_m (iter_pos shr_1 p mrs))%Z.
Proof.
  induction p as [p IH|p IH|]; intros mrs H; cbn [iter_pos].
  - apply IH, IH, shr_1_nonneg, H.
  - apply IH, IH, H.
  - apply shr_1_nonneg, H.
Qed.

Lemma shr_fexp_nonneg (m e : Z) (l : location) :
  (0 <= m -> 0 <= shr_m (fst (shr_fexp prec emax m e l)))%Z.
Proof.
  intros H. unfold shr_fexp, shr.
  assert (H0 : (0 <= shr_m (shr_record_of_loc m l))%Z).
  { destruct l as [|[| |]]; exact H. }
  destruct (_ - e)%Z; cbn [fst]; try exact H0. now apply iter_shr_1_nonneg.
Qed.

Lemma round_nearest_even_nonneg (m : Z) (l : location) :
  (0 <= m -> 0 <= round_nearest_even m l)%Z.
Proof.
  intros H. destruct l as [|[| |]]; cbn; try lia. destruct (Z.even m); lia.
Qed.

Lemma binary_round_aux_number (sx : bool) (mx ex : Z) (lx : location) :
  (0 <= mx)%Z -> binary_round_aux prec emax sx mx ex lx <> S754_nan.
Proof.
  intros H. unfold binary_round_aux.
  pose proof (shr_fexp_nonneg mx ex lx H) as H1.
  destruct (shr_fexp prec emax mx ex lx) as [mrs' e']. cbn [fst] in H1.
  pose proof (shr_fexp_nonneg _ e' loc_Exact
                (round_nearest_even_nonneg _ (loc_of_shr_record mrs') H1)) as H2.
  destruct (shr_fexp prec emax _ e' loc_Exact) as [mrs'' e'']. cbn [fst] in H2.
  destruct (shr_m mrs'') as [|m|m]; try discriminate; [|lia].
  destruct (e'' <=? emax - prec)%Z; discriminate.
Qed.

Lemma binary_normalize_number (m e : Z) (szero : bool) :
  binary_normalize prec emax m e szero <> S754_nan.
Proof.
  unfold binary_normalize, binary_round. destruct m as [|m|m]; [discriminate| |].
  - destruct (shl_align _ _ _) as [mz ez]. apply binary_round_aux_number. lia.
  - destruct (shl_align _ _ _) as [mz ez]. apply binary_round_aux_number. lia.
Qed.

(** A finite number minus a number is a number. *)
Lemma SF64sub_number (x y : spec_float) :
  (forall s, x <> S754_infinity s) -> x <> S754_nan -> y <> S754_nan ->
  SF64sub x y <> S754_nan.
Proof.
  intros Hi Hx Hy. unfold SF64sub, SFsub.
  destruct x as [sx|sx| |sx mx ex]; [|exfalso; now apply (Hi sx)|congruence|];
    destruct y as [sy|sy| |sy my ey]; try congruence; try discriminate.
  - destruct sx, sy; discriminate.
  - apply binary_normalize_number.
Qed.

(** The order of the absolute values that are numbers. *)
Lemma SFltb_abs_trans (a b c : spec_float) :
  SFltb (SFabs a) (SFabs b) = true -> SFltb (SFabs b) (SFabs c) = true ->
  SFltb (SFabs a) (SFabs c) = true.
Proof.
  unfold SFltb.
  destruct a as [sa|sa| |sa ma ea], b as [sb|sb| |sb mb eb], c as [sc|sc| |sc mc ec];
    cbn; try discriminate; try reflexivity.
  destruct (ea ?= eb)%Z eqn:E1; destruct (eb ?= ec)%Z eqn:E2; try discriminate;
    try (apply Z.compare_eq in E1; subst); try (apply Z.compare_eq in E2; subst);
    rewrite ?E1, ?E2, ?Z.compare_refl; try reflexivity.
  - destruct (Pos.compare_cont Eq ma mb) eqn:F1; try discriminate.
    destruct (Pos.compare_cont Eq mb mc) eqn:F2; try discriminate.
    intros _ _. change (Pos.compare_cont Eq ma mc) with (ma ?= mc)%positive.
    change (Pos.compare_cont Eq ma mb) with (ma ?= mb)%positive in F1.
    change (Pos.compare_cont Eq mb mc) with (mb ?= mc)%positive in F2.
    rewrite Pos.compare_lt_iff in *. assert (H : (ma < mc)%positive) by lia.
    apply Pos.compare_lt_iff in H. now rewrite H.
  - assert (H : (ea ?= ec)%Z = Lt) by (rewrite Z.compare_lt_iff in *; lia).
    now rewrite H.
Qed.

Lemma SFltb_abs_irrefl (a : spec_float) : SFltb (SFabs a) (SFabs a) = false.
Proof.
  unfold SFltb. destruct a as [sa|sa| |sa ma ea]; cbn; try reflexivity.
  rewrite Z.compare_refl. change (Pos.compare_cont Eq ma ma) with (ma ?= ma)%positive.
  now rewrite Pos.compare_refl.
Qed.

(** Below [b], and [e] is a number that is not below [b]: below [e]. *)
Lemma SFltb_abs_below (c b e : spec_float) :
  SFltb (SFabs c) (SFabs b) = true -> SFltb (SFabs e) (SFabs b) = false ->
  e <> S754_nan -> SFltb (SFabs c) (SFabs e) = true.
Proof.
  unfold SFltb.
  destruct c as [sc|sc| |sc mc ec], b as [sb|sb| |sb mb eb], e as [se|se| |se me ee];
    cbn; try discriminate; try reflexivity; try congruence.
  destruct (ec ?= eb)%Z eqn:E1; destruct (ee ?= eb)%Z eqn:E2; try discriminate;
    try (apply Z.compare_eq in E1; subst); try (apply Z.compare_eq in E2; subst);
    rewrite ?Z.compare_refl.
  - change (Pos.compare_cont Eq mc mb) with (mc ?= mb)%positive.
    change (Pos.compare_cont Eq me mb) with (me ?= mb)%positive.
    change (Pos.compare_cont Eq mc me) with (mc ?= me)%positive.
    destruct (mc ?= mb)%positive eqn:F1; try discriminate.
    destruct (me ?= mb)%positive eqn:F2; try discriminate; intros _ _ _.
    + apply Pos.compare_eq in F2. subst. now rewrite F1.
    + rewrite Pos.compare_lt_iff in F1. rewrite Pos.compare_gt_iff in F2.
      assert (H : (mc < me)%positive) by lia. apply Pos.compare_lt_iff in H. now rewrite H.
  - intros _ _ _. rewrite Z.compare_gt_iff in E2.
    assert (H : (eb ?= ee)%Z = Lt) by (apply Z.compare_lt_iff; lia). now rewrite H.
  - intros _ _ _. rewrite E1. reflexivity.
  - intros _ _ _. rewrite Z.compare_lt_iff in E1. rewrite Z.compare_gt_iff in E2.
    assert (H : (ec ?= ee)%Z = Lt) by (apply Z.compare_lt_iff; lia). now rewrite H.
Qed.

Lemma SFleb_abs_of_not_below (e b : spec_float) :
  SFltb (SFabs e) (SFabs b) = false -> e <> S754_nan -> b <> S754_nan ->
  SFleb (SFabs b) (SFabs e) = true.
Proof.
  unfold SFltb, SFleb.
  destruct e as [se|se| |se me ee], b as [sb|sb| |sb mb eb];
    cbn; try discriminate; try reflexivity; try congruence.
  rewrite (Z.compare_antisym ee eb).
  change (Pos.compare_cont Eq mb me) with (mb ?= me)%positive.
  change (Pos.compare_cont Eq me mb) with (me ?= mb)%positive.
  rewrite (Pos.compare_antisym me mb).
  destruct (ee ?= eb)%Z; cbn; try discriminate; try reflexivity.
  destruct (me ?= mb)%positive; cbn; try discriminate; reflexivity.
Qed.

Variable ratio : float.

Lemma d_spec (e : string * float) :
  Prim2SF (Gemini.difference ratio e) = SFabs (Prim2SF (snd e - ratio)%float).
Proof. unfold Gemini.difference. apply abs_spec. Qed.

Lemma d_trans (a b c : string * float) :
  (Gemini.difference ratio a <? Gemini.difference ratio b)%float = true ->
  (Gemini.difference ratio b <? Gemini.difference ratio c)%float = true ->
  (Gemini.difference ratio a <? Gemini.difference ratio c)%float = true.
Proof. rewrite !ltb_spec, !d_spec. apply SFltb_abs_trans. Qed.

Lemma d_irrefl (a : string * float) :
  (Gemini.difference ratio a <? Gemini.difference ratio a)%float = false.
Proof. rewrite ltb_spec, d_spec. apply SFltb_abs_irrefl. Qed.

Lemma d_below (c b e : string * float) :
  Gemini.number ratio e ->
  (Gemini.difference ratio c <? Gemini.difference ratio b)%float = true ->
  (Gemini.difference ratio e <? Gemini.difference ratio b)%float = false ->
  (Gemini.difference ratio c <? Gemini.difference ratio e)%float = true.
Proof.
  intros He. rewrite !ltb_spec, !d_spec. intros H1 H2.
  now apply (SFltb_abs_below _ _ _ H1 H2).
Qed.

Lemma d_least (e b : string * float) :
  Gemini.number ratio e -> Gemini.number ratio b ->
  (Gemini.difference ratio e <? Gemini.difference ratio b)%float = false ->
  (Gemini.difference ratio b <=? Gemini.difference ratio e)%float = true.
Proof.
  intros He Hb. rewrite ltb_spec, leb_spec, !d_spec. intros H.
  now apply SFleb_abs_of_not_below.
Qed.

(** The reduce: the first entry whose difference no entry's is below. *)
Lemma fold_closer_first (l : list (string * float)) : forall a,
  Forall (Gemini.number ratio) (a :: l) ->
  exists pre post,
    (a :: l = pre ++ fold_left (Gemini.closer ratio) l a :: post)%list /\
    Forall (fun e => (Gemini.difference ratio (fold_left (Gemini.closer ratio) l a)
                      <? Gemini.difference ratio e)%float = true) pre /\
    Forall (fun e => (Gemini.difference ratio e
                      <? Gemini.difference ratio (fold_left (Gemini.closer ratio) l a))%float
                     = false) post.
Proof.
  induction l as [|x l IH] using rev_ind; intros a Hn.
  - exists [], []. cbn. auto.
  - rewrite fold_left_app. cbn [fold_left].
    assert (Hn' : Forall (Gemini.number ratio) (a :: l)).
    { inversion Hn as [|? ? Ha Hl]; subst. apply Forall_app in Hl. constructor; tauto. }
    assert (Hx : Gemini.number ratio x).
    { inversion Hn as [|? ? Ha Hl]; subst. apply Forall_app in Hl.
      destruct Hl as [_ Hl]. now inversion Hl. }
    destruct (IH a Hn') as (pre & post & Heq & Hpre & Hpost).
    set (best := fold_left (Gemini.closer ratio) l a) in *.
    destruct (Gemini.difference ratio x <? Gemini.difference ratio best)%float eqn:E;
      [assert (Hp : Gemini.closer ratio best x = x)
         by (unfold Gemini.closer; now rewrite E)
      |assert (Hp : Gemini.closer ratio best x = best)
         by (unfold Gemini.closer; now rewrite E)];
      rewrite Hp.
    + exists (pre ++ best :: post)%list, []. split; [|split].
      * rewrite app_comm_cons, Heq, <- app_assoc. reflexivity.
      * apply Forall_app. split.
        -- eapply Forall_impl; [|exact Hpre]. intros e He. cbv beta in He.
           now apply (d_trans x best e).
        -- constructor; [exact E|].
           assert (Hpn : Forall (Gemini.number ratio) post).
           { rewrite Heq in Hn'. apply Forall_app in Hn'. destruct Hn' as [_ H].
             now inversion H. }
           clear - Hpost E Hpn. induction Hpost as [|e post He _ IHp]; [constructor|].
           inversion Hpn; subst. constructor; [|now apply IHp].
           now apply (d_below x best e).
      * constructor.
    + exists pre, (post ++ [x])%list. split; [|split].
      * rewrite app_comm_cons, Heq, <- app_assoc. reflexivity.
      * exact Hpre.
      * apply Forall_app. split; [exact Hpost|]. constructor; [exact E|constructor].
Qed.

(** Every value of the table is finite, so its difference to a number is a
    number. *)
Lemma table_numbers :
  Prim2SF ratio <> S754_nan -> Forall (Gemini.number ratio) Gemini.ratios.
Proof.
  intros H. unfold Gemini.ratios.
  repeat constructor; unfold Gemini.number; cbn [snd]; rewrite sub_spec;
    (apply SF64sub_number; [intros s; vm_compute; discriminate
                           |vm_compute; discriminate|exact H]).
Qed.

End ClosestRatio.

Section ClosestRatioTable.
Import SpecFloat FloatOps FloatAxioms PrimFloat.

Lemma SFeqb_refl (y : spec_float) : y <> S754_nan -> SFeqb y y = true.
Proof.
  unfold SFeqb. destruct y as [s|s| |s m e]; cbn; try congruence; intros _.
  - destruct s; reflexivity.
  - change (Pos.compare_cont Eq m m) with (m ?= m)%positive.
    destruct s; rewrite Z.compare_refl, Pos.compare_refl; reflexivity.
Qed.

Lemma nan_of_is_nan (x : float) : is_nan x = true -> x = nan.
Proof.
  intros H. rewrite <- (SF2Prim_Prim2SF x).
  unfold is_nan in H. rewrite eqb_spec in H.
  destruct (Prim2SF x) as [s|s| |s m e] eqn:E; try reflexivity;
    rewrite SFeqb_refl in H by discriminate; discriminate.
Qed.

Lemma number_of_is_nan (x : float) : is_nan x = false -> Prim2SF x <> S754_nan.
Proof.
  intros H E. unfold is_nan in H. rewrite eqb_spec, E in H. discriminate.
Qed.

(** C4.  For every binary64 input, [getClosestAspectRatio] returns the key
    of an entry of the fixed table
    1:1 = 1.0, 3:4 = 0.75, 4:3 = 1.33, 9:16 = 0.5625, 16:9 = 1.77
    whose difference [Math.abs(val - ratio)] is below that of every entry
    listed before it and is not above that of any entry (a tie is won by
    the entry met first); for NaN, where no comparison holds, that is the
    first entry.  It maps 1.0 to 1:1, 1.78 to 16:9 and 0.5 to 9:16. *)
Theorem getClosestAspectRatio_nearest_first :
  Gemini.ratios =
    [ ("1:1", 1.0%float); ("3:4", 0.75%float); ("4:3", 1.33%float);
      ("9:16", 0.5625%float); ("16:9", 1.77%float) ] /\
  (forall ratio : float,
     exists pre v post,
       Gemini.ratios = (pre ++ (Gemini.getClosestAspectRatio ratio, v) :: post)%list /\
       Forall (fun e => (abs (v - ratio) <? Gemini.difference ratio e)%float = true) pre /\
       Forall (fun e => (Gemini.difference ratio e <? abs (v - ratio))%float = false) post /\
       (is_nan ratio = false ->
        Forall (fun e => (abs (v - ratio) <=? Gemini.difference ratio e)%float = true)
               Gemini.ratios) /\
       (is_nan ratio = true -> Gemini.getClosestAspectRatio ratio = "1:1")) /\
  Gemini.getClosestAspectRatio 1.0%float = "1:1" /\
  Gemini.getClosestAspectRatio 1.78%float = "16:9" /\
  Gemini.getClosestAspectRatio 0.5%float = "9:16".
Proof.
  split; [reflexivity|]. split; [|repeat split; vm_compute; reflexivity].
  intros ratio. destruct (is_nan ratio) eqn:En.
  - apply nan_of_is_nan in En. subst ratio.
    exists [], 1.0%float, (tl Gemini.ratios).
    split; [reflexivity|]. split; [constructor|]. split; [|split].
    + repeat constructor.
    + discriminate.
    + reflexivity.
  - pose proof (table_numbers ratio (number_of_is_nan _ En)) as Hn.
    destruct (fold_closer_first ratio (tl Gemini.ratios) (hd ("1:1", 1.0%float) Gemini.ratios) Hn)
      as (pre & post & Heq & Hpre & Hpost).
    set (r := fold_left _ (tl Gemini.ratios) (hd ("1:1", 1.0%float) Gemini.ratios)) in *.
    assert (Hr : Gemini.getClosestAspectRatio ratio = fst r) by reflexivity.
    exists pre, (snd r), post. rewrite Hr, <- surjective_pairing.
    change (abs (snd r - ratio)) with (Gemini.difference ratio r).
    split; [exact Heq|]. split; [exact Hpre|]. split; [exact Hpost|].
    split; [intros _|discriminate].
    change Gemini.ratios with (hd ("1:1", 1.0%float) Gemini.ratios :: tl Gemini.ratios) at 1.
    rewrite Heq.
    assert (Hall : Forall (Gemini.number ratio) (pre ++ r :: post)%list).
    { rewrite <- Heq. exact Hn. }
    assert (Hnr : Gemini.number ratio r).
    { apply Forall_app in Hall. destruct Hall as [_ H]. now inversion H. }
    rewrite Forall_forall in *. intros e He.
    apply d_least; [now apply Hall|exact Hnr|].
    apply in_app_or in He. destruct He as [He|[<-|He]].
    + pose proof (Hpre e He) as H. cbv beta in H.
      destruct (Gemini.difference ratio e <? Gemini.difference ratio r)%float eqn:E; [|reflexivity].
      pose proof (d_trans ratio _ _ _ E H) as H2. rewrite d_irrefl in H2. discriminate.
    + apply d_irrefl.
    + now apply Hpost.
Qed.

(** For a very large input, here 10^17, the subtraction rounds every
    difference to the same number: a tie, which the first entry wins. *)
Lemma getClosestAspectRatio_rounded_tie :
  Gemini.getClosestAspectRatio 1e17%float = "1:1" /\
  Forall (fun e => (Gemini.difference 1e17%float e =? 1e17)%float = true) Gemini.ratios.
Proof.
  split; [vm_compute; reflexivity|]. repeat constructor.
Qed.

End ClosestRatioTable.

(* ================================================================== *)
(** ** Undo, redo and the destructive edits *)

(** C5.  Undo followed at once by redo restores the layer list exactly (and
    the redo stack with it) whenever there is a layer to undo; deleting a
    layer leaves the redo stack empty, and so does an eraser press that
    removes a layer: a redo that follows leaves the layer list as it is. *)
Theorem undo_redo_restores_and_edits_clear_redo :
  (forall st : Store.t,
     Store.layers st <> [] ->
     Store.layers (Layers.handleRedo (Layers.handleUndo st)) = Store.layers st /\
     Store.redoStack (Layers.handleRedo (Layers.handleUndo st)) = Store.redoStack st) /\
  (forall (id : string) (st : Store.t),
     Store.redoStack (Layers.handleDeleteLayer id st) = [] /\
     Store.layers (Layers.handleRedo (Layers.handleDeleteLayer id st))
       = Store.layers (Layers.handleDeleteLayer id st)) /\
  (forall p canvasRef clientX clientY button s st,
     Interaction.selectedTool p = eraser ->
     let st' := snd (Interaction.handleStart p canvasRef clientX clientY button s st) in
     Store.layers st' <> Store.layers st ->
     Store.redoStack st' = [] /\
     Store.layers (Layers.handleRedo st') = Store.layers st').
Proof.
  split; [|split].
  - intros st Hne. unfold Layers.handleUndo.
    destruct (Store.layers st) as [|removed remaining] eqn:E; [congruence|].
    destruct (Str.mem (Layer.id removed) (Store.selectedLayerIds st)); split; reflexivity.
  - intros id st. unfold Layers.handleDeleteLayer.
    destruct (Str.mem id (Store.selectedLayerIds st)); split; reflexivity.
  - intros p canvasRef clientX clientY button s st Htool st' Hch. subst st'.
    unfold Interaction.handleStart in *.
    destruct canvasRef as [rect|]; [|simpl in Hch; congruence].
    destruct (Interaction.zoom s <=? Fin (1 # 1000)); [simpl in Hch; congruence|].
    destruct (Interaction.isGenerating p); [simpl in Hch; congruence|].
    destruct (button =? 1)%Z.
    { simpl in Hch. destruct (Store.showLayerMenuMobile st); simpl in Hch; congruence. }
    rewrite Htool in *.
    match goal with
    | H : context [Interaction.clickedLayer ?x ?y ?l] |- _ =>
        destruct (Interaction.clickedLayer x y l) as [l0|]
    end.
    + split; reflexivity.
    + simpl in Hch. destruct (Store.showLayerMenuMobile st); simpl in Hch; congruence.
Qed.

(** The three parts of C5 on a store of two layers with one undone layer
    waiting on the redo stack. *)
Lemma undo_redo_witness :
  let a := Sample.layerAt "a" 0 0 100 100 in
  let b := Sample.layerAt "b" 50 50 100 100 in
  let c := Sample.layerAt "c" 10 10 20 20 in
  let st := Store.mk [a; b] [c] ["a"] false in
  let erased := snd (Interaction.handleStart (Sample.tool eraser []) (Some Sample.origin)
                       (Fin 120) (Fin 120) 0 Sample.idle st) in
  (Store.layers st <> [] /\
   Store.layers (Layers.handleRedo (Layers.handleUndo st)) = [a; b]) /\
  Store.layers (Layers.handleRedo (Layers.handleDeleteLayer "a" st)) = [b] /\
  (Store.layers erased <> Store.layers st /\
   Store.layers (Layers.handleRedo erased) = [a]).
Proof.
  intros a b c st erased.
  destruct undo_redo_restores_and_edits_clear_redo as (Hundo & Hdelete & Herase).
  assert (Hne : Store.layers st <> []) by discriminate.
  assert (Hch : Store.layers erased <> Store.layers st) by (vm_compute; discriminate).
  split; [|split].
  - split; [exact Hne|]. exact (proj1 (Hundo st Hne)).
  - etransitivity; [exact (proj2 (Hdelete "a" st))|]. reflexivity.
  - split; [exact Hch|].
    etransitivity;
      [exact (proj2 (Herase (Sample.tool eraser []) (Some Sample.origin) (Fin 120) (Fin 120)
                       0%Z Sample.idle st eq_refl Hch))|].
    vm_compute. reflexivity.
Defined.

(* ================================================================== *)
(** ** Wheel zoom and pinch zoom *)

Lemma clamp_zoom (v : num) :
  (Fin 0 <=? v) = true ->
  let z := Num.min (Num.max (Fin (5 # 100)) v) (Fin 5) in
  z ~= Viewport.spec_clamp v (Fin (5 # 100)) (Fin 5) /\
  exists q, z = Fin q /\ (5 # 100 <= q)%Q /\ (q <= 5)%Q.
Proof.
  intros Hv z. subst z. unfold Viewport.spec_clamp.
  destruct v as [q| | |]; try discriminate.
  - simpl. destruct (Num.Qltb (5 # 100) q) eqn:E1.
    + assert (E1' : Num.Qltb q (5 # 100) = false).
      { apply Qltb_ge. apply Qltb_lt in E1. lra. }
      rewrite E1'. simpl. destruct (Num.Qltb 5 q) eqn:E2.
      * split; [simpl; reflexivity|]. exists 5%Q. split; [reflexivity|]. lra.
      * split; [simpl; reflexivity|]. exists q. split; [reflexivity|].
        apply Qltb_lt in E1. apply Qltb_ge in E2. lra.
    + simpl. destruct (Num.Qltb q (5 # 100)) eqn:E3.
      * split; [simpl; reflexivity|]. exists (5 # 100)%Q. split; [reflexivity|]. lra.
      * apply Qltb_ge in E1. apply Qltb_ge in E3.
        assert (E4 : Num.Qltb 5 q = false) by (apply Qltb_ge; lra).
        rewrite E4.
        split; [simpl; lra|]. exists (5 # 100)%Q. split; [reflexivity|]. lra.
  - simpl. split; [reflexivity|]. exists 5%Q. split; [reflexivity|]. lra.
Qed.

Lemma finite_point_inv (p : Point.t) :
  Point.finite p = true -> exists a b, p = Point.mk (Fin a) (Fin b).
Proof.
  destruct p as [[a| | |] [b| | |]]; unfold Point.finite; simpl; try discriminate.
  eauto.
Qed.

Lemma pos_fin_inv (z : num) :
  Num.is_fin z = true -> (Fin 0 <? z) = true -> exists q, z = Fin q /\ (0 < q)%Q.
Proof.
  destruct z; simpl; try discriminate. intros _ H. apply Qltb_lt in H. eauto.
Qed.

Lemma mul_pos_nonneg (z : Q) (v : num) :
  (0 < z)%Q -> (Fin 0 <=? v) = true -> (Fin 0 <=? Fin z *' v) = true.
Proof.
  intros Hz Hv. destruct v as [q| | |]; try discriminate.
  - apply leb_fin in Hv. simpl. apply leb_fin. nra.
  - simpl. assert (E : Num.Qsgn z = Gt) by (apply Qsgn_Gt; exact Hz).
    rewrite E. reflexivity.
Qed.

Lemma div_nonneg_pos (v : num) (d : Q) :
  (0 < d)%Q -> (Fin 0 <=? v) = true -> (Fin 0 <=? v /' Fin d) = true.
Proof.
  intros Hd Hv. assert (E : Num.Qsgn d = Gt) by (apply Qsgn_Gt; exact Hd).
  destruct v as [q| | |]; try discriminate; simpl; rewrite E; [|reflexivity].
  apply leb_fin in Hv. apply leb_fin.
  apply Qle_shift_div_l; [exact Hd|]. lra.
Qed.

(** After a step to the factor [z'] that sets the offset to
    [anchor - rect - world * z'], the world point shows at [anchor]. *)
Lemma anchored (z z' ox rx cx ax : Q) :
  ~ (z == 0)%Q ->
  (Fin rx +' (Fin ax -' Fin rx -' (Fin cx -' Fin rx -' Fin ox) /' Fin z *' Fin z')
     +' (Fin cx -' Fin rx -' Fin ox) /' Fin z *' Fin z') ~= Fin ax.
Proof.
  intro Hz. unfold Num.sub. cbn [Num.neg Num.add].
  rewrite (div_fin _ _ Hz). cbn [Num.neg Num.add Num.mul Num.eqv]. ring.
Qed.

Section ZoomStep.

Variables Math_sqrt Math_exp : num -> num.

(** C1, as the code has it.  A wheel step that is not ignored (|deltaY| at
    least 0.001) and a two-finger move, from a finite positive zoom and with
    a scale factor that is a number at least 0, set the zoom to the old zoom
    times the scale factor clamped to [0.05, 5].  After a wheel step the
    world point that was under the cursor shows at the cursor again.  After
    a pinch step the world point that was under the previous midpoint of the
    fingers shows at their current midpoint. *)
Theorem zoom_step_clamped_and_anchored :
  (forall (rect client : Point.t) (deltaY : num) (s : Interaction.t),
     Point.finite rect = true -> Point.finite client = true ->
     Point.finite (Interaction.canvasOffset s) = true ->
     Num.is_fin (Interaction.zoom s) = true ->
     (Fin 0 <? Interaction.zoom s) = true ->
     (Num.abs deltaY <? Fin (1 # 1000)) = false ->
     (Fin 0 <=? Math_exp (Num.neg deltaY *' Fin (1 # 1000))) = true ->
     let s' := Interaction.handleWheel Math_exp (Some rect) deltaY
                 (Point.x client) (Point.y client) s in
     Interaction.zoom s'
       ~= Viewport.spec_clamp
            (Interaction.zoom s *' Math_exp (Num.neg deltaY *' Fin (1 # 1000)))
            (Fin (5 # 100)) (Fin 5) /\
     (Fin (5 # 100) <=? Interaction.zoom s') = true /\
     (Interaction.zoom s' <=? Fin 5) = true /\
     Point.eqv (Viewport.toClient s' rect (Viewport.toWorld s rect client)) client) /\
  (forall (p : Interaction.Props) (rect t0 t1 lastCenter : Point.t) (lastDist : num)
          (s : Interaction.t) (st : Store.t),
     Interaction.lastTouchDist s = Some lastDist ->
     Interaction.lastTouchCenter s = Some lastCenter ->
     Point.finite rect = true -> Point.finite t0 = true -> Point.finite t1 = true ->
     Point.finite lastCenter = true ->
     Point.finite (Interaction.canvasOffset s) = true ->
     Num.is_fin (Interaction.zoom s) = true ->
     (Fin 0 <? Interaction.zoom s) = true ->
     Num.is_fin lastDist = true ->
     (Fin 0 <? lastDist) = true ->
     (Fin 0 <=? Interaction.getTouchDistance Math_sqrt t0 t1) = true ->
     let s' := fst (Interaction.handleTouchMove Math_sqrt p (Some rect) [t0; t1] s st) in
     Interaction.zoom s'
       ~= Viewport.spec_clamp
            (Interaction.zoom s *' (Interaction.getTouchDistance Math_sqrt t0 t1 /' lastDist))
            (Fin (5 # 100)) (Fin 5) /\
     (Fin (5 # 100) <=? Interaction.zoom s') = true /\
     (Interaction.zoom s' <=? Fin 5) = true /\
     Point.eqv (Viewport.toClient s' rect (Viewport.toWorld s rect lastCenter))
               (Interaction.getTouchCenter t0 t1)).
Proof.
  split.
  - intros rect client deltaY s Hrect Hclient Hoff Hfz Hz Hd Hexp s'.
    destruct (finite_point_inv _ Hrect) as (rx & ry & ->).
    destruct (finite_point_inv _ Hclient) as (cx & cy & ->).
    destruct (finite_point_inv _ Hoff) as (ox & oy & Eoff).
    destruct (pos_fin_inv _ Hfz Hz) as (z & Ez & Hzpos).
    set (scale := Math_exp (Num.neg deltaY *' Fin (1 # 1000))) in *.
    assert (Hprod : (Fin 0 <=? Interaction.zoom s *' scale) = true).
    { rewrite Ez. apply mul_pos_nonneg; assumption. }
    destruct (clamp_zoom _ Hprod) as (Hc & z' & Ez' & Hlo & Hhi).
    assert (Hs' : s' = Interaction.setCanvasOffset
                    (Point.mk
                       (Fin cx -' Fin rx
                          -' (Fin cx -' Fin rx -' Fin ox) /' Fin z *' Fin z')
                       (Fin cy -' Fin ry
                          -' (Fin cy -' Fin ry -' Fin oy) /' Fin z *' Fin z'))
                    (Interaction.setZoom (Fin z') s)).
    { subst s'. unfold Interaction.handleWheel. rewrite Hd.
      fold scale. rewrite Ez'. rewrite Eoff, Ez. reflexivity. }
    rewrite Hs'. simpl Interaction.zoom. rewrite <- Ez'.
    split; [exact Hc|]. rewrite Ez'.
    split; [apply leb_fin; exact Hlo|]. split; [apply leb_fin; exact Hhi|].
    unfold Viewport.toClient, Viewport.toWorld, Point.eqv.
    simpl Interaction.canvasOffset. simpl Interaction.zoom. rewrite Eoff, Ez.
    simpl Point.x. simpl Point.y.
    assert (Hz0 : ~ (z == 0)%Q) by lra.
    split; apply anchored; exact Hz0.
  - intros p rect t0 t1 lastCenter lastDist s st HlastD HlastC Hrect Ht0 Ht1 Hlc Hoff
           Hfz Hz Hfd Hd Hdist s'.
    destruct (finite_point_inv _ Hrect) as (rx & ry & ->).
    destruct (finite_point_inv _ Ht0) as (x0 & y0 & ->).
    destruct (finite_point_inv _ Ht1) as (x1 & y1 & ->).
    destruct (finite_point_inv _ Hlc) as (cx & cy & ->).
    destruct (finite_point_inv _ Hoff) as (ox & oy & Eoff).
    destruct (pos_fin_inv _ Hfz Hz) as (z & Ez & Hzpos).
    destruct (pos_fin_inv _ Hfd Hd) as (d & -> & Hdpos).
    set (t0 := Point.mk (Fin x0) (Fin y0)) in *.
    set (t1 := Point.mk (Fin x1) (Fin y1)) in *.
    set (dist := Interaction.getTouchDistance Math_sqrt t0 t1) in *.
    assert (Hprod : (Fin 0 <=? Interaction.zoom s *' (dist /' Fin d)) = true).
    { rewrite Ez. apply mul_pos_nonneg; [assumption|].
      apply div_nonneg_pos; assumption. }
    destruct (clamp_zoom _ Hprod) as (Hc & z' & Ez' & Hlo & Hhi).
    assert (Hcenter : Interaction.getTouchCenter t0 t1
                      = Point.mk (Fin ((x0 + x1) / 2)) (Fin ((y0 + y1) / 2)))
      by reflexivity.
    assert (Htruthy : Num.truthy (Fin d) = true).
    { simpl. apply negb_true_iff. destruct (Qeq_bool d 0) eqn:E; [|reflexivity].
      apply Qeq_bool_iff in E. lra. }
    assert (Hs' : s' = Interaction.set_lastTouchCenter
                    (Some (Interaction.getTouchCenter t0 t1))
                    (Interaction.set_lastTouchDist (Some dist)
                       (Interaction.setCanvasOffset
                          (Point.mk
                             (Fin ((x0 + x1) / 2) -' Fin rx
                                -' (Fin cx -' Fin rx -' Fin ox) /' Fin z *' Fin z')
                             (Fin ((y0 + y1) / 2) -' Fin ry
                                -' (Fin cy -' Fin ry -' Fin oy) /' Fin z *' Fin z'))
                          (Interaction.setZoom (Fin z') s)))).
    { subst s'. unfold Interaction.handleTouchMove. rewrite HlastD, HlastC, Htruthy.
      fold dist. rewrite Ez'. rewrite Hcenter, Eoff, Ez. reflexivity. }
    rewrite Hs'. simpl Interaction.zoom. rewrite <- Ez'.
    split; [exact Hc|]. rewrite Ez'.
    split; [apply leb_fin; exact Hlo|]. split; [apply leb_fin; exact Hhi|].
    rewrite Hcenter.
    unfold Viewport.toClient, Viewport.toWorld, Point.eqv.
    simpl Interaction.canvasOffset. simpl Interaction.zoom. rewrite Eoff, Ez.
    simpl Point.x. simpl Point.y.
    assert (Hz0 : ~ (z == 0)%Q) by lra.
    split; apply anchored; exact Hz0.
Qed.

End ZoomStep.

(** A wheel step of 100 at the client point (30, 40) and the pinch of
    [Sample.fingers], both from zoom 1. *)
Lemma zoom_step_witness :
  let cursor := Point.mk (Fin 30) (Fin 40) in
  let wheeled := Interaction.handleWheel Sample.exp (Some Sample.origin) (Fin 100)
                   (Fin 30) (Fin 40) Sample.idle in
  let pinched := fst (Interaction.handleTouchMove Sample.sqrt (Sample.tool select [])
                        (Some Sample.origin) Sample.fingers Sample.pinching
                        Sample.emptyStore) in
  ((Num.abs (Fin 100) <? Fin (1 # 1000)) = false /\
   (Fin 0 <=? Sample.exp (Num.neg (Fin 100) *' Fin (1 # 1000))) = true /\
   (Fin 0 <? Interaction.zoom Sample.idle) = true) /\
  ((Fin (5 # 100) <=? Interaction.zoom wheeled) = true /\
   Point.eqv (Viewport.toClient wheeled Sample.origin
                (Viewport.toWorld Sample.idle Sample.origin cursor)) cursor) /\
  ((Fin (5 # 100) <=? Interaction.zoom pinched) = true /\
   Point.eqv (Viewport.toClient pinched Sample.origin
                (Viewport.toWorld Sample.pinching Sample.origin
                   (Point.mk (Fin 100) (Fin 100))))
             (Interaction.getTouchCenter
                (Point.mk (Fin 147) (Fin 96)) (Point.mk (Fin 153) (Fin 104)))).
Proof.
  intros cursor wheeled pinched.
  destruct (zoom_step_clamped_and_anchored Sample.sqrt Sample.exp) as [Hwheel Hpinch].
  split; [repeat split; reflexivity|]. split.
  - destruct (Hwheel Sample.origin cursor (Fin 100) Sample.idle
                eq_refl eq_refl eq_refl eq_refl eq_refl eq_refl eq_refl)
      as (_ & Hlo & _ & Hanchor).
    split; [exact Hlo|exact Hanchor].
  - destruct (Hpinch (Sample.tool select []) Sample.origin
                (Point.mk (Fin 147) (Fin 96)) (Point.mk (Fin 153) (Fin 104))
                (Point.mk (Fin 100) (Fin 100)) (Fin 10) Sample.pinching Sample.emptyStore
                eq_refl eq_refl eq_refl eq_refl eq_refl eq_refl eq_refl eq_refl eq_refl
                eq_refl eq_refl eq_refl)
      as (_ & Hlo & _ & Hanchor).
    split; [exact Hlo|exact Hanchor].
Defined.

(** C1 as stated fails in two places.  A pinch whose fingers move: the world
    point that was under the midpoint (100, 100) shows at (150, 100) after
    the step, not at (100, 100) again.  A wheel event with |deltaY| below
    0.001: it is ignored, so the zoom stays 1 and is not the clamped
    product of 1 and the scale factor. *)
Lemma zoom_step_counterexample :
  let before := Point.mk (Fin 100) (Fin 100) in
  let pinched := fst (Interaction.handleTouchMove Sample.sqrt (Sample.tool select [])
                        (Some Sample.origin) Sample.fingers Sample.pinching
                        Sample.emptyStore) in
  let shown := Viewport.toClient pinched Sample.origin
                 (Viewport.toWorld Sample.pinching Sample.origin before) in
  let deltaY := Fin (5 # 10000) in
  let wheeled := Interaction.handleWheel Sample.exp (Some Sample.origin) deltaY
                   (Fin 30) (Fin 40) Sample.idle in
  (Interaction.lastTouchCenter Sample.pinching = Some before /\
   Point.eqv shown (Point.mk (Fin 150) (Fin 100)) /\
   ~ Point.eqv shown before) /\
  (wheeled = Sample.idle /\
   ~ (Interaction.zoom wheeled
        ~= Viewport.spec_clamp
             (Interaction.zoom Sample.idle
                *' Sample.exp (Num.neg deltaY *' Fin (1 # 1000)))
             (Fin (5 # 100)) (Fin 5))).
Proof.
  intros before pinched shown deltaY wheeled. split.
  - split; [reflexivity|]. split.
    + split; vm_compute; reflexivity.
    + intros [Hx _]. vm_compute in Hx. discriminate.
  - split; [reflexivity|]. intro H. vm_compute in H. discriminate.
Qed.

(* ================================================================== *)
(** ** Dragging the selection along one axis *)

Lemma moves_cons p canvasRef m ms s st :
  Gesture.moves p canvasRef (m :: ms) s st
  = Gesture.moves p canvasRef ms
      (fst (Interaction.handleMove p canvasRef (Point.x m) (Point.y m) s st))
      (snd (Interaction.handleMove p canvasRef (Point.x m) (Point.y m) s st)).
Proof.
  unfold Gesture.moves. simpl.
  destruct (Interaction.handleMove p canvasRef (Point.x m) (Point.y m) s st). reflexivity.
Qed.

Lemma moves_app p canvasRef ms1 ms2 s st :
  Gesture.moves p canvasRef (ms1 ++ ms2) s st
  = Gesture.moves p canvasRef ms2
      (fst (Gesture.moves p canvasRef ms1 s st)) (snd (Gesture.moves p canvasRef ms1 s st)).
Proof.
  unfold Gesture.moves. rewrite fold_left_app.
  destruct (fold_left _ ms1 (s, st)). reflexivity.
Qed.

Lemma last_nonempty {A : Type} (l : list A) (a d1 d2 : A) :
  last (a :: l) d1 = last (a :: l) d2.
Proof.
  revert a. induction l as [|b l IH]; intro a; [reflexivity|].
  change (last (b :: l) d1 = last (b :: l) d2). apply IH.
Qed.

Lemma last_cons {A : Type} (l : list A) (m q : A) :
  last (m :: l) q = last l m.
Proof.
  destruct l as [|a l]; [reflexivity|].
  change (last (a :: l) q = last (a :: l) m). apply last_nonempty.
Qed.

(** One move of a selection drag: the store is left alone, the drag goes
    on, and the axis is kept if it is set, chosen if the move leaves the
    deadzone, and the state is untouched otherwise. *)
Lemma move_in_selection_drag p rect m s0 s st sel0 press :
  Interaction.selectedTool p = select ->
  Gesture.SelDrag s0 s sel0 (Viewport.toWorld s0 rect press) ->
  let s' := fst (Interaction.handleMove p (Some rect) (Point.x m) (Point.y m) s st) in
  snd (Interaction.handleMove p (Some rect) (Point.x m) (Point.y m) s st) = st /\
  Gesture.SelDrag s0 s' sel0 (Viewport.toWorld s0 rect press) /\
  match Interaction.dragAxisRef s with
  | Some axis =>
      Interaction.dragAxisRef s' = Some axis /\
      Interaction.selection s'
        = Some (Gesture.slid axis sel0 (Gesture.dx s0 rect press m)
                  (Gesture.dy s0 rect press m))
  | None =>
      if Gesture.exceeds (Fin 5) s0 rect press m then
        Interaction.dragAxisRef s' = Some (Gesture.dominant s0 rect press m) /\
        Interaction.selection s'
          = Some (Gesture.slid (Gesture.dominant s0 rect press m) sel0
                    (Gesture.dx s0 rect press m) (Gesture.dy s0 rect press m))
      else s' = s
  end.
Proof.
  intros Htool [Hflag Hstart Hinit Hzoom Hoff (r & Hsel & Hw & Hh)] s'. subst s'.
  unfold Interaction.handleMove, Interaction.handleMove_layerDrag. rewrite Htool.
  unfold Interaction.handleMove_selectionDrag.
  rewrite Hflag, Hstart, Hinit, Hsel, Hzoom, Hoff.
  unfold Gesture.exceeds, Gesture.dominant, Gesture.dx, Gesture.dy, Viewport.toWorld.
  cbn [Point.x Point.y].
  destruct (Interaction.dragAxisRef s) as [axis|] eqn:Hax.
  - rewrite Hax. cbn. rewrite Hsel. split; [reflexivity|]. split.
    + constructor; cbn; try assumption. eexists; split; [reflexivity|]. cbn. auto.
    + split; [exact Hax|].
      destruct axis; cbn; rewrite Hw, Hh; reflexivity.
  - match goal with |- context [if ?c then Interaction.set_dragAxisRef _ _ else _] =>
      destruct c eqn:Hex end.
    + cbn. rewrite Hsel. split; [reflexivity|]. split.
      * constructor; cbn; try assumption. eexists; split; [reflexivity|]. cbn. auto.
      * split; [reflexivity|].
        match goal with |- context [if ?c then _ else _] => destruct c end;
          cbn; rewrite Hw, Hh; reflexivity.
    + rewrite Hax. cbn. split; [reflexivity|]. split; [|reflexivity].
      constructor; try assumption. eauto.
Qed.

Lemma quiet_moves p rect press s0 sel0 quiet : forall s st,
  Interaction.selectedTool p = select ->
  Gesture.SelDrag s0 s sel0 (Viewport.toWorld s0 rect press) ->
  Interaction.dragAxisRef s = None ->
  Forall (fun q => Gesture.exceeds (Fin 5) s0 rect press q = false) quiet ->
  Gesture.moves p (Some rect) quiet s st = (s, st).
Proof.
  induction quiet as [|q quiet IH]; intros s st Htool Hsd Hax Hq.
  - reflexivity.
  - inversion Hq as [|? ? Hq1 Hq2]; subst. rewrite moves_cons.
    destruct (move_in_selection_drag p rect q s0 s st sel0 press Htool Hsd) as (Hst & _ & H).
    rewrite Hax, Hq1 in H. rewrite H, Hst. apply IH; assumption.
Qed.

Lemma locked_moves p rect press s0 sel0 axis later : forall s st q,
  Interaction.selectedTool p = select ->
  Gesture.SelDrag s0 s sel0 (Viewport.toWorld s0 rect press) ->
  Interaction.dragAxisRef s = Some axis ->
  Interaction.selection s
    = Some (Gesture.slid axis sel0 (Gesture.dx s0 rect press q)
              (Gesture.dy s0 rect press q)) ->
  let s' := fst (Gesture.moves p (Some rect) later s st) in
  Interaction.dragAxisRef s' = Some axis /\
  Interaction.selection s'
    = Some (Gesture.slid axis sel0 (Gesture.dx s0 rect press (last later q))
              (Gesture.dy s0 rect press (last later q))).
Proof.
  induction later as [|m later IH]; intros s st q Htool Hsd Hax Hsel.
  - simpl. auto.
  - cbv zeta. rewrite moves_cons.
    destruct (move_in_selection_drag p rect m s0 s st sel0 press Htool Hsd)
      as (Hst & Hsd' & H).
    rewrite Hax in H. destruct H as [Hax' Hsel'].
    specialize (IH _ (snd (Interaction.handleMove p (Some rect) (Point.x m) (Point.y m) s st))
                  m Htool Hsd' Hax' Hsel').
    cbv zeta in IH.
    rewrite (last_cons later m q). exact IH.
Qed.

(** C8, as the code has it.  A drag that starts with the select tool pressed
    inside the selection is locked to one axis after a deadzone of 5 world
    units (the pointer's displacement on screen divided by the zoom): while
    no move has left the deadzone the selection stays as it was and no axis
    is chosen; the first move [m] that leaves it fixes the axis (horizontal
    if |dx| > |dy|, vertical otherwise); after any further moves the axis is
    still that one, and the selection has its width, its height and its
    other coordinate as at the press, the coordinate on the axis being the
    one at the press plus the displacement of the last move. *)
Theorem selection_drag_axis_locked
    (p : Interaction.Props) (rect press : Point.t) (button : Z)
    (s : Interaction.t) (st : Store.t) (sel : Rect.t)
    (quiet later : list Point.t) (m : Point.t) :
  Interaction.selectedTool p = select ->
  Interaction.isGenerating p = false ->
  (Interaction.zoom s <=? Fin (1 # 1000)) = false ->
  button <> 1%Z ->
  Interaction.selection s = Some sel ->
  (let w := Viewport.toWorld s rect press in
   (Point.x w >=? Rect.x sel) && (Point.x w <=? Rect.x sel +' Rect.w sel) &&
   (Point.y w >=? Rect.y sel) && (Point.y w <=? Rect.y sel +' Rect.h sel)) = true ->
  Forall (fun q => Gesture.exceeds (Fin 5) s rect press q = false) quiet ->
  Gesture.exceeds (Fin 5) s rect press m = true ->
  let started := Interaction.handleStart p (Some rect) (Point.x press) (Point.y press)
                   button s st in
  let s1 := fst (Gesture.moves p (Some rect) quiet (fst started) (snd started)) in
  let s2 := fst (Gesture.moves p (Some rect) (quiet ++ m :: later)
                   (fst started) (snd started)) in
  let axis := Gesture.dominant s rect press m in
  let dx := Gesture.dx s rect press (last later m) in
  let dy := Gesture.dy s rect press (last later m) in
  (Interaction.dragAxisRef s1 = None /\ Interaction.selection s1 = Some sel) /\
  Interaction.dragAxisRef s2 = Some axis /\
  exists r,
    Interaction.selection s2 = Some r /\
    Rect.w r = Rect.w sel /\ Rect.h r = Rect.h sel /\
    match axis with
    | Interaction.horizontal => Rect.x r = Rect.x sel +' dx /\ Rect.y r = Rect.y sel
    | Interaction.vertical => Rect.x r = Rect.x sel /\ Rect.y r = Rect.y sel +' dy
    end.
Proof.
  intros Htool Hgen Hzoom Hbutton Hsel Hinside Hquiet Hm started.
  assert (Hstarted :
            fst started
            = Interaction.set_dragAxisRef None
                (Interaction.set_initialSelectionPosRef
                   (Some (Point.mk (Rect.x sel) (Rect.y sel)))
                   (Interaction.set_selectionDragStartRef
                      (Some (Viewport.toWorld s rect press))
                      (Interaction.set_isDraggingSelectionRef true s)))).
  { subst started. unfold Interaction.handleStart.
    rewrite Hzoom, Hgen, Htool, Hsel.
    apply Z.eqb_neq in Hbutton. rewrite Hbutton.
    unfold Viewport.toWorld in Hinside. cbn [Point.x Point.y] in Hinside.
    cbv zeta in Hinside. rewrite Hinside. reflexivity. }
  assert (Hsd : Gesture.SelDrag s (fst started) sel (Viewport.toWorld s rect press)).
  { rewrite Hstarted. constructor; try reflexivity. exists sel. auto. }
  assert (Hax0 : Interaction.dragAxisRef (fst started) = None)
    by (rewrite Hstarted; reflexivity).
  intros s1 s2 axis dx dy.
  pose proof (quiet_moves p rect press s sel quiet _ (snd started) Htool Hsd Hax0 Hquiet)
    as Hq.
  split.
  { subst s1. rewrite Hq. split; [exact Hax0|]. rewrite Hstarted. exact Hsel. }
  subst s2. rewrite moves_app, Hq. cbn [fst snd]. rewrite moves_cons.
  destruct (move_in_selection_drag p rect m s (fst started) (snd started) sel press Htool Hsd)
    as (Hst & Hsd' & H).
  rewrite Hax0, Hm in H. destruct H as [Hax' Hsel'].
  destruct (locked_moves p rect press s sel axis later _
              (snd (Interaction.handleMove p (Some rect) (Point.x m) (Point.y m)
                      (fst started) (snd started)))
              m Htool Hsd' Hax' Hsel') as [Ha Hs].
  split; [exact Ha|].
  eexists. split; [exact Hs|].
  fold dx. fold dy. destruct axis; cbn; auto.
Qed.

(** At zoom 1: a press at (10, 10) on the selection, a move of 2 pixels, a
    move to (20, 12) that leaves the deadzone to the right, and a move to
    (30, 50): the selection ends 20 units to the right and at its height. *)
Lemma selection_drag_witness :
  let p := Sample.tool select [] in
  let s := Sample.selected 1 in
  let press := Point.mk (Fin 10) (Fin 10) in
  let quiet := [Point.mk (Fin 12) (Fin 11)] in
  let m := Point.mk (Fin 20) (Fin 12) in
  let later := [Point.mk (Fin 30) (Fin 50)] in
  let started := Interaction.handleStart p (Some Sample.origin) (Fin 10) (Fin 10) 0 s
                   Sample.emptyStore in
  let s2 := fst (Gesture.moves p (Some Sample.origin) (quiet ++ m :: later)
                   (fst started) (snd started)) in
  (Forall (fun q => Gesture.exceeds (Fin 5) s Sample.origin press q = false) quiet /\
   Gesture.exceeds (Fin 5) s Sample.origin press m = true) /\
  Interaction.dragAxisRef s2 = Some Interaction.horizontal /\
  exists r,
    Interaction.selection s2 = Some r /\
    Rect.w r = Fin 100 /\ Rect.h r = Fin 100 /\ Rect.y r = Fin 0 /\
    Rect.x r ~= Fin 20.
Proof.
  intros p s press quiet m later started s2.
  assert (Hquiet : Forall (fun q => Gesture.exceeds (Fin 5) s Sample.origin press q = false)
                     quiet) by (repeat constructor).
  assert (Hm : Gesture.exceeds (Fin 5) s Sample.origin press m = true) by reflexivity.
  split; [split; assumption|].
  assert (Hbutton : 0%Z <> 1%Z) by discriminate.
  destruct (selection_drag_axis_locked p Sample.origin press 0%Z s Sample.emptyStore
              (Rect.mk (Fin 0) (Fin 0) (Fin 100) (Fin 100)) quiet later m
              eq_refl eq_refl eq_refl Hbutton eq_refl eq_refl Hquiet Hm)
    as (_ & Hax & r & Hr & Hw & Hh & Hxy).
  split; [exact Hax|].
  exists r. split; [exact Hr|]. split; [exact Hw|]. split; [exact Hh|].
  change (Gesture.dominant s Sample.origin press m) with Interaction.horizontal in Hxy.
  destruct Hxy as [Hx Hy]. split; [exact Hy|].
  rewrite Hx. vm_compute. reflexivity.
Defined.

(** C8 as stated fails: the deadzone is not measured in screen pixels.  At
    zoom 2 a move of 8 pixels on screen is 4 world units and chooses no
    axis; at zoom 1/2 a move of 3 pixels on screen is 6 world units and
    locks the drag. *)
Lemma selection_drag_deadzone_not_screen_pixels :
  let p := Sample.tool select [] in
  let press := Point.mk (Fin 20) (Fin 20) in
  let far := Point.mk (Fin 28) (Fin 20) in
  let near := Point.mk (Fin 23) (Fin 20) in
  let drag zoom m :=
    let started := Interaction.handleStart p (Some Sample.origin) (Fin 20) (Fin 20) 0
                     (Sample.selected zoom) Sample.emptyStore in
    fst (Gesture.moves p (Some Sample.origin) [m] (fst started) (snd started)) in
  ((Gesture.screen_dx press far >? Fin 5) = true /\
   Interaction.isDraggingSelectionRef (drag 2%Q far) = true /\
   Interaction.dragAxisRef (drag 2%Q far) = None /\
   Interaction.selection (drag 2%Q far) = Interaction.selection (Sample.selected 2)) /\
  ((Gesture.screen_dx press near >? Fin 5) = false /\
   (Gesture.screen_dy press near >? Fin 5) = false /\
   Interaction.isDraggingSelectionRef (drag (1 # 2)%Q near) = true /\
   Interaction.dragAxisRef (drag (1 # 2)%Q near) = Some Interaction.horizontal).
Proof.
  vm_compute. repeat split; reflexivity.
Qed.

(* ================================================================== *)
(** ** Drawing a selection: the snap to the nearest aspect ratio *)

Lemma MAX_Q_ge_1 : (1 <= Num.MAX_Q)%Q.
Proof. vm_compute. discriminate. Qed.

Opaque Num.MAX_Q.

Lemma positive_inv (r : Resolution.t) :
  Resolution.positive r = true ->
  exists q, Resolution.ratio r = Fin q /\ (0 < q)%Q /\ (q < Num.MAX_Q)%Q.
Proof.
  unfold Resolution.positive, Num.MAX_VALUE.
  destruct (Resolution.ratio r) as [q| | |]; simpl; try discriminate.
  rewrite andb_true_iff, !Qltb_lt. eauto.
Qed.

Lemma bestResolution_stepMin cur l :
  Interaction.bestResolution cur l
  = fold_left (stepMin (distance cur)) l (Num.MAX_VALUE, hd Interaction.defaultResolution l).
Proof. reflexivity. Qed.

Lemma bestResolution_in cur l :
  l <> [] -> In (snd (Interaction.bestResolution cur l)) l.
Proof.
  intro Hne. rewrite bestResolution_stepMin.
  destruct (fold_stepMin (distance cur) l Num.MAX_VALUE (hd Interaction.defaultResolution l))
    as [[H | (H & _)] _].
  - rewrite H. simpl. destruct l; [congruence|]. left. reflexivity.
  - exact H.
Qed.

Lemma distance_fin (c : Q) (r : Resolution.t) (q : Q) :
  Resolution.ratio r = Fin q -> distance (Fin c) r = Fin (Qabs (q + - c)).
Proof. intro H. unfold distance. rewrite H. reflexivity. Qed.

Lemma bestResolution_min (c : Q) l :
  l <> [] -> Forall (fun r => Resolution.positive r = true) l ->
  (0 <= c)%Q -> (c <= Num.MAX_Q)%Q ->
  Forall (fun e => (distance (Fin c) (snd (Interaction.bestResolution (Fin c) l))
                    <=? distance (Fin c) e) = true) l.
Proof.
  intros Hne Hpos Hc0 HcM. rewrite bestResolution_stepMin.
  destruct (fold_stepMin (distance (Fin c)) l Num.MAX_VALUE
              (hd Interaction.defaultResolution l)) as [Hcase Hmin].
  set (r := fold_left (stepMin (distance (Fin c))) l
              (Num.MAX_VALUE, hd Interaction.defaultResolution l)) in *.
  assert (Hkey : forall e, In e l -> exists k, distance (Fin c) e = Fin k /\ (k < Num.MAX_Q)%Q).
  { intros e He. rewrite Forall_forall in Hpos.
    destruct (positive_inv e (Hpos e He)) as (q & Hq & Hq0 & HqM).
    exists (Qabs (q + - c)). split; [apply distance_fin; exact Hq|].
    apply Qabs_case; intros; lra. }
  destruct Hcase as [Hr | (Hin & Hfst & _)].
  - exfalso. destruct l as [|e l]; [congruence|].
    inversion Hmin as [|? ? He _]; subst.
    destruct (Hkey e (or_introl eq_refl)) as (k & Hk & HkM).
    rewrite Hr, Hk in He. simpl in He. apply Qltb_ge in He. lra.
  - rewrite Forall_forall in *. intros e He.
    specialize (Hmin e He). rewrite Hfst in Hmin.
    destruct (Hkey e He) as (k & Hk & _).
    destruct (Hkey _ Hin) as (k' & Hk' & _).
    apply leb_of_not_ltb; [rewrite Hk'; reflexivity|rewrite Hk; reflexivity|exact Hmin].
Qed.

Lemma handleMove_select p rect m s st start :
  Interaction.selectedTool p = select ->
  Interaction.isDraggingRef s = true ->
  Interaction.dragStartRef s = Some start ->
  Interaction.isMiddlePanning s = false ->
  Interaction.isDraggingSelectionRef s = false ->
  Interaction.handleMove p (Some rect) (Point.x m) (Point.y m) s st
  = (Interaction.setSelection
       (Some (Interaction.snapSelection (Interaction.availableResolutions p)
                (Point.x (Viewport.toWorld s rect m)) (Point.y (Viewport.toWorld s rect m))
                (Point.x start) (Point.y start))) s, st).
Proof.
  intros Htool Hdrag Hstart Hpan Hsel.
  unfold Interaction.handleMove, Interaction.handleMove_layerDrag,
    Interaction.handleMove_selectionDrag.
  rewrite Htool, Hdrag, Hstart, Hpan, Hsel. reflexivity.
Qed.

(** The rectangle of the select branch, from the raw sizes [w] and [h] of
    the drag. *)
Lemma snapSelection_size avail (cx cy sx sy : Q) :
  let used := match avail with [] => [Interaction.defaultResolution] | _ :: _ => avail end in
  let w := Qabs (cx + - sx) in
  let h := Qabs (cy + - sy) in
  let cur := if Qeq_bool h 0 then Fin 1 else Fin w /' Fin h in
  let best := snd (Interaction.bestResolution cur used) in
  let sel := Interaction.snapSelection avail (Fin cx) (Fin cy) (Fin sx) (Fin sy) in
  Rect.w sel = (if cur >? Resolution.ratio best then Fin h *' Resolution.ratio best else Fin w) /\
  Rect.h sel = (if cur >? Resolution.ratio best then Fin h else Fin w /' Resolution.ratio best) /\
  Rect.x sel = (if Num.Qltb cx sx then Fin sx -' Rect.w sel else Fin sx) /\
  Rect.y sel = (if Num.Qltb cy sy then Fin sy -' Rect.h sel else Fin sy).
Proof.
  repeat split; reflexivity.
Qed.

Lemma used_nonempty (avail : list Resolution.t) :
  match avail with [] => [Interaction.defaultResolution] | _ :: _ => avail end <> [].
Proof. destruct avail; discriminate. Qed.

Lemma used_positive (avail : list Resolution.t) :
  Forall (fun r => Resolution.positive r = true) avail ->
  Forall (fun r => Resolution.positive r = true)
    match avail with [] => [Interaction.defaultResolution] | _ :: _ => avail end.
Proof.
  intro H. destruct avail; [|exact H]. repeat constructor.
Qed.

(** C2.  While a selection is drawn with the select tool over a non-empty
    table of resolutions with positive ratios, every move sets the selection
    to a rectangle built from an entry [matched] of the table, and its width
    is its height times the matched ratio.  On a move with a raw height
    above zero the entry is the one whose ratio is nearest to the raw ratio
    rawW / rawH: if the raw ratio is above the entry's ratio the height is
    rawH and the width is the height times the ratio, otherwise the width is
    rawW and the height is the width divided by the ratio; width / height is
    the matched ratio when the raw width is above zero, and when it is zero
    the rectangle is 0 x 0 and width / height is NaN.  On a move with a raw
    height of zero the number 1 stands in for the raw ratio: the rectangle
    is 0 x 0 when 1 is above the matched ratio, and otherwise it has the
    width rawW and the matched ratio.  On release with the select tool a
    selection with w < 10 or h < 10 becomes null and any other selection is
    kept. *)
Theorem selection_snaps_to_matched_ratio :
  (forall (p : Interaction.Props) (rect m start : Point.t) (s : Interaction.t) (st : Store.t),
     Interaction.selectedTool p = select ->
     Interaction.availableResolutions p <> [] ->
     Forall (fun r => Resolution.positive r = true) (Interaction.availableResolutions p) ->
     Interaction.isDraggingRef s = true ->
     Interaction.dragStartRef s = Some start ->
     Interaction.isMiddlePanning s = false ->
     Interaction.isDraggingSelectionRef s = false ->
     Point.finite start = true ->
     Point.finite (Viewport.toWorld s rect m) = true ->
     let rawW := Num.abs (Point.x (Viewport.toWorld s rect m) -' Point.x start) in
     let rawH := Num.abs (Point.y (Viewport.toWorld s rect m) -' Point.y start) in
     exists sel matched,
       Interaction.selection
         (fst (Interaction.handleMove p (Some rect) (Point.x m) (Point.y m) s st)) = Some sel /\
       In matched (Interaction.availableResolutions p) /\
       Rect.w sel ~= Rect.h sel *' Resolution.ratio matched /\
       ((Fin 0 <? rawH) = true ->
        (rawW /' rawH <=? Num.MAX_VALUE) = true ->
        Forall (fun e => (Num.abs (Resolution.ratio matched -' rawW /' rawH)
                          <=? Num.abs (Resolution.ratio e -' rawW /' rawH)) = true)
               (Interaction.availableResolutions p) /\
        (if rawW /' rawH >? Resolution.ratio matched
         then Rect.h sel = rawH /\ Rect.w sel = Rect.h sel *' Resolution.ratio matched
         else Rect.w sel = rawW /\ Rect.h sel = Rect.w sel /' Resolution.ratio matched) /\
        ((Fin 0 <? rawW) = true -> Rect.w sel /' Rect.h sel ~= Resolution.ratio matched) /\
        ((rawW =? Fin 0) = true ->
         Rect.w sel ~= Fin 0 /\ Rect.h sel ~= Fin 0 /\ Rect.w sel /' Rect.h sel = NaN)) /\
       ((rawH =? Fin 0) = true ->
        Forall (fun e => (Num.abs (Resolution.ratio matched -' Fin 1)
                          <=? Num.abs (Resolution.ratio e -' Fin 1)) = true)
               (Interaction.availableResolutions p) /\
        (if Fin 1 >? Resolution.ratio matched
         then Rect.h sel = rawH /\ Rect.w sel = Rect.h sel *' Resolution.ratio matched
         else Rect.w sel = rawW /\ Rect.h sel = Rect.w sel /' Resolution.ratio matched) /\
        ((Fin 1 >? Resolution.ratio matched) = true ->
         Rect.w sel ~= Fin 0 /\ Rect.h sel ~= Fin 0 /\ Rect.w sel /' Rect.h sel = NaN) /\
        ((Fin 1 >? Resolution.ratio matched) = false -> (Fin 0 <? rawW) = true ->
         Rect.w sel /' Rect.h sel ~= Resolution.ratio matched))) /\
  (forall (p : Interaction.Props) (s : Interaction.t),
     Interaction.selectedTool p = select ->
     Interaction.selection (Interaction.handleEnd p s)
     = match Interaction.selection s with
       | Some sel => if (Rect.w sel <? Fin 10) || (Rect.h sel <? Fin 10)
                     then None else Some sel
       | None => None
       end).
Proof.
  split.
  - intros p rect m start s st Htool Hne Hpos Hdrag Hstart Hpan Hnosel Hfs Hfc rawW rawH.
    rewrite (handleMove_select p rect m s st start Htool Hdrag Hstart Hpan Hnosel).
    cbn [fst Interaction.selection Interaction.setSelection].
    destruct (finite_point_inv _ Hfs) as (sx & sy & ->).
    destruct (finite_point_inv _ Hfc) as (cx & cy & Hcur).
    subst rawW rawH. rewrite Hcur in *. cbn [Point.x Point.y] in *.
    destruct (snapSelection_size (Interaction.availableResolutions p) cx cy sx sy)
      as (Hw & Hh & _).
    cbv zeta in Hw, Hh.
    set (sel := Interaction.snapSelection (Interaction.availableResolutions p)
                  (Fin cx) (Fin cy) (Fin sx) (Fin sy)) in *.
    assert (Hused : match Interaction.availableResolutions p with
                    | [] => [Interaction.defaultResolution]
                    | _ :: _ => Interaction.availableResolutions p
                    end = Interaction.availableResolutions p).
    { destruct (Interaction.availableResolutions p); [congruence|reflexivity]. }
    rewrite Hused in Hw, Hh.
    change (Fin cx -' Fin sx) with (Fin (cx + - sx)) in *.
    change (Fin cy -' Fin sy) with (Fin (cy + - sy)) in *.
    cbn [Num.abs] in *.
    set (w := Qabs (cx + - sx)) in *. set (h := Qabs (cy + - sy)) in *.
    assert (Hw0 : (0 <= w)%Q) by apply Qabs_nonneg.
    assert (Hh0 : (0 <= h)%Q) by apply Qabs_nonneg.
    remember (if Qeq_bool h 0 then Fin 1 else Fin w /' Fin h) as cur eqn:Hcurdef.
    remember (snd (Interaction.bestResolution cur (Interaction.availableResolutions p)))
      as best eqn:Hbest.
    pose proof (bestResolution_in cur _ Hne) as Hin. rewrite <- Hbest in Hin.
    assert (Hbp : Resolution.positive best = true).
    { rewrite Forall_forall in Hpos. apply Hpos. exact Hin. }
    destruct (positive_inv best Hbp) as (q & Hq & Hq0 & _).
    assert (Hq' : ~ (q == 0)%Q) by lra.
    assert (Hnan : forall a b : Q, (a == 0)%Q -> (b == 0)%Q -> Fin a /' Fin b = NaN).
    { intros a b Ha Hb. apply Qsgn_Eq in Ha. apply Qsgn_Eq in Hb.
      cbn [Num.div]. rewrite Ha, Hb. reflexivity. }
    exists sel, best. split; [reflexivity|]. split; [exact Hin|]. split; [|split].
    + rewrite Hw, Hh, Hq. destruct (cur >? Fin q).
      * simpl. reflexivity.
      * rewrite (div_fin _ _ Hq'). simpl. field. exact Hq'.
    + intros HrawH HM. cbn [Num.ltb] in HrawH.
      assert (Hhpos : (0 < h)%Q) by (apply Qltb_lt; exact HrawH).
      assert (Hhn : ~ (h == 0)%Q) by lra.
      assert (Hhz : Qeq_bool h 0 = false).
      { destruct (Qeq_bool h 0) eqn:E; [|reflexivity]. apply Qeq_bool_iff in E. lra. }
      rewrite Hhz, (div_fin w h Hhn) in Hcurdef. rewrite (div_fin w h Hhn) in *.
      set (c := (w / h)%Q) in *. subst cur.
      assert (Hc0 : (0 <= c)%Q).
      { subst c. apply Qle_shift_div_l; [exact Hhpos|]. lra. }
      assert (HcM : (c <= Num.MAX_Q)%Q) by (apply leb_fin; exact HM).
      pose proof (bestResolution_min c _ Hne Hpos Hc0 HcM) as Hmin. rewrite <- Hbest in Hmin.
      split; [exact Hmin|].
      rewrite Hq in *. cbn [Num.gtb Num.ltb] in *.
      destruct (Num.Qltb q c) eqn:E.
      * rewrite Hw, Hh. split; [split; reflexivity|]. split.
        -- intros _. cbn [Num.mul]. rewrite (div_fin _ _ Hhn). simpl. field. exact Hhn.
        -- intro Hz. cbn [Num.eqb] in Hz. apply Qeq_bool_iff in Hz.
           exfalso. apply Qltb_lt in E.
           assert (Hcz : (c == 0)%Q) by (subst c; rewrite Hz; field; exact Hhn).
           lra.
      * rewrite Hw, Hh. split; [split; reflexivity|].
        rewrite (div_fin _ _ Hq'). split.
        -- intro Hwpos. apply Qltb_lt in Hwpos.
           assert (Hwq : ~ (w / q == 0)%Q).
           { intro H0. assert (Hx : (w == (w / q) * q)%Q) by (field; exact Hq').
             rewrite H0 in Hx. lra. }
           rewrite (div_fin _ _ Hwq). simpl. field. split; lra.
        -- intro Hz. cbn [Num.eqb] in Hz. apply Qeq_bool_iff in Hz.
           assert (Hwq : (w / q == 0)%Q) by (rewrite Hz; field; exact Hq').
           split; [exact Hz|]. split; [exact Hwq|]. apply Hnan; assumption.
    + intro Hzero. cbn [Num.eqb] in Hzero.
      assert (Hc1 : cur = Fin 1) by (rewrite Hcurdef, Hzero; reflexivity).
      clear Hcurdef. subst cur.
      assert (Hhz : (h == 0)%Q) by (apply Qeq_bool_iff; exact Hzero).
      split.
      { assert (H01 : (0 <= 1)%Q) by lra.
        pose proof (bestResolution_min 1 _ Hne Hpos H01 MAX_Q_ge_1) as Hmin.
        rewrite <- Hbest in Hmin. exact Hmin. }
      rewrite Hw, Hh, Hq. cbn [Num.gtb Num.ltb].
      destruct (Num.Qltb q 1) eqn:E.
      * split; [split; reflexivity|]. split; [|discriminate].
        intros _. cbn [Num.mul].
        assert (Hhq : (h * q == 0)%Q) by (rewrite Hhz; ring).
        split; [exact Hhq|]. split; [exact Hhz|]. apply Hnan; assumption.
      * split; [split; reflexivity|]. split; [discriminate|].
        intros _ Hwpos. cbn [Num.ltb] in Hwpos. apply Qltb_lt in Hwpos.
        rewrite (div_fin _ _ Hq').
        assert (Hwq : ~ (w / q == 0)%Q).
        { intro H0. assert (Hx : (w == (w / q) * q)%Q) by (field; exact Hq').
          rewrite H0 in Hx. lra. }
        rewrite (div_fin _ _ Hwq). simpl. field. split; lra.
  - intros p s Htool. unfold Interaction.handleEnd. rewrite Htool. reflexivity.
Qed.

(** C10.  While a selection is drawn with the select tool, over a table of
    resolutions with positive ratios that may be empty, every move sets the
    selection to a rectangle whose four fields are finite numbers and whose
    width and height are at least zero.  When the raw height is zero the
    ratio 1 stands in for the raw ratio: the entry used is nearest to 1 and
    the rectangle is built from it as in the general case.  When the table
    is empty the rectangle is the one computed over the single entry
    1024 x 1024 of ratio 1, and it is a square. *)
Theorem selection_snap_is_total
    (p : Interaction.Props) (rect m start : Point.t) (s : Interaction.t) (st : Store.t) :
  Interaction.selectedTool p = select ->
  Forall (fun r => Resolution.positive r = true) (Interaction.availableResolutions p) ->
  Interaction.isDraggingRef s = true ->
  Interaction.dragStartRef s = Some start ->
  Interaction.isMiddlePanning s = false ->
  Interaction.isDraggingSelectionRef s = false ->
  Point.finite start = true ->
  Point.finite (Viewport.toWorld s rect m) = true ->
  let current := Viewport.toWorld s rect m in
  let rawW := Num.abs (Point.x current -' Point.x start) in
  let rawH := Num.abs (Point.y current -' Point.y start) in
  exists sel,
    Interaction.selection
      (fst (Interaction.handleMove p (Some rect) (Point.x m) (Point.y m) s st)) = Some sel /\
    Rect.finite sel = true /\
    (Fin 0 <=? Rect.w sel) = true /\ (Fin 0 <=? Rect.h sel) = true /\
    ((rawH =? Fin 0) = true ->
     exists matched,
       (In matched (Interaction.availableResolutions p) \/
        Interaction.availableResolutions p = [] /\ matched = Interaction.defaultResolution) /\
       Forall (fun e => (Num.abs (Resolution.ratio matched -' Fin 1)
                         <=? Num.abs (Resolution.ratio e -' Fin 1)) = true)
              (Interaction.availableResolutions p) /\
       (if Fin 1 >? Resolution.ratio matched
        then Rect.h sel = rawH /\ Rect.w sel = rawH *' Resolution.ratio matched
        else Rect.w sel = rawW /\ Rect.h sel = rawW /' Resolution.ratio matched)) /\
    (Interaction.availableResolutions p = [] ->
     sel = Interaction.snapSelection [Resolution.mk (Fin 1024) (Fin 1024) (Fin 1) None]
             (Point.x current) (Point.y current) (Point.x start) (Point.y start) /\
     Rect.w sel ~= Rect.h sel).
Proof.
  intros Htool Hpos Hdrag Hstart Hpan Hnosel Hfs Hfc current rawW rawH.
  rewrite (handleMove_select p rect m s st start Htool Hdrag Hstart Hpan Hnosel).
  cbn [fst Interaction.selection Interaction.setSelection].
  destruct (finite_point_inv _ Hfs) as (sx & sy & ->).
  destruct (finite_point_inv _ Hfc) as (cx & cy & Hcur).
  subst rawW rawH current. rewrite Hcur in *. cbn [Point.x Point.y] in *.
  destruct (snapSelection_size (Interaction.availableResolutions p) cx cy sx sy)
    as (Hw & Hh & Hx & Hy).
  cbv zeta in Hw, Hh, Hx, Hy.
  set (sel := Interaction.snapSelection (Interaction.availableResolutions p)
                (Fin cx) (Fin cy) (Fin sx) (Fin sy)) in *.
  set (used := match Interaction.availableResolutions p with
               | [] => [Interaction.defaultResolution]
               | _ :: _ => Interaction.availableResolutions p
               end) in *.
  change (Fin cx -' Fin sx) with (Fin (cx + - sx)) in *.
  change (Fin cy -' Fin sy) with (Fin (cy + - sy)) in *.
  cbn [Num.abs] in *.
  set (w := Qabs (cx + - sx)) in *. set (h := Qabs (cy + - sy)) in *.
  assert (Hw0 : (0 <= w)%Q) by apply Qabs_nonneg.
  assert (Hh0 : (0 <= h)%Q) by apply Qabs_nonneg.
  set (cur := if Qeq_bool h 0 then Fin 1 else Fin w /' Fin h) in *.
  set (best := snd (Interaction.bestResolution cur used)) in *.
  assert (Hne : used <> []) by apply used_nonempty.
  assert (Hupos : Forall (fun r => Resolution.positive r = true) used)
    by (apply used_positive; exact Hpos).
  pose proof (bestResolution_in cur used Hne) as Hin. fold best in Hin.
  assert (Hbp : Resolution.positive best = true).
  { rewrite Forall_forall in Hupos. apply Hupos. exact Hin. }
  destruct (positive_inv best Hbp) as (q & Hq & Hq0 & _).
  assert (Hq' : ~ (q == 0)%Q) by lra.
  assert (Hwh : exists a b, Rect.w sel = Fin a /\ Rect.h sel = Fin b /\
                            (0 <= a)%Q /\ (0 <= b)%Q).
  { rewrite Hw, Hh, Hq. destruct (cur >? Fin q).
    - exists (h * q)%Q, h. repeat split; try reflexivity; nra.
    - exists w, (w / q)%Q. rewrite (div_fin _ _ Hq'). repeat split; try reflexivity; try lra.
      apply Qle_shift_div_l; lra. }
  destruct Hwh as (a & b & Ha & Hb & Ha0 & Hb0).
  exists sel. split; [reflexivity|]. split.
  { unfold Rect.finite. rewrite Hx, Hy, Ha, Hb.
    destruct (Num.Qltb cx sx), (Num.Qltb cy sy); reflexivity. }
  split; [rewrite Ha; apply leb_fin; exact Ha0|].
  split; [rewrite Hb; apply leb_fin; exact Hb0|].
  split.
  - intro Hzero. cbn [Num.eqb] in Hzero.
    assert (Hc1 : cur = Fin 1) by (subst cur; rewrite Hzero; reflexivity).
    exists best. split.
    { subst used. destruct (Interaction.availableResolutions p) eqn:E.
      - right. split; [reflexivity|]. destruct Hin as [Hd|[]]. symmetry. exact Hd.
      - left. exact Hin. }
    split.
    { assert (H01 : (0 <= 1)%Q) by lra.
      pose proof (bestResolution_min 1 used Hne Hupos H01 MAX_Q_ge_1) as Hmin.
      rewrite <- Hc1 in Hmin. fold best in Hmin. rewrite Hc1 in Hmin.
      subst used. destruct (Interaction.availableResolutions p); [constructor|exact Hmin]. }
    rewrite Hw, Hh, Hc1. destruct (Fin 1 >? Resolution.ratio best); split; reflexivity.
  - intro Hempty. split.
    + subst sel. rewrite Hempty. reflexivity.
    + assert (Hbest : best = Interaction.defaultResolution).
      { subst used. rewrite Hempty in Hin. destruct Hin as [Hd|[]]. symmetry. exact Hd. }
      rewrite Hw, Hh, Hbest. cbn [Interaction.defaultResolution Resolution.ratio].
      destruct (cur >? Fin 1).
      * simpl. ring.
      * assert (H1 : ~ (1 == 0)%Q) by lra. rewrite (div_fin _ _ H1). simpl. field.
Qed.

Transparent Num.MAX_Q.

(** A drag from the world origin to (300, 150) over a table holding 1:1 and
    16:9, and the release of a selection 8 units wide. *)
Lemma selection_snap_witness :
  let table := [Sample.square; Sample.wide] in
  let p := Sample.tool select table in
  let s := Sample.drawing table in
  let m := Point.mk (Fin 300) (Fin 150) in
  let current := Viewport.toWorld s Sample.origin m in
  let start := Viewport.toWorld Sample.idle Sample.origin Sample.origin in
  let rawW := Num.abs (Point.x current -' Point.x start) in
  let rawH := Num.abs (Point.y current -' Point.y start) in
  let small := Interaction.setSelection
                 (Some (Rect.mk (Fin 0) (Fin 0) (Fin 8) (Fin 40))) s in
  (Interaction.dragStartRef s = Some start /\
   Forall (fun r => Resolution.positive r = true) table /\
   (Fin 0 <? rawH) = true /\ (rawW /' rawH <=? Num.MAX_VALUE) = true) /\
  (exists sel matched,
     Interaction.selection
       (fst (Interaction.handleMove p (Some Sample.origin) (Fin 300) (Fin 150) s
               Sample.emptyStore)) = Some sel /\
     In matched table /\
     Rect.w sel ~= Rect.h sel *' Resolution.ratio matched /\
     Rect.w sel /' Rect.h sel ~= Resolution.ratio matched) /\
  Interaction.selection (Interaction.handleEnd p small) = None.
Proof.
  intros table p s m current start rawW rawH small.
  destruct selection_snaps_to_matched_ratio as [Hmove Hend].
  assert (Hpos : Forall (fun r => Resolution.positive r = true) table)
    by (repeat constructor).
  assert (HrawH : (Fin 0 <? rawH) = true) by (vm_compute; reflexivity).
  assert (HM : (rawW /' rawH <=? Num.MAX_VALUE) = true) by (vm_compute; reflexivity).
  assert (HrawW : (Fin 0 <? rawW) = true) by (vm_compute; reflexivity).
  assert (Hne : table <> []) by discriminate.
  split; [repeat split; assumption|]. split.
  - destruct (Hmove p Sample.origin m start s Sample.emptyStore
                eq_refl Hne Hpos eq_refl eq_refl eq_refl eq_refl eq_refl eq_refl)
      as (sel & matched & Hsel & Hin & Hwh & Hup & _).
    exists sel, matched. split; [exact Hsel|]. split; [exact Hin|].
    split; [exact Hwh|]. destruct (Hup HrawH HM) as (_ & _ & Hratio & _).
    exact (Hratio HrawW).
  - etransitivity; [exact (Hend p small eq_refl)|]. reflexivity.
Defined.

(** C2 as stated fails on a move straight down.  A drag from the world
    origin to (0, 150) over a table holding 1:1 and 16:9 has the raw ratio
    0 and matches 1:1; the width is rawW = 0 and the height is 0 / 1 = 0,
    so that width / height is NaN and is the ratio of no entry. *)
Lemma vertical_move_has_no_ratio :
  let table := [Sample.square; Sample.wide] in
  let p := Sample.tool select table in
  let s := Sample.drawing table in
  let after := fst (Interaction.handleMove p (Some Sample.origin) (Fin 0) (Fin 150) s
                      Sample.emptyStore) in
  exists sel,
    Interaction.selection after = Some sel /\
    Rect.w sel ~= Fin 0 /\ Rect.h sel ~= Fin 0 /\
    Rect.w sel /' Rect.h sel = NaN /\
    Forall (fun e => ~ (Rect.w sel /' Rect.h sel ~= Resolution.ratio e)) table.
Proof.
  cbv zeta. eexists. split; [vm_compute; reflexivity|].
  split; [vm_compute; reflexivity|]. split; [vm_compute; reflexivity|].
  split; [vm_compute; reflexivity|].
  repeat constructor; vm_compute; intros [].
Qed.

(** A drag along the x axis, from the world origin to (300, 0), over an
    empty table. *)
Lemma selection_total_witness :
  let p := Sample.tool select [] in
  let s := Sample.drawing [] in
  let m := Point.mk (Fin 300) (Fin 0) in
  let start := Viewport.toWorld Sample.idle Sample.origin Sample.origin in
  (Interaction.isDraggingRef s = true /\ Interaction.dragStartRef s = Some start) /\
  exists sel,
    Interaction.selection
      (fst (Interaction.handleMove p (Some Sample.origin) (Fin 300) (Fin 0) s
              Sample.emptyStore)) = Some sel /\
    Rect.finite sel = true /\
    (Fin 0 <=? Rect.w sel) = true /\ (Fin 0 <=? Rect.h sel) = true /\
    Rect.w sel ~= Rect.h sel.
Proof.
  intros p s m start. split; [split; reflexivity|].
  assert (Hpos : Forall (fun r => Resolution.positive r = true)
                   (Interaction.availableResolutions p)) by constructor.
  destruct (selection_snap_is_total p Sample.origin m start s Sample.emptyStore
              eq_refl Hpos eq_refl eq_refl eq_refl eq_refl eq_refl eq_refl)
    as (sel & Hsel & Hfin & Hw & Hh & _ & Hempty).
  exists sel. split; [exact Hsel|]. split; [exact Hfin|].
  split; [exact Hw|]. split; [exact Hh|]. exact (proj2 (Hempty eq_refl)).
Defined.

(* ================================================================== *)
(** ** The hit test of the move and eraser tools *)

Lemma find_rev_last {A : Type} (f : A -> bool) (l : list A) (a : A) :
  find f (rev l) = Some a ->
  exists pre post, l = (pre ++ a :: post)%list /\ f a = true /\
                   Forall (fun b => f b = false) post.
Proof.
  induction l as [|x l IH] using rev_ind; [discriminate|].
  rewrite rev_app_distr. simpl. destruct (f x) eqn:E.
  - intro H. injection H as <-. exists l, []. auto.
  - intro H. destruct (IH H) as (pre & post & -> & Ha & Hpost).
    exists pre, (post ++ [x])%list. rewrite <- app_assoc. split; [reflexivity|].
    split; [exact Ha|]. apply Forall_app. split; [exact Hpost|].
    constructor; [exact E|constructor].
Qed.

(** C3, what the code does.  The layer picked is the last one of the list
    among those hit, so with index 0 topmost it is the bottommost: on two
    visible, unlocked layers that both contain the point, [top] first in
    the list, the move tool starts dragging [bottom] and the eraser removes
    [bottom]. *)
Theorem hit_test_picks_last_in_list :
  (forall x y layers l,
     Interaction.clickedLayer x y layers = Some l ->
     exists above below,
       layers = (above ++ l :: below)%list /\ Interaction.hit x y l = true /\
       Forall (fun l' => Interaction.hit x y l' = false) below) /\
  (let top := Sample.layerAt "top" 0 0 100 100 in
   let bottom := Sample.layerAt "bottom" 50 50 100 100 in
   let st := Store.mk [top; bottom] [] [] false in
   let press tool :=
     Interaction.handleStart (Sample.tool tool []) (Some Sample.origin)
       (Fin 75) (Fin 75) 0 Sample.idle st in
   Interaction.hit (Fin 75) (Fin 75) top = true /\
   Interaction.hit (Fin 75) (Fin 75) bottom = true /\
   Interaction.draggingLayerId (fst (press move)) = Some "bottom" /\
   Store.layers (snd (press eraser)) = [top]).
Proof.
  split.
  - intros x y layers l H. apply find_rev_last. exact H.
  - vm_compute. repeat split; reflexivity.
Qed.

(* ================================================================== *)
(** ** An error during generation *)

Lemma grew_refl sel env lo s : Grew sel env lo lo s s.
Proof.
  constructor; try reflexivity. exists []. split; [reflexivity|].
  split; [cbn [List.length]; lia|]. split; [constructor|reflexivity].
Qed.

Lemma orNull_Some v src : orNull v = Some src -> v = Some src.
Proof.
  unfold orNull. destruct v as [x|]; [|discriminate].
  destruct (String.eqb x ""); [discriminate|]. intro H. exact H.
Qed.

Lemma iteration_resolved p env sel imgs prompt feather mode i s field :
  Generation.callable env i = Resolved field ->
  exists s', Generation.iteration p env sel imgs prompt feather mode i s = inr s' /\
             Grew sel env i (S i) s s'.
Proof.
  intro Hc. unfold Generation.iteration. rewrite Hc.
  destruct (Generation.isVideoModel (Generation.activeModel p) && negb (Nat.eqb (List.length imgs) 0)); simpl;
    destruct (orNull field) as [src|] eqn:E.
  all: eexists; split; [reflexivity|].
  all: try (constructor; try reflexivity; exists []; split; [reflexivity|];
            split; [cbn [List.length]; lia|]; split; [constructor|reflexivity]).
  all: apply orNull_Some in E; subst field.
  all: constructor; try reflexivity.
  all: eexists [_]; split; [reflexivity|]; split; [cbn [List.length]; lia|].
  all: split; [|reflexivity].
  all: constructor; [|constructor].
  all: exists i, src; split; [lia|]; split; [exact Hc|].
  all: unfold materialized; simpl; repeat split; discriminate.
Qed.

Lemma grew_trans sel env a b c s1 s2 s3 :
  (a <= b <= c)%nat ->
  Grew sel env a b s1 s2 -> Grew sel env b c s2 s3 -> Grew sel env a c s1 s3.
Proof.
  intros Habc [(ad1 & Hl1 & Hn1 & Hf1 & Hi1) Hr1 Hm1 Hs1 Hb1 He1]
         [(ad2 & Hl2 & Hn2 & Hf2 & Hi2) Hr2 Hm2 Hs2 Hb2 He2].
  constructor; try congruence.
  exists (ad2 ++ ad1)%list. split; [rewrite Hl2, Hl1, app_assoc; reflexivity|].
  split; [rewrite length_app; lia|]. split.
  - apply Forall_app. split.
    + eapply Forall_impl; [|exact Hf2]. intros l (i & src & Hi & H). exists i, src.
      split; [lia|exact H].
    + eapply Forall_impl; [|exact Hf1]. intros l (i & src & Hi & H). exists i, src.
      split; [lia|exact H].
  - destruct ad2 as [|newest ad2]; cbn [app]; [rewrite Hi2; exact Hi1|exact Hi2].
Qed.

Lemma iteration_rejected p env sel imgs prompt feather mode i s e :
  Generation.callable env i = Rejected e ->
  exists err, Generation.iteration p env sel imgs prompt feather mode i s = inl err /\ rethrown e err.
Proof.
  intro Hc. unfold Generation.iteration, rethrown. rewrite Hc.
  destruct (Generation.isVideoModel (Generation.activeModel p) && negb (Nat.eqb (List.length imgs) 0)).
  - destruct (Gemini.generateVideo (Rejected e)) as [err|r] eqn:E.
    + exists err. auto.
    + unfold Gemini.generateVideo in E.
      destruct (Gemini.is_resource_exhausted e); [discriminate|].
      destruct (Str.includes _ _); discriminate.
  - destruct (Gemini.generateImageContent (Rejected e)) as [err|r] eqn:E.
    + exists err. auto.
    + unfold Gemini.generateImageContent in E.
      destruct (Gemini.is_resource_exhausted e); discriminate.
Qed.

Lemma loop_cut_short p env sel imgs prompt feather mode e : forall k n i s,
  (k < n)%nat ->
  (forall j, (j < k)%nat -> exists field, Generation.callable env (i + j) = Resolved field) ->
  Generation.callable env (i + k) = Rejected e ->
  exists s' err,
    Generation.loop p env sel imgs prompt feather mode n i s = (s', Some err) /\
    rethrown e err /\ Grew sel env i (i + k) s s'.
Proof.
  induction k as [|k IH]; intros n i s Hn Hok Hbad.
  - destruct n as [|n]; [lia|]. rewrite Nat.add_0_r in *.
    destruct (iteration_rejected p env sel imgs prompt feather mode i s e Hbad)
      as (err & Hit & Hre).
    exists s, err. simpl. rewrite Hit. split; [reflexivity|]. split; [exact Hre|].
    apply grew_refl.
  - destruct n as [|n]; [lia|].
    destruct (Hok 0%nat ltac:(lia)) as (field & Hf). rewrite Nat.add_0_r in Hf.
    destruct (iteration_resolved p env sel imgs prompt feather mode i s field Hf)
      as (s1 & Hit & Hg1).
    destruct (IH n (S i) s1 ltac:(lia)) as (s' & err & Hl & Hre & Hg2).
    + intros j Hj. destruct (Hok (S j) ltac:(lia)) as (f & Hfj).
      exists f. rewrite <- Hfj. f_equal. lia.
    + rewrite <- Hbad. f_equal. lia.
    + exists s', err. simpl. rewrite Hit. split; [exact Hl|]. split; [exact Hre|].
      replace (i + S k)%nat with (S i + k)%nat by lia.
      eapply grew_trans; [|exact Hg1|exact Hg2]. lia.
Qed.

Lemma classify_credit_exhaustion credits cost e err :
  Functions.deductCredits credits cost = inl e ->
  rethrown e err ->
  Generation.classify err = Generation.InsufficientCredits.
Proof.
  unfold Functions.deductCredits. destruct (credits <? cost)%Z; [|discriminate].
  intro H. injection H as <-.
  intros [H|H]; simpl in H; injection H as <-; reflexivity.
Qed.

(** C6.  When the call of iteration [k] of [triggerGeneration] is rejected
    after the calls before it resolved, the run ends with the busy flag
    false, the selection null and the effect cleared; it shows one alert,
    the one for the error thrown, which is the insufficient-credits message
    when the rejection is the error of [deductCredits]; the layer list is
    the old list with, in front of it, whole layers of calls that resolved
    before [k] (at most one each, none for the failed call), the newest of
    them selected; the redo stack and the mobile layer menu are as before. *)
Theorem generation_error_leaves_state_whole
    (p : Generation.Props) (env : Generation.Env) (promptText : string) (defaultFeather : option num)
    (s : Generation.t) (sel : Rect.t) (k : nat) (e : JsError.t) :
  Generation.selection s = Some sel ->
  (k < (if Generation.isVideoModel (Generation.activeModel p) then 1 else Generation.variationCount p))%nat ->
  (forall i, (i < k)%nat -> exists field, Generation.callable env i = Resolved field) ->
  Generation.callable env k = Rejected e ->
  let run := Generation.triggerGeneration p env promptText defaultFeather s in
  Generation.isGenerating (Generation.final run) = false /\
  Generation.selection (Generation.final run) = None /\
  Generation.generatingEffect (Generation.final run) = "" /\
  (exists err, rethrown e err /\ Generation.alerts run = [Generation.classify err]) /\
  ((exists credits cost, Functions.deductCredits credits cost = inl e) ->
   Generation.alerts run = [Generation.InsufficientCredits]) /\
  (exists added,
     Store.layers (Generation.store (Generation.final run))
       = (added ++ Store.layers (Generation.store s))%list /\
     (List.length added <= k)%nat /\
     Forall (fun l => exists i src, (i < k)%nat /\
                                    Generation.callable env i = Resolved (Some src) /\
                                    materialized sel src l) added /\
     Store.selectedLayerIds (Generation.store (Generation.final run))
       = match added with
         | [] => Store.selectedLayerIds (Generation.store s)
         | newest :: _ => [Layer.id newest]
         end) /\
  Store.redoStack (Generation.store (Generation.final run)) = Store.redoStack (Generation.store s) /\
  Store.showLayerMenuMobile (Generation.store (Generation.final run)) = Store.showLayerMenuMobile (Generation.store s).
Proof.
  intros Hsel Hk Hok Hbad run. subst run.
  unfold Generation.triggerGeneration. rewrite Hsel.
  match goal with
  | |- context [Generation.loop ?a ?b ?c ?d ?f ?g ?h ?n 0 ?s0] =>
      destruct (loop_cut_short a b c d f g h e k n 0%nat s0 Hk Hok Hbad)
        as (s' & err & Hloop & Hre & Hg);
      rewrite Hloop
  end.
  destruct Hg as [(added & Hl & Hn & Hf & Hids) Hr Hm _ _ _].
  cbn -[Generation.classify] in *.
  split; [reflexivity|]. split; [reflexivity|]. split; [reflexivity|].
  split; [exists err; split; [exact Hre|reflexivity]|].
  split.
  { intros (credits & cost & Hd).
    rewrite (classify_credit_exhaustion credits cost e err Hd Hre). reflexivity. }
  split.
  { exists added. split; [exact Hl|]. split; [lia|]. split; [|exact Hids].
    eapply Forall_impl; [|exact Hf]. intros l (i & src & Hi & H).
    exists i, src. split; [lia|exact H]. }
  split; assumption.
Qed.

(** Two variations, the second refused for want of credits: the layer of
    the first call is in front of the old list, whole, and the alert is the
    insufficient-credits message. *)
Lemma generation_error_witness :
  let run := Generation.triggerGeneration Sample.twoVariations Sample.secondCallRefused
               "a red door" None Sample.readyToGenerate in
  (Functions.deductCredits 3 10 = inl Sample.creditError /\
   Generation.callable Sample.secondCallRefused 1 = Rejected Sample.creditError) /\
  Generation.isGenerating (Generation.final run) = false /\
  Generation.selection (Generation.final run) = None /\
  Generation.alerts run = [Generation.InsufficientCredits] /\
  exists added,
    Store.layers (Generation.store (Generation.final run))
      = (added ++ [Sample.layerAt "a" 0 0 100 100])%list /\
    (List.length added <= 1)%nat.
Proof.
  intro run.
  assert (Hcredit : Functions.deductCredits 3 10 = inl Sample.creditError) by reflexivity.
  assert (Hbad : Generation.callable Sample.secondCallRefused 1 = Rejected Sample.creditError)
    by reflexivity.
  assert (Hk : (1 < (if Generation.isVideoModel (Generation.activeModel Sample.twoVariations)
                     then 1 else Generation.variationCount Sample.twoVariations))%nat)
    by (simpl; lia).
  assert (Hok : forall i, (i < 1)%nat ->
                  exists field, Generation.callable Sample.secondCallRefused i = Resolved field).
  { intros i Hi. destruct i as [|i]; [|lia]. eexists. reflexivity. }
  destruct (generation_error_leaves_state_whole Sample.twoVariations Sample.secondCallRefused
              "a red door" None Sample.readyToGenerate Sample.region 1 Sample.creditError
              eq_refl Hk Hok Hbad)
    as (Hbusy & Hsel & _ & _ & Halert & (added & Hl & Hn & _ & _) & _).
  split; [split; assumption|].
  split; [exact Hbusy|]. split; [exact Hsel|].
  split; [apply Halert; exists 3%Z, 10%Z; exact Hcredit|].
  exists added. split; [exact Hl|exact Hn].
Defined.

(* ================================================================== *)
(** ** Studio: validation before dispatch *)








(** A shot whose prompt is a no-break space only is no shot with a prompt:
    with one other shot the scene goes to the single-clip endpoint. *)
Lemma blank_prompt_is_dropped :
  let nbsp := String (ascii_of_nat 194) (String (ascii_of_nat 160) EmptyString) in
  let scene := Scene.mk "1" (Some Sample.frame) None
                 [Shot.mk nbsp "5"; Shot.mk "walk" "5"] [] (-1) false 1 in
  let calls := networkCalls (Studio.handleGenerate scene Studio.Auto true Sample.studioEnv) in
  Studio.validShots scene = [Shot.mk "walk" "5"] /\
  calls = [Studio.CallGenerateVideo "walk" Sample.frame None "16:9" "5" true].
Proof.
  vm_compute. split; reflexivity.
Qed.

(* ================================================================== *)
(** ** The movie export pipeline *)

Section ExportProps.
Variable env : StudioExport.Env.
Variable scenes : list Scene.t.

Let valid := StudioExport.validScenes scenes.
Let urls := map StudioExport.selectedVideoUrl valid.

Lemma firstn_S_nth {A : Type} (l : list A) (i : nat) (a : A) :
  nth_error l i = Some a -> firstn (S i) l = (firstn i l ++ [a])%list.
Proof.
  revert i. induction l as [|x l IH]; intros [|i] H; try discriminate.
  - injection H as <-. reflexivity.
  - simpl in H. change (firstn (S (S i)) (x :: l)) with (x :: firstn (S i) l).
    rewrite (IH i H). reflexivity.
Qed.

Lemma playNext_inv (i : nat) :
  (i <= List.length valid)%nat ->
  let '(ph, acts) := StudioExport.playNext valid i in
  ExportRun.started valid ph = i /\ ExportRun.playing ph = false /\
  ExportRun.in_range valid ph /\
  StudioExport.played (map StudioExport.Did acts) = [] /\
  forall b log, StudioExport.serialized b (map StudioExport.Did acts ++ log)
                = StudioExport.serialized b log.
Proof.
  intro Hi. unfold StudioExport.playNext.
  destruct (nth_error valid i) as [scene|] eqn:E.
  - assert (i < List.length valid)%nat by (apply nth_error_Some; congruence).
    cbn. repeat split; auto.
  - apply nth_error_None in E. cbn. repeat split; auto. lia.
Qed.

Lemma step_inv ph ev ph' acts :
  ExportRun.in_range valid ph ->
  StudioExport.step env scenes ph ev = Some (ph', acts) ->
  ExportRun.in_range valid ph' /\
  (firstn (ExportRun.started valid ph) urls
     ++ StudioExport.played (StudioExport.Got ev :: map StudioExport.Did acts)
   = firstn (ExportRun.started valid ph') urls)%list /\
  forall log,
    StudioExport.serialized (ExportRun.playing ph)
      (StudioExport.Got ev :: map StudioExport.Did acts ++ log)
    = StudioExport.serialized (ExportRun.playing ph') log.
Proof.
  intros Hwf Hstep. unfold StudioExport.step in Hstep. fold valid in Hstep.
  destruct ph as [| |i|i|i| |], ev as [vw vh| | | |]; try discriminate.
  - (* Probing, LoadedMetadata *)
    destruct (StudioExport.contextAvailable env).
    + pose proof (playNext_inv 0 ltac:(lia)) as Hp.
      destruct (StudioExport.playNext valid 0) as [ph1 acts1].
      destruct Hp as (Hs & Hpl & Hr & Hplayed & Hser).
      injection Hstep as <- <-. split; [exact Hr|]. split.
      * cbn. rewrite Hplayed, Hs. reflexivity.
      * intro log. cbn. rewrite Hser, Hpl. reflexivity.
    + injection Hstep as <- <-. cbn. auto.
  - (* Loading, CanPlayThrough *)
    destruct (nth_error valid i) as [scene|] eqn:E; [|discriminate].
    injection Hstep as <- <-. split; [exact Hwf|]. split.
    + cbn. symmetry. apply firstn_S_nth. unfold urls. rewrite nth_error_map, E. reflexivity.
    + intro log. reflexivity.
  - (* Starting, PlaySettled *)
    injection Hstep as <- <-. split; [exact Hwf|]. split.
    + cbn. apply app_nil_r.
    + intro log. reflexivity.
  - (* Playing, Ended *)
    cbn in Hwf.
    pose proof (playNext_inv (S i) ltac:(lia)) as Hp.
    destruct (StudioExport.playNext valid (S i)) as [ph1 acts1].
    destruct Hp as (Hs & Hpl & Hr & Hplayed & Hser).
    injection Hstep as <- <-. split; [exact Hr|]. split.
    + cbn. rewrite Hplayed, Hs. apply app_nil_r.
    + intro log. cbn. rewrite Hser, Hpl. reflexivity.
  - (* Flushing, TimerFired *)
    injection Hstep as <- <-. split; [exact I|]. split.
    + cbn. apply app_nil_r.
    + intro log. reflexivity.
Qed.

Lemma played_app a b :
  StudioExport.played (a ++ b) = (StudioExport.played a ++ StudioExport.played b)%list.
Proof.
  induction a as [|x a IH]; [reflexivity|].
  destruct x as [ev|act]; cbn; [exact IH|].
  destruct act; cbn; try exact IH. rewrite IH. reflexivity.
Qed.

Lemma steps_inv : forall evs ph ph' log,
  ExportRun.in_range valid ph ->
  StudioExport.steps env scenes ph evs = Some (ph', log) ->
  (firstn (ExportRun.started valid ph) urls ++ StudioExport.played log
   = firstn (ExportRun.started valid ph') urls)%list /\
  StudioExport.serialized (ExportRun.playing ph) log = true.
Proof.
  induction evs as [|ev evs IH]; intros ph ph' log Hwf Hsteps.
  - injection Hsteps as <- <-. cbn. split; [apply app_nil_r|reflexivity].
  - cbn [StudioExport.steps] in Hsteps.
    destruct (StudioExport.step env scenes ph ev) as [[ph1 acts]|] eqn:Estep; [|discriminate].
    destruct (StudioExport.steps env scenes ph1 evs) as [[ph2 log1]|] eqn:Erest;
      [|discriminate].
    injection Hsteps as <- <-.
    destruct (step_inv ph ev ph1 acts Hwf Estep) as (Hwf1 & Hplayed & Hser).
    destruct (IH ph1 ph2 log1 Hwf1 Erest) as (IHp & IHs).
    split.
    + rewrite <- IHp, <- Hplayed.
      change (StudioExport.Got ev :: map StudioExport.Did acts ++ log1)%list
        with ((StudioExport.Got ev :: map StudioExport.Did acts) ++ log1)%list.
      rewrite played_app, app_assoc. reflexivity.
    + rewrite Hser. exact IHs.
Qed.

Lemma rounds_finish : forall m i,
  (i + m = List.length valid)%nat ->
  exists log,
    StudioExport.steps env scenes (fst (StudioExport.playNext valid i)) (ExportRun.rounds m)
    = Some (StudioExport.Finished, log).
Proof.
  induction m as [|m IH]; intros i Hi.
  - unfold StudioExport.playNext.
    assert (E : nth_error valid i = None) by (apply nth_error_None; lia).
    rewrite E. cbn. eexists. reflexivity.
  - unfold StudioExport.playNext at 1.
    destruct (nth_error valid i) as [scene|] eqn:E.
    2:{ apply nth_error_None in E. lia. }
    destruct (IH (S i) ltac:(lia)) as (log & Hlog).
    destruct (StudioExport.playNext valid (S i)) as [ph1 acts1] eqn:Ep. cbn [fst] in Hlog.
    cbn [fst ExportRun.rounds StudioExport.steps StudioExport.step]. fold valid.
    rewrite E. cbn [StudioExport.steps StudioExport.step]. fold valid. rewrite Ep, Hlog.
    eexists. reflexivity.
Qed.

(** C9.  However the browser drives the export, the videos started are
    the chosen videos of the first qualifying scenes, in the order of the
    scene list, as many as the phase reached tells, and no video starts
    before the one started before it has ended; a run that reaches the end
    has played exactly the qualifying scenes.  A browser that provides the
    drawing context and loads, plays and ends each video in turn brings the
    run to its end.  With no qualifying scene the run shows the alert and
    stops: no event is listened to, the recorder is not started and nothing
    is downloaded. *)
Theorem export_plays_qualifying_scenes_in_order :
  (forall evs ph log,
     StudioExport.handleExportFullMovie env scenes evs = Some (ph, log) ->
     StudioExport.played log = firstn (ExportRun.started valid ph) urls /\
     StudioExport.serialized false log = true /\
     (ph = StudioExport.Finished -> StudioExport.played log = urls)) /\
  (StudioExport.contextAvailable env = true -> valid <> [] ->
   forall videoWidth videoHeight, exists log,
     StudioExport.handleExportFullMovie env scenes
       (ExportRun.natural videoWidth videoHeight (List.length valid))
     = Some (StudioExport.Finished, log)) /\
  (valid = [] ->
   StudioExport.handleExportFullMovie env scenes []
     = Some (StudioExport.Idle, [StudioExport.Did StudioExport.AlertNoScenes]) /\
   forall evs ph log,
     StudioExport.handleExportFullMovie env scenes evs = Some (ph, log) ->
     ph = StudioExport.Idle /\ log = [StudioExport.Did StudioExport.AlertNoScenes] /\
     StudioExport.outputs log = []).
Proof.
  split; [|split].
  - intros evs ph log Hrun. unfold StudioExport.handleExportFullMovie, StudioExport.start in Hrun.
    fold valid in Hrun.
    assert (Hgen : forall ph0 acts0,
               ExportRun.started valid ph0 = 0%nat -> ExportRun.playing ph0 = false ->
               ExportRun.in_range valid ph0 ->
               StudioExport.played (map StudioExport.Did acts0) = [] ->
               (forall l, StudioExport.serialized false (map StudioExport.Did acts0 ++ l)
                          = StudioExport.serialized false l) ->
               match StudioExport.steps env scenes ph0 evs with
               | Some (ph', log0) => Some (ph', (map StudioExport.Did acts0 ++ log0)%list)
               | None => None
               end = Some (ph, log) ->
               StudioExport.played log = firstn (ExportRun.started valid ph) urls /\
               StudioExport.serialized false log = true).
    { intros ph0 acts0 Hs Hp Hr Hpl Hser H.
      destruct (StudioExport.steps env scenes ph0 evs) as [[ph' log0]|] eqn:E; [|discriminate].
      injection H as <- <-.
      destruct (steps_inv evs ph0 ph' log0 Hr E) as (H1 & H2).
      rewrite Hs in H1. rewrite Hp in H2. cbn in H1.
      split; [rewrite played_app, Hpl; exact H1|]. rewrite Hser. exact H2. }
    assert (H : StudioExport.played log = firstn (ExportRun.started valid ph) urls /\
                StudioExport.serialized false log = true).
    { destruct valid as [|v0 vs] eqn:Ev.
      - apply (Hgen StudioExport.Idle [StudioExport.AlertNoScenes]); auto. exact I.
      - apply (Hgen StudioExport.Probing [StudioExport.SetIsExporting true]); auto. exact I. }
    destruct H as [H1 H2]. split; [exact H1|]. split; [exact H2|].
    intros ->. rewrite H1. cbn. apply firstn_all2. unfold urls. rewrite length_map. lia.
  - intros Hctx Hne videoWidth videoHeight.
    unfold StudioExport.handleExportFullMovie, StudioExport.start. fold valid.
    destruct valid as [|v0 vs] eqn:Ev; [congruence|]. rewrite <- Ev.
    destruct (rounds_finish (List.length valid) 0 ltac:(lia)) as (log & Hlog).
    destruct (StudioExport.playNext valid 0) as [ph1 acts1] eqn:Ep. cbn [fst] in Hlog.
    unfold ExportRun.natural. cbn [StudioExport.steps StudioExport.step]. fold valid.
    rewrite Hctx, Ep, Hlog. eexists. reflexivity.
  - intro Hempty. unfold StudioExport.handleExportFullMovie, StudioExport.start. fold valid.
    rewrite Hempty. split; [reflexivity|].
    intros evs ph log H. destruct evs as [|ev evs]; cbn in H.
    + injection H as <- <-. auto.
    + discriminate.
Qed.
End ExportProps.

(** Four scenes of which the first, the third and the fourth qualify, in a
    browser that plays each video to its end. *)
Lemma export_witness :
  let run := StudioExport.handleExportFullMovie Sample.browser Sample.movie
               (ExportRun.natural 1280 720 3) in
  (StudioExport.contextAvailable Sample.browser = true /\
   List.length (StudioExport.validScenes Sample.movie) = 3%nat) /\
  exists log,
    run = Some (StudioExport.Finished, log) /\
    StudioExport.played log
    = [Some "https://storage/1.mp4"; Some "https://storage/3.mp4";
       Some "https://storage/4.mp4"] /\
    StudioExport.serialized false log = true.
Proof.
  intro run. split; [split; reflexivity|].
  destruct (export_plays_qualifying_scenes_in_order Sample.browser Sample.movie)
    as (Hany & Hnatural & _).
  assert (Hne : StudioExport.validScenes Sample.movie <> []) by (vm_compute; discriminate).
  destruct (Hnatural eq_refl Hne 1280%Z 720%Z) as (log & Hrun).
  exists log. split; [exact Hrun|].
  destruct (Hany _ _ _ Hrun) as (_ & Hser & Hall).
  split; [exact (Hall eq_refl)|exact Hser].
Defined.

(* ================================================================== *)
(** * Further properties of the handlers *)

(** ** Reordering and selecting layers *)

Lemma findIndex_split id l i :
  Layers.findIndex id l = Some i ->
  exists pre x post,
    l = (pre ++ x :: post)%list /\ List.length pre = i /\
    String.eqb (Layer.id x) id = true /\
    Forall (fun y => String.eqb (Layer.id y) id = false) pre.
Proof.
  revert i. induction l as [|a l IH]; intros i H; [discriminate|].
  simpl in H. destruct (String.eqb (Layer.id a) id) eqn:E.
  - injection H as <-. exists [], a, l. auto.
  - destruct (Layers.findIndex id l) as [j|] eqn:Ej; [|discriminate].
    injection H as <-. destruct (IH j eq_refl) as (pre & x & post & -> & Hlen & Hx & Hpre).
    exists (a :: pre), x, post. simpl. repeat split; auto.
Qed.

Lemma findIndex_first id pre x post :
  String.eqb (Layer.id x) id = true ->
  Forall (fun y => String.eqb (Layer.id y) id = false) pre ->
  Layers.findIndex id (pre ++ x :: post) = Some (List.length pre).
Proof.
  intros Hx Hpre. induction Hpre as [|a pre Ha _ IH]; simpl.
  - rewrite Hx. reflexivity.
  - rewrite Ha, IH. reflexivity.
Qed.

Lemma findIndex_None id l :
  Layers.findIndex id l = None <-> Forall (fun y => String.eqb (Layer.id y) id = false) l.
Proof.
  induction l as [|a l IH]; simpl.
  - split; auto.
  - destruct (String.eqb (Layer.id a) id) eqn:E.
    + split; [discriminate|]. intro H. inversion H; congruence.
    + destruct (Layers.findIndex id l); simpl.
      * split; [discriminate|]. intro H. inversion H; subst. apply IH in H3. discriminate.
      * split; auto. intros _. constructor; auto. apply IH. reflexivity.
Qed.

Lemma assign_app pre x post v :
  Layers.assign (List.length pre) v (pre ++ x :: post) = (pre ++ v :: post)%list.
Proof. induction pre; simpl; congruence. Qed.

Lemma nth_error_mid {A : Type} (pre : list A) x post :
  nth_error (pre ++ x :: post) (List.length pre) = Some x.
Proof. rewrite nth_error_app2 by lia. rewrite Nat.sub_diag. reflexivity. Qed.

Lemma nth_error_mid_S {A : Type} (pre : list A) x y post :
  nth_error (pre ++ x :: y :: post) (S (List.length pre)) = Some y.
Proof.
  rewrite nth_error_app2 by lia.
  replace (S (List.length pre) - List.length pre)%nat with 1%nat by lia. reflexivity.
Qed.

Lemma assign_app_S pre x y post v :
  Layers.assign (S (List.length pre)) v (pre ++ x :: y :: post) = (pre ++ x :: v :: post)%list.
Proof.
  induction pre as [|a pre IH]; [reflexivity|].
  change (a :: Layers.assign (S (List.length pre)) v (pre ++ x :: y :: post)
          = a :: (pre ++ x :: v :: post)%list).
  rewrite IH. reflexivity.
Qed.

Lemma exchange_up pre a b post :
  Layers.exchange (S (List.length pre)) (List.length pre) (pre ++ a :: b :: post)
  = (pre ++ b :: a :: post)%list.
Proof.
  unfold Layers.exchange.
  rewrite nth_error_mid_S, nth_error_mid, assign_app_S, assign_app. reflexivity.
Qed.

Lemma exchange_down pre a b post :
  Layers.exchange (List.length pre) (S (List.length pre)) (pre ++ a :: b :: post)
  = (pre ++ b :: a :: post)%list.
Proof.
  unfold Layers.exchange.
  rewrite nth_error_mid_S, nth_error_mid, assign_app, assign_app_S. reflexivity.
Qed.

Lemma store_eta (s : Store.t) : Store.setLayers (Store.layers s) s = s.
Proof. destruct s; reflexivity. Qed.

(** What handleMoveLayer does to the list, case by case. *)
Lemma handleMoveLayer_cases id dir s :
  let l := Store.layers s in
  let l' := Store.layers (Layers.handleMoveLayer id dir s) in
  (l' = l /\
   (Layers.findIndex id l = None \/
    (dir = Layers.up /\ Layers.findIndex id l = Some 0%nat) \/
    (dir = Layers.down /\ Layers.findIndex id l = Some (List.length l - 1)%nat))) \/
  (exists pre a b post,
     l = (pre ++ a :: b :: post)%list /\ l' = (pre ++ b :: a :: post)%list /\
     Forall (fun y => String.eqb (Layer.id y) id = false) pre /\
     match dir with
     | Layers.up => String.eqb (Layer.id a) id = false /\ String.eqb (Layer.id b) id = true
     | Layers.down => String.eqb (Layer.id a) id = true
     end).
Proof.
  intros l l'. subst l l'. unfold Layers.handleMoveLayer. cbn [Store.layers Store.setLayers].
  destruct (Layers.findIndex id (Store.layers s)) as [i|] eqn:Ei; [|left; auto].
  destruct (findIndex_split _ _ _ Ei) as (pre & x & post & Hl & Hlen & Hx & Hpre).
  destruct dir.
  - destruct i as [|i]; [left; auto|]. right.
    cbn [Nat.eqb]. replace (S i - 1)%nat with i by lia.
    destruct (rev pre) as [|a rpre] eqn:Er.
    { apply (f_equal (@List.length _)) in Er. rewrite length_rev in Er. simpl in Er. lia. }
    assert (Hp : pre = (rev rpre ++ [a])%list).
    { rewrite <- (rev_involutive pre), Er. reflexivity. }
    subst pre. rewrite <- app_assoc in Hl. simpl in Hl.
    rewrite length_app in Hlen. simpl in Hlen.
    apply Forall_app in Hpre. destruct Hpre as [Hpre Ha]. inversion Ha; subst.
    assert (Hi : i = List.length (rev rpre)) by lia. subst i.
    exists (rev rpre), a, x, post. rewrite Hl.
    rewrite exchange_up. auto.
  - destruct (Nat.eqb i (List.length (Store.layers s) - 1)) eqn:En.
    { apply Nat.eqb_eq in En. left. subst i. rewrite <- En. auto. }
    right. apply Nat.eqb_neq in En.
    destruct post as [|b post].
    { exfalso. apply En. rewrite Hl, length_app. simpl. lia. }
    exists pre, x, b, post. rewrite Hl. subst i.
    replace (List.length pre + 1)%nat with (S (List.length pre)) by lia.
    rewrite exchange_down. auto.
Qed.

Lemma setLayers_setLayers a b s : Store.setLayers a (Store.setLayers b s) = Store.setLayers a s.
Proof. reflexivity. Qed.

Lemma nth_error_swapped {A : Type} (pre : list A) a b post :
  nth_error (pre ++ b :: a :: post) (List.length pre) = nth_error (pre ++ a :: b :: post) (S (List.length pre)) /\
  nth_error (pre ++ b :: a :: post) (S (List.length pre)) = nth_error (pre ++ a :: b :: post) (List.length pre).
Proof. rewrite !nth_error_mid, !nth_error_mid_S. auto. Qed.

(** X1.  handleMoveLayer never adds, drops or duplicates a layer: the new list is
    a permutation of the old one and the rest of the store is untouched. It
    exchanges the first layer carrying the id with the entry before it (up)
    or after it (down), and leaves the list as it is when no layer has the
    id, when that layer is first and moves up, or when it is last and moves
    down. *)
Theorem move_layer_exchanges_with_neighbour (id : string) (dir : Layers.Direction) (s : Store.t) :
  let l := Store.layers s in
  let s' := Layers.handleMoveLayer id dir s in
  let l' := Store.layers s' in
  Permutation l l' /\
  Store.redoStack s' = Store.redoStack s /\
  Store.selectedLayerIds s' = Store.selectedLayerIds s /\
  Store.showLayerMenuMobile s' = Store.showLayerMenuMobile s /\
  match Layers.findIndex id l, dir with
  | None, _ => l' = l
  | Some i, Layers.up =>
      if Nat.eqb i 0 then l' = l
      else nth_error l' (i - 1) = nth_error l i /\ nth_error l' i = nth_error l (i - 1)
  | Some i, Layers.down =>
      if Nat.eqb (S i) (List.length l) then l' = l
      else nth_error l' (i + 1) = nth_error l i /\ nth_error l' i = nth_error l (i + 1)
  end.
Proof.
  intros l s' l'.
  destruct (handleMoveLayer_cases id dir s) as [[Hsame Hwhy] | (pre & a & b & post & Hl & Hl' & Hpre & Hdir)];
    fold l in Hsame, Hwhy || fold l in Hl; fold s' l' in Hsame || fold s' l' in Hl'.
  - split; [rewrite Hsame; apply Permutation_refl|].
    split; [reflexivity|]. split; [reflexivity|]. split; [reflexivity|].
    destruct Hwhy as [-> | [[-> ->] | [-> Hi]]]; auto.
    rewrite Hi.
    destruct (Layers.findIndex id l) as [i|] eqn:Ei; [|discriminate].
    destruct (findIndex_split _ _ _ Ei) as (p & x & q & Hlq & _).
    assert (Hlen : (0 < List.length l)%nat) by (rewrite Hlq, length_app; simpl; lia).
    replace (S (List.length l - 1)) with (List.length l) by lia.
    rewrite Nat.eqb_refl. exact Hsame.
  - split; [rewrite Hl, Hl'; apply Permutation_app_head; apply perm_swap|].
    split; [reflexivity|]. split; [reflexivity|]. split; [reflexivity|].
    destruct (nth_error_swapped pre a b post) as [H1 H2].
    destruct dir.
    + destruct Hdir as [Ha Hb].
      assert (Hi : Layers.findIndex id l = Some (S (List.length pre))).
      { rewrite Hl. change (pre ++ a :: b :: post)%list with (pre ++ [a] ++ b :: post)%list.
        rewrite app_assoc. replace (S (List.length pre)) with (List.length (pre ++ [a])).
        - apply findIndex_first; [exact Hb|]. apply Forall_app. split; auto.
        - rewrite length_app. simpl. lia. }
      rewrite Hi. cbn [Nat.eqb].
      replace (S (List.length pre) - 1)%nat with (List.length pre) by lia.
      rewrite Hl, Hl'. auto.
    + assert (Hi : Layers.findIndex id l = Some (List.length pre)).
      { rewrite Hl. apply findIndex_first; assumption. }
      rewrite Hi.
      assert (Hn : Nat.eqb (S (List.length pre)) (List.length l) = false).
      { apply Nat.eqb_neq. rewrite Hl, length_app. simpl. lia. }
      rewrite Hn. replace (List.length pre + 1)%nat with (S (List.length pre)) by lia.
      rewrite Hl, Hl'. auto.
Qed.

Lemma store_set_same (s : Store.t) l : l = Store.layers s -> Store.setLayers l s = s.
Proof. intros ->. destruct s; reflexivity. Qed.

Lemma NoDup_ids_mid pre (a b : Layer.t) post id :
  NoDup (map Layer.id (pre ++ a :: b :: post)) ->
  String.eqb (Layer.id a) id = true -> String.eqb (Layer.id b) id = false.
Proof.
  intros Hnd Ha. apply String.eqb_eq in Ha.
  rewrite map_app in Hnd. apply NoDup_app_remove_l in Hnd. simpl in Hnd.
  inversion Hnd as [|? ? Hnot _]; subst.
  destruct (String.eqb (Layer.id b) (Layer.id a)) eqn:E; [|reflexivity].
  apply String.eqb_eq in E. exfalso. apply Hnot. left. exact E.
Qed.

(** X2.  For a layer found at index i, moving it up and then down restores the
    store exactly as soon as i > 0; moving it down and then up restores it
    when the layer is not last and the layer ids are pairwise distinct. *)
Theorem move_layer_round_trip (id : string) (s : Store.t) (i : nat) :
  Layers.findIndex id (Store.layers s) = Some i ->
  ((0 < i)%nat ->
   Layers.handleMoveLayer id Layers.down (Layers.handleMoveLayer id Layers.up s) = s) /\
  ((S i < List.length (Store.layers s))%nat ->
   NoDup (map Layer.id (Store.layers s)) ->
   Layers.handleMoveLayer id Layers.up (Layers.handleMoveLayer id Layers.down s) = s).
Proof.
  intro Hi. split.
  - intro Hpos.
    destruct (handleMoveLayer_cases id Layers.up s)
      as [[_ [Hn | [[_ H0] | [Hd _]]]] | (pre & a & b & post & Hl & Hl' & Hpre & Ha & Hb)];
      try congruence.
    { rewrite Hi in H0. injection H0 as ->. lia. }
    set (s1 := Layers.handleMoveLayer id Layers.up s) in *.
    assert (Hs1 : s1 = Store.setLayers (pre ++ b :: a :: post) s).
    { unfold s1, Layers.handleMoveLayer in *. cbn [Store.layers Store.setLayers] in Hl'.
      rewrite Hl'. reflexivity. }
    unfold Layers.handleMoveLayer at 1. rewrite Hl'.
    rewrite (findIndex_first id pre b (a :: post) Hb Hpre).
    assert (Hn : Nat.eqb (List.length pre) (List.length (pre ++ b :: a :: post) - 1) = false).
    { apply Nat.eqb_neq. rewrite length_app. simpl. lia. }
    rewrite Hn. replace (List.length pre + 1)%nat with (S (List.length pre)) by lia.
    rewrite exchange_down. rewrite Hs1, setLayers_setLayers.
    apply store_set_same. symmetry. exact Hl.
  - intros Hlt Hnd.
    destruct (handleMoveLayer_cases id Layers.down s)
      as [[_ [Hn | [[Hd _] | [_ Hlast]]]] | (pre & a & b & post & Hl & Hl' & Hpre & Ha)];
      try congruence.
    { rewrite Hi in Hlast. injection Hlast as ->. lia. }
    set (s1 := Layers.handleMoveLayer id Layers.down s) in *.
    assert (Hs1 : s1 = Store.setLayers (pre ++ b :: a :: post) s).
    { unfold s1, Layers.handleMoveLayer in *. cbn [Store.layers Store.setLayers] in Hl'.
      rewrite Hl'. reflexivity. }
    assert (Hb : String.eqb (Layer.id b) id = false).
    { rewrite Hl in Hnd. eapply NoDup_ids_mid; eauto. }
    unfold Layers.handleMoveLayer at 1. rewrite Hl'.
    change (pre ++ b :: a :: post)%list with (pre ++ [b] ++ a :: post)%list.
    rewrite app_assoc.
    rewrite (findIndex_first id (pre ++ [b]) a post Ha).
    2:{ apply Forall_app. split; auto. }
    rewrite length_app. cbn [List.length].
    replace (List.length pre + 1)%nat with (S (List.length pre)) by lia.
    cbn [Nat.eqb]. replace (S (List.length pre) - 1)%nat with (List.length pre) by lia.
    rewrite <- app_assoc. cbn [app].
    rewrite exchange_up. rewrite Hs1, setLayers_setLayers.
    apply store_set_same. symmetry. exact Hl.
Qed.

Lemma nth_error_split_at {A : Type} (l : list A) i x :
  nth_error l i = Some x ->
  exists pre post, l = (pre ++ x :: post)%list /\ List.length pre = i.
Proof.
  intro H. destruct (nth_error_split l i H) as (pre & post & -> & Hlen). eauto.
Qed.

Lemma remove_at_mid {A : Type} (pre : list A) x post :
  (firstn (List.length pre) (pre ++ x :: post) ++ skipn (S (List.length pre)) (pre ++ x :: post))%list
  = (pre ++ post)%list.
Proof.
  induction pre as [|a pre IH]; [reflexivity|].
  change ((a :: firstn (List.length pre) (pre ++ x :: post)
             ++ skipn (S (List.length pre)) (pre ++ x :: post))%list
          = a :: (pre ++ post)%list).
  rewrite IH. reflexivity.
Qed.

Lemma reorder_valid (fromIndex toIndex : nat) (pre : list Layer.t) moved post :
  fromIndex = List.length pre ->
  Layers.handleReorderLayers fromIndex toIndex (pre ++ moved :: post)
  = map Some (firstn toIndex (pre ++ post) ++ moved :: skipn toIndex (pre ++ post)).
Proof.
  intros ->. unfold Layers.handleReorderLayers.
  rewrite map_app. cbn [map].
  replace (List.length pre) with (List.length (map Some pre)) by apply length_map.
  rewrite nth_error_mid, remove_at_mid.
  rewrite <- (map_app Some pre post).
  rewrite firstn_map, skipn_map, map_app. reflexivity.
Qed.

(** X3.  With fromIndex inside the list, handleReorderLayers yields a permutation
    of the layers in which the moved layer sits at index min(toIndex, length
    - 1) and the other layers keep their order, and reordering back from
    that index to fromIndex restores the list. With fromIndex past the end
    it removes nothing and inserts an undefined entry, so the list grows by
    one. *)
Theorem reorder_moves_one_layer :
  (forall (fromIndex toIndex : nat) (prev : list Layer.t) (moved : Layer.t),
     nth_error prev fromIndex = Some moved ->
     let landed := Nat.min toIndex (List.length prev - 1) in
     exists l',
       Layers.handleReorderLayers fromIndex toIndex prev = map Some l' /\
       Permutation prev l' /\
       nth_error l' landed = Some moved /\
       (firstn landed l' ++ skipn (S landed) l'
        = firstn fromIndex prev ++ skipn (S fromIndex) prev)%list /\
       Layers.handleReorderLayers landed fromIndex l' = map Some prev) /\
  (forall (fromIndex toIndex : nat) (prev : list Layer.t),
     (List.length prev <= fromIndex)%nat ->
     let result := Layers.handleReorderLayers fromIndex toIndex prev in
     List.length result = S (List.length prev) /\
     nth_error result (Nat.min toIndex (List.length prev)) = Some None).
Proof.
  split.
  - intros fromIndex toIndex prev moved Hnth landed.
    destruct (nth_error_split_at _ _ _ Hnth) as (pre & post & -> & Hlen).
    symmetry in Hlen.
    set (rest := (pre ++ post)%list).
    assert (Hland : landed = List.length (firstn toIndex rest)).
    { subst landed rest. rewrite length_firstn, !length_app. simpl. f_equal. lia. }
    exists (firstn toIndex rest ++ moved :: skipn toIndex rest)%list.
    split; [apply reorder_valid; exact Hlen|].
    split.
    { apply Permutation_trans with (moved :: rest).
      - symmetry. apply Permutation_middle.
      - rewrite <- (firstn_skipn toIndex rest) at 1. apply Permutation_middle. }
    split; [rewrite Hland; apply nth_error_mid|].
    split.
    { rewrite Hland, remove_at_mid, firstn_skipn. subst rest. rewrite Hlen.
      symmetry. apply remove_at_mid. }
    rewrite Hland. rewrite reorder_valid by reflexivity.
    rewrite firstn_skipn. subst rest. rewrite Hlen.
    rewrite firstn_app, Nat.sub_diag, firstn_all. simpl. rewrite app_nil_r.
    rewrite skipn_app, Nat.sub_diag, skipn_all. reflexivity.
  - intros fromIndex toIndex prev Hout result. subst result.
    unfold Layers.handleReorderLayers.
    assert (Hnone : nth_error (map Some prev) fromIndex = None).
    { apply nth_error_None. rewrite length_map. exact Hout. }
    rewrite Hnone.
    rewrite (@firstn_all2 _ fromIndex (map Some prev)) by (rewrite length_map; exact Hout).
    rewrite (@skipn_all2 _ (S fromIndex) (map Some prev)) by (rewrite length_map; lia).
    rewrite app_nil_r. split.
    + rewrite length_app, length_firstn. change (List.length (None :: ?l)) with (S (List.length l)).
      rewrite length_skipn, !length_map. lia.
    + replace (Nat.min toIndex (List.length prev))
        with (List.length (firstn toIndex (map Some prev)))
        by (rewrite length_firstn, length_map; reflexivity).
      apply (nth_error_mid (firstn toIndex (map Some prev))).
Qed.

(** ** Selecting layers *)

Lemma mem_In a l : Str.mem a l = true <-> In a l.
Proof.
  induction l as [|b l IH]; simpl.
  - split; [discriminate|tauto].
  - rewrite orb_true_iff, IH, String.eqb_eq. split; intros [H|H]; auto.
Qed.

Lemma mem_app a l1 l2 : Str.mem a (l1 ++ l2) = Str.mem a l1 || Str.mem a l2.
Proof.
  induction l1 as [|b l1 IH]; simpl; [reflexivity|]. rewrite IH, orb_assoc. reflexivity.
Qed.

Lemma mem_filter_neq a id l :
  Str.mem a (filter (fun x => Layers.id_neqb x id) l)
  = Str.mem a l && negb (String.eqb a id).
Proof.
  induction l as [|b l IH]; simpl; [reflexivity|].
  unfold Layers.id_neqb at 1. destruct (String.eqb b id) eqn:E; simpl.
  - rewrite IH. apply String.eqb_eq in E. subst b.
    destruct (String.eqb a id); simpl; [rewrite andb_false_r; reflexivity|reflexivity].
  - rewrite IH. destruct (String.eqb a b) eqn:E2; simpl; [|reflexivity].
    apply String.eqb_eq in E2. subst b. rewrite E. reflexivity.
Qed.

Lemma filter_neq_absent id l :
  Str.mem id l = false -> filter (fun x => Layers.id_neqb x id) l = l.
Proof.
  induction l as [|b l IH]; simpl; [reflexivity|].
  rewrite orb_false_iff. intros [Hb Hl]. unfold Layers.id_neqb at 1.
  rewrite String.eqb_sym, Hb. simpl. rewrite IH by exact Hl. reflexivity.
Qed.

(** X4.  A click with Ctrl or Meta held toggles the clicked id in the selection
    and changes the membership of no other id, nor the layers, the redo
    stack or the mobile menu; when the id was not selected before, a second
    such click restores the store. *)
Theorem ctrl_click_toggles_one_layer
    (id : string) (ctrlKey metaKey shiftKey : bool) (s : Store.t) :
  ctrlKey || metaKey = true ->
  let s' := Layers.handleLayerSelect id ctrlKey metaKey shiftKey s in
  Str.mem id (Store.selectedLayerIds s') = negb (Str.mem id (Store.selectedLayerIds s)) /\
  (forall other, String.eqb other id = false ->
     Str.mem other (Store.selectedLayerIds s') = Str.mem other (Store.selectedLayerIds s)) /\
  Store.layers s' = Store.layers s /\
  Store.redoStack s' = Store.redoStack s /\
  Store.showLayerMenuMobile s' = Store.showLayerMenuMobile s /\
  (Str.mem id (Store.selectedLayerIds s) = false ->
   Layers.handleLayerSelect id ctrlKey metaKey shiftKey s' = s).
Proof.
  intros Hkey s'. subst s'. unfold Layers.handleLayerSelect. rewrite Hkey.
  cbn [Store.selectedLayerIds Store.setSelectedLayerIds Store.layers Store.redoStack
       Store.showLayerMenuMobile].
  destruct (Str.mem id (Store.selectedLayerIds s)) eqn:E.
  - split; [rewrite mem_filter_neq, String.eqb_refl, andb_false_r; reflexivity|].
    split; [intros other Ho; rewrite mem_filter_neq, Ho, andb_true_r; reflexivity|].
    repeat split; try reflexivity. discriminate.
  - split; [rewrite mem_app; simpl; rewrite String.eqb_refl, orb_true_r; reflexivity|].
    split; [intros other Ho; rewrite mem_app; simpl; rewrite Ho, !orb_false_r; reflexivity|].
    repeat split; try reflexivity. intros _.
    rewrite mem_app. simpl. rewrite String.eqb_refl, orb_true_r.
    rewrite filter_app. simpl. unfold Layers.id_neqb at 2. rewrite String.eqb_refl. simpl.
    rewrite app_nil_r, (filter_neq_absent id _ E).
    destruct s; reflexivity.
Qed.

Lemma unique_spec l : forall seen,
  NoDup (Layers.unique seen l) /\
  forall x, In x (Layers.unique seen l) <-> In x l /\ ~ In x seen.
Proof.
  induction l as [|a l IH]; intro seen; simpl.
  - split; [constructor|]. intro x. tauto.
  - destruct (Str.mem a seen) eqn:E.
    + destruct (IH seen) as [Hnd Hin]. split; [exact Hnd|].
      intro x. rewrite Hin. apply mem_In in E. split.
      * intros [H1 H2]. auto.
      * intros [[->|H1] H2]; [contradiction|auto].
    + destruct (IH (a :: seen)) as [Hnd Hin]. split.
      * constructor; [|exact Hnd]. rewrite Hin. simpl. tauto.
      * intro x. simpl. rewrite Hin. simpl.
        assert (Ha : ~ In a seen).
        { intro H. apply mem_In in H. congruence. }
        split.
        -- intros [->|[H1 H2]]; [auto|]. split; [auto|]. tauto.
        -- intros [[->|H1] H2]; [auto|].
           destruct (string_dec a x) as [->|Hne]; [auto|]. right. split; [auto|]. tauto.
Qed.

Lemma In_slice {A : Type} (l : list A) start stop x :
  In x (Layers.slice start stop l) <->
  exists k, (start <= k < stop)%nat /\ nth_error l k = Some x.
Proof.
  unfold Layers.slice. split.
  - intro H. apply In_nth_error in H. destruct H as [n Hn].
    assert (Hlt : (n < stop - start)%nat).
    { assert (Hs : nth_error (firstn (stop - start) (skipn start l)) n <> None) by congruence.
      apply nth_error_Some in Hs. rewrite length_firstn in Hs. lia. }
    rewrite nth_error_firstn in Hn.
    destruct (Nat.ltb n (stop - start)) eqn:E; [|apply Nat.ltb_ge in E; lia].
    rewrite nth_error_skipn in Hn. exists (start + n)%nat. split; [lia|exact Hn].
  - intros (k & Hk & Hn). apply (nth_error_In _ (k - start)).
    rewrite nth_error_firstn.
    destruct (Nat.ltb (k - start) (stop - start)) eqn:E; [|apply Nat.ltb_ge in E; lia].
    rewrite nth_error_skipn. replace (start + (k - start))%nat with k by lia. exact Hn.
Qed.

(** X5.  A Shift click, when the last selected id and the clicked id both belong
    to layers, leaves a selection without duplicates that holds exactly the
    ids selected before and the ids of the layers between the two indices,
    both included; the clicked id is in it and the layers are unchanged. *)
Theorem shift_click_selects_range
    (id anchor : string) (earlier : list string) (s : Store.t) (i j : nat) :
  Store.selectedLayerIds s = (earlier ++ [anchor])%list ->
  Layers.findIndex anchor (Store.layers s) = Some i ->
  Layers.findIndex id (Store.layers s) = Some j ->
  let s' := Layers.handleLayerSelect id false false true s in
  NoDup (Store.selectedLayerIds s') /\
  (forall x, In x (Store.selectedLayerIds s') <->
             In x (Store.selectedLayerIds s) \/
             exists k l, (Nat.min i j <= k <= Nat.max i j)%nat /\
                         nth_error (Store.layers s) k = Some l /\ Layer.id l = x) /\
  In id (Store.selectedLayerIds s') /\
  Store.layers s' = Store.layers s.
Proof.
  intros Hsel Hi Hj s'. subst s'. unfold Layers.handleLayerSelect. cbn [orb].
  rewrite Hsel, rev_app_distr. cbn [rev app]. rewrite Hi, Hj, <- Hsel.
  cbn [Store.selectedLayerIds Store.setSelectedLayerIds Store.layers].
  destruct (unique_spec
              (Store.selectedLayerIds s ++
               map Layer.id (Layers.slice (Nat.min i j) (Nat.max i j + 1) (Store.layers s))) [])
    as [Hnd Hin].
  assert (Hrange : forall x,
    In x (map Layer.id (Layers.slice (Nat.min i j) (Nat.max i j + 1) (Store.layers s))) <->
    exists k l, (Nat.min i j <= k <= Nat.max i j)%nat /\
                nth_error (Store.layers s) k = Some l /\ Layer.id l = x).
  { intro x. rewrite in_map_iff. split.
    - intros (l & Hl & Hx). apply In_slice in Hx. destruct Hx as (k & Hk & Hn).
      exists k, l. split; [lia|auto].
    - intros (k & l & Hk & Hn & Hl). exists l. split; [exact Hl|].
      apply In_slice. exists k. split; [lia|exact Hn]. }
  split; [exact Hnd|]. split.
  { intro x. rewrite Hin, in_app_iff, Hrange. simpl. tauto. }
  split; [|reflexivity].
  rewrite Hin, in_app_iff, Hrange. split; [|simpl; tauto]. right.
  destruct (findIndex_split _ _ _ Hj) as (pre & l & post & Hl & Hlen & Hid & _).
  exists j, l. split; [lia|]. split.
  - rewrite Hl, <- Hlen. apply nth_error_mid.
  - apply String.eqb_eq. exact Hid.
Qed.

Lemma move_layer_round_trip_witness :
  Layers.findIndex "b" (Store.layers Scenario.threeLayers) = Some 1%nat /\
  Layers.handleMoveLayer "b" Layers.down
    (Layers.handleMoveLayer "b" Layers.up Scenario.threeLayers) = Scenario.threeLayers /\
  Layers.handleMoveLayer "b" Layers.up
    (Layers.handleMoveLayer "b" Layers.down Scenario.threeLayers) = Scenario.threeLayers.
Proof.
  split; [reflexivity|].
  destruct (move_layer_round_trip "b" Scenario.threeLayers 1 eq_refl) as [Hup Hdown].
  split.
  - apply Hup. lia.
  - apply Hdown; [simpl; lia|].
    simpl. repeat (constructor; [simpl; intuition discriminate|]). constructor.
Defined.

Lemma ctrl_click_witness :
  let s' := Layers.handleLayerSelect "c" true false false Scenario.threeLayers in
  Store.selectedLayerIds s' = ["a"; "c"] /\
  Str.mem "c" (Store.selectedLayerIds s') = true /\
  Layers.handleLayerSelect "c" true false false s' = Scenario.threeLayers.
Proof.
  intro s'.
  destruct (ctrl_click_toggles_one_layer "c" true false false Scenario.threeLayers eq_refl)
    as (Hmem & _ & _ & _ & _ & Hback).
  split; [reflexivity|]. split; [exact Hmem|]. apply Hback. reflexivity.
Defined.

Lemma shift_click_witness :
  let s' := Layers.handleLayerSelect "c" false false true Scenario.threeLayers in
  Store.selectedLayerIds Scenario.threeLayers = ([] ++ ["a"])%list /\
  NoDup (Store.selectedLayerIds s') /\
  In "c" (Store.selectedLayerIds s') /\
  (In "b" (Store.selectedLayerIds s') <->
   In "b" (Store.selectedLayerIds Scenario.threeLayers) \/
   exists k l, (Nat.min 0 2 <= k <= Nat.max 0 2)%nat /\
               nth_error (Store.layers Scenario.threeLayers) k = Some l /\ Layer.id l = "b").
Proof.
  intro s'.
  destruct (shift_click_selects_range "c" "a" [] Scenario.threeLayers 0 2
              eq_refl eq_refl eq_refl) as (Hnd & Hin & Hc & _).
  split; [reflexivity|]. split; [exact Hnd|]. split; [exact Hc|]. apply Hin.
Defined.

(** ** Dragging a layer *)

Lemma layer_drag_step p rect m s st id off :
  Interaction.selectedTool p = move ->
  Interaction.isDraggingLayerRef s = true ->
  Interaction.draggingLayerId s = Some id ->
  String.eqb id "" = false ->
  Interaction.layerDragOffset s = Some off ->
  Interaction.handleMove p (Some rect) (Point.x m) (Point.y m) s st
  = (s, Store.setLayers
          (map (LayerDrag.place id
                  (Point.x (Viewport.toWorld s rect m) -' Point.x off)
                  (Point.y (Viewport.toWorld s rect m) -' Point.y off))
               (Store.layers st)) st).
Proof.
  intros Htool Hflag Hid Hne Hoff.
  unfold Interaction.handleMove, Interaction.handleMove_layerDrag.
  rewrite Htool, Hflag, Hid, Hoff, Hne. reflexivity.
Qed.

Lemma place_place id a b c d l :
  LayerDrag.place id c d (LayerDrag.place id a b l) = LayerDrag.place id c d l.
Proof.
  unfold LayerDrag.place. destruct (String.eqb (Layer.id l) id) eqn:E.
  - cbn [Layer.with_xy Layer.id]. rewrite E. reflexivity.
  - rewrite E. reflexivity.
Qed.

Lemma layer_drag_moves p rect s id off ms : forall st m,
  Interaction.selectedTool p = move ->
  Interaction.isDraggingLayerRef s = true ->
  Interaction.draggingLayerId s = Some id ->
  String.eqb id "" = false ->
  Interaction.layerDragOffset s = Some off ->
  Gesture.moves p (Some rect) (m :: ms) s st
  = (s, Store.setLayers
          (map (LayerDrag.place id
                  (Point.x (Viewport.toWorld s rect (last ms m)) -' Point.x off)
                  (Point.y (Viewport.toWorld s rect (last ms m)) -' Point.y off))
               (Store.layers st)) st).
Proof.
  induction ms as [|m' ms IH]; intros st m Htool Hflag Hid Hne Hoff.
  - unfold Gesture.moves. cbn [fold_left fst snd last].
    apply layer_drag_step; assumption.
  - rewrite moves_cons.
    rewrite (layer_drag_step p rect m s st id off Htool Hflag Hid Hne Hoff).
    cbn [fst snd]. rewrite (IH _ m' Htool Hflag Hid Hne Hoff).
    cbn [Store.layers Store.setLayers Store.redoStack Store.selectedLayerIds
         Store.showLayerMenuMobile].
    rewrite map_map, (last_cons ms m' m).
    erewrite map_ext; [reflexivity|]. intro l. apply place_place.
Qed.

(** A press of the move tool on a layer. *)
Lemma press_on_layer p rect press s st l :
  Interaction.selectedTool p = move ->
  Interaction.isGenerating p = false ->
  (Interaction.zoom s <=? Fin (1 # 1000)) = false ->
  Interaction.clickedLayer (Point.x (Viewport.toWorld s rect press))
    (Point.y (Viewport.toWorld s rect press)) (Store.layers st) = Some l ->
  exists st1,
    Interaction.handleStart p (Some rect) (Point.x press) (Point.y press) 0 s st
    = (Interaction.setLayerDragOffset
         (Some (Point.mk (Point.x (Viewport.toWorld s rect press) -' Layer.x l)
                         (Point.y (Viewport.toWorld s rect press) -' Layer.y l)))
         (Interaction.setDraggingLayerId (Some (Layer.id l))
            (Interaction.set_isDraggingLayerRef true s)),
       st1) /\
    Store.layers st1 = Store.layers st /\
    Store.redoStack st1 = Store.redoStack st /\
    Store.selectedLayerIds st1 = [Layer.id l].
Proof.
  intros Htool Hgen Hzoom Hhit.
  unfold Interaction.handleStart. rewrite Hzoom, Hgen, Htool. cbn [Z.eqb].
  unfold Viewport.toWorld in Hhit. cbn [Point.x Point.y] in Hhit.
  destruct (Store.showLayerMenuMobile st);
    cbn [Store.layers Store.setShowLayerMenuMobile]; rewrite Hhit;
    eexists; (split; [reflexivity|]); auto.
Qed.

Lemma sub_sub_fin (a b c : Q) : Fin a -' (Fin b -' Fin c) ~= Fin c +' (Fin a -' Fin b).
Proof. simpl. ring. Qed.

Lemma carried_place l (lx ly px py mx my : Q) ls :
  Layer.x l = Fin lx -> Layer.y l = Fin ly ->
  Forall2 (LayerDrag.carried l (Fin mx -' Fin px) (Fin my -' Fin py)) ls
    (map (LayerDrag.place (Layer.id l) (Fin mx -' (Fin px -' Fin lx))
            (Fin my -' (Fin py -' Fin ly))) ls).
Proof.
  intros Elx Ely. induction ls as [|l0 ls IH]; [constructor|].
  cbn [map]. constructor; [|exact IH].
  unfold LayerDrag.carried, LayerDrag.place.
  destruct (String.eqb (Layer.id l0) (Layer.id l)); [|reflexivity].
  eexists _, _. split; [reflexivity|]. rewrite Elx, Ely. split; apply sub_sub_fin.
Qed.

(** X6.  After the move tool is pressed on a layer with a non-empty id and the
    pointer is moved, every layer with that id is placed at the grabbed
    layer's position plus the displacement of the pointer in world units,
    keeping all its other fields; every other layer, the redo stack, the
    selection rectangle, the zoom and the offset are unchanged, and the
    grabbed id is the selected one. *)
Theorem layer_drag_follows_pointer
    (p : Interaction.Props) (rect press m : Point.t) (ms : list Point.t)
    (s : Interaction.t) (st : Store.t) (l : Layer.t) :
  Interaction.selectedTool p = move ->
  Interaction.isGenerating p = false ->
  (Interaction.zoom s <=? Fin (1 # 1000)) = false ->
  Interaction.clickedLayer (Point.x (Viewport.toWorld s rect press))
    (Point.y (Viewport.toWorld s rect press)) (Store.layers st) = Some l ->
  Layer.id l <> "" ->
  Point.finite (Viewport.toWorld s rect press) = true ->
  Point.finite (Viewport.toWorld s rect m) = true ->
  Num.is_fin (Layer.x l) = true -> Num.is_fin (Layer.y l) = true ->
  let pressed := Interaction.handleStart p (Some rect) (Point.x press) (Point.y press) 0 s st in
  let dragged := Gesture.moves p (Some rect) (ms ++ [m]) (fst pressed) (snd pressed) in
  Forall2 (LayerDrag.carried l (Gesture.dx s rect press m) (Gesture.dy s rect press m))
    (Store.layers st) (Store.layers (snd dragged)) /\
  Store.selectedLayerIds (snd dragged) = [Layer.id l] /\
  Store.redoStack (snd dragged) = Store.redoStack st /\
  Interaction.selection (fst dragged) = Interaction.selection s /\
  Interaction.zoom (fst dragged) = Interaction.zoom s /\
  Interaction.canvasOffset (fst dragged) = Interaction.canvasOffset s.
Proof.
  intros Htool Hgen Hzoom Hhit Hid Hfp Hfm Hlx Hly pressed dragged.
  destruct (press_on_layer p rect press s st l Htool Hgen Hzoom Hhit)
    as (st1 & Hpress & Hl1 & Hr1 & Hs1).
  subst dragged pressed. rewrite Hpress. cbn [fst snd].
  assert (Hne : String.eqb (Layer.id l) "" = false).
  { destruct (String.eqb (Layer.id l) "") eqn:E; [|reflexivity].
    apply String.eqb_eq in E. contradiction. }
  destruct (ms ++ [m])%list as [|m0 rest] eqn:Hms.
  { destruct ms; discriminate. }
  assert (Hlast : last rest m0 = m).
  { rewrite <- (last_cons rest m0 m0), <- Hms. apply last_last. }
  set (s1 := Interaction.setLayerDragOffset _ _).
  rewrite (layer_drag_moves p rect s1 (Layer.id l) _ rest st1 m0 Htool eq_refl eq_refl Hne eq_refl).
  rewrite Hlast. cbn [fst snd Store.layers Store.setLayers Store.selectedLayerIds Store.redoStack].
  rewrite Hl1. split; [|subst s1; auto].
  assert (Hw : Viewport.toWorld s1 rect m = Viewport.toWorld s rect m) by reflexivity.
  rewrite Hw. cbn [Point.x Point.y].
  destruct (finite_point_inv _ Hfp) as (px & py & Hp).
  destruct (finite_point_inv _ Hfm) as (mx & my & Hm).
  unfold Gesture.dx, Gesture.dy. rewrite Hp, Hm. cbn [Point.x Point.y].
  destruct (Layer.x l) as [lx| | |] eqn:Elx; try discriminate.
  destruct (Layer.y l) as [ly| | |] eqn:Ely; try discriminate.
  apply carried_place; assumption.
Qed.

(** ** Reset after a drag *)

Lemma handleMove_store p cref cx cy s st :
  let r := Interaction.handleMove p cref cx cy s st in
  (snd r = st \/
   exists id a b,
     Interaction.isDraggingLayerRef s = true /\
     Interaction.draggingLayerId s = Some id /\
     snd r = Store.setLayers (map (LayerDrag.place id a b) (Store.layers st)) st) /\
  Interaction.isDraggingLayerRef (fst r) = Interaction.isDraggingLayerRef s /\
  Interaction.draggingLayerId (fst r) = Interaction.draggingLayerId s.
Proof.
  intro r. subst r. unfold Interaction.handleMove.
  destruct (Interaction.handleMove_layerDrag p cref cx cy s st) as [st'|] eqn:Hl.
  - cbn [fst snd]. split; [|auto]. right.
    unfold Interaction.handleMove_layerDrag in Hl.
    destruct (Interaction.selectedTool p); try discriminate.
    destruct (Interaction.isDraggingLayerRef s); try discriminate.
    destruct (Interaction.draggingLayerId s) as [id|]; try discriminate.
    destruct (Interaction.layerDragOffset s) as [off|]; try discriminate.
    destruct cref as [rect|]; try discriminate.
    destruct (String.eqb id ""); try discriminate.
    injection Hl as <-. eexists id, _, _. repeat split; reflexivity.
  - destruct (Interaction.handleMove_selectionDrag cref cx cy s) as [s'|] eqn:Hs.
    + cbn [fst snd]. split; [left; reflexivity|].
      unfold Interaction.handleMove_selectionDrag in Hs.
      destruct (Interaction.isDraggingSelectionRef s); try discriminate.
      destruct (Interaction.selectionDragStartRef s); try discriminate.
      destruct (Interaction.initialSelectionPosRef s); try discriminate.
      destruct (Interaction.selection s); try discriminate.
      destruct cref; try discriminate.
      destruct (Interaction.dragAxisRef s) as [axis|] eqn:Eax.
      * cbn [Interaction.dragAxisRef] in Hs. rewrite Eax in Hs. injection Hs as <-. auto.
      * match type of Hs with context [if ?c then _ else _] => destruct c end.
        -- cbn [Interaction.dragAxisRef Interaction.set_dragAxisRef] in Hs.
           injection Hs as <-. auto.
        -- rewrite Eax in Hs. injection Hs as <-. auto.
    + destruct (Interaction.isDraggingRef s); [|cbn; auto].
      destruct (Interaction.dragStartRef s); [|cbn; auto].
      destruct (Interaction.isMiddlePanning s || _); [cbn; auto|].
      destruct (Interaction.selectedTool p); cbn; auto.
      destruct cref; cbn; auto.
Qed.

Lemma moves_store p cref ms : forall s st,
  let r := Gesture.moves p cref ms s st in
  (Store.layers (snd r) = Store.layers st \/
   exists id a b,
     Interaction.isDraggingLayerRef s = true /\
     Interaction.draggingLayerId s = Some id /\
     Store.layers (snd r) = map (LayerDrag.place id a b) (Store.layers st)) /\
  Store.selectedLayerIds (snd r) = Store.selectedLayerIds st /\
  Store.redoStack (snd r) = Store.redoStack st.
Proof.
  induction ms as [|m ms IH]; intros s st r; subst r.
  - cbn. auto.
  - rewrite moves_cons.
    destruct (handleMove_store p cref (Point.x m) (Point.y m) s st) as (Hst & Hflag & Hid).
    cbv zeta in Hst, Hflag, Hid.
    set (s1 := fst (Interaction.handleMove p cref (Point.x m) (Point.y m) s st)) in *.
    set (st1 := snd (Interaction.handleMove p cref (Point.x m) (Point.y m) s st)) in *.
    destruct (IH s1 st1) as (Hl & Hsel & Hredo). cbv zeta in Hl, Hsel, Hredo.
    rewrite Hflag, Hid in Hl.
    assert (Hsel1 : Store.selectedLayerIds st1 = Store.selectedLayerIds st /\
                    Store.redoStack st1 = Store.redoStack st).
    { destruct Hst as [-> | (id & a & b & _ & _ & ->)]; auto. }
    split; [|rewrite Hsel, Hredo; exact Hsel1].
    destruct Hst as [Hst | (id & a & b & Hf & Hi & Hst)].
    + rewrite Hst in Hl |- *. exact Hl.
    + right. destruct Hl as [Hl | (id' & a' & b' & _ & Hi' & Hl)].
      * exists id, a, b. rewrite Hl, Hst. auto.
      * rewrite Hi in Hi'. injection Hi' as <-.
        exists id, a', b'. rewrite Hl, Hst. cbn [Store.layers Store.setLayers].
        rewrite map_map. repeat split; auto.
        apply map_ext. intro l. apply place_place.
Qed.

Lemma press_move_tool p cref cx cy button s st :
  Interaction.selectedTool p = move ->
  let r := Interaction.handleStart p cref cx cy button s st in
  Store.layers (snd r) = Store.layers st /\
  (Interaction.isDraggingLayerRef (fst r) = Interaction.isDraggingLayerRef s \/
   exists l, Interaction.isDraggingLayerRef (fst r) = true /\
             Interaction.draggingLayerId (fst r) = Some (Layer.id l) /\
             Store.selectedLayerIds (snd r) = [Layer.id l]).
Proof.
  intros Htool r. subst r. unfold Interaction.handleStart.
  destruct cref as [rect|]; [|cbn; auto].
  destruct (Interaction.zoom s <=? Fin (1 # 1000)); [cbn; auto|].
  destruct (Interaction.isGenerating p); [cbn; auto|].
  rewrite Htool. cbv zeta.
  destruct (Z.eqb button 1).
  { destruct (Store.showLayerMenuMobile st); cbn; auto. }
  assert (Hl : forall b : bool, Store.layers (if b then Store.setShowLayerMenuMobile false st else st)
                         = Store.layers st) by (intros []; reflexivity).
  rewrite Hl.
  destruct (Interaction.clickedLayer
              ((cx -' Point.x rect -' Point.x (Interaction.canvasOffset s)) /' Interaction.zoom s)
              ((cy -' Point.y rect -' Point.y (Interaction.canvasOffset s)) /' Interaction.zoom s)
              (Store.layers st)) as [l|].
  - cbn [fst snd Store.layers Store.setSelectedLayerIds Store.selectedLayerIds].
    rewrite Hl. split; [reflexivity|]. right. exists l. auto.
  - cbn [fst snd]. rewrite Hl. auto.
Qed.

Lemma reset_pristine ids (l : Layer.t) :
  LayerDrag.pristine l ->
  match Layer.initialX l with
  | Some initialX =>
      if Str.mem (Layer.id l) ids then
        Layer.mk (Layer.id l) (Layer.name l) (Layer.visible l) (Layer.locked l)
          (Layer.type l) (Layer.src l) (Layer.thumbnail l)
          initialX (Layers.unwrap (Layer.initialY l))
          (Layers.unwrap (Layer.initialWidth l)) (Layers.unwrap (Layer.initialHeight l))
          (Layer.initialX l) (Layer.initialY l)
          (Layer.initialWidth l) (Layer.initialHeight l)
          (Layer.feather l) (Layer.renderMode l) (Layer.isPlaying l)
          (Layer.decorData l)
      else l
  | None => l
  end = l.
Proof.
  intros (Hx & Hy & Hw & Hh). destruct l. cbn in *. subst.
  destruct (Str.mem id ids); reflexivity.
Qed.

Lemma reset_layers_pristine (st : Store.t) :
  Forall LayerDrag.pristine (Store.layers st) ->
  Store.layers (Layers.handleResetLayer st) = Store.layers st.
Proof.
  intro Hp. unfold Layers.handleResetLayer.
  destruct (Store.selectedLayerIds st) as [|i ids]; [reflexivity|].
  cbn [Store.layers Store.setLayers].
  induction Hp as [|l ls Hl _ IH]; [reflexivity|].
  cbn [map]. rewrite IH. f_equal. apply reset_pristine. exact Hl.
Qed.

(** X7.  With the move tool, when every layer rests at its initial position and
    size and no layer drag is under way, a press anywhere followed by any
    pointer moves and then handleResetLayer gives back the layer list as it
    was before the press. *)
Theorem reset_undoes_layer_drag
    (p : Interaction.Props) (canvasRef : option Point.t) (press : Point.t) (button : Z)
    (ms : list Point.t) (s : Interaction.t) (st : Store.t) :
  Interaction.selectedTool p = move ->
  Interaction.isDraggingLayerRef s = false ->
  Forall LayerDrag.pristine (Store.layers st) ->
  let pressed := Interaction.handleStart p canvasRef (Point.x press) (Point.y press)
                   button s st in
  let dragged := Gesture.moves p canvasRef ms (fst pressed) (snd pressed) in
  Store.layers (Layers.handleResetLayer (snd dragged)) = Store.layers st.
Proof.
  intros Htool Hrest Hp pressed dragged.
  destruct (press_move_tool p canvasRef (Point.x press) (Point.y press) button s st Htool)
    as (Hl1 & Hcase). fold pressed in Hl1, Hcase.
  destruct (moves_store p canvasRef ms (fst pressed) (snd pressed)) as (Hl2 & Hsel & _).
  fold dragged in Hl2, Hsel.
  destruct Hl2 as [Hl2 | (id & a & b & Hflag & Hid & Hl2)].
  - rewrite <- Hl1, <- Hl2. apply reset_layers_pristine. rewrite Hl2, Hl1. exact Hp.
  - destruct Hcase as [Hcase | (l & _ & Hdl & Hs1)]; [congruence|].
    rewrite Hid in Hdl. injection Hdl as ->.
    unfold Layers.handleResetLayer. rewrite Hsel, Hs1.
    cbn [Store.layers Store.setLayers]. rewrite Hl2, Hl1, map_map.
    clear -Hp. induction Hp as [|l0 ls H0 _ IH]; [reflexivity|].
    cbn [map]. rewrite IH. f_equal.
    destruct H0 as (Hx & Hy & Hw & Hh).
    unfold LayerDrag.place. destruct (String.eqb (Layer.id l0) (Layer.id l)) eqn:E.
    + destruct l0. cbn in *. subst. rewrite E. reflexivity.
    + destruct l0. cbn in *. subst. rewrite E. reflexivity.
Qed.

Lemma layer_drag_witness :
  let p := Sample.tool move [] in
  let l := Sample.layerAt "b" 50 50 100 100 in
  let pressed := Interaction.handleStart p (Some Sample.origin) (Fin 60) (Fin 60) 0
                   Sample.idle Scenario.threeLayers in
  let dragged := Gesture.moves p (Some Sample.origin)
                   (Scenario.over ++ [Scenario.release]) (fst pressed) (snd pressed) in
  Interaction.clickedLayer (Fin 60) (Fin 60) (Store.layers Scenario.threeLayers) = Some l /\
  Forall2
    (LayerDrag.carried l
       (Gesture.dx Sample.idle Sample.origin Scenario.press Scenario.release)
       (Gesture.dy Sample.idle Sample.origin Scenario.press Scenario.release))
    (Store.layers Scenario.threeLayers) (Store.layers (snd dragged)) /\
  Store.selectedLayerIds (snd dragged) = ["b"].
Proof.
  intros p l pressed dragged. split; [reflexivity|].
  destruct (layer_drag_follows_pointer p Sample.origin Scenario.press Scenario.release
              Scenario.over Sample.idle Scenario.threeLayers l)
    as (Hlayers & Hsel & _); try reflexivity; [discriminate|].
  split; [exact Hlayers|exact Hsel].
Defined.

Lemma reset_after_drag_witness :
  let p := Sample.tool move [] in
  let pressed := Interaction.handleStart p (Some Sample.origin) (Fin 60) (Fin 60) 0
                   Sample.idle Scenario.threeLayers in
  let dragged := Gesture.moves p (Some Sample.origin)
                   (Scenario.over ++ [Scenario.release]) (fst pressed) (snd pressed) in
  Forall LayerDrag.pristine (Store.layers Scenario.threeLayers) /\
  Store.layers (snd dragged) <> Store.layers Scenario.threeLayers /\
  Store.layers (Layers.handleResetLayer (snd dragged)) = Store.layers Scenario.threeLayers.
Proof.
  intros p pressed dragged.
  assert (Hp : Forall LayerDrag.pristine (Store.layers Scenario.threeLayers)).
  { repeat constructor. }
  split; [exact Hp|]. split; [vm_compute; discriminate|].
  exact (reset_undoes_layer_drag p (Some Sample.origin) Scenario.press 0
           (Scenario.over ++ [Scenario.release]) Sample.idle Scenario.threeLayers
           eq_refl eq_refl Hp).
Defined.

(** ** Panning *)

Lemma pan_step p rect m s0 s st press last :
  Pan.Panning p s0 s press last ->
  Point.finite (Interaction.canvasOffset s0) = true ->
  Point.finite press = true -> Point.finite last = true -> Point.finite m = true ->
  let r := Interaction.handleMove p (Some rect) (Point.x m) (Point.y m) s st in
  snd r = st /\ Pan.Panning p s0 (fst r) press m.
Proof.
  intros [Hdrag Hstart Hlayer Hsel Hmode Hzoom Hselection Hfin Hoff] Hf0 Hfp Hfl Hfm r.
  subst r. unfold Interaction.handleMove, Interaction.handleMove_layerDrag,
    Interaction.handleMove_selectionDrag.
  rewrite Hlayer, Hsel, Hdrag, Hstart.
  destruct (Interaction.selectedTool p) eqn:Htool; rewrite Hmode; cbn [fst snd];
    (split; [reflexivity|]);
    destruct (finite_point_inv _ Hf0) as (ox & oy & Ho0);
    destruct (finite_point_inv _ Hfin) as (cx & cy & Ho);
    destruct (finite_point_inv _ Hfp) as (px & py & ->);
    destruct (finite_point_inv _ Hfl) as (lx & ly & ->);
    destruct (finite_point_inv _ Hfm) as (mx & my & ->);
    rewrite Ho0, Ho in Hoff; destruct Hoff as [Hox Hoy]; cbn in Hox, Hoy;
    (constructor; cbn; rewrite ?Ho, ?Ho0; cbn; try assumption; try reflexivity;
     [rewrite Htool; exact Hmode | split; cbn; lra]).
Qed.

Lemma pan_moves p rect s0 press ms : forall s st from,
  Pan.Panning p s0 s press from ->
  Point.finite (Interaction.canvasOffset s0) = true ->
  Point.finite press = true -> Point.finite from = true ->
  Forall (fun m => Point.finite m = true) ms ->
  let r := Gesture.moves p (Some rect) ms s st in
  snd r = st /\ Pan.Panning p s0 (fst r) press (last ms from).
Proof.
  induction ms as [|m ms IH]; intros s st lst Hpan Hf0 Hfp Hfl Hms r; subst r.
  - cbn. auto.
  - inversion Hms as [|? ? Hm Hms']; subst. rewrite moves_cons.
    destruct (pan_step p rect m s0 s st press lst Hpan Hf0 Hfp Hfl Hm) as [Hst Hpan'].
    cbv zeta in Hst, Hpan'. rewrite Hst.
    destruct (IH _ st m Hpan' Hf0 Hfp Hm Hms') as [Hst' Hpan''].
    cbv zeta in Hst', Hpan''. rewrite (last_cons ms m lst). auto.
Qed.

Lemma press_to_pan p rect press button s st :
  LayerDrag.released s ->
  button = 1%Z \/ Interaction.selectedTool p = hand ->
  Interaction.isGenerating p = false ->
  (Interaction.zoom s <=? Fin (1 # 1000)) = false ->
  Point.finite (Interaction.canvasOffset s) = true ->
  Point.finite press = true ->
  let r := Interaction.handleStart p (Some rect) (Point.x press) (Point.y press) button s st in
  Store.layers (snd r) = Store.layers st /\
  Store.selectedLayerIds (snd r) = Store.selectedLayerIds st /\
  Store.redoStack (snd r) = Store.redoStack st /\
  Pan.Panning p s (fst r) press press.
Proof.
  intros (Hd & Hl & Hs) Hhow Hgen Hzoom Hfo Hfp r. subst r.
  unfold Interaction.handleStart. rewrite Hzoom, Hgen. cbv zeta.
  assert (Hst : forall b : bool,
    Store.layers (if b then Store.setShowLayerMenuMobile false st else st) = Store.layers st /\
    Store.selectedLayerIds (if b then Store.setShowLayerMenuMobile false st else st)
      = Store.selectedLayerIds st /\
    Store.redoStack (if b then Store.setShowLayerMenuMobile false st else st)
      = Store.redoStack st) by (intros []; auto).
  destruct (finite_point_inv _ Hfo) as (ox & oy & Ho).
  destruct (finite_point_inv _ Hfp) as (px & py & Hp).
  destruct (Z.eqb button 1) eqn:Eb.
  - cbn [fst snd]. destruct (Hst (Store.showLayerMenuMobile st)) as (H1 & H2 & H3).
    repeat (split; [assumption|]).
    constructor; cbn; try assumption; try reflexivity.
    + rewrite Hp. reflexivity.
    + rewrite Ho, Hp. cbn. split; cbn; lra.
  - destruct Hhow as [-> | Htool]; [discriminate|]. rewrite Htool.
    cbn [fst snd]. destruct (Hst (Store.showLayerMenuMobile st)) as (H1 & H2 & H3).
    repeat (split; [assumption|]).
    constructor; cbn; try assumption; try reflexivity.
    + rewrite Hp. reflexivity.
    + rewrite Htool. apply orb_true_r.
    + rewrite Ho, Hp. cbn. split; cbn; lra.
Qed.

(** X8.  A pan started with the middle button or the hand tool moves the canvas
    offset by exactly the displacement of the pointer on screen between the
    press and the last move, whatever the moves in between, so that the
    world point grabbed at the press stays under the pointer; the zoom, the
    selection, the layers and the selected ids are unchanged. *)
Theorem pan_follows_pointer
    (p : Interaction.Props) (rect press m : Point.t) (button : Z) (ms : list Point.t)
    (s : Interaction.t) (st : Store.t) :
  LayerDrag.released s ->
  button = 1%Z \/ Interaction.selectedTool p = hand ->
  Interaction.isGenerating p = false ->
  (Interaction.zoom s <=? Fin (1 # 1000)) = false ->
  Num.is_fin (Interaction.zoom s) = true ->
  Point.finite (Interaction.canvasOffset s) = true ->
  Point.finite rect = true ->
  Point.finite press = true ->
  Forall (fun q => Point.finite q = true) ms ->
  Point.finite m = true ->
  let pressed := Interaction.handleStart p (Some rect) (Point.x press) (Point.y press)
                   button s st in
  let panned := Gesture.moves p (Some rect) (ms ++ [m]) (fst pressed) (snd pressed) in
  Point.eqv (Interaction.canvasOffset (fst panned))
    (Point.mk (Point.x (Interaction.canvasOffset s) +' (Point.x m -' Point.x press))
              (Point.y (Interaction.canvasOffset s) +' (Point.y m -' Point.y press))) /\
  Point.eqv (Viewport.toWorld (fst panned) rect m) (Viewport.toWorld s rect press) /\
  Interaction.zoom (fst panned) = Interaction.zoom s /\
  Interaction.selection (fst panned) = Interaction.selection s /\
  Store.layers (snd panned) = Store.layers st /\
  Store.selectedLayerIds (snd panned) = Store.selectedLayerIds st.
Proof.
  intros Hrel Hhow Hgen Hzoom Hfz Hfo Hfr Hfp Hms Hfm pressed panned.
  destruct (press_to_pan p rect press button s st Hrel Hhow Hgen Hzoom Hfo Hfp)
    as (Hl1 & Hs1 & _ & Hpan). fold pressed in Hl1, Hs1, Hpan.
  assert (Hall : Forall (fun q => Point.finite q = true) (ms ++ [m])).
  { apply Forall_app. split; [exact Hms|]. constructor; [exact Hfm|constructor]. }
  destruct (pan_moves p rect s press (ms ++ [m]) (fst pressed) (snd pressed) press
              Hpan Hfo Hfp Hfp Hall) as [Hst Hpan'].
  fold panned in Hst, Hpan'. rewrite last_last in Hpan'.
  destruct Hpan' as [_ _ _ _ _ Hz Hsel Hfin Hoff].
  split; [exact Hoff|]. split.
  - unfold Viewport.toWorld. rewrite Hz.
    destruct (finite_point_inv _ Hfo) as (ox & oy & Ho).
    destruct (finite_point_inv _ Hfin) as (cx & cy & Hc).
    destruct (finite_point_inv _ Hfp) as (px & py & Hp).
    destruct (finite_point_inv _ Hfm) as (mx & my & Hm).
    destruct (finite_point_inv _ Hfr) as (rx & ry & Hr).
    rewrite Ho, Hc, Hp, Hm in *. rewrite Hr. destruct Hoff as [Hx Hy]. cbn in Hx, Hy.
    destruct (Interaction.zoom s) as [z| | |]; try discriminate.
    assert (Hz0 : ~ (z == 0)%Q).
    { unfold Num.leb in Hzoom. apply orb_false_iff in Hzoom. destruct Hzoom as [Hlt _].
      cbn in Hlt. apply Qltb_ge in Hlt. lra. }
    cbn [Point.x Point.y]. unfold Num.sub. cbn [Num.neg Num.add].
    rewrite !(div_fin _ _ Hz0). split; cbn; rewrite ?Hx, ?Hy; field; exact Hz0.
  - rewrite Hst. auto.
Qed.

Lemma pan_witness :
  let p := Sample.tool hand [] in
  let pressed := Interaction.handleStart p (Some Sample.origin) (Fin 60) (Fin 60) 0
                   Sample.idle Scenario.threeLayers in
  let panned := Gesture.moves p (Some Sample.origin)
                  (Scenario.over ++ [Scenario.release]) (fst pressed) (snd pressed) in
  LayerDrag.released Sample.idle /\
  Point.eqv (Interaction.canvasOffset (fst panned)) (Point.mk (Fin 20) (Fin 30)) /\
  Point.eqv (Viewport.toWorld (fst panned) Sample.origin Scenario.release)
            (Viewport.toWorld Sample.idle Sample.origin Scenario.press) /\
  Store.layers (snd panned) = Store.layers Scenario.threeLayers.
Proof.
  intros p pressed panned.
  assert (Hrel : LayerDrag.released Sample.idle) by (repeat split).
  split; [exact Hrel|].
  destruct (pan_follows_pointer p Sample.origin Scenario.press Scenario.release 0
              Scenario.over Sample.idle Scenario.threeLayers Hrel (or_intror eq_refl)
              eq_refl eq_refl eq_refl eq_refl eq_refl eq_refl)
    as (Hoff & Hworld & _ & _ & Hl & _).
  - repeat constructor.
  - reflexivity.
  - split; [|split; [exact Hworld|exact Hl]].
    destruct Hoff as [Hx Hy]. split.
    + cbn in Hx |- *. rewrite Hx. reflexivity.
    + cbn in Hy |- *. rewrite Hy. reflexivity.
Defined.

(** ** After the release *)

Lemma handleMove_released p cref cx cy s st :
  LayerDrag.released s ->
  Interaction.handleMove p cref cx cy s st = (s, st).
Proof.
  intros (Hd & Hl & Hs).
  unfold Interaction.handleMove, Interaction.handleMove_layerDrag,
    Interaction.handleMove_selectionDrag.
  rewrite Hd, Hl, Hs. destruct (Interaction.selectedTool p); reflexivity.
Qed.

(** X9.  After handleEnd the three drag flags are down, and until the next press
    no sequence of pointer moves and no touch move, with any tool, changes
    the interaction state or the store. *)
Theorem release_ends_every_drag
    (p p' : Interaction.Props) (canvasRef : option Point.t) (s : Interaction.t) (st : Store.t) :
  let s0 := Interaction.handleEnd p s in
  LayerDrag.released s0 /\
  (forall ms, Gesture.moves p' canvasRef ms s0 st = (s0, st)) /\
  (forall Math_sqrt touches,
     Interaction.handleTouchMove Math_sqrt p' canvasRef touches s0 st = (s0, st)).
Proof.
  intro s0.
  assert (Hrel : LayerDrag.released s0).
  { subst s0. unfold Interaction.handleEnd, LayerDrag.released.
    destruct (Interaction.selectedTool p); cbn; auto. }
  split; [exact Hrel|]. split.
  - intro ms. induction ms as [|m ms IH]; [reflexivity|].
    rewrite moves_cons, (handleMove_released p' canvasRef _ _ s0 st Hrel). exact IH.
  - intros Math_sqrt touches. unfold Interaction.handleTouchMove.
    destruct touches as [|t0 [|t1 [|t2 rest]]]; try reflexivity.
    apply handleMove_released. exact Hrel.
Qed.

(** ** Double click *)

(** X10.  A double click on a point that no visible layer contains changes
    nothing. Otherwise it picks the last layer of the list among the visible
    ones containing the point, locked or not, sets the selection rectangle
    to that layer's position and size (so the rectangle contains the point),
    selects its id alone, and leaves the layers, the redo stack, the zoom
    and the offset as they were. *)
Theorem double_click_frames_layer
    (rect client : Point.t) (s : Interaction.t) (st : Store.t) :
  let w := Viewport.toWorld s rect client in
  let r := Interaction.handleDoubleClick (Some rect) (Point.x client) (Point.y client) s st in
  (Forall (fun l => Interaction.hitVisible (Point.x w) (Point.y w) l = false) (Store.layers st) ->
   r = (s, st)) /\
  (Exists (fun l => Interaction.hitVisible (Point.x w) (Point.y w) l = true) (Store.layers st) ->
   exists below c above,
     Store.layers st = (below ++ c :: above)%list /\
     Forall (fun l => Interaction.hitVisible (Point.x w) (Point.y w) l = false) above /\
     Layer.visible c = true /\
     Interaction.selection (fst r)
       = Some (Rect.mk (Layer.x c) (Layer.y c) (Layer.width c) (Layer.height c)) /\
     (Layer.x c <=? Point.x w) = true /\ (Point.x w <=? Layer.x c +' Layer.width c) = true /\
     (Layer.y c <=? Point.y w) = true /\ (Point.y w <=? Layer.y c +' Layer.height c) = true /\
     Store.selectedLayerIds (snd r) = [Layer.id c] /\
     Store.layers (snd r) = Store.layers st /\
     Store.redoStack (snd r) = Store.redoStack st /\
     Interaction.zoom (fst r) = Interaction.zoom s /\
     Interaction.canvasOffset (fst r) = Interaction.canvasOffset s).
Proof.
  intros w r. subst r. unfold Interaction.handleDoubleClick.
  change ((Point.x client -' Point.x rect -' Point.x (Interaction.canvasOffset s))
            /' Interaction.zoom s) with (Point.x w).
  change ((Point.y client -' Point.y rect -' Point.y (Interaction.canvasOffset s))
            /' Interaction.zoom s) with (Point.y w).
  destruct (find (Interaction.hitVisible (Point.x w) (Point.y w)) (rev (Store.layers st)))
    as [c|] eqn:Hf.
  - split.
    + intro Hnone. apply find_some in Hf. destruct Hf as [Hin Hhit].
      rewrite Forall_forall in Hnone. apply in_rev in Hin.
      rewrite (Hnone c Hin) in Hhit. discriminate.
    + intros _. destruct (find_rev_last _ _ _ Hf) as (below & above & Hl & Hc & Habove).
      exists below, c, above. split; [exact Hl|]. split; [exact Habove|].
      unfold Interaction.hitVisible in Hc.
      repeat rewrite andb_true_iff in Hc. destruct Hc as [[[[H1 H2] H3] H4] H5].
      cbn. repeat split; assumption || reflexivity.
  - split; [reflexivity|]. intro Hex. exfalso.
    apply Exists_exists in Hex. destruct Hex as (l & Hin & Hl).
    apply in_rev in Hin. rewrite (find_none _ _ Hf l Hin) in Hl. discriminate.
Qed.

(** ** The bounding box *)

Lemma measurable_inv (l : Layer.t) :
  Bounds.measurable l = true ->
  exists x y w h,
    Layer.x l = Fin x /\ Layer.y l = Fin y /\ Layer.width l = Fin w /\ Layer.height l = Fin h /\
    (0 <= w)%Q /\ (0 <= h)%Q.
Proof.
  unfold Bounds.measurable. rewrite !andb_true_iff.
  intros [[[[[Hx Hy] Hw] Hh] Hw0] Hh0].
  destruct (Layer.x l) as [x| | |]; try discriminate.
  destruct (Layer.y l) as [y| | |]; try discriminate.
  destruct (Layer.width l) as [w| | |]; try discriminate.
  destruct (Layer.height l) as [h| | |]; try discriminate.
  apply leb_fin in Hw0. apply leb_fin in Hh0.
  exists x, y, w, h. auto 10.
Qed.

(** The box [b] encloses the layer [l]. *)
Lemma grow_empty (l : Layer.t) x y w h :
  Layer.x l = Fin x -> Layer.y l = Fin y -> Layer.width l = Fin w -> Layer.height l = Fin h ->
  Bounds.grow Bounds.empty l = Bounds.mk (Fin x) (Fin y) (Fin (x + w)) (Fin (y + h)).
Proof.
  intros Hx Hy Hw Hh. unfold Bounds.grow. rewrite Hx, Hy, Hw, Hh. reflexivity.
Qed.

Lemma grow_fin (l : Layer.t) (a b c d x y w h : Q) :
  Layer.x l = Fin x -> Layer.y l = Fin y -> Layer.width l = Fin w -> Layer.height l = Fin h ->
  exists a' b' c' d',
    Bounds.grow (Bounds.mk (Fin a) (Fin b) (Fin c) (Fin d)) l
    = Bounds.mk (Fin a') (Fin b') (Fin c') (Fin d') /\
    (a' <= a)%Q /\ (b' <= b)%Q /\ (c <= c')%Q /\ (d <= d')%Q /\
    (a' <= x)%Q /\ (b' <= y)%Q /\ (x + w <= c')%Q /\ (y + h <= d')%Q /\
    (a' = a \/ a' = x) /\ (b' = b \/ b' = y) /\
    (c' = c \/ c' = (x + w)%Q) /\ (d' = d \/ d' = (y + h)%Q).
Proof.
  intros Hx Hy Hw Hh. unfold Bounds.grow. rewrite Hx, Hy, Hw, Hh.
  cbn [Bounds.minX Bounds.minY Bounds.maxX Bounds.maxY Num.add Num.ltb Num.gtb].
  destruct (Num.Qltb x a) eqn:E1; destruct (Num.Qltb y b) eqn:E2;
    destruct (Num.Qltb c (x + w)) eqn:E3; destruct (Num.Qltb d (y + h)) eqn:E4;
    eexists _, _, _, _; (split; [reflexivity|]);
    try apply Qltb_lt in E1; try apply Qltb_ge in E1;
    try apply Qltb_lt in E2; try apply Qltb_ge in E2;
    try apply Qltb_lt in E3; try apply Qltb_ge in E3;
    try apply Qltb_lt in E4; try apply Qltb_ge in E4;
    repeat split; try lra; try (left; reflexivity); try (right; reflexivity).
Qed.

(** The layers a box was grown over. *)
Lemma fold_grow_fin (ls : list Layer.t) : forall (a b c d : Q),
  Forall (fun l => Bounds.measurable l = true) ls ->
  exists a' b' c' d',
    fold_left Bounds.grow ls (Bounds.mk (Fin a) (Fin b) (Fin c) (Fin d))
    = Bounds.mk (Fin a') (Fin b') (Fin c') (Fin d') /\
    (a' <= a)%Q /\ (b' <= b)%Q /\ (c <= c')%Q /\ (d <= d')%Q /\
    Forall (fun l => exists x y w h,
              Layer.x l = Fin x /\ Layer.y l = Fin y /\
              Layer.width l = Fin w /\ Layer.height l = Fin h /\
              (a' <= x)%Q /\ (b' <= y)%Q /\ (x + w <= c')%Q /\ (y + h <= d')%Q) ls /\
    (a' = a \/ Exists (fun l => Layer.x l = Fin a') ls) /\
    (b' = b \/ Exists (fun l => Layer.y l = Fin b') ls) /\
    (c' = c \/ Exists (fun l => Layer.x l +' Layer.width l = Fin c') ls) /\
    (d' = d \/ Exists (fun l => Layer.y l +' Layer.height l = Fin d') ls).
Proof.
  induction ls as [|l ls IH]; intros a b c d Hm.
  - exists a, b, c, d. cbn. repeat split; try lra; auto.
  - inversion Hm as [|? ? Hl Hls]; subst.
    destruct (measurable_inv l Hl) as (x & y & w & h & Hx & Hy & Hw & Hh & Hw0 & Hh0).
    destruct (grow_fin l a b c d x y w h Hx Hy Hw Hh)
      as (a1 & b1 & c1 & d1 & Hg & Ha & Hb & Hc & Hd & Hax & Hby & Hcx & Hdy & Ta & Tb & Tc & Td).
    destruct (IH a1 b1 c1 d1 Hls)
      as (a2 & b2 & c2 & d2 & Hf & Ha2 & Hb2 & Hc2 & Hd2 & Hall & Ua & Ub & Uc & Ud).
    exists a2, b2, c2, d2. cbn [fold_left]. rewrite Hg, Hf.
    split; [reflexivity|]. repeat (split; [lra|]).
    split.
    { constructor; [|exact Hall]. exists x, y, w, h. repeat (split; [assumption|]).
      repeat split; lra. }
    assert (Hxw : Layer.x l +' Layer.width l = Fin (x + w)) by (rewrite Hx, Hw; reflexivity).
    assert (Hyh : Layer.y l +' Layer.height l = Fin (y + h)) by (rewrite Hy, Hh; reflexivity).
    repeat split.
    + destruct Ua as [-> | Ua]; [|right; apply Exists_cons_tl; exact Ua].
      destruct Ta as [-> | ->]; [left; reflexivity|right; apply Exists_cons_hd; exact Hx].
    + destruct Ub as [-> | Ub]; [|right; apply Exists_cons_tl; exact Ub].
      destruct Tb as [-> | ->]; [left; reflexivity|right; apply Exists_cons_hd; exact Hy].
    + destruct Uc as [-> | Uc]; [|right; apply Exists_cons_tl; exact Uc].
      destruct Tc as [-> | ->]; [left; reflexivity|right; apply Exists_cons_hd; exact Hxw].
    + destruct Ud as [-> | Ud]; [|right; apply Exists_cons_tl; exact Ud].
      destruct Td as [-> | ->]; [left; reflexivity|right; apply Exists_cons_hd; exact Hyh].
Qed.

Lemma ofAll_fin (l : Layer.t) (ls : list Layer.t) :
  Forall (fun l => Bounds.measurable l = true) (l :: ls) ->
  exists a b c d,
    Bounds.ofAll (l :: ls) = Bounds.mk (Fin a) (Fin b) (Fin c) (Fin d) /\
    Forall (fun l => exists x y w h,
              Layer.x l = Fin x /\ Layer.y l = Fin y /\
              Layer.width l = Fin w /\ Layer.height l = Fin h /\
              (0 <= w)%Q /\ (0 <= h)%Q /\
              (a <= x)%Q /\ (b <= y)%Q /\ (x + w <= c)%Q /\ (y + h <= d)%Q) (l :: ls) /\
    Exists (fun l => Layer.x l = Fin a) (l :: ls) /\
    Exists (fun l => Layer.y l = Fin b) (l :: ls) /\
    Exists (fun l => Layer.x l +' Layer.width l = Fin c) (l :: ls) /\
    Exists (fun l => Layer.y l +' Layer.height l = Fin d) (l :: ls).
Proof.
  intro Hm. inversion Hm as [|? ? Hl Hls]; subst.
  destruct (measurable_inv l Hl) as (x & y & w & h & Hx & Hy & Hw & Hh & Hw0 & Hh0).
  unfold Bounds.ofAll. cbn [fold_left]. rewrite (grow_empty l x y w h Hx Hy Hw Hh).
  destruct (fold_grow_fin ls x y (x + w) (y + h) Hls)
    as (a & b & c & d & Hf & Ha & Hb & Hc & Hd & Hall & Ua & Ub & Uc & Ud).
  exists a, b, c, d. split; [exact Hf|]. split.
  { constructor.
    - exists x, y, w, h. repeat (split; [assumption|]). repeat split; lra.
    - rewrite Forall_forall in *. intros l' Hin.
      destruct (Hall l' Hin) as (x' & y' & w' & h' & H1 & H2 & H3 & H4 & H5).
      destruct (measurable_inv l' (Hls l' Hin)) as (x2 & y2 & w2 & h2 & G1 & G2 & G3 & G4 & G5 & G6).
      exists x', y', w', h'. repeat (split; [assumption|]).
      rewrite H3 in G3. rewrite H4 in G4. injection G3 as <-. injection G4 as <-.
      split; [exact G5|]. split; [exact G6|]. exact H5. }
  assert (Hxw : Layer.x l +' Layer.width l = Fin (x + w)) by (rewrite Hx, Hw; reflexivity).
  assert (Hyh : Layer.y l +' Layer.height l = Fin (y + h)) by (rewrite Hy, Hh; reflexivity).
  repeat split.
  - destruct Ua as [-> | Ua]; [apply Exists_cons_hd; exact Hx|apply Exists_cons_tl; exact Ua].
  - destruct Ub as [-> | Ub]; [apply Exists_cons_hd; exact Hy|apply Exists_cons_tl; exact Ub].
  - destruct Uc as [-> | Uc]; [apply Exists_cons_hd; exact Hxw|apply Exists_cons_tl; exact Uc].
  - destruct Ud as [-> | Ud]; [apply Exists_cons_hd; exact Hyh|apply Exists_cons_tl; exact Ud].
Qed.

Lemma ofVisible_filter (ls : list Layer.t) :
  Bounds.ofVisible ls = Bounds.ofAll (filter Layer.visible ls).
Proof.
  unfold Bounds.ofVisible, Bounds.ofAll. generalize Bounds.empty.
  induction ls as [|l ls IH]; intro b; [reflexivity|].
  cbn [fold_left filter]. destruct (Layer.visible l); [cbn [fold_left]|]; apply IH.
Qed.

(** ** Fit to screen *)

Lemma min_fin (a b : Q) :
  exists m, Num.min (Fin a) (Fin b) = Fin m /\ (m <= a)%Q /\ (m <= b)%Q /\ (m = a \/ m = b).
Proof.
  cbn [Num.min Num.ltb]. destruct (Num.Qltb b a) eqn:E.
  - apply Qltb_lt in E. exists b. repeat split; auto; lra.
  - apply Qltb_ge in E. exists a. repeat split; auto; lra.
Qed.

Lemma scale_bound (z i k : Q) : (0 < k)%Q -> (z <= i / k)%Q -> (z * k <= i)%Q.
Proof.
  intros Hk Hz. assert (H : (i == i / k * k)%Q) by (field; lra).
  rewrite H. apply Qmult_le_compat_r; lra.
Qed.

(** The zoom and the offset that [handleFitScreen] computes from the size
    of the window. *)
Lemma handleFitScreen_offsets
    (iw ih : Q) (layers : list Layer.t) (initialZoom CANVAS_SIZE : num) (s : Interaction.t) :
  (0 < iw)%Q -> (0 < ih)%Q ->
  Forall (fun l => Layer.visible l = true -> Bounds.measurable l = true) layers ->
  let s' := CanvasUtils.handleFitScreen (Fin iw) (Fin ih) layers initialZoom CANVAS_SIZE s in
  (layers <> [] -> Forall (fun l => Layer.visible l = false) layers -> s' = s) /\
  (Exists (fun l => Layer.visible l = true) layers ->
   exists z ox oy a b c d,
     Interaction.zoom s' = Fin z /\
     Interaction.canvasOffset s' = Point.mk (Fin ox) (Fin oy) /\
     Bounds.ofVisible layers = Bounds.mk (Fin a) (Fin b) (Fin c) (Fin d) /\
     (0 < z)%Q /\ (z <= 15 # 10)%Q /\
     (ox + (a + c) / 2 * z == iw / 2)%Q /\ (oy + (b + d) / 2 * z == ih / 2)%Q /\
     Forall (fun l =>
               Layer.visible l = true ->
               exists x y w h,
                 Layer.x l = Fin x /\ Layer.y l = Fin y /\
                 Layer.width l = Fin w /\ Layer.height l = Fin h /\
                 (100 * z <= ox + x * z)%Q /\ (ox + (x + w) * z <= iw - 100 * z)%Q /\
                 (100 * z <= oy + y * z)%Q /\ (oy + (y + h) * z <= ih - 100 * z)%Q)
            layers /\
     Interaction.selection s' = Interaction.selection s).
Proof.
  intros Hiw Hih Hm s'. split.
  - intros Hne Hnone. subst s'. unfold CanvasUtils.handleFitScreen.
    destruct layers as [|l ls]; [congruence|].
    rewrite ofVisible_filter.
    assert (Hf : filter Layer.visible (l :: ls) = []).
    { clear -Hnone. induction Hnone as [|x xs Hx _ IH]; [reflexivity|].
      cbn [filter]. rewrite Hx. exact IH. }
    rewrite Hf. reflexivity.
  - intro Hex. subst s'. unfold CanvasUtils.handleFitScreen.
    destruct layers as [|l0 ls0] eqn:Hlayers; [inversion Hex|]. rewrite <- Hlayers in *.
    clear Hlayers l0 ls0.
    rewrite ofVisible_filter.
    destruct (filter Layer.visible layers) as [|v vs] eqn:Hf.
    { exfalso. apply Exists_exists in Hex. destruct Hex as (l & Hin & Hv).
      assert (Hin' : In l (filter Layer.visible layers)) by (apply filter_In; auto).
      rewrite Hf in Hin'. exact Hin'. }
    assert (Hmv : Forall (fun l => Bounds.measurable l = true) (v :: vs)).
    { rewrite <- Hf. rewrite Forall_forall in *. intros l Hin.
      apply filter_In in Hin. destruct Hin as [Hin Hv]. apply Hm; assumption. }
    destruct (ofAll_fin v vs Hmv) as (a & b & c & d & Hb & Hall & Ea & _ & _ & _).
    rewrite Hb. cbn [Bounds.minX Bounds.minY Bounds.maxX Bounds.maxY Num.eqb].
    assert (Hac : (a <= c)%Q /\ (b <= d)%Q).
    { inversion Hall as [|? ? (x & y & w & h & _ & _ & _ & _ & Hw & Hh & H1 & H2 & H3 & H4) _].
      split; lra. }
    destruct Hac as [Hac Hbd].
    unfold Num.sub. cbn [Num.neg Num.add Num.mul].
    assert (Hkx : ~ (c + - a + 100 * 2 == 0)%Q) by lra.
    assert (Hky : ~ (d + - b + 100 * 2 == 0)%Q) by lra.
    assert (H2 : ~ (2 == 0)%Q) by lra.
    rewrite (div_fin _ _ Hkx), (div_fin _ _ Hky), !(div_fin _ _ H2).
    destruct (min_fin (iw / (c + - a + 100 * 2)) (ih / (d + - b + 100 * 2)))
      as (m1 & -> & Hm1x & Hm1y & Hm1).
    destruct (min_fin m1 (15 # 10)) as (z & -> & Hz1 & Hz2 & Hz).
    cbn [Num.neg Num.add Num.mul Interaction.zoom Interaction.canvasOffset
         Interaction.setZoom Interaction.setCanvasOffset Interaction.selection].
    assert (Hsx : (0 < iw / (c + - a + 100 * 2))%Q) by (apply Qlt_shift_div_l; lra).
    assert (Hsy : (0 < ih / (d + - b + 100 * 2))%Q) by (apply Qlt_shift_div_l; lra).
    assert (Hz0 : (0 < z)%Q).
    { destruct Hz as [-> | ->]; [|lra]. destruct Hm1 as [-> | ->]; assumption. }
    assert (Hzx : (z * (c + - a + 100 * 2) <= iw)%Q) by (apply scale_bound; lra).
    assert (Hzy : (z * (d + - b + 100 * 2) <= ih)%Q) by (apply scale_bound; lra).
    eexists z, _, _, a, b, c, d.
    split; [reflexivity|]. split; [reflexivity|]. split; [reflexivity|].
    split; [exact Hz0|]. split; [exact Hz2|].
    split; [field|]. split; [field|]. split; [|reflexivity].
    rewrite Forall_forall in *. intros l Hin Hv.
    assert (Hin' : In l (v :: vs)) by (rewrite <- Hf; apply filter_In; auto).
    destruct (Hall l Hin') as (x & y & w & h & Hx & Hy & Hw & Hh & Hw0 & Hh0 & H1 & H3 & H4 & H5).
    exists x, y, w, h. repeat (split; [assumption|]).
    assert (P1 : (0 <= (x - a) * z)%Q) by (apply Qmult_le_0_compat; lra).
    assert (P2 : (0 <= (c - (x + w)) * z)%Q) by (apply Qmult_le_0_compat; lra).
    assert (P3 : (0 <= (y - b) * z)%Q) by (apply Qmult_le_0_compat; lra).
    assert (P4 : (0 <= (d - (y + h)) * z)%Q) by (apply Qmult_le_0_compat; lra).
    remember (z * (c + - a + 100 * 2))%Q as tx eqn:Etx.
    remember (z * (d + - b + 100 * 2))%Q as ty eqn:Ety.
    remember ((x - a) * z)%Q as p1 eqn:E1. remember ((c - (x + w)) * z)%Q as p2 eqn:E2.
    remember ((y - b) * z)%Q as p3 eqn:E3. remember ((d - (y + h)) * z)%Q as p4 eqn:E4.
    assert (G1 : (0 <= (iw - tx) * (1 # 2) + p1)%Q) by lra.
    assert (G2 : (0 <= (iw - tx) * (1 # 2) + p2)%Q) by lra.
    assert (G3 : (0 <= (ih - ty) * (1 # 2) + p3)%Q) by lra.
    assert (G4 : (0 <= (ih - ty) * (1 # 2) + p4)%Q) by lra.
    repeat split; apply Qle_minus_iff.
    + setoid_replace (iw / 2 + - ((a + (c + - a) / 2) * z) + x * z + - (100 * z))%Q
        with ((iw - tx) * (1 # 2) + p1)%Q by (subst tx p1; field). exact G1.
    + setoid_replace (iw - 100 * z + - (iw / 2 + - ((a + (c + - a) / 2) * z) + (x + w) * z))%Q
        with ((iw - tx) * (1 # 2) + p2)%Q by (subst tx p2; field). exact G2.
    + setoid_replace (ih / 2 + - ((b + (d + - b) / 2) * z) + y * z + - (100 * z))%Q
        with ((ih - ty) * (1 # 2) + p3)%Q by (subst ty p3; field). exact G3.
    + setoid_replace (ih - 100 * z + - (ih / 2 + - ((b + (d + - b) / 2) * z) + (y + h) * z))%Q
        with ((ih - ty) * (1 # 2) + p4)%Q by (subst ty p4; field). exact G4.
Qed.

(** Where a world point shows on screen once the zoom and the offset are
    known. *)
Lemma toClient_fin (s : Interaction.t) (z ox oy rx ry u v : Q) :
  Interaction.zoom s = Fin z ->
  Interaction.canvasOffset s = Point.mk (Fin ox) (Fin oy) ->
  Viewport.toClient s (Point.mk (Fin rx) (Fin ry)) (Point.mk (Fin u) (Fin v))
  = Point.mk (Fin (rx + ox + u * z)) (Fin (ry + oy + v * z)).
Proof.
  intros Hz Ho. unfold Viewport.toClient. rewrite Hz, Ho. reflexivity.
Qed.

(** X11.  In a window of positive size, when every visible layer has a finite
    position and a finite size that is not negative, handleFitScreen leaves
    the view unchanged if the list is not empty and no layer is visible;
    otherwise it sets a zoom in (0, 1.5] and an offset computed from the
    size of the window alone. On screen, the centre of the bounding box of
    the visible layers then shows half the width and half the height of the
    window away from the top-left corner of the canvas element, and every
    visible layer shows inside the window-sized rectangle that starts at
    that corner, at least 100 times the zoom away from each of its edges.
    That is the centre of the window, and inside the window, only when the
    canvas element starts at the corner of the window; in CanvasMode it
    starts below the top bar. The selection is not touched. *)
Theorem fit_screen_shows_every_visible_layer
    (iw ih rx ry : Q) (layers : list Layer.t) (initialZoom CANVAS_SIZE : num)
    (s : Interaction.t) :
  (0 < iw)%Q -> (0 < ih)%Q ->
  Forall (fun l => Layer.visible l = true -> Bounds.measurable l = true) layers ->
  let rect := Point.mk (Fin rx) (Fin ry) in
  let s' := CanvasUtils.handleFitScreen (Fin iw) (Fin ih) layers initialZoom CANVAS_SIZE s in
  (layers <> [] -> Forall (fun l => Layer.visible l = false) layers -> s' = s) /\
  (Exists (fun l => Layer.visible l = true) layers ->
   exists z a b c d,
     Interaction.zoom s' = Fin z /\ (0 < z)%Q /\ (z <= 15 # 10)%Q /\
     Bounds.ofVisible layers = Bounds.mk (Fin a) (Fin b) (Fin c) (Fin d) /\
     (exists px py,
        Viewport.toClient s' rect (Point.mk (Fin ((a + c) / 2)) (Fin ((b + d) / 2)))
        = Point.mk (Fin px) (Fin py) /\
        (px == rx + iw / 2)%Q /\ (py == ry + ih / 2)%Q) /\
     Forall (fun l =>
               Layer.visible l = true ->
               exists x0 y0 x1 y1,
                 Viewport.toClient s' rect (Point.mk (Layer.x l) (Layer.y l))
                 = Point.mk (Fin x0) (Fin y0) /\
                 Viewport.toClient s' rect
                   (Point.mk (Layer.x l +' Layer.width l) (Layer.y l +' Layer.height l))
                 = Point.mk (Fin x1) (Fin y1) /\
                 (rx + 100 * z <= x0)%Q /\ (x1 <= rx + iw - 100 * z)%Q /\
                 (ry + 100 * z <= y0)%Q /\ (y1 <= ry + ih - 100 * z)%Q)
            layers /\
     Interaction.selection s' = Interaction.selection s).
Proof.
  intros Hiw Hih Hm rect s'.
  destruct (handleFitScreen_offsets iw ih layers initialZoom CANVAS_SIZE s Hiw Hih Hm)
    as [Hnone Hshow].
  fold s' in Hnone, Hshow. split; [exact Hnone|]. intro Hex.
  destruct (Hshow Hex)
    as (z & ox & oy & a & b & c & d & Hz & Ho & Hb & Hz0 & Hz1 & Hcx & Hcy & Hall & Hsel).
  exists z, a, b, c, d. repeat (split; [assumption|]). split; [|split; [|exact Hsel]].
  - eexists _, _. split; [apply (toClient_fin s' z ox oy); assumption|]. split; lra.
  - eapply Forall_impl; [|exact Hall]. intros l Hl Hv. cbv beta in Hl.
    destruct (Hl Hv) as (x & y & w & h & Hx & Hy & Hw & Hh & H1 & H2 & H3 & H4).
    rewrite Hx, Hy, Hw, Hh. cbn [Num.add].
    eexists _, _, _, _.
    split; [apply (toClient_fin s' z ox oy); assumption|].
    split; [apply (toClient_fin s' z ox oy); assumption|].
    repeat split; lra.
Qed.

(** Three layers in a window of 1000 x 800 whose canvas starts 56 pixels
    below the top of the window. *)
Lemma fit_screen_witness :
  let rect := Point.mk (Fin 0) (Fin 56) in
  let s' := CanvasUtils.handleFitScreen (Fin 1000) (Fin 800)
              (Store.layers Scenario.threeLayers) (Fin 1) Interaction.CANVAS_SIZE
              Sample.idle in
  Forall (fun l => Layer.visible l = true -> Bounds.measurable l = true)
    (Store.layers Scenario.threeLayers) /\
  exists z a b c d px py,
    Interaction.zoom s' = Fin z /\ (0 < z)%Q /\ (z <= 15 # 10)%Q /\
    Bounds.ofVisible (Store.layers Scenario.threeLayers)
    = Bounds.mk (Fin a) (Fin b) (Fin c) (Fin d) /\
    Viewport.toClient s' rect (Point.mk (Fin ((a + c) / 2)) (Fin ((b + d) / 2)))
    = Point.mk (Fin px) (Fin py) /\
    (px == 500)%Q /\ (py == 456)%Q.
Proof.
  intros rect s'.
  assert (Hm : Forall (fun l => Layer.visible l = true -> Bounds.measurable l = true)
                 (Store.layers Scenario.threeLayers)).
  { repeat constructor. }
  split; [exact Hm|].
  destruct (fit_screen_shows_every_visible_layer 1000 800 0 56
              (Store.layers Scenario.threeLayers) (Fin 1) Interaction.CANVAS_SIZE Sample.idle)
    as [_ Hfit]; [reflexivity|reflexivity|exact Hm|].
  destruct Hfit as (z & a & b & c & d & Hz & Hz0 & Hz1 & Hb & (px & py & Hp & Hx & Hy) & _).
  { apply Exists_cons_hd. reflexivity. }
  exists z, a, b, c, d, px, py. repeat (split; [assumption|]).
  split; [rewrite Hx; reflexivity|rewrite Hy; reflexivity].
Defined.

(** ** The resolution shown for a drawn selection *)

Opaque Num.MAX_Q.

Lemma snap_on_ratio (avail : list Resolution.t) (cx cy sx sy : Q) :
  avail <> [] ->
  Forall (fun r => Resolution.positive r = true) avail ->
  (0 < Qabs (cx + - sx))%Q -> (0 < Qabs (cy + - sy))%Q ->
  let sel := Interaction.snapSelection avail (Fin cx) (Fin cy) (Fin sx) (Fin sy) in
  exists best q v,
    In best avail /\ Resolution.ratio best = Fin q /\ (0 < q)%Q /\
    Rect.w sel /' Rect.h sel = Fin v /\ (v == q)%Q.
Proof.
  intros Hne Hpos Hw0 Hh0 sel.
  destruct (snapSelection_size avail cx cy sx sy) as (Hw & Hh & _).
  cbv zeta in Hw, Hh. fold sel in Hw, Hh.
  assert (Hused : match avail with
                  | [] => [Interaction.defaultResolution]
                  | _ :: _ => avail
                  end = avail) by (destruct avail; [congruence|reflexivity]).
  rewrite Hused in Hw, Hh.
  set (w := Qabs (cx + - sx)) in *. set (h := Qabs (cy + - sy)) in *.
  assert (Hhz : Qeq_bool h 0 = false).
  { destruct (Qeq_bool h 0) eqn:E; [|reflexivity]. apply Qeq_bool_iff in E. lra. }
  assert (Hh' : ~ (h == 0)%Q) by lra.
  rewrite Hhz in Hw, Hh. rewrite (div_fin w h Hh') in *.
  set (best := snd (Interaction.bestResolution (Fin (w / h)) avail)) in *.
  pose proof (bestResolution_in (Fin (w / h)) _ Hne) as Hin. fold best in Hin.
  assert (Hbp : Resolution.positive best = true).
  { rewrite Forall_forall in Hpos. apply Hpos. exact Hin. }
  destruct (positive_inv best Hbp) as (q & Hq & Hq0 & _).
  assert (Hq' : ~ (q == 0)%Q) by lra.
  rewrite Hq in Hw, Hh. cbn [Num.gtb Num.ltb] in Hw, Hh.
  exists best, q.
  destruct (Num.Qltb q (w / h)).
  - exists (h * q / h)%Q. repeat (split; [assumption|]).
    rewrite Hw, Hh. cbn [Num.mul]. rewrite (div_fin _ _ Hh'). split; [reflexivity|].
    field. exact Hh'.
  - assert (Hwq : ~ (w / q == 0)%Q).
    { intro H0. assert (Hx : (w == (w / q) * q)%Q) by (field; exact Hq').
      rewrite H0 in Hx. lra. }
    exists (w / (w / q))%Q. repeat (split; [assumption|]).
    rewrite Hw, Hh. rewrite (div_fin _ _ Hq'), (div_fin _ _ Hwq). split; [reflexivity|].
    field. split; lra.
Qed.

Lemma find_exists {A : Type} (f : A -> bool) (l : list A) (a : A) :
  In a l -> f a = true -> exists b, find f l = Some b /\ In b l /\ f b = true.
Proof.
  intros Hin Ha. destruct (find f l) as [b|] eqn:E.
  - exists b. apply find_some in E. tauto.
  - rewrite (find_none _ _ E a Hin) in Ha. discriminate.
Qed.

(** X12.  While a selection is drawn with the select tool over a non-empty table
    of resolutions with positive ratios, after a move with raw width and raw
    height above zero getCurrentResolutionMatch finds an entry of the table
    for the selection, whose ratio is within 0.02 of the selection's w / h. *)
Theorem drawn_selection_has_a_match
    (p : Interaction.Props) (rect m start : Point.t) (s : Interaction.t) (st : Store.t) :
  Interaction.selectedTool p = select ->
  Interaction.availableResolutions p <> [] ->
  Forall (fun r => Resolution.positive r = true) (Interaction.availableResolutions p) ->
  Interaction.isDraggingRef s = true ->
  Interaction.dragStartRef s = Some start ->
  Interaction.isMiddlePanning s = false ->
  Interaction.isDraggingSelectionRef s = false ->
  Point.finite start = true ->
  Point.finite (Viewport.toWorld s rect m) = true ->
  (Fin 0 <? Num.abs (Point.x (Viewport.toWorld s rect m) -' Point.x start)) = true ->
  (Fin 0 <? Num.abs (Point.y (Viewport.toWorld s rect m) -' Point.y start)) = true ->
  let s' := fst (Interaction.handleMove p (Some rect) (Point.x m) (Point.y m) s st) in
  exists sel found,
    Interaction.selection s' = Some sel /\
    CanvasUtils.getCurrentResolutionMatch (Interaction.selection s')
      (Interaction.availableResolutions p) = Some found /\
    In found (Interaction.availableResolutions p) /\
    (Num.abs (Resolution.ratio found -' Rect.w sel /' Rect.h sel) <? Fin (2 # 100)) = true.
Proof.
  intros Htool Hne Hpos Hdrag Hstart Hpan Hnosel Hfs Hfc HrawW HrawH s'. subst s'.
  rewrite (handleMove_select p rect m s st start Htool Hdrag Hstart Hpan Hnosel).
  cbn [fst Interaction.selection Interaction.setSelection].
  destruct (finite_point_inv _ Hfs) as (sx & sy & ->).
  destruct (finite_point_inv _ Hfc) as (cx & cy & Hcur).
  rewrite Hcur in *. cbn [Point.x Point.y] in *.
  change (Fin cx -' Fin sx) with (Fin (cx + - sx)) in HrawW.
  change (Fin cy -' Fin sy) with (Fin (cy + - sy)) in HrawH.
  cbn [Num.abs Num.ltb] in HrawW, HrawH. apply Qltb_lt in HrawW. apply Qltb_lt in HrawH.
  destruct (snap_on_ratio (Interaction.availableResolutions p) cx cy sx sy Hne Hpos HrawW HrawH)
    as (best & q & v & Hin & Hq & Hq0 & Hv & Hvq).
  cbv zeta in Hv.
  set (sel := Interaction.snapSelection (Interaction.availableResolutions p)
                (Fin cx) (Fin cy) (Fin sx) (Fin sy)) in *.
  unfold CanvasUtils.getCurrentResolutionMatch.
  destruct (find_exists
              (fun r => Num.abs (Resolution.ratio r -' Rect.w sel /' Rect.h sel) <? Fin (2 # 100))
              (Interaction.availableResolutions p) best Hin) as (found & Hfind & Hfin & Hclose).
  { rewrite Hq, Hv. cbn [Num.sub Num.neg Num.add Num.abs Num.ltb]. apply Qltb_lt.
    setoid_replace (q + - v)%Q with 0%Q by lra. reflexivity. }
  exists sel, found. auto.
Qed.

Transparent Num.MAX_Q.

Lemma drawn_selection_witness :
  let table := [Sample.square; Sample.wide] in
  let p := Sample.tool select table in
  let s := Sample.drawing table in
  let s' := fst (Interaction.handleMove p (Some Sample.origin) (Fin 300) (Fin 150) s
                   Sample.emptyStore) in
  Forall (fun r => Resolution.positive r = true) table /\
  exists sel found,
    Interaction.selection s' = Some sel /\
    CanvasUtils.getCurrentResolutionMatch (Interaction.selection s') table = Some found /\
    In found table.
Proof.
  intros table p s s'.
  assert (Hpos : Forall (fun r => Resolution.positive r = true) table)
    by (repeat constructor).
  split; [exact Hpos|].
  destruct (drawn_selection_has_a_match p Sample.origin (Point.mk (Fin 300) (Fin 150))
              (Viewport.toWorld Sample.idle Sample.origin Sample.origin) s Sample.emptyStore)
    as (sel & found & Hsel & Hfound & Hin & _);
    try reflexivity; try exact Hpos; [discriminate|].
  exists sel, found. auto.
Defined.

(** ** Cover fit *)

Lemma max_fin (a b : Q) :
  exists m, Num.max (Fin a) (Fin b) = Fin m /\ (a <= m)%Q /\ (b <= m)%Q /\ (m = a \/ m = b).
Proof.
  cbn [Num.max Num.ltb]. destruct (Num.Qltb a b) eqn:E.
  - apply Qltb_lt in E. exists b. repeat split; auto; lra.
  - apply Qltb_ge in E. exists a. repeat split; auto; lra.
Qed.

(** X13.  For a target and an image of positive sizes, the rectangle that
    cropImageToRatio draws the image into covers the whole target canvas (it
    starts at or before 0 and ends at or after the target size on both
    axes), is centred on it, keeps the aspect ratio of the image, and fits
    the target exactly in width or in height. *)
Theorem crop_covers_the_target (tw th iw ih : Q) :
  (0 < tw)%Q -> (0 < th)%Q -> (0 < iw)%Q -> (0 < ih)%Q ->
  exists x y w h,
    StudioUtils.cropImageToRatio_drawImage (Fin tw) (Fin th) (Fin iw) (Fin ih)
    = Rect.mk (Fin x) (Fin y) (Fin w) (Fin h) /\
    (x <= 0)%Q /\ (y <= 0)%Q /\ (tw <= x + w)%Q /\ (th <= y + h)%Q /\
    (x + (x + w) == tw)%Q /\ (y + (y + h) == th)%Q /\
    (w * ih == h * iw)%Q /\
    ((w == tw)%Q \/ (h == th)%Q).
Proof.
  intros Htw Hth Hiw Hih. unfold StudioUtils.cropImageToRatio_drawImage.
  assert (Hiw' : ~ (iw == 0)%Q) by lra. assert (Hih' : ~ (ih == 0)%Q) by lra.
  assert (H2 : ~ (2 == 0)%Q) by lra.
  rewrite (div_fin _ _ Hiw'), (div_fin _ _ Hih').
  destruct (max_fin (tw / iw) (th / ih)) as (k & -> & Hk1 & Hk2 & Hk).
  unfold Num.sub. cbn [Num.mul Num.neg Num.add]. rewrite !(div_fin _ _ H2).
  eexists _, _, _, _. split; [reflexivity|].
  assert (Hw : (tw <= iw * k)%Q).
  { setoid_replace tw with (iw * (tw / iw))%Q by (field; exact Hiw').
    apply Qmult_le_l; assumption. }
  assert (Hh : (th <= ih * k)%Q).
  { setoid_replace th with (ih * (th / ih))%Q by (field; exact Hih').
    apply Qmult_le_l; assumption. }
  remember (iw * k)%Q as w eqn:Ew. remember (ih * k)%Q as h eqn:Eh.
  assert (Ex : ((tw + - w) / 2 == (tw - w) * (1 # 2))%Q) by field.
  assert (Ey : ((th + - h) / 2 == (th - h) * (1 # 2))%Q) by field.
  rewrite Ex, Ey.
  split; [lra|]. split; [lra|]. split; [lra|]. split; [lra|].
  split; [lra|]. split; [lra|]. split.
  - subst w h. ring.
  - destruct Hk as [-> | ->]; [left|right]; subst; field; assumption.
Qed.

(** ** Compositing layers *)

Lemma isImageLayer_filter (layers : list Layer.t) :
  Forall (fun l => StudioUtils.isImageLayer l = true -> Bounds.measurable l = true) layers ->
  Forall (fun l => Bounds.measurable l = true) (filter StudioUtils.isImageLayer layers).
Proof.
  intro H. rewrite Forall_forall in *. intros l Hin. apply filter_In in Hin.
  destruct Hin as [Hin Hi]. apply H; assumption.
Qed.

(** The size of a canvas: whole, not negative, and the number given without
    its fraction as long as that is below 2^31. *)
Lemma dimension_whole (default : Z) (v : num) :
  (0 <= default)%Z ->
  exists n, StudioUtils.dimension default v = Fin (inject_Z n) /\ (0 <= n)%Z.
Proof.
  intro Hd. destruct v as [q| | |]; try (exists 0%Z; split; [reflexivity|lia]).
  unfold StudioUtils.dimension.
  set (n := (Z.quot (Qnum q) (Z.pos (Qden q)) mod 2 ^ 32)%Z).
  assert (Hn : (0 <= n < 2 ^ 32)%Z) by (apply Z.mod_pos_bound; reflexivity).
  destruct (n <=? 2147483647)%Z; eexists; (split; [reflexivity|lia]).
Qed.

Lemma dimension_floor (default : Z) (q : Q) :
  (0 <= q)%Q -> (q < 2147483648)%Q ->
  StudioUtils.dimension default (Fin q) = Fin (inject_Z (Qfloor q)) /\
  (inject_Z (Qfloor q) <= q)%Q /\ (q < inject_Z (Qfloor q) + 1)%Q.
Proof.
  intros H0 H1.
  assert (Hf0 : (0 <= Qfloor q)%Z).
  { change 0%Z with (Qfloor 0). apply Qfloor_resp_le. exact H0. }
  assert (Hf1 : (Qfloor q < 2147483648)%Z).
  { destruct (Z_lt_le_dec (Qfloor q) 2147483648) as [H|H]; [exact H|]. exfalso.
    assert (H2 : (2147483648 <= inject_Z (Qfloor q))%Q).
    { change 2147483648%Q with (inject_Z 2147483648). rewrite <- Zle_Qle. exact H. }
    pose proof (Qfloor_le q). lra. }
  split; [|split; [apply Qfloor_le|]].
  - unfold StudioUtils.dimension.
    assert (Hq : Z.quot (Qnum q) (Z.pos (Qden q)) = Qfloor q).
    { destruct q as [n d]. cbn [Qnum Qden Qfloor]. apply Z.quot_div_nonneg; [|lia].
      unfold Qle in H0. cbn in H0. lia. }
    rewrite Hq, Z.mod_small by lia.
    assert (Hle : (Qfloor q <=? 2147483647)%Z = true) by (apply Z.leb_le; lia).
    rewrite Hle. reflexivity.
  - pose proof (Qlt_floor q) as H. rewrite inject_Z_plus in H. exact H.
Qed.

(** X14.  When compositeLayers draws on a canvas and the visible non-video layers
    have finite positions and finite sizes that are not negative, the canvas
    has a whole width and height that are not negative: for a bounding box
    of those layers narrower and lower than 2^31 they are the width and the
    height of the box with the fraction cut off, since canvas.width and
    canvas.height hold whole numbers. The layers whose images load are drawn
    from the last of the list to the first, each at its own size and inside
    the bounding box laid at the corner of the canvas; so a layer can pass
    the right or the bottom edge of the canvas by less than one pixel, and
    none does when the box has a whole width and height. *)
Theorem composite_draws_inside_canvas
    (ctx : bool) (loads : Layer.t -> bool) (layers : list Layer.t)
    (width height : num) (drawn : list (Layer.t * Rect.t)) :
  Forall (fun l => StudioUtils.isImageLayer l = true -> Bounds.measurable l = true) layers ->
  StudioUtils.compositeLayers ctx loads layers = StudioUtils.Canvas width height drawn ->
  exists a b c d W H,
    Bounds.ofAll (filter StudioUtils.isImageLayer layers)
    = Bounds.mk (Fin a) (Fin b) (Fin c) (Fin d) /\
    width = Fin (inject_Z W) /\ height = Fin (inject_Z H) /\
    (0 <= W)%Z /\ (0 <= H)%Z /\
    (0 <= c - a)%Q /\ (0 <= d - b)%Q /\
    ((c - a < 2147483648)%Q -> (inject_Z W <= c - a)%Q /\ (c - a < inject_Z W + 1)%Q) /\
    ((d - b < 2147483648)%Q -> (inject_Z H <= d - b)%Q /\ (d - b < inject_Z H + 1)%Q) /\
    Exists (fun l => Layer.x l = Fin a) (filter StudioUtils.isImageLayer layers) /\
    Exists (fun l => Layer.x l +' Layer.width l = Fin c)
      (filter StudioUtils.isImageLayer layers) /\
    map fst drawn = filter loads (rev (filter StudioUtils.isImageLayer layers)) /\
    Forall (fun item =>
              exists lx ly w h,
                Layer.x (fst item) = Fin lx /\ Layer.y (fst item) = Fin ly /\
                Layer.width (fst item) = Fin w /\ Layer.height (fst item) = Fin h /\
                snd item = Rect.mk (Fin (lx + - a)) (Fin (ly + - b)) (Fin w) (Fin h) /\
                (0 <= lx + - a)%Q /\ (0 <= ly + - b)%Q /\
                (lx + - a + w <= c - a)%Q /\ (ly + - b + h <= d - b)%Q /\
                ((c - a < 2147483648)%Q -> (lx + - a + w < inject_Z W + 1)%Q) /\
                ((d - b < 2147483648)%Q -> (ly + - b + h < inject_Z H + 1)%Q))
           drawn.
Proof.
  intros Hm Hc. unfold StudioUtils.compositeLayers in Hc.
  destruct layers as [|first rest]; [discriminate|].
  assert (Hmain :
    match filter StudioUtils.isImageLayer (first :: rest) with
    | [] => StudioUtils.Null
    | _ :: _ =>
        let b := Bounds.ofAll (filter StudioUtils.isImageLayer (first :: rest)) in
        if negb ctx then StudioUtils.Null
        else StudioUtils.Canvas
               (StudioUtils.dimension 300 (Bounds.maxX b -' Bounds.minX b))
               (StudioUtils.dimension 150 (Bounds.maxY b -' Bounds.minY b))
               (map (fun layer =>
                       (layer,
                        Rect.mk (Layer.x layer -' Bounds.minX b) (Layer.y layer -' Bounds.minY b)
                          (Layer.width layer) (Layer.height layer)))
                    (filter loads (rev (filter StudioUtils.isImageLayer (first :: rest)))))
    end = StudioUtils.Canvas width height drawn).
  { destruct rest as [|r rs]; [|exact Hc].
    destruct (orNull (Layer.src first)); [discriminate|exact Hc]. }
  clear Hc. pose proof (isImageLayer_filter _ Hm) as Hmf.
  destruct (filter StudioUtils.isImageLayer (first :: rest)) as [|v vs] eqn:Hf; [discriminate|].
  destruct (ofAll_fin v vs Hmf) as (a & b & c & d & Hb & Hall & Ea & _ & Ec & _).
  cbv zeta in Hmain. rewrite Hb in Hmain.
  cbn [Bounds.minX Bounds.minY Bounds.maxX Bounds.maxY] in Hmain.
  destruct (negb ctx); [discriminate|]. injection Hmain as Hw Hh Hd.
  change (Fin c -' Fin a) with (Fin (c + - a)) in Hw.
  change (Fin d -' Fin b) with (Fin (d + - b)) in Hh.
  assert (Hac : (a <= c)%Q /\ (b <= d)%Q).
  { inversion Hall as [|? ? (x & y & w & h & _ & _ & _ & _ & Hw0 & Hh0 & H1 & H2 & H3 & H4) _].
    split; lra. }
  destruct Hac as [Hac Hbd].
  destruct (dimension_whole 300 (Fin (c + - a))) as (W & HW & HW0); [lia|].
  destruct (dimension_whole 150 (Fin (d + - b))) as (H & HH & HH0); [lia|].
  assert (HWf : (c - a < 2147483648)%Q ->
                (inject_Z W <= c - a)%Q /\ (c - a < inject_Z W + 1)%Q).
  { intro Hlt. destruct (dimension_floor 300 (c + - a)) as (E & F1 & F2); [lra|lra|].
    rewrite E in HW. assert (Hq : inject_Z (Qfloor (c + - a)) = inject_Z W) by congruence.
    rewrite <- Hq. set (f := inject_Z (Qfloor (c + - a))) in *. clearbody f. split; lra. }
  assert (HHf : (d - b < 2147483648)%Q ->
                (inject_Z H <= d - b)%Q /\ (d - b < inject_Z H + 1)%Q).
  { intro Hlt. destruct (dimension_floor 150 (d + - b)) as (E & F1 & F2); [lra|lra|].
    rewrite E in HH. assert (Hq : inject_Z (Qfloor (d + - b)) = inject_Z H) by congruence.
    rewrite <- Hq. set (f := inject_Z (Qfloor (d + - b))) in *. clearbody f. split; lra. }
  exists a, b, c, d, W, H. split; [exact Hb|].
  split; [rewrite <- Hw; exact HW|]. split; [rewrite <- Hh; exact HH|].
  split; [exact HW0|]. split; [exact HH0|].
  split; [lra|]. split; [lra|]. split; [exact HWf|]. split; [exact HHf|].
  split; [exact Ea|]. split; [exact Ec|].
  subst drawn. split.
  { rewrite map_map. cbn [fst]. apply map_id. }
  apply Forall_forall. intros item Hin. apply in_map_iff in Hin.
  destruct Hin as (l & <- & Hin). apply filter_In in Hin. destruct Hin as [Hin _].
  change (rev vs ++ [v])%list with (rev (v :: vs)) in Hin.
  apply in_rev in Hin. rewrite Forall_forall in Hall.
  destruct (Hall l Hin) as (x & y & w & h & Hx & Hy & Hlw & Hlh & Hw0 & Hh0 & H1 & H2 & H3 & H4).
  cbn [fst snd]. rewrite Hx, Hy, Hlw, Hlh.
  exists x, y, w, h. repeat (split; [reflexivity|]).
  split; [lra|]. split; [lra|]. split; [lra|]. split; [lra|]. split.
  - intro Hlt. destruct (HWf Hlt). set (f := inject_Z W) in *. clearbody f. lra.
  - intro Hlt. destruct (HHf Hlt). set (f := inject_Z H) in *. clearbody f. lra.
Qed.

Lemma crop_witness :
  exists x y w h,
    StudioUtils.cropImageToRatio_drawImage (Fin 1920) (Fin 1080) (Fin 1000) (Fin 1000)
    = Rect.mk (Fin x) (Fin y) (Fin w) (Fin h) /\
    (x <= 0)%Q /\ (y <= 0)%Q /\ (1920 <= x + w)%Q /\ (1080 <= y + h)%Q /\
    (w * 1000 == h * 1000)%Q.
Proof.
  destruct (crop_covers_the_target 1920 1080 1000 1000)
    as (x & y & w & h & Hr & Hx & Hy & Hw & Hh & _ & _ & Hratio & _); try reflexivity.
  exists x, y, w, h. auto 10.
Defined.

(** Three layers whose bounding box has a whole size, and one layer of
    100.5 x 100.75, which is drawn on a canvas of 100 x 100. *)
Lemma composite_witness :
  let layers := Store.layers Scenario.threeLayers in
  let odd := [Sample.layerAt "a" 0 0 (201 # 2) (403 # 4); Sample.layerAt "b" 0 0 10 10] in
  Forall (fun l => StudioUtils.isImageLayer l = true -> Bounds.measurable l = true) layers /\
  (exists width height drawn W,
     StudioUtils.compositeLayers true (fun _ => true) layers
     = StudioUtils.Canvas width height drawn /\
     map fst drawn = rev layers /\
     width = Fin (inject_Z W) /\ (0 <= W)%Z) /\
  exists drawn,
    StudioUtils.compositeLayers true (fun _ => true) odd
    = StudioUtils.Canvas (Fin 100) (Fin 100) drawn.
Proof.
  intros layers odd.
  assert (Hm : Forall (fun l => StudioUtils.isImageLayer l = true ->
                                Bounds.measurable l = true) layers).
  { repeat constructor. }
  split; [exact Hm|]. split.
  - eexists _, _, _.
    destruct (composite_draws_inside_canvas true (fun _ => true) layers _ _ _ Hm eq_refl)
      as (a & b & c & d & W & H & _ & Hw & _ & HW0 & _ & _ & _ & _ & _ & _ & _ & Hmap & _).
    exists W. split; [reflexivity|]. split; [exact Hmap|]. split; [exact Hw|exact HW0].
  - eexists. vm_compute. reflexivity.
Defined.


(** ** Uploading an image *)

(** X15.  An uploaded image becomes a new first layer, visible and unlocked,
    selected alone, with the redo stack emptied; its initial position and
    size are its current ones, and for a finite offset and a finite zoom
    other than zero its centre shows on screen half the width and half the
    height of the window away from the top-left corner of the canvas
    element: at the centre of the window only when the canvas element starts
    at the corner of the window (in CanvasMode it starts below the top bar). *)
Theorem uploaded_image_is_centred
    (iw ih w h z ox oy rx ry : Q) (s : Interaction.t) (now : Z) (name src : string)
    (st : Store.t) :
  Interaction.zoom s = Fin z -> ~ (z == 0)%Q ->
  Interaction.canvasOffset s = Point.mk (Fin ox) (Fin oy) ->
  let rect := Point.mk (Fin rx) (Fin ry) in
  let st' := Upload.handleImageUpload (Fin iw) (Fin ih) s now name src (Fin w) (Fin h) st in
  exists l x y px py,
    Store.layers st' = l :: Store.layers st /\
    Store.selectedLayerIds st' = [Layer.id l] /\
    Store.redoStack st' = [] /\
    LayerDrag.pristine l /\
    Layer.visible l = true /\ Layer.locked l = false /\ Layer.src l = Some src /\
    Layer.x l = Fin x /\ Layer.y l = Fin y /\
    Layer.width l = Fin w /\ Layer.height l = Fin h /\
    Viewport.toClient s rect (Point.mk (Fin (x + w / 2)) (Fin (y + h / 2)))
    = Point.mk (Fin px) (Fin py) /\
    (px == rx + iw / 2)%Q /\ (py == ry + ih / 2)%Q.
Proof.
  intros Hz Hz0 Ho rect st'. subst st' rect.
  unfold Upload.handleImageUpload, Upload.newLayer, Viewport.toClient.
  rewrite Hz, Ho. cbn [Point.x Point.y].
  assert (H2 : ~ (2 == 0)%Q) by lra.
  unfold Num.sub. rewrite !(div_fin _ _ H2). cbn [Num.neg Num.add].
  rewrite !(div_fin _ _ Hz0). cbn [Num.neg Num.add Num.mul].
  eexists _, _, _, _, _.
  cbn [Store.layers Store.setLayers Store.setSelectedLayerIds Store.setRedoStack
       Store.selectedLayerIds Store.redoStack].
  split; [reflexivity|]. split; [reflexivity|]. split; [reflexivity|].
  split; [repeat split|].
  cbn [Layer.visible Layer.locked Layer.src Layer.x Layer.y Layer.width Layer.height].
  repeat (split; [reflexivity|]). split; field; exact Hz0.
Qed.

(** A 640 x 480 image uploaded in a window of 1000 x 800 whose canvas
    starts 56 pixels below the top of the window. *)
Lemma upload_witness :
  let rect := Point.mk (Fin 0) (Fin 56) in
  let st' := Upload.handleImageUpload (Fin 1000) (Fin 800) Sample.idle 1700000000000
               "photo.png" Sample.frame (Fin 640) (Fin 480) Scenario.threeLayers in
  exists l x y px py,
    Store.layers st' = l :: Store.layers Scenario.threeLayers /\
    LayerDrag.pristine l /\
    Layer.x l = Fin x /\ Layer.y l = Fin y /\
    Viewport.toClient Sample.idle rect (Point.mk (Fin (x + 640 / 2)) (Fin (y + 480 / 2)))
    = Point.mk (Fin px) (Fin py) /\
    (px == 500)%Q /\ (py == 456)%Q.
Proof.
  intros rect st'.
  destruct (uploaded_image_is_centred 1000 800 640 480 1 0 0 0 56 Sample.idle 1700000000000
              "photo.png" Sample.frame Scenario.threeLayers eq_refl)
    as (l & x & y & px & py & Hl & _ & _ & Hp & _ & _ & _ & Hx & Hy & _ & _ & Hc & Hcx & Hcy);
    [discriminate|reflexivity|].
  exists l, x, y, px, py. repeat (split; [assumption|]).
  split; [rewrite Hcx; reflexivity|rewrite Hcy; reflexivity].
Defined.

(** ** Credits *)

Lemma deduct_cases cost doc :
  (0 <= cost)%Z ->
  let c := Server.balance doc in
  (exists e, Server.deductCredits cost doc = (doc, inl e) /\
             (doc = None \/ (c < cost)%Z)) \/
  (exists field, doc = Some field /\ (cost <= c)%Z /\
     Server.deductCredits cost doc = (Some (Some (c - cost)%Z), inr (c - cost)%Z)).
Proof.
  intros Hcost c. subst c. unfold Server.deductCredits, Server.balance.
  destruct doc as [field|]; [|left; eauto].
  unfold Functions.deductCredits.
  destruct (Z.ltb (Server.creditsOf field) cost) eqn:E.
  - left. apply Z.ltb_lt in E. eauto.
  - right. apply Z.ltb_ge in E. exists field. auto.
Qed.

Lemma ensured_exists email doc :
  exists field, fst (Server.ensureUserDoc email doc) = Some field /\
                Server.creditsOf field = snd (Server.ensureUserDoc email doc).
Proof.
  destruct doc as [field|]; cbn; eauto.
Qed.

Lemma settle_balance w remaining (c : Z) t :
  let r := Server.settle w remaining (Some (Some (c - Server.VIDEO_COST)%Z)) t in
  match snd r with
  | inr res =>
      Server.balance (fst r) = (c - Server.VIDEO_COST)%Z /\
      Server.remainingCredits res = remaining
  | inl _ =>
      Server.balance (fst r)
      = match t with
        | Server.ThrewHttps false _ => (c - Server.VIDEO_COST)%Z
        | _ => c
        end
  end.
Proof.
  destruct t as [url|[|] e|e]; cbn; try split; try reflexivity; unfold Server.VIDEO_COST; lia.
Qed.

Lemma settle_https w remaining doc t :
  match snd (Server.settle w remaining doc t) with
  | inl Server.TypeError => False
  | _ => True
  end.
Proof. destruct t as [url|refunded e|e]; exact I. Qed.

Lemma runJob_refunds w uid job :
  match Server.runJob w uid job with
  | Server.ThrewHttps false _ => False
  | _ => True
  end.
Proof.
  unfold Server.runJob.
  destruct (Server.submit job); try exact I.
  destruct (Server.polling _ _ _); try exact I.
  destruct (Server.result job) as [| |url]; try exact I.
  destruct (orNull url); try exact I.
  destruct (Server.download job); try exact I.
  destruct (Server.store job); exact I.
Qed.

(** X16.  generateImage and generateVideo turn away a caller who is not signed in
    without touching the user document. For a signed-in caller, with the
    reads and writes of the user document taken to succeed, there are three
    outcomes. When they return a result the balance is the one after
    ensureUserDoc minus the cost (1 for an image, 10 for a video), which is
    also the remainingCredits returned. When they throw an HttpsError,
    before or after the charge, the balance is the one after ensureUserDoc.
    When request.data is null or undefined and the balance covers the cost,
    the destructuring of request.data, which stands after the charge and
    outside try, throws a TypeError and the cost stays deducted. *)
Theorem failed_generation_is_refunded :
  (forall (D : Type) (data : option D) (api : Server.Awaited (option (list Server.Candidate)))
          (job : Server.Job) (doc : Server.UserDoc),
     Server.generateImage None data api doc
     = (doc, inl (Server.Https
                    (Server.HttpsError "unauthenticated" "Você precisa estar logado."))) /\
     Server.generateVideo None data job doc
     = (doc, inl (Server.Https
                    (Server.HttpsError "unauthenticated" "Você precisa estar logado.")))) /\
  (forall (D : Type) (auth : Server.Auth) (data : option D)
          (api : Server.Awaited (option (list Server.Candidate))) (doc : Server.UserDoc),
     let r := Server.generateImage (Some auth) data api doc in
     let c := snd (Server.ensureUserDoc (Server.email auth) doc) in
     match snd r with
     | inr res =>
         data <> None /\ (1 <= c)%Z /\ Server.balance (fst r) = (c - 1)%Z /\
         Server.imageRemainingCredits res = (c - 1)%Z
     | inl (Server.Https _) => Server.balance (fst r) = c
     | inl Server.TypeError =>
         data = None /\ (1 <= c)%Z /\ Server.balance (fst r) = (c - 1)%Z
     end) /\
  (forall (D : Type) (auth : Server.Auth) (data : option D) (job : Server.Job)
          (doc : Server.UserDoc),
     let r := Server.generateVideo (Some auth) data job doc in
     let c := snd (Server.ensureUserDoc (Server.email auth) doc) in
     match snd r with
     | inr res =>
         data <> None /\ (10 <= c)%Z /\ Server.balance (fst r) = (c - 10)%Z /\
         Server.remainingCredits res = (c - 10)%Z
     | inl (Server.Https _) => Server.balance (fst r) = c
     | inl Server.TypeError =>
         data = None /\ (10 <= c)%Z /\ Server.balance (fst r) = (c - 10)%Z
     end) /\
  (forall (D : Type) (auth : Server.Auth)
          (api : Server.Awaited (option (list Server.Candidate))) (job : Server.Job)
          (doc : Server.UserDoc),
     let c := snd (Server.ensureUserDoc (Server.email auth) doc) in
     ((1 <= c)%Z ->
      snd (Server.generateImage (Some auth) (@None D) api doc) = inl Server.TypeError) /\
     ((10 <= c)%Z ->
      snd (Server.generateVideo (Some auth) (@None D) job doc) = inl Server.TypeError)).
Proof.
  split; [intros; split; reflexivity|]. split; [|split].
  - intros D auth data api doc r c. subst r c. unfold Server.generateImage.
    destruct (ensured_exists (Server.email auth) doc) as (field & Hdoc & Hc).
    rewrite Hdoc, <- Hc. cbv zeta.
    destruct (deduct_cases Server.IMAGE_COST (Some field)) as
      [(e & He & _) | (f & Hf & Hle & Hd)]; [unfold Server.IMAGE_COST; lia| |].
    + rewrite He. reflexivity.
    + rewrite Hd. cbn [Server.balance] in *. unfold Server.IMAGE_COST in *.
      destruct data as [d|]; [|cbn; auto].
      destruct api as [error|response].
      * cbn. lia.
      * destruct (match response with
                  | Some (Some parts :: _) => Server.firstImage parts
                  | _ => None
                  end); cbn; [|lia].
        split; [discriminate|auto].
  - intros D auth data job doc r c. subst r c. unfold Server.generateVideo.
    destruct (ensured_exists (Server.email auth) doc) as (field & Hdoc & Hc).
    rewrite Hdoc, <- Hc. cbv zeta.
    destruct (deduct_cases Server.VIDEO_COST (Some field)) as
      [(e & He & _) | (f & Hf & Hle & Hd)]; [unfold Server.VIDEO_COST; lia| |].
    + rewrite He. reflexivity.
    + rewrite Hd. cbn [Server.balance] in *.
      destruct data as [d|]; [|cbn; unfold Server.VIDEO_COST in *; auto].
      destruct (orNull (Server.FAL_API_KEY job)).
      * pose proof (settle_balance Server.single
                      (Server.creditsOf field - Server.VIDEO_COST)%Z (Server.creditsOf field)
                      (Server.runJob Server.single (Server.uid auth) job)) as Hs.
        pose proof (runJob_refunds Server.single (Server.uid auth) job) as Hr.
        pose proof (settle_https Server.single
                      (Server.creditsOf field - Server.VIDEO_COST)%Z
                      (Some (Some (Server.creditsOf field - Server.VIDEO_COST)%Z))
                      (Server.runJob Server.single (Server.uid auth) job)) as Ht.
        cbv zeta in Hs.
        destruct (Server.settle _ _ _ _) as [doc' [[e|]|res]]; cbn [fst snd] in *.
        -- rewrite Hs. destruct (Server.runJob _ _ _) as [|[|]|]; try reflexivity. contradiction.
        -- contradiction.
        -- unfold Server.VIDEO_COST in *. destruct Hs as [H1 H2].
           split; [discriminate|auto].
      * cbn. unfold Server.VIDEO_COST. lia.
  - intros D auth api job doc c. subst c.
    destruct (ensured_exists (Server.email auth) doc) as (field & Hdoc & Hc).
    rewrite <- Hc. split; intro Hle.
    + unfold Server.generateImage. rewrite Hdoc. cbv zeta.
      destruct (deduct_cases Server.IMAGE_COST (Some field)) as
        [(e & He & [Hn|Hlt]) | (f & Hf & _ & Hd)];
        [unfold Server.IMAGE_COST; lia|discriminate| |].
      * cbn [Server.balance] in Hlt. unfold Server.IMAGE_COST in Hlt. lia.
      * rewrite Hd. reflexivity.
    + unfold Server.generateVideo. rewrite Hdoc. cbv zeta.
      destruct (deduct_cases Server.VIDEO_COST (Some field)) as
        [(e & He & [Hn|Hlt]) | (f & Hf & _ & Hd)];
        [unfold Server.VIDEO_COST; lia|discriminate| |].
      * cbn [Server.balance] in Hlt. unfold Server.VIDEO_COST in Hlt. lia.
      * rewrite Hd. reflexivity.
Qed.

(** A caller with 25 credits whose request carries no data: the image
    function keeps 1 credit and the video function 10. *)
Lemma unrefunded_request_witness :
  let doc := Some (Some 25%Z) in
  let image := Server.generateImage (Some Backstage.caller) (@None unit)
                 (Server.Gave None) doc in
  let video := Server.generateVideo (Some Backstage.caller) (@None unit)
                 Backstage.smooth doc in
  (snd image = inl Server.TypeError /\ Server.balance (fst image) = 24%Z) /\
  (snd video = inl Server.TypeError /\ Server.balance (fst video) = 15%Z).
Proof.
  intros doc image video.
  destruct failed_generation_is_refunded as (_ & Himage & Hvideo & Hnull).
  destruct (Hnull unit Backstage.caller (Server.Gave None) Backstage.smooth doc)
    as [Hi Hv].
  assert (H1 : (1 <= 25)%Z) by lia. assert (H10 : (10 <= 25)%Z) by lia.
  specialize (Hi H1). specialize (Hv H10).
  pose proof (Himage unit Backstage.caller None (Server.Gave None) doc) as Pi.
  pose proof (Hvideo unit Backstage.caller None Backstage.smooth doc) as Pv.
  cbv zeta in Pi, Pv. fold image in Hi, Pi. fold video in Hv, Pv.
  rewrite Hi in Pi. rewrite Hv in Pv.
  split; (split; [assumption|]).
  - exact (proj2 (proj2 Pi)).
  - exact (proj2 (proj2 Pv)).
Defined.

(** X17.  With the reads and writes of the user document taken to succeed,
    generateVideoMultiShot charges 10 credits when it returns a video and
    keeps them in two more cases, both errors without a refund. When the
    balance covers the cost, the request has 2 to 6 scenes (objects with a
    prompt and a duration string), the API key is set and the total duration
    is above 15 or below 3, it throws invalid-argument from inside try,
    where the catch rethrows it as it is. When the balance covers the cost
    and request.data is null or undefined, the destructuring of request.data
    after the charge and outside try throws a TypeError. On every other
    error, an HttpsError, the balance is the one after ensureUserDoc. *)
Theorem multi_shot_charge
    (auth : Server.Auth) (data : option (option (list Shot.t))) (job : Server.Job)
    (doc : Server.UserDoc) :
  let r := Server.generateVideoMultiShot (Some auth) data job doc in
  let c := snd (Server.ensureUserDoc (Server.email auth) doc) in
  let scenes := match data with Some scenes => scenes | None => None end in
  let admitted :=
    match scenes with
    | Some l => (2 <=? List.length l)%nat && (List.length l <=? 6)%nat
    | None => false
    end in
  match snd r with
  | inr res =>
      data <> None /\
      (10 <= c)%Z /\ Server.balance (fst r) = (c - 10)%Z /\
      Server.remainingCredits res = (c - 10)%Z /\
      admitted = true /\ Server.durationRejected scenes = false
  | inl (Server.Https e) =>
      if (10 <=? c)%Z && admitted
         && match orNull (Server.FAL_API_KEY job) with Some _ => true | None => false end
         && Server.durationRejected scenes
      then Server.balance (fst r) = (c - 10)%Z /\
           JsError.code e = Some "functions/invalid-argument"
      else Server.balance (fst r) = c
  | inl Server.TypeError =>
      data = None /\ (10 <= c)%Z /\ Server.balance (fst r) = (c - 10)%Z
  end.
Proof.
  intros r c scenes admitted. subst r c admitted scenes.
  unfold Server.generateVideoMultiShot.
  destruct (ensured_exists (Server.email auth) doc) as (field & Hdoc & Hc).
  rewrite Hdoc, <- Hc. cbv zeta.
  destruct (deduct_cases Server.VIDEO_COST (Some field)) as
    [(e & He & [Hn|Hlt]) | (f & Hf & Hle & Hd)]; [unfold Server.VIDEO_COST; lia|discriminate| |].
  - rewrite He. cbn [fst snd Server.balance] in *. unfold Server.VIDEO_COST in Hlt.
    assert (E : (10 <=? Server.creditsOf field)%Z = false) by (apply Z.leb_gt; exact Hlt).
    rewrite E. reflexivity.
  - rewrite Hd. cbn [Server.balance] in *. unfold Server.VIDEO_COST in Hle.
    destruct data as [scenes|]; [|cbn; unfold Server.VIDEO_COST; auto].
    assert (E : (10 <=? Server.creditsOf field)%Z = true) by (apply Z.leb_le; exact Hle).
    rewrite E. cbn [andb].
    destruct scenes as [l|]; [|cbn; unfold Server.VIDEO_COST; lia].
    destruct (List.length l <? 2)%nat eqn:E2.
    { cbn [fst snd]. apply Nat.ltb_lt in E2.
      assert (E2' : (2 <=? List.length l)%nat = false) by (apply Nat.leb_gt; exact E2).
      rewrite E2'. cbn. unfold Server.VIDEO_COST. lia. }
    apply Nat.ltb_ge in E2.
    assert (E2' : (2 <=? List.length l)%nat = true) by (apply Nat.leb_le; exact E2).
    rewrite E2'. cbn [andb].
    destruct (6 <? List.length l)%nat eqn:E6.
    { cbn [fst snd]. apply Nat.ltb_lt in E6.
      assert (E6' : (List.length l <=? 6)%nat = false) by (apply Nat.leb_gt; exact E6).
      rewrite E6'. cbn. unfold Server.VIDEO_COST. lia. }
    apply Nat.ltb_ge in E6.
    assert (E6' : (List.length l <=? 6)%nat = true) by (apply Nat.leb_le; exact E6).
    rewrite E6'. cbn [andb].
    destruct (orNull (Server.FAL_API_KEY job)); [|cbn; unfold Server.VIDEO_COST; lia].
    cbn [andb]. unfold Server.durationRejected.
    pose proof (runJob_refunds Server.multi (Server.uid auth) job) as Hr.
    assert (Hrun :
      let r := Server.settle Server.multi (Server.creditsOf field - Server.VIDEO_COST)%Z
                 (Some (Some (Server.creditsOf field - Server.VIDEO_COST)%Z))
                 (Server.runJob Server.multi (Server.uid auth) job) in
      match snd r with
      | inr res =>
          Server.balance (fst r) = (Server.creditsOf field - 10)%Z /\
          Server.remainingCredits res = (Server.creditsOf field - 10)%Z
      | inl (Server.Https _) => Server.balance (fst r) = Server.creditsOf field
      | inl Server.TypeError => False
      end).
    { pose proof (settle_balance Server.multi
                    (Server.creditsOf field - Server.VIDEO_COST)%Z (Server.creditsOf field)
                    (Server.runJob Server.multi (Server.uid auth) job)) as Hs.
      pose proof (settle_https Server.multi
                    (Server.creditsOf field - Server.VIDEO_COST)%Z
                    (Some (Some (Server.creditsOf field - Server.VIDEO_COST)%Z))
                    (Server.runJob Server.multi (Server.uid auth) job)) as Ht.
      cbv zeta in Hs |- *.
      destruct (Server.settle _ _ _ _) as [doc' [[e|]|res]]; cbn [fst snd] in *.
      - rewrite Hs. destruct (Server.runJob _ _ _) as [|[|]|]; try reflexivity. contradiction.
      - exact Ht.
      - exact Hs. }
    cbv zeta in Hrun.
    destruct (Studio.totalDuration l) as [t|].
    + destruct (15 <? t)%Z eqn:E15.
      { cbn. split; [unfold Server.VIDEO_COST; lia|reflexivity]. }
      destruct (t <? 3)%Z eqn:E3.
      { cbn. split; [unfold Server.VIDEO_COST; lia|reflexivity]. }
      cbn [orb].
      destruct (Server.settle _ _ _ _) as [doc' [[e|]|res]]; cbn [fst snd] in *.
      * exact Hrun.
      * contradiction.
      * destruct Hrun as [H1 H2]. split; [discriminate|auto 10].
    + destruct (Server.settle _ _ _ _) as [doc' [[e|]|res]]; cbn [fst snd] in *.
      * exact Hrun.
      * contradiction.
      * destruct Hrun as [H1 H2]. split; [discriminate|auto 10].
Qed.

(** A caller with 25 credits: two shots of one second each are refused
    with the 10 credits kept, and so is a request without data; two shots
    of five seconds each give a video. *)
Lemma multi_shot_witness :
  let doc := Some (Some 25%Z) in
  let short := Server.generateVideoMultiShot (Some Backstage.caller)
                 (Some Backstage.tooShort) Backstage.smooth doc in
  let bare := Server.generateVideoMultiShot (Some Backstage.caller) None
                Backstage.smooth doc in
  let good := Server.generateVideoMultiShot (Some Backstage.caller)
                (Some Backstage.fine) Backstage.smooth doc in
  (exists e, snd short = inl (Server.Https e) /\ Server.balance (fst short) = 15%Z) /\
  (snd bare = inl Server.TypeError /\ Server.balance (fst bare) = 15%Z) /\
  (exists res, snd good = inr res /\ Server.balance (fst good) = 15%Z).
Proof.
  intros doc short bare good. split; [|split].
  - pose proof (multi_shot_charge Backstage.caller (Some Backstage.tooShort)
                  Backstage.smooth doc) as H.
    cbv zeta in H. fold short in H.
    destruct (snd short) as [[e|]|res] eqn:E; try discriminate E.
    exists e. split; [reflexivity|]. exact (proj1 H).
  - pose proof (multi_shot_charge Backstage.caller None Backstage.smooth doc) as H.
    cbv zeta in H. fold bare in H.
    destruct (snd bare) as [[e|]|res] eqn:E; try discriminate E.
    split; [reflexivity|]. exact (proj2 (proj2 H)).
  - pose proof (multi_shot_charge Backstage.caller (Some Backstage.fine)
                  Backstage.smooth doc) as H.
    cbv zeta in H. fold good in H.
    destruct (snd good) as [[e|]|res] eqn:E; try discriminate E.
    exists res. split; [reflexivity|]. exact (proj1 (proj2 (proj2 H))).
Defined.

(** ** The project history *)

Lemma ph_findIndex_Some pid l i :
  ProjectHistory.findIndex pid l = Some i ->
  exists p, nth_error l i = Some p /\ ProjectHistory.id p = pid /\ In pid (map ProjectHistory.id l).
Proof.
  revert i. induction l as [|a l IH]; intros i H; [discriminate|].
  cbn [ProjectHistory.findIndex] in H. destruct (String.eqb (ProjectHistory.id a) pid) eqn:E.
  - injection H as <-. apply String.eqb_eq in E. exists a. cbn. auto.
  - destruct (ProjectHistory.findIndex pid l) as [j|]; [|discriminate]. injection H as <-.
    destruct (IH j eq_refl) as (p & Hn & Hp & Hin). exists p. cbn. auto.
Qed.

Lemma ph_findIndex_None pid l :
  ProjectHistory.findIndex pid l = None -> ~ In pid (map ProjectHistory.id l).
Proof.
  induction l as [|a l IH]; intro H; [intros []|].
  cbn [ProjectHistory.findIndex] in H. destruct (String.eqb (ProjectHistory.id a) pid) eqn:E; [discriminate|].
  destruct (ProjectHistory.findIndex pid l); [discriminate|].
  intros [Ha|Hin]; [|exact (IH eq_refl Hin)].
  apply String.eqb_neq in E. contradiction.
Qed.

Lemma ph_assign_ids i e p l :
  nth_error l i = Some p -> ProjectHistory.id e = ProjectHistory.id p ->
  map ProjectHistory.id (ProjectHistory.assign i e l) = map ProjectHistory.id l /\
  List.length (ProjectHistory.assign i e l) = List.length l.
Proof.
  revert i. induction l as [|a l IH]; intros i Hn He; [destruct i; discriminate|].
  destruct i as [|i]; cbn in *.
  - injection Hn as ->. rewrite He. auto.
  - destruct (IH i Hn He) as [H1 H2]. rewrite H1, H2. auto.
Qed.

Lemma evict_small fuel h st :
  (List.length h <= ProjectHistory.MAX_PROJECTS)%nat -> ProjectHistory.evict fuel h st = (h, st).
Proof.
  intro Hlen. destruct fuel; [reflexivity|]. cbn [ProjectHistory.evict].
  assert (E : (ProjectHistory.MAX_PROJECTS <? List.length h)%nat = false) by (apply Nat.ltb_ge; exact Hlen).
  rewrite E. reflexivity.
Qed.

Lemma evict_one h x st :
  List.length (h ++ [x]) = S ProjectHistory.MAX_PROJECTS ->
  ProjectHistory.evict (List.length (h ++ [x])) (h ++ [x]) st
  = (h, ProjectHistory.deleteProjectLayers (ProjectHistory.id x) st).
Proof.
  intro Hlen. rewrite Hlen. cbn [ProjectHistory.evict]. rewrite Hlen.
  assert (E : (ProjectHistory.MAX_PROJECTS <? S ProjectHistory.MAX_PROJECTS)%nat = true) by reflexivity.
  rewrite E. rewrite rev_app_distr. cbn [rev app]. rewrite removelast_last.
  apply evict_small. rewrite length_app in Hlen. cbn in Hlen. lia.
Qed.

(** The keys: two keys of one family are equal when the ids are, keys of
    different families differ, and the key of the history list is the
    layer key of the id [history]. *)
Lemma key_pp a b :
  String.eqb (ProjectHistory.PROJECT_KEY_PREFIX ++ a) (ProjectHistory.PROJECT_KEY_PREFIX ++ b)
  = String.eqb a b.
Proof. reflexivity. Qed.

Lemma key_ss a b :
  String.eqb (ProjectHistory.STUDIO_KEY_PREFIX ++ a) (ProjectHistory.STUDIO_KEY_PREFIX ++ b)
  = String.eqb a b.
Proof. reflexivity. Qed.

Lemma key_ps a b :
  String.eqb (ProjectHistory.PROJECT_KEY_PREFIX ++ a) (ProjectHistory.STUDIO_KEY_PREFIX ++ b)
  = false.
Proof. reflexivity. Qed.

Lemma key_sp a b :
  String.eqb (ProjectHistory.STUDIO_KEY_PREFIX ++ a) (ProjectHistory.PROJECT_KEY_PREFIX ++ b)
  = false.
Proof. reflexivity. Qed.

Lemma key_hp a :
  String.eqb ProjectHistory.HISTORY_KEY (ProjectHistory.PROJECT_KEY_PREFIX ++ a)
  = String.eqb "history" a.
Proof. reflexivity. Qed.

Lemma key_ph a :
  String.eqb (ProjectHistory.PROJECT_KEY_PREFIX ++ a) ProjectHistory.HISTORY_KEY
  = String.eqb a "history".
Proof. reflexivity. Qed.

Lemma key_hs a :
  String.eqb ProjectHistory.HISTORY_KEY (ProjectHistory.STUDIO_KEY_PREFIX ++ a) = false.
Proof. reflexivity. Qed.

Lemma key_sh a :
  String.eqb (ProjectHistory.STUDIO_KEY_PREFIX ++ a) ProjectHistory.HISTORY_KEY = false.
Proof. reflexivity. Qed.

Lemma history_key_is_a_layer_key :
  ProjectHistory.HISTORY_KEY = (ProjectHistory.PROJECT_KEY_PREFIX ++ "history")%string.
Proof. reflexivity. Qed.

Lemma eqb_history_l k : k <> "history" -> String.eqb "history" k = false.
Proof. intro H. apply String.eqb_neq. congruence. Qed.

Lemma eqb_history_r k : k <> "history" -> String.eqb k "history" = false.
Proof. intro H. apply String.eqb_neq. exact H. Qed.

Ltac store_unfold :=
  unfold ProjectHistory.history, ProjectHistory.projectLayers, ProjectHistory.studioData,
    ProjectHistory.getHistoryList, ProjectHistory.getProjectLayers,
    ProjectHistory.getStudioData, ProjectHistory.saveHistoryList,
    ProjectHistory.saveProjectLayers, ProjectHistory.deleteProjectLayers,
    ProjectHistory.saveStudioData, ProjectHistory.removeStudioData,
    ProjectHistory.setItem, ProjectHistory.removeItem in *.

Ltac store_keys :=
  rewrite ?key_pp, ?key_ss, ?key_ps, ?key_sp, ?key_hp, ?key_ph, ?key_hs, ?key_sh,
    ?String.eqb_refl in *.

(** What the getters find after each write. *)
Lemma get_history_saveHistoryList h st :
  ProjectHistory.getHistoryList (ProjectHistory.saveHistoryList h st) = ProjectHistory.Parsed h.
Proof. store_unfold. rewrite String.eqb_refl. reflexivity. Qed.

Lemma get_history_saveProjectLayers pid l st :
  pid <> "history" ->
  ProjectHistory.getHistoryList (ProjectHistory.saveProjectLayers pid l st)
  = ProjectHistory.getHistoryList st.
Proof. intro H. store_unfold. store_keys. rewrite (eqb_history_l _ H). reflexivity. Qed.

Lemma get_history_deleteProjectLayers pid st :
  pid <> "history" ->
  ProjectHistory.getHistoryList (ProjectHistory.deleteProjectLayers pid st)
  = ProjectHistory.getHistoryList st.
Proof. intro H. store_unfold. store_keys. rewrite (eqb_history_l _ H). reflexivity. Qed.

Lemma get_history_saveStudioData pid l st :
  ProjectHistory.getHistoryList (ProjectHistory.saveStudioData pid l st)
  = ProjectHistory.getHistoryList st.
Proof. store_unfold. store_keys. reflexivity. Qed.

Lemma get_history_removeStudioData pid st :
  ProjectHistory.getHistoryList (ProjectHistory.removeStudioData pid st)
  = ProjectHistory.getHistoryList st.
Proof. store_unfold. store_keys. reflexivity. Qed.

Lemma get_layers_saveHistoryList h st k :
  k <> "history" ->
  ProjectHistory.getProjectLayers k (ProjectHistory.saveHistoryList h st)
  = ProjectHistory.getProjectLayers k st.
Proof. intro H. store_unfold. store_keys. rewrite (eqb_history_r _ H). reflexivity. Qed.

Lemma get_layers_saveProjectLayers pid l st k :
  ProjectHistory.getProjectLayers k (ProjectHistory.saveProjectLayers pid l st)
  = if String.eqb k pid then ProjectHistory.Parsed l else ProjectHistory.getProjectLayers k st.
Proof. store_unfold. store_keys. destruct (String.eqb k pid); reflexivity. Qed.

Lemma get_layers_deleteProjectLayers pid st k :
  ProjectHistory.getProjectLayers k (ProjectHistory.deleteProjectLayers pid st)
  = if String.eqb k pid then ProjectHistory.Null else ProjectHistory.getProjectLayers k st.
Proof. store_unfold. store_keys. destruct (String.eqb k pid); reflexivity. Qed.

Lemma get_layers_saveStudioData pid l st k :
  ProjectHistory.getProjectLayers k (ProjectHistory.saveStudioData pid l st)
  = ProjectHistory.getProjectLayers k st.
Proof. store_unfold. store_keys. reflexivity. Qed.

Lemma get_layers_removeStudioData pid st k :
  ProjectHistory.getProjectLayers k (ProjectHistory.removeStudioData pid st)
  = ProjectHistory.getProjectLayers k st.
Proof. store_unfold. store_keys. reflexivity. Qed.

Lemma get_studio_saveHistoryList h st k :
  ProjectHistory.getStudioData k (ProjectHistory.saveHistoryList h st)
  = ProjectHistory.getStudioData k st.
Proof. store_unfold. store_keys. reflexivity. Qed.

Lemma get_studio_saveProjectLayers pid l st k :
  ProjectHistory.getStudioData k (ProjectHistory.saveProjectLayers pid l st)
  = ProjectHistory.getStudioData k st.
Proof. store_unfold. store_keys. reflexivity. Qed.

Lemma get_studio_deleteProjectLayers pid st k :
  ProjectHistory.getStudioData k (ProjectHistory.deleteProjectLayers pid st)
  = if String.eqb k pid then ProjectHistory.Null else ProjectHistory.getStudioData k st.
Proof. store_unfold. store_keys. destruct (String.eqb k pid); reflexivity. Qed.

Lemma get_studio_saveStudioData pid l st k :
  ProjectHistory.getStudioData k (ProjectHistory.saveStudioData pid l st)
  = if String.eqb k pid then ProjectHistory.Parsed l else ProjectHistory.getStudioData k st.
Proof. store_unfold. store_keys. destruct (String.eqb k pid); reflexivity. Qed.

Lemma get_studio_removeStudioData pid st k :
  ProjectHistory.getStudioData k (ProjectHistory.removeStudioData pid st)
  = if String.eqb k pid then ProjectHistory.Null else ProjectHistory.getStudioData k st.
Proof. store_unfold. store_keys. destruct (String.eqb k pid); reflexivity. Qed.

(** The same for what the getters give. *)
Lemma history_saveHistoryList h st :
  ProjectHistory.history (ProjectHistory.saveHistoryList h st) = h.
Proof. unfold ProjectHistory.history. rewrite get_history_saveHistoryList. reflexivity. Qed.

Lemma history_saveProjectLayers pid l st :
  pid <> "history" ->
  ProjectHistory.history (ProjectHistory.saveProjectLayers pid l st) = ProjectHistory.history st.
Proof.
  intro H. unfold ProjectHistory.history. rewrite get_history_saveProjectLayers by exact H.
  reflexivity.
Qed.

Lemma history_deleteProjectLayers pid st :
  pid <> "history" ->
  ProjectHistory.history (ProjectHistory.deleteProjectLayers pid st) = ProjectHistory.history st.
Proof.
  intro H. unfold ProjectHistory.history. rewrite get_history_deleteProjectLayers by exact H.
  reflexivity.
Qed.

Lemma history_saveStudioData pid l st :
  ProjectHistory.history (ProjectHistory.saveStudioData pid l st) = ProjectHistory.history st.
Proof. unfold ProjectHistory.history. rewrite get_history_saveStudioData. reflexivity. Qed.

Lemma history_removeStudioData pid st :
  ProjectHistory.history (ProjectHistory.removeStudioData pid st) = ProjectHistory.history st.
Proof. unfold ProjectHistory.history. rewrite get_history_removeStudioData. reflexivity. Qed.

(** Under the key of the list no layer data is found. *)
Lemma no_layers_for_history st :
  ProjectHistory.getHistoryList st <> ProjectHistory.Foreign ->
  ProjectHistory.projectLayers st "history" = None.
Proof.
  store_unfold. change (ProjectHistory.PROJECT_KEY_PREFIX ++ "history")%string
    with ProjectHistory.HISTORY_KEY.
  destruct (st ProjectHistory.HISTORY_KEY) as [[l|l|l]|]; try reflexivity. congruence.
Qed.

Lemma layers_saveHistoryList h st k :
  ProjectHistory.getHistoryList st <> ProjectHistory.Foreign ->
  ProjectHistory.projectLayers (ProjectHistory.saveHistoryList h st) k
  = ProjectHistory.projectLayers st k.
Proof.
  intro Hs. destruct (string_dec k "history") as [->|Hk].
  - rewrite (no_layers_for_history st Hs). apply no_layers_for_history.
    rewrite get_history_saveHistoryList. discriminate.
  - unfold ProjectHistory.projectLayers. rewrite get_layers_saveHistoryList by exact Hk.
    reflexivity.
Qed.

Lemma layers_saveProjectLayers pid l st k :
  ProjectHistory.projectLayers (ProjectHistory.saveProjectLayers pid l st) k
  = if String.eqb k pid then Some l else ProjectHistory.projectLayers st k.
Proof.
  unfold ProjectHistory.projectLayers. rewrite get_layers_saveProjectLayers.
  destruct (String.eqb k pid); reflexivity.
Qed.

Lemma layers_deleteProjectLayers pid st k :
  ProjectHistory.projectLayers (ProjectHistory.deleteProjectLayers pid st) k
  = if String.eqb k pid then None else ProjectHistory.projectLayers st k.
Proof.
  unfold ProjectHistory.projectLayers. rewrite get_layers_deleteProjectLayers.
  destruct (String.eqb k pid); reflexivity.
Qed.

Lemma layers_saveStudioData pid l st k :
  ProjectHistory.projectLayers (ProjectHistory.saveStudioData pid l st) k
  = ProjectHistory.projectLayers st k.
Proof. unfold ProjectHistory.projectLayers. rewrite get_layers_saveStudioData. reflexivity. Qed.

Lemma layers_removeStudioData pid st k :
  ProjectHistory.projectLayers (ProjectHistory.removeStudioData pid st) k
  = ProjectHistory.projectLayers st k.
Proof. unfold ProjectHistory.projectLayers. rewrite get_layers_removeStudioData. reflexivity. Qed.

Lemma studio_saveHistoryList h st k :
  ProjectHistory.studioData (ProjectHistory.saveHistoryList h st) k
  = ProjectHistory.studioData st k.
Proof. unfold ProjectHistory.studioData. rewrite get_studio_saveHistoryList. reflexivity. Qed.

Lemma studio_saveProjectLayers pid l st k :
  ProjectHistory.studioData (ProjectHistory.saveProjectLayers pid l st) k
  = ProjectHistory.studioData st k.
Proof. unfold ProjectHistory.studioData. rewrite get_studio_saveProjectLayers. reflexivity. Qed.

Lemma studio_deleteProjectLayers pid st k :
  ProjectHistory.studioData (ProjectHistory.deleteProjectLayers pid st) k
  = if String.eqb k pid then None else ProjectHistory.studioData st k.
Proof.
  unfold ProjectHistory.studioData. rewrite get_studio_deleteProjectLayers.
  destruct (String.eqb k pid); reflexivity.
Qed.

Lemma studio_saveStudioData pid l st k :
  ProjectHistory.studioData (ProjectHistory.saveStudioData pid l st) k
  = if String.eqb k pid then Some l else ProjectHistory.studioData st k.
Proof.
  unfold ProjectHistory.studioData. rewrite get_studio_saveStudioData.
  destruct (String.eqb k pid); reflexivity.
Qed.

Lemma studio_removeStudioData pid st k :
  ProjectHistory.studioData (ProjectHistory.removeStudioData pid st) k
  = if String.eqb k pid then None else ProjectHistory.studioData st k.
Proof.
  unfold ProjectHistory.studioData. rewrite get_studio_removeStudioData.
  destruct (String.eqb k pid); reflexivity.
Qed.

Lemma if_some_spec {A : Type} (k key : string) (v : A) (o : option A) :
  (if String.eqb k key then Some v else o) <> None <-> k = key \/ o <> None.
Proof.
  destruct (String.eqb k key) eqn:E.
  - apply String.eqb_eq in E. split; [auto|discriminate].
  - apply String.eqb_neq in E. split; [auto|]. intros [H|H]; [contradiction|exact H].
Qed.

Lemma if_none_spec {A : Type} (k key : string) (o : option A) :
  (if String.eqb k key then None else o) <> None <-> k <> key /\ o <> None.
Proof.
  destruct (String.eqb k key) eqn:E.
  - apply String.eqb_eq in E. split; [congruence|]. intros [H _]. contradiction.
  - apply String.eqb_neq in E. tauto.
Qed.

(** Each write keeps every key with a value of its own kind. *)
Lemma sorted_saveHistoryList h st :
  ProjectHistory.Sorted st -> ProjectHistory.Sorted (ProjectHistory.saveHistoryList h st).
Proof.
  intros [H1 H2 H3]. constructor.
  - rewrite get_history_saveHistoryList. discriminate.
  - intros k Hk. rewrite get_layers_saveHistoryList by exact Hk. auto.
  - intro k. rewrite get_studio_saveHistoryList. auto.
Qed.

Lemma sorted_saveProjectLayers pid l st :
  pid <> "history" ->
  ProjectHistory.Sorted st -> ProjectHistory.Sorted (ProjectHistory.saveProjectLayers pid l st).
Proof.
  intros Hp [H1 H2 H3]. constructor.
  - rewrite get_history_saveProjectLayers by exact Hp. exact H1.
  - intros k Hk. rewrite get_layers_saveProjectLayers.
    destruct (String.eqb k pid); [discriminate|auto].
  - intro k. rewrite get_studio_saveProjectLayers. auto.
Qed.

Lemma sorted_deleteProjectLayers pid st :
  pid <> "history" ->
  ProjectHistory.Sorted st -> ProjectHistory.Sorted (ProjectHistory.deleteProjectLayers pid st).
Proof.
  intros Hp [H1 H2 H3]. constructor.
  - rewrite get_history_deleteProjectLayers by exact Hp. exact H1.
  - intros k Hk. rewrite get_layers_deleteProjectLayers.
    destruct (String.eqb k pid); [discriminate|auto].
  - intro k. rewrite get_studio_deleteProjectLayers.
    destruct (String.eqb k pid); [discriminate|auto].
Qed.

Lemma sorted_saveStudioData pid l st :
  ProjectHistory.Sorted st -> ProjectHistory.Sorted (ProjectHistory.saveStudioData pid l st).
Proof.
  intros [H1 H2 H3]. constructor.
  - rewrite get_history_saveStudioData. exact H1.
  - intros k Hk. rewrite get_layers_saveStudioData. auto.
  - intro k. rewrite get_studio_saveStudioData.
    destruct (String.eqb k pid); [discriminate|auto].
Qed.

Lemma sorted_removeStudioData pid st :
  ProjectHistory.Sorted st -> ProjectHistory.Sorted (ProjectHistory.removeStudioData pid st).
Proof.
  intros [H1 H2 H3]. constructor.
  - rewrite get_history_removeStudioData. exact H1.
  - intros k Hk. rewrite get_layers_removeStudioData. auto.
  - intro k. rewrite get_studio_removeStudioData.
    destruct (String.eqb k pid); [discriminate|auto].
Qed.

(** On a sorted storage the list is read. *)
Lemma sorted_history st :
  ProjectHistory.Sorted st ->
  ProjectHistory.getHistoryList st = ProjectHistory.Parsed (ProjectHistory.history st).
Proof.
  intros [H1 _ _]. unfold ProjectHistory.history.
  destruct (ProjectHistory.getHistoryList st) as [|l|] eqn:E; try reflexivity; try congruence.
  exfalso. revert E. store_unfold. destruct (st ProjectHistory.HISTORY_KEY) as [[?|?|?]|]; discriminate.
Qed.

Lemma consistent_no_history_id st :
  ProjectHistory.Consistent st -> ~ In "history" (map ProjectHistory.id (ProjectHistory.history st)).
Proof.
  intros [[H1 _ _] _ _ Hlay _] Hin. apply Hlay in Hin. apply Hin.
  apply no_layers_for_history. exact H1.
Qed.

Lemma save_consistent now uuid stamp userId layers thumbnail size existing scenes orient st :
  ProjectHistory.Consistent st ->
  ProjectHistory.projectIdOf existing uuid <> "history" ->
  exists st',
    ProjectHistory.saveProject now uuid stamp userId layers thumbnail size existing scenes
      orient st = Some (ProjectHistory.projectIdOf existing uuid, st') /\
    ProjectHistory.Consistent st' /\
    In (ProjectHistory.projectIdOf existing uuid)
       (map ProjectHistory.id (ProjectHistory.history st')) /\
    ProjectHistory.projectLayers st' (ProjectHistory.projectIdOf existing uuid)
    = Some (map ProjectHistory.toLayerData layers) /\
    ProjectHistory.studioData st' (ProjectHistory.projectIdOf existing uuid)
    = match scenes with
      | Some ((_ :: _) as l) => Some (map ProjectHistory.toSceneData l)
      | _ => None
      end.
Proof.
  intros Hc Hpid. pose proof (consistent_no_history_id st Hc) as Hno.
  destruct Hc as [Hso Hlen Hnd Hlay Hstu].
  unfold ProjectHistory.saveProject. rewrite (sorted_history st Hso).
  set (pid := ProjectHistory.projectIdOf existing uuid) in *.
  cbv zeta.
  set (st1 := ProjectHistory.saveProjectLayers pid (map ProjectHistory.toLayerData layers) st).
  assert (Hso1 : ProjectHistory.Sorted st1) by (apply sorted_saveProjectLayers; assumption).
  assert (Hst1 : forall k, ProjectHistory.projectLayers st1 k <> None <->
                           k = pid \/ In k (map ProjectHistory.id (ProjectHistory.history st))).
  { intro k. unfold st1. rewrite layers_saveProjectLayers, if_some_spec, Hlay. tauto. }
  assert (Hstu1 : forall k, ProjectHistory.studioData st1 k = ProjectHistory.studioData st k).
  { intro k. unfold st1. apply studio_saveProjectLayers. }
  assert (Hfinish : forall h st2,
    ProjectHistory.Sorted st2 ->
    (List.length h <= ProjectHistory.MAX_PROJECTS)%nat -> NoDup (map ProjectHistory.id h) ->
    In pid (map ProjectHistory.id h) ->
    (forall k, ProjectHistory.projectLayers st2 k <> None <-> In k (map ProjectHistory.id h)) ->
    (forall k, ProjectHistory.studioData st2 k <> None -> In k (map ProjectHistory.id h)) ->
    ProjectHistory.projectLayers st2 pid = Some (map ProjectHistory.toLayerData layers) ->
    exists st3,
      Some (pid,
            match scenes with
            | Some ((_ :: _) as l) =>
                ProjectHistory.saveStudioData pid (map ProjectHistory.toSceneData l)
                  (ProjectHistory.saveHistoryList h st2)
            | _ => ProjectHistory.removeStudioData pid (ProjectHistory.saveHistoryList h st2)
            end) = Some (pid, st3) /\
      ProjectHistory.Consistent st3 /\
      In pid (map ProjectHistory.id (ProjectHistory.history st3)) /\
      ProjectHistory.projectLayers st3 pid = Some (map ProjectHistory.toLayerData layers) /\
      ProjectHistory.studioData st3 pid
      = match scenes with
        | Some ((_ :: _) as l) => Some (map ProjectHistory.toSceneData l)
        | _ => None
        end).
  { intros h st2 Hs2 H1 H2 H3 H4 H5 H6.
    pose proof (ProjectHistory.so_history st2 Hs2) as Hh2.
    pose proof (sorted_saveHistoryList h st2 Hs2) as Hs3.
    eexists. split; [reflexivity|].
    destruct scenes as [[|s ss]|].
    - split; [|split; [|split]].
      + constructor.
        * apply sorted_removeStudioData. exact Hs3.
        * rewrite history_removeStudioData, history_saveHistoryList. exact H1.
        * rewrite history_removeStudioData, history_saveHistoryList. exact H2.
        * intro k. rewrite history_removeStudioData, history_saveHistoryList,
            layers_removeStudioData, layers_saveHistoryList by exact Hh2. apply H4.
        * intros k. rewrite history_removeStudioData, history_saveHistoryList,
            studio_removeStudioData, studio_saveHistoryList, if_none_spec.
          intros [_ Hk]. apply H5. exact Hk.
      + rewrite history_removeStudioData, history_saveHistoryList. exact H3.
      + rewrite layers_removeStudioData, layers_saveHistoryList by exact Hh2. exact H6.
      + rewrite studio_removeStudioData, String.eqb_refl. reflexivity.
    - split; [|split; [|split]].
      + constructor.
        * apply sorted_saveStudioData. exact Hs3.
        * rewrite history_saveStudioData, history_saveHistoryList. exact H1.
        * rewrite history_saveStudioData, history_saveHistoryList. exact H2.
        * intro k. rewrite history_saveStudioData, history_saveHistoryList,
            layers_saveStudioData, layers_saveHistoryList by exact Hh2. apply H4.
        * intros k. rewrite history_saveStudioData, history_saveHistoryList,
            studio_saveStudioData, studio_saveHistoryList, if_some_spec.
          intros [->|Hk]; [exact H3|]. apply H5. exact Hk.
      + rewrite history_saveStudioData, history_saveHistoryList. exact H3.
      + rewrite layers_saveStudioData, layers_saveHistoryList by exact Hh2. exact H6.
      + rewrite studio_saveStudioData, String.eqb_refl. reflexivity.
    - split; [|split; [|split]].
      + constructor.
        * apply sorted_removeStudioData. exact Hs3.
        * rewrite history_removeStudioData, history_saveHistoryList. exact H1.
        * rewrite history_removeStudioData, history_saveHistoryList. exact H2.
        * intro k. rewrite history_removeStudioData, history_saveHistoryList,
            layers_removeStudioData, layers_saveHistoryList by exact Hh2. apply H4.
        * intros k. rewrite history_removeStudioData, history_saveHistoryList,
            studio_removeStudioData, studio_saveHistoryList, if_none_spec.
          intros [_ Hk]. apply H5. exact Hk.
      + rewrite history_removeStudioData, history_saveHistoryList. exact H3.
      + rewrite layers_removeStudioData, layers_saveHistoryList by exact Hh2. exact H6.
      + rewrite studio_removeStudioData, String.eqb_refl. reflexivity. }
  assert (Hpid1 : ProjectHistory.projectLayers st1 pid
                  = Some (map ProjectHistory.toLayerData layers)).
  { unfold st1. rewrite layers_saveProjectLayers, String.eqb_refl. reflexivity. }
  destruct (ProjectHistory.findIndex pid (ProjectHistory.history st)) as [i|] eqn:Ei.
  - destruct (ph_findIndex_Some _ _ _ Ei) as (p & Hn & Hp & Hin).
    rewrite Hn.
    set (entry := ProjectHistory.mkEntry pid (ProjectHistory.name p) thumbnail
                    (ProjectHistory.createdAt p) now userId (List.length layers) size orient).
    destruct (ph_assign_ids i entry p (ProjectHistory.history st) Hn) as [Hids Hl']; [cbn; auto|].
    rewrite evict_small by (rewrite Hl'; exact Hlen).
    apply Hfinish.
    + exact Hso1.
    + rewrite Hl'. exact Hlen.
    + rewrite Hids. exact Hnd.
    + rewrite Hids. exact Hin.
    + intro k. rewrite Hids, Hst1. split; [intros [->|H]; auto|auto].
    + intros k Hk. rewrite Hids. apply Hstu. rewrite <- Hstu1. exact Hk.
    + exact Hpid1.
  - pose proof (ph_findIndex_None _ _ Ei) as Hnot.
    set (entry := ProjectHistory.mkEntry pid ("Projeto " ++ stamp) thumbnail now now userId
                    (List.length layers) size orient).
    destruct (Nat.eq_dec (List.length (ProjectHistory.history st)) ProjectHistory.MAX_PROJECTS)
      as [Hfull|Hroom].
    + destruct (rev (ProjectHistory.history st)) as [|x rh] eqn:Er.
      { apply (f_equal (@List.length _)) in Er. rewrite length_rev, Hfull in Er. discriminate. }
      assert (Hh : ProjectHistory.history st = (rev rh ++ [x])%list).
      { rewrite <- (rev_involutive (ProjectHistory.history st)), Er. reflexivity. }
      assert (Heq : (entry :: ProjectHistory.history st = (entry :: rev rh) ++ [x])%list).
      { rewrite Hh. reflexivity. }
      rewrite Heq, evict_one.
      2:{ rewrite <- Heq. cbn. rewrite Hfull. reflexivity. }
      rewrite Hh, map_app in Hnd, Hnot, Hno. cbn [map] in Hnd, Hnot, Hno.
      assert (Hx : ~ In (ProjectHistory.id x) (map ProjectHistory.id (rev rh))).
      { apply NoDup_remove_2 in Hnd. rewrite app_nil_r in Hnd. exact Hnd. }
      assert (Hnd' : NoDup (map ProjectHistory.id (rev rh))).
      { apply NoDup_remove_1 in Hnd. rewrite app_nil_r in Hnd. exact Hnd. }
      assert (Hxp : ProjectHistory.id x <> pid).
      { intro H. apply Hnot. apply in_or_app. right. left. exact H. }
      assert (Hxh : ProjectHistory.id x <> "history").
      { intro H. apply Hno. apply in_or_app. right. left. exact H. }
      apply Hfinish.
      * apply sorted_deleteProjectLayers; assumption.
      * cbn [List.length]. rewrite Hh, length_app in Hfull. cbn in Hfull. lia.
      * cbn [map]. constructor; [|exact Hnd'].
        intro H. apply Hnot. apply in_or_app. left. exact H.
      * left. reflexivity.
      * intro k. cbn [map In ProjectHistory.id entry].
        rewrite layers_deleteProjectLayers, if_none_spec, Hst1, Hh, map_app, in_app_iff.
        cbn [map In].
        split.
        -- intros [Hk [->|[H|[H|[]]]]]; auto. congruence.
        -- intros [<-|H]; [split; [congruence|auto]|].
           split; [intros ->; contradiction|auto].
      * intros k Hk. rewrite studio_deleteProjectLayers, if_none_spec in Hk.
        destruct Hk as [Hk1 Hk2]. rewrite Hstu1 in Hk2. apply Hstu in Hk2.
        rewrite Hh, map_app, in_app_iff in Hk2. cbn [map In] in *.
        destruct Hk2 as [H|[H|[]]]; [auto|congruence].
      * rewrite layers_deleteProjectLayers.
        assert (E : String.eqb pid (ProjectHistory.id x) = false) by (apply String.eqb_neq; congruence).
        rewrite E. exact Hpid1.
    + rewrite evict_small by (cbn [List.length]; lia).
      apply Hfinish.
      * exact Hso1.
      * cbn [List.length]. lia.
      * cbn [map]. constructor; assumption.
      * left. reflexivity.
      * intro k. cbn [map In ProjectHistory.id entry]. rewrite Hst1. split; intros [H|H]; auto.
      * intros k Hk. right. apply Hstu. rewrite <- Hstu1. exact Hk.
      * exact Hpid1.
Qed.
Lemma parsed_layers st k l :
  ProjectHistory.getProjectLayers k st = ProjectHistory.Parsed l ->
  ProjectHistory.projectLayers st k = Some l.
Proof. intro H. unfold ProjectHistory.projectLayers. rewrite H. reflexivity. Qed.

Lemma layers_listed st k :
  ProjectHistory.Consistent st -> k <> "history" ->
  (exists l, ProjectHistory.getProjectLayers k st = ProjectHistory.Parsed l /\
             In k (map ProjectHistory.id (ProjectHistory.history st))) \/
  (ProjectHistory.getProjectLayers k st = ProjectHistory.Null /\
   ~ In k (map ProjectHistory.id (ProjectHistory.history st))).
Proof.
  intros [Hso _ _ Hlay _] Hk.
  pose proof (ProjectHistory.so_layers st Hso k Hk) as Hf.
  specialize (Hlay k). unfold ProjectHistory.projectLayers in Hlay.
  destruct (ProjectHistory.getProjectLayers k st) as [|l|]; [right|left|congruence].
  - split; [reflexivity|]. intro Hin. apply Hlay in Hin. congruence.
  - exists l. split; [reflexivity|]. apply Hlay. discriminate.
Qed.

Lemma uploaded_consistent pid lid path st :
  ProjectHistory.Consistent st -> pid <> "history" ->
  exists st', ProjectHistory.uploaded pid lid path st = Some st' /\
              ProjectHistory.Consistent st'.
Proof.
  intros Hc Hp. unfold ProjectHistory.uploaded.
  destruct (layers_listed st pid Hc Hp) as [(saved & -> & Hin)|[-> _]]; [|eauto].
  destruct (ProjectHistory.setStoragePath lid path saved) as [l|]; [|eauto].
  eexists. split; [reflexivity|]. destruct Hc as [Hso Hlen Hnd Hlay Hstu]. constructor.
  - apply sorted_saveProjectLayers; assumption.
  - rewrite history_saveProjectLayers by exact Hp. exact Hlen.
  - rewrite history_saveProjectLayers by exact Hp. exact Hnd.
  - intro k. rewrite history_saveProjectLayers, layers_saveProjectLayers, if_some_spec, Hlay
      by exact Hp.
    split; [|auto]. intros [->|H]; [exact Hin|exact H].
  - intro k. rewrite history_saveProjectLayers, studio_saveProjectLayers by exact Hp. apply Hstu.
Qed.

Lemma assign_consistent st i e p :
  ProjectHistory.Consistent st ->
  nth_error (ProjectHistory.history st) i = Some p -> ProjectHistory.id e = ProjectHistory.id p ->
  ProjectHistory.Consistent
    (ProjectHistory.saveHistoryList (ProjectHistory.assign i e (ProjectHistory.history st)) st).
Proof.
  intros [Hso Hlen Hnd Hlay Hstu] Hn He.
  destruct (ph_assign_ids i e p (ProjectHistory.history st) Hn He) as [Hids Hl].
  pose proof (ProjectHistory.so_history st Hso) as Hh.
  constructor.
  - apply sorted_saveHistoryList. exact Hso.
  - rewrite history_saveHistoryList, Hl. exact Hlen.
  - rewrite history_saveHistoryList, Hids. exact Hnd.
  - intro k. rewrite history_saveHistoryList, Hids, layers_saveHistoryList by exact Hh.
    apply Hlay.
  - intro k. rewrite history_saveHistoryList, Hids, studio_saveHistoryList. apply Hstu.
Qed.

Lemma load_consistent now download pid st :
  ProjectHistory.Consistent st -> pid <> "history" ->
  exists st' r, ProjectHistory.loadProject now download pid st = Some (st', r) /\
                ProjectHistory.Consistent st' /\
                (In pid (map ProjectHistory.id (ProjectHistory.history st)) ->
                 exists loaded, r = inr loaded).
Proof.
  intros Hc Hp. unfold ProjectHistory.loadProject.
  destruct (layers_listed st pid Hc Hp) as [(saved & -> & Hin)|[-> Hnot]].
  2:{ eexists _, _. split; [reflexivity|]. split; [exact Hc|]. intro H. contradiction. }
  pose proof (ProjectHistory.so_studio st (ProjectHistory.cs_sorted st Hc) pid) as Hs.
  rewrite (sorted_history st (ProjectHistory.cs_sorted st Hc)). cbv zeta.
  assert (Hst : exists st',
            match ProjectHistory.findIndex pid (ProjectHistory.history st),
                  match ProjectHistory.findIndex pid (ProjectHistory.history st) with
                  | Some idx => nth_error (ProjectHistory.history st) idx
                  | None => None
                  end with
            | Some idx, Some p =>
                ProjectHistory.saveHistoryList
                  (ProjectHistory.assign idx (ProjectHistory.touch now p)
                     (ProjectHistory.history st)) st
            | _, _ => st
            end = st' /\ ProjectHistory.Consistent st').
  { eexists. split; [reflexivity|].
    destruct (ProjectHistory.findIndex pid (ProjectHistory.history st)) as [i|] eqn:Ei; [|exact Hc].
    destruct (ph_findIndex_Some _ _ _ Ei) as (p & Hn & _ & _). rewrite Hn.
    apply (assign_consistent st i (ProjectHistory.touch now p) p Hc Hn eq_refl). }
  destruct Hst as (st' & Est & Hc').
  destruct (ProjectHistory.getStudioData pid st) as [|sd|]; [| |congruence];
    rewrite Est; eexists _, _; (split; [reflexivity|]); (split; [exact Hc'|]); eauto.
Qed.

Lemma rename_consistent pid newName st :
  ProjectHistory.Consistent st ->
  exists st', ProjectHistory.renameProject pid newName st = Some st' /\
              ProjectHistory.Consistent st'.
Proof.
  intros Hc. unfold ProjectHistory.renameProject.
  rewrite (sorted_history st (ProjectHistory.cs_sorted st Hc)).
  destruct (ProjectHistory.findIndex pid (ProjectHistory.history st)) as [i|] eqn:Ei; [|eauto].
  destruct (ph_findIndex_Some _ _ _ Ei) as (p & Hn & Hp & Hin). rewrite Hn.
  eexists. split; [reflexivity|].
  apply (assign_consistent st i (ProjectHistory.rename newName p) p Hc Hn eq_refl).
Qed.

Lemma filter_ids pid (l : list ProjectHistory.Entry) :
  NoDup (map ProjectHistory.id l) ->
  NoDup (map ProjectHistory.id (filter (fun p => negb (String.eqb (ProjectHistory.id p) pid)) l)) /\
  (List.length (filter (fun p => negb (String.eqb (ProjectHistory.id p) pid)) l) <= List.length l)%nat /\
  forall k, In k (map ProjectHistory.id (filter (fun p => negb (String.eqb (ProjectHistory.id p) pid)) l))
            <-> k <> pid /\ In k (map ProjectHistory.id l).
Proof.
  induction l as [|a l IH]; intro Hnd.
  - cbn. split; [constructor|]. split; [lia|]. intro k. tauto.
  - inversion Hnd as [|? ? Ha Hl]; subst. destruct (IH Hl) as (H1 & H2 & H3).
    cbn [filter]. destruct (String.eqb (ProjectHistory.id a) pid) eqn:E; cbn [negb].
    + apply String.eqb_eq in E. split; [exact H1|]. split; [cbn; lia|].
      intro k. rewrite H3. cbn [map In]. split; [tauto|].
      intros [Hk [Hka|Hin]]; [congruence|auto].
    + apply String.eqb_neq in E. split.
      * cbn [map]. constructor; [|exact H1]. rewrite H3. tauto.
      * split; [cbn; lia|]. intro k. cbn [map In]. rewrite H3.
        split; [intros [<-|[? ?]]; auto|]. intros [Hk [Hka|Hin]]; auto.
Qed.

Lemma delete_consistent pid st :
  ProjectHistory.Consistent st -> pid <> "history" ->
  exists st', ProjectHistory.deleteProject pid st = Some st' /\
              ProjectHistory.Consistent st'.
Proof.
  intros [Hso Hlen Hnd Hlay Hstu] Hp. unfold ProjectHistory.deleteProject.
  rewrite (sorted_history st Hso). eexists. split; [reflexivity|].
  destruct (filter_ids pid (ProjectHistory.history st) Hnd) as (H1 & H2 & H3).
  pose proof (ProjectHistory.so_history st Hso) as Hh.
  constructor.
  - apply sorted_deleteProjectLayers; [exact Hp|]. apply sorted_saveHistoryList. exact Hso.
  - rewrite history_deleteProjectLayers, history_saveHistoryList by exact Hp. lia.
  - rewrite history_deleteProjectLayers, history_saveHistoryList by exact Hp. exact H1.
  - intro k. rewrite history_deleteProjectLayers, history_saveHistoryList,
      layers_deleteProjectLayers, layers_saveHistoryList, if_none_spec, H3, Hlay
      by assumption. tauto.
  - intros k. rewrite history_deleteProjectLayers, history_saveHistoryList,
      studio_deleteProjectLayers, studio_saveHistoryList, if_none_spec, H3 by assumption.
    intros [Hk Hs]. split; [exact Hk|]. apply Hstu. exact Hs.
Qed.

Lemma step_consistent st op :
  ProjectHistory.Consistent st -> ProjectHistory.target op <> "history" ->
  exists st', ProjectHistory.step st op = Some st' /\ ProjectHistory.Consistent st'.
Proof.
  intros Hc Ht. destruct op; cbn [ProjectHistory.step ProjectHistory.target] in *.
  - destruct (save_consistent now randomUUID stamp userId layers thumbnail canvasSize
                existingProjectId scenes studioOrientation st Hc Ht) as (st' & -> & Hc' & _).
    cbn [option_map snd]. eauto.
  - apply uploaded_consistent; assumption.
  - destruct (load_consistent now download projectId st Hc Ht) as (st' & r & -> & Hc' & _).
    cbn [option_map fst]. eauto.
  - apply delete_consistent; assumption.
  - apply rename_consistent; assumption.
Qed.

Lemma empty_consistent : ProjectHistory.Consistent ProjectHistory.empty.
Proof.
  constructor.
  - constructor; intros; discriminate.
  - cbn. lia.
  - constructor.
  - intro k. split; [intro H; exfalso; apply H; reflexivity|intros []].
  - intros k H. exfalso. apply H. reflexivity.
Qed.

Lemma run_consistent (ops : list ProjectHistory.Op) : forall st,
  ProjectHistory.Consistent st ->
  Forall (fun op => ProjectHistory.target op <> "history") ops ->
  exists st',
    fold_left (fun acc op => match acc with
                             | Some st => ProjectHistory.step st op
                             | None => None
                             end) ops (Some st) = Some st' /\
    ProjectHistory.Consistent st'.
Proof.
  induction ops as [|op ops IH]; intros st Hc Hops;
    [exists st; split; [reflexivity|exact Hc]|].
  apply Forall_cons_iff in Hops. destruct Hops as [Hop Hrest]. cbn [fold_left].
  destruct (step_consistent st op Hc Hop) as (st1 & -> & Hc1). apply IH; assumption.
Qed.

(** X18.  Starting from an empty localStorage that accepts every write, after any
    sequence of saveProject, completed background uploads, loadProject,
    deleteProject and renameProject calls of which none is for the project
    id history, every call goes through with values of the right kind under
    each key, the history lists at most 10 projects with pairwise distinct
    ids, layer data is stored exactly for the listed projects and studio
    data only for listed projects; hence loadProject never throws for a
    project of the list. The id history is left out because
    PROJECT_KEY_PREFIX + 'history' is HISTORY_KEY: the layer data of such a
    project and the history list share one key, and saving and deleting it
    removes the whole list. *)
Theorem history_stays_consistent (ops : list ProjectHistory.Op) :
  Forall (fun op => ProjectHistory.target op <> "history") ops ->
  exists st,
    ProjectHistory.run ops = Some st /\
    ProjectHistory.Consistent st /\
    forall p, In p (ProjectHistory.history st) ->
      forall now download,
        exists st' loaded,
          ProjectHistory.loadProject now download (ProjectHistory.id p) st
          = Some (st', inr loaded).
Proof.
  intro Hops.
  destruct (run_consistent ops ProjectHistory.empty empty_consistent Hops) as (st & Hrun & Hc).
  exists st. split; [exact Hrun|]. split; [exact Hc|]. intros p Hin now download.
  assert (Hid : In (ProjectHistory.id p) (map ProjectHistory.id (ProjectHistory.history st)))
    by (apply in_map; exact Hin).
  assert (Hp : ProjectHistory.id p <> "history").
  { intro H. apply (consistent_no_history_id st Hc). rewrite <- H. exact Hid. }
  destruct (load_consistent now download (ProjectHistory.id p) st Hc Hp)
    as (st' & r & Hload & _ & Hr).
  destruct (Hr Hid) as (loaded & ->). eauto.
Qed.

(** The id [history]: saving a project under it and deleting it again
    removes the whole list, while the layers of the other project stay. *)
Lemma history_id_wipes_the_list :
  let first := ProjectHistory.Save 1700000000000 "uuid-1" "01/01/2026 10:00" "u1"
                 (Store.layers Scenario.threeLayers) "" (Fin 1920, Fin 1080) None None None in
  let second := ProjectHistory.Save 1700000000001 "uuid-2" "01/01/2026 10:01" "u1"
                  [] "" (Fin 1920, Fin 1080) (Some "history") None None in
  exists st,
    ProjectHistory.run [first; second; ProjectHistory.Delete "history"] = Some st /\
    ProjectHistory.getHistoryList st = ProjectHistory.Parsed [] /\
    ProjectHistory.projectLayers st "uuid-1"
    = Some (map ProjectHistory.toLayerData (Store.layers Scenario.threeLayers)).
Proof.
  eexists. split; [reflexivity|]. split; reflexivity.
Qed.

(** A project saved, its first image uploaded, the project loaded and
    renamed, and another one saved and deleted. *)
Lemma history_witness :
  let ops :=
    [ ProjectHistory.Save 1700000000000 "uuid-1" "01/01/2026 10:00" "u1"
        (Store.layers Scenario.threeLayers) "" (Fin 1920, Fin 1080) None None None;
      ProjectHistory.Uploaded "uuid-1" "a" "users/u1/projects/uuid-1/a.png";
      ProjectHistory.Load 1700000000001 (fun _ => None) "uuid-1";
      ProjectHistory.Rename "uuid-1" "Sala";
      ProjectHistory.Save 1700000000002 "uuid-2" "01/01/2026 10:02" "u1"
        [] "" (Fin 1920, Fin 1080) None None None;
      ProjectHistory.Delete "uuid-2" ] in
  Forall (fun op => ProjectHistory.target op <> "history") ops /\
  exists st,
    ProjectHistory.run ops = Some st /\
    ProjectHistory.Consistent st /\
    map ProjectHistory.id (ProjectHistory.history st) = ["uuid-1"].
Proof.
  intro ops.
  assert (Hops : Forall (fun op => ProjectHistory.target op <> "history") ops).
  { repeat constructor; discriminate. }
  split; [exact Hops|].
  destruct (history_stays_consistent ops Hops) as (st & Hrun & Hc & _).
  exists st. split; [exact Hrun|]. split; [exact Hc|].
  assert (E : ProjectHistory.run ops = Some st) by exact Hrun.
  vm_compute in E. injection E as <-. reflexivity.
Defined.

(** ** Scenes saved and loaded *)

Lemma toScene_toSceneData (s : Scene.t) :
  ProjectHistory.toScene (ProjectHistory.toSceneData s)
  = Scene.mk (Scene.id s)
      (ProjectHistory.inlineFrame (Scene.startFrame s)) (ProjectHistory.inlineFrame (Scene.endFrame s))
      (Scene.shots s)
      (filter (Str.startsWith "https://") (Scene.videos s))
      (match filter (Str.startsWith "https://") (Scene.videos s) with
       | _ :: _ => Scene.selectedVideoIndex s
       | [] => (-1)%Z
       end)
      false
      (match Scene.variationCount s with O => 2%nat | n => n end).
Proof.
  unfold ProjectHistory.toScene, ProjectHistory.toSceneData.
  cbn [ProjectHistory.sd_id ProjectHistory.sd_shots ProjectHistory.sd_selectedVideoIndex ProjectHistory.sd_variationCount
       ProjectHistory.sd_startFrameStoragePath ProjectHistory.sd_endFrameStoragePath ProjectHistory.sd_videoStoragePaths].
  assert (Hf : forall f, orNull (ProjectHistory.inlineFrame f) = ProjectHistory.inlineFrame f).
  { intro f. unfold ProjectHistory.inlineFrame. destruct (orNull f) as [x|] eqn:E; [|reflexivity].
    destruct (Str.startsWith "data:" x) eqn:Ex; [|reflexivity].
    cbn [orNull]. destruct (String.eqb x "") eqn:E0; [|reflexivity].
    apply String.eqb_eq in E0. subst x. discriminate. }
  rewrite !Hf. reflexivity.
Qed.

Lemma portable_round_trip (s : Scene.t) :
  ProjectHistory.portable s -> ProjectHistory.toScene (ProjectHistory.toSceneData s) = s.
Proof.
  intros (Hs & He & Hv & Hg & Hn & Hsel). rewrite toScene_toSceneData, Hs, He.
  assert (Hfil : filter (Str.startsWith "https://") (Scene.videos s) = Scene.videos s).
  { clear -Hv. induction Hv as [|v vs Hv' _ IH]; [reflexivity|].
    cbn [filter]. rewrite Hv', IH. reflexivity. }
  rewrite Hfil. destruct s as [i sf ef sh vids sel gen vc]. cbn in *. subst gen.
  f_equal.
  - destruct vids; [symmetry; apply Hsel; reflexivity|reflexivity].
  - destruct vc; [congruence|reflexivity].
Qed.

Lemma assign_unique (l : list ProjectHistory.Entry) : forall k e q,
  NoDup (map ProjectHistory.id l) -> nth_error l k <> None ->
  ProjectHistory.id e = ProjectHistory.id q -> In q (ProjectHistory.assign k e l) ->
  (forall x, nth_error l k = Some x -> ProjectHistory.id x = ProjectHistory.id e) -> q = e.
Proof.
  induction l as [|a l IH]; intros k e q Hnd Hk He Hq Hx.
  - destruct k; cbn in Hk; congruence.
  - inversion Hnd as [|? ? Ha Hl]; subst. destruct k as [|k]; cbn in Hq.
    + destruct Hq as [<-|Hq]; [reflexivity|].
      exfalso. apply Ha. specialize (Hx a eq_refl). rewrite Hx, He.
      apply in_map. exact Hq.
    + destruct Hq as [<-|Hq].
      * exfalso. apply Ha. cbn in Hk, Hx.
        destruct (nth_error l k) as [x|] eqn:Ex; [|congruence].
        specialize (Hx x eq_refl). rewrite <- He, <- Hx.
        apply in_map. eapply nth_error_In. exact Ex.
      * apply (IH k e q Hl); auto.
Qed.

Lemma evict_sub fuel : forall l s q,
  In q (fst (ProjectHistory.evict fuel l s)) -> In q l.
Proof.
  induction fuel as [|n IHn]; intros l s q Hq; [exact Hq|].
  cbn [ProjectHistory.evict] in Hq.
  destruct (ProjectHistory.MAX_PROJECTS <? List.length l)%nat; [|exact Hq].
  destruct (rev l) as [|x rl] eqn:Er; [exact Hq|].
  apply IHn in Hq.
  assert (Hl : l = (rev rl ++ [x])%list).
  { rewrite <- (rev_involutive l), Er. reflexivity. }
  rewrite Hl, removelast_last in Hq. rewrite Hl. apply in_or_app. left. exact Hq.
Qed.

Lemma save_orientation now uuid stamp userId layers thumbnail size existing scenes orient st st' :
  ProjectHistory.Consistent st ->
  ProjectHistory.projectIdOf existing uuid <> "history" ->
  ProjectHistory.saveProject now uuid stamp userId layers thumbnail size existing scenes
    orient st = Some (ProjectHistory.projectIdOf existing uuid, st') ->
  forall q, In q (ProjectHistory.history st') ->
            ProjectHistory.id q = ProjectHistory.projectIdOf existing uuid ->
            ProjectHistory.studioOrientation q = orient.
Proof.
  intros [Hso Hlen Hnd _ _] Hpid. unfold ProjectHistory.saveProject.
  rewrite (sorted_history st Hso).
  set (pid := ProjectHistory.projectIdOf existing uuid) in *.
  cbv zeta.
  assert (Hh : forall h s2,
    ProjectHistory.history
      (match scenes with
       | Some ((_ :: _) as l) =>
           ProjectHistory.saveStudioData pid (map ProjectHistory.toSceneData l)
             (ProjectHistory.saveHistoryList h s2)
       | _ => ProjectHistory.removeStudioData pid (ProjectHistory.saveHistoryList h s2)
       end) = h).
  { intros h s2. destruct scenes as [[|x xs]|];
      rewrite ?history_saveStudioData, ?history_removeStudioData, history_saveHistoryList;
      reflexivity. }
  destruct (ProjectHistory.findIndex pid (ProjectHistory.history st)) as [j|] eqn:Ej.
  - destruct (ph_findIndex_Some _ _ _ Ej) as (p0 & Hn0 & Hp0 & Hin0). rewrite Hn0.
    set (entry := ProjectHistory.mkEntry pid (ProjectHistory.name p0) thumbnail
                    (ProjectHistory.createdAt p0) now userId (List.length layers) size orient).
    destruct (ph_assign_ids j entry p0 (ProjectHistory.history st) Hn0) as [Hids Hl']; [cbn; auto|].
    rewrite evict_small by (rewrite Hl'; exact Hlen).
    intro E. injection E as <-. rewrite Hh. intros q Hq Hqid.
    assert (q = entry); [|subst q; reflexivity].
    apply (assign_unique (ProjectHistory.history st) j entry q Hnd); auto.
    + congruence.
    + intros x Hx. rewrite Hn0 in Hx. injection Hx as <-. cbn. congruence.
  - pose proof (ph_findIndex_None _ _ Ej) as Hnot.
    set (entry := ProjectHistory.mkEntry pid ("Projeto " ++ stamp) thumbnail now now userId
                    (List.length layers) size orient).
    pose proof (evict_sub (List.length (entry :: ProjectHistory.history st))
                  (entry :: ProjectHistory.history st)
                  (ProjectHistory.saveProjectLayers pid (map ProjectHistory.toLayerData layers) st))
      as Hsub.
    destruct (ProjectHistory.evict _ _ _) as [h s2] eqn:Eev. cbn [fst] in Hsub.
    intro E. injection E as <-. rewrite Hh.
    intros q Hq Hqid. apply Hsub in Hq. destruct Hq as [<-|Hq]; [reflexivity|].
    exfalso. apply Hnot. rewrite <- Hqid. apply in_map. exact Hq.
Qed.

(** X19.  On a consistent storage and for a project id other than history (whose
    layer key is the key of the history list), loading the project that
    saveProject has just saved with a non-empty list of scenes succeeds and
    gives one scene per saved scene: frames that are not data URLs and
    videos that are not https URLs are dropped, selectedVideoIndex becomes
    -1 when no video is left, isGenerating is false and a variationCount of
    0 becomes 2. Scenes that need none of these changes come back identical.
    The layers come back with the same ids in the same order and without
    src, and the orientation is the one saved, or auto. *)
Theorem saved_scenes_come_back
    (now now' : Z) (randomUUID stamp userId thumbnail : string) (layers : list Layer.t)
    (canvasSize : num * num) (existingProjectId : option string)
    (scenes : list Scene.t) (studioOrientation : option Studio.Orientation)
    (download : string -> option string) (st : ProjectHistory.Storage) :
  ProjectHistory.Consistent st ->
  scenes <> [] ->
  ProjectHistory.projectIdOf existingProjectId randomUUID <> "history" ->
  exists st1 st2 loaded,
    ProjectHistory.saveProject now randomUUID stamp userId layers thumbnail canvasSize
      existingProjectId (Some scenes) studioOrientation st
    = Some (ProjectHistory.projectIdOf existingProjectId randomUUID, st1) /\
    ProjectHistory.loadProject now' download
      (ProjectHistory.projectIdOf existingProjectId randomUUID) st1
    = Some (st2, inr loaded) /\
    ProjectHistory.scenes loaded
    = map (fun s => ProjectHistory.toScene (ProjectHistory.toSceneData s)) scenes /\
    (Forall ProjectHistory.portable scenes -> ProjectHistory.scenes loaded = scenes) /\
    List.length (ProjectHistory.layers loaded) = List.length layers /\
    map Layer.id (ProjectHistory.layers loaded) = map Layer.id layers /\
    Forall (fun l => Layer.src l = None) (ProjectHistory.layers loaded) /\
    ProjectHistory.loadedOrientation loaded
    = match studioOrientation with Some o => o | None => Studio.Auto end.
Proof.
  intros Hc Hne Hpid.
  destruct (save_consistent now randomUUID stamp userId layers thumbnail canvasSize
              existingProjectId (Some scenes) studioOrientation st Hc Hpid)
    as (st1 & Hsave & Hc' & Hin & Hlay & Hstu).
  pose proof (save_orientation now randomUUID stamp userId layers thumbnail canvasSize
                existingProjectId (Some scenes) studioOrientation st st1 Hc Hpid Hsave)
    as Horient.
  set (pid := ProjectHistory.projectIdOf existingProjectId randomUUID) in *.
  exists st1. unfold ProjectHistory.loadProject.
  assert (Gl : ProjectHistory.getProjectLayers pid st1
               = ProjectHistory.Parsed (map ProjectHistory.toLayerData layers)).
  { unfold ProjectHistory.projectLayers in Hlay.
    destruct (ProjectHistory.getProjectLayers pid st1); congruence. }
  destruct scenes as [|s0 ss]; [congruence|].
  assert (Gs : ProjectHistory.getStudioData pid st1
               = ProjectHistory.Parsed (map ProjectHistory.toSceneData (s0 :: ss))).
  { unfold ProjectHistory.studioData in Hstu.
    destruct (ProjectHistory.getStudioData pid st1); congruence. }
  rewrite Gl, Gs, (sorted_history st1 (ProjectHistory.cs_sorted st1 Hc')). cbv zeta.
  eexists _, _. split; [exact Hsave|]. split; [reflexivity|].
  cbn [ProjectHistory.scenes ProjectHistory.layers ProjectHistory.loadedOrientation].
  assert (Hmm : map ProjectHistory.toScene (map ProjectHistory.toSceneData (s0 :: ss))
                = map (fun s => ProjectHistory.toScene (ProjectHistory.toSceneData s)) (s0 :: ss)).
  { rewrite map_map. reflexivity. }
  split; [exact Hmm|]. split.
  { intro Hp.
    change (map ProjectHistory.toScene (map ProjectHistory.toSceneData (s0 :: ss)) = s0 :: ss).
    rewrite Hmm.
    clear -Hp. induction Hp as [|x xs Hx _ IH]; [reflexivity|].
    cbn [map]. rewrite IH, (portable_round_trip x Hx). reflexivity. }
  split; [rewrite !length_map; reflexivity|].
  split; [rewrite !map_map; reflexivity|].
  split.
  { apply Forall_forall. intros l Hl. rewrite map_map in Hl. apply in_map_iff in Hl.
    destruct Hl as (x & <- & _). reflexivity. }
  destruct (ProjectHistory.findIndex pid (ProjectHistory.history st1)) as [i|] eqn:Ei.
  2:{ exfalso. apply (ph_findIndex_None _ _ Ei). exact Hin. }
  destruct (ph_findIndex_Some _ _ _ Ei) as (p & Hn & Hp & _). rewrite Hn.
  rewrite (Horient p); [reflexivity|eapply nth_error_In; exact Hn|exact Hp].
Qed.

Lemma saved_scenes_witness :
  let st := ProjectHistory.empty in
  ProjectHistory.projectIdOf None "uuid-1" <> "history" /\
  Forall ProjectHistory.portable Sample.movie /\
  exists st1 st2 loaded,
    ProjectHistory.saveProject 1700000000000 "uuid-1" "01/01/2026 10:00" "u1"
      (Store.layers Scenario.threeLayers) "" (Fin 1920, Fin 1080) None
      (Some Sample.movie) None st = Some ("uuid-1", st1) /\
    ProjectHistory.loadProject 1700000000001 (fun _ => None) "uuid-1" st1
    = Some (st2, inr loaded) /\
    ProjectHistory.scenes loaded = Sample.movie /\
    map Layer.id (ProjectHistory.layers loaded) = ["a"; "b"; "c"].
Proof.
  intro st.
  assert (Hid : ProjectHistory.projectIdOf None "uuid-1" <> "history") by discriminate.
  assert (Hp : Forall ProjectHistory.portable Sample.movie).
  { repeat constructor; cbn; congruence. }
  split; [exact Hid|]. split; [exact Hp|].
  destruct (saved_scenes_come_back 1700000000000 1700000000001 "uuid-1" "01/01/2026 10:00"
              "u1" "" (Store.layers Scenario.threeLayers) (Fin 1920, Fin 1080) None
              Sample.movie None (fun _ => None) ProjectHistory.empty empty_consistent)
    as (st1 & st2 & loaded & Hsave & Hload & _ & Hscenes & _ & Hids & _);
    [discriminate|exact Hid|].
  exists st1, st2, loaded. split; [exact Hsave|]. split; [exact Hload|].
  split; [exact (Hscenes Hp)|exact Hids].
Defined.


(* ------------------------------------------------------------------ *)
(** ** The 4K upscale *)

Lemma div_by_positive (a r : Q) : 0 < r -> Fin a /' Fin r = Fin (a / r).
Proof.
  intros Hr. unfold Num.div, Num.Qsgn.
  assert (H : (Qnum r ?= 0)%Z = Gt).
  { apply Z.compare_gt_iff. destruct r as [n d]. unfold Qlt in Hr. cbn in *. lia. }
  now rewrite H.
Qed.

Lemma round_le (x : Q) (n : Z) :
  x + (1 # 2) < inject_Z (n + 1) ->
  inject_Z (Qfloor (x + (1 # 2))) <= inject_Z n.
Proof.
  intros H. rewrite <- Zle_Qle.
  assert (Hf := Qfloor_le (x + (1 # 2))).
  assert (Hlt : inject_Z (Qfloor (x + (1 # 2))) < inject_Z (n + 1))
    by (eapply Qle_lt_trans; eassumption).
  rewrite <- Zlt_Qlt in Hlt. lia.
Qed.

Lemma round_gt (x : Q) (n : Z) :
  inject_Z n < inject_Z (Qfloor (x + (1 # 2))) ->
  inject_Z (n + 1) <= x + (1 # 2).
Proof.
  intros H. rewrite <- Zlt_Qlt in H.
  eapply Qle_trans; [|apply Qfloor_le].
  rewrite <- Zle_Qle. lia.
Qed.

Lemma gtb_Fin (a b : Q) : (Fin a >? Fin b) = true <-> b < a.
Proof.
  unfold Num.gtb, Num.ltb, Num.Qltb. rewrite negb_true_iff.
  split; intros H.
  - apply Qnot_le_lt. intros Hle. apply Qle_bool_iff in Hle. congruence.
  - destruct (Qle_bool a b) eqn:E; [|reflexivity].
    apply Qle_bool_iff in E. exfalso. apply (Qlt_not_le _ _ H E).
Qed.

Lemma gtb_Fin_false (a b : Q) : (Fin a >? Fin b) = false <-> a <= b.
Proof.
  unfold Num.gtb, Num.ltb, Num.Qltb. rewrite negb_false_iff. apply Qle_bool_iff.
Qed.

Lemma target_fits (Math_sqrt : num -> num) (selRect : Rect.t) (r q : Q) :
  Rect.w selRect /' Rect.h selRect = Fin r -> 0 < r ->
  Math_sqrt (Upscale.TARGET_PIXELS *' Fin r) = Fin q ->
  exists w h, Upscale.target Math_sqrt selRect = (Fin w, Fin h) /\
              w <= 4096 /\ h <= 4096.
Proof.
  intros Hr Hpos Hq. unfold Upscale.target. rewrite Hr, Hq.
  cbn [JsMath.round]. rewrite div_by_positive by assumption.
  cbn [JsMath.round].
  set (W1 := inject_Z (Qfloor (q + (1 # 2)))).
  set (H1 := inject_Z (Qfloor (W1 / r + (1 # 2)))).
  assert (Hstep : exists W2, (if Fin W1 >? Upscale.MAX_SIDE
            then (Upscale.MAX_SIDE, JsMath.round (Upscale.MAX_SIDE /' Fin r))
            else (Fin W1, Fin H1))
          = (Fin W2, Fin (inject_Z (Qfloor (W2 / r + (1 # 2))))) /\ W2 <= 4096).
  { destruct (Fin W1 >? Upscale.MAX_SIDE) eqn:E.
    - exists 4096. split; [|apply Qle_refl].
      unfold Upscale.MAX_SIDE. now rewrite div_by_positive.
    - exists W1. split; [reflexivity|]. now apply gtb_Fin_false in E. }
  destruct Hstep as (W2 & -> & HW2).
  destruct (Fin (inject_Z (Qfloor (W2 / r + (1 # 2)))) >? Upscale.MAX_SIDE) eqn:E.
  - unfold Upscale.MAX_SIDE. cbn [Num.mul JsMath.round].
    eexists _, _. split; [reflexivity|]. split; [|apply Qle_refl].
    apply gtb_Fin in E.
    apply (round_gt _ 4096) in E.
    apply (round_le _ 4096).
    assert (Hd : W2 / r == W2 * / r) by reflexivity.
    assert (Hi : 0 < / r) by now apply Qinv_lt_0_compat.
    assert (Hri : r * / r == 1) by (apply Qmult_inv_r; intros Hz; rewrite Hz in Hpos; discriminate).
    rewrite Hd in E. remember (/ r) as ir.
    change (inject_Z (4096 + 1)) with 4097 in *.
    change (inject_Z 4096) with 4096.
    nra.
  - apply gtb_Fin_false in E. eexists _, _. split; [reflexivity|]. split; assumption.
Qed.

(** X20.  When a selection with a finite positive w / h ratio is upscaled and
    Math.sqrt gives a finite number, handleUpscale4K always ends with
    isGenerating false, no selection and no effect class. Either it shows
    exactly one alert and leaves the layers, the selected ids and the redo
    stack as they were, or it shows none and puts one new layer first,
    selected alone, with the redo stack emptied: visible, unlocked, placed
    at the x and y of the selection, resting at its initial position and
    size, and both its width and its height are at most 4096. *)
Theorem upscale_fits_4k (Math_sqrt : num -> num) (env : Upscale.Env)
    (s : Generation.t) (selRect : Rect.t) (r q : Q) :
  Generation.selection s = Some selRect ->
  Rect.w selRect /' Rect.h selRect = Fin r -> 0 < r ->
  Math_sqrt (Upscale.TARGET_PIXELS *' Fin r) = Fin q ->
  let run := Upscale.handleUpscale4K Math_sqrt env s in
  Generation.isGenerating (Upscale.final run) = false /\
  Generation.selection (Upscale.final run) = None /\
  Generation.generatingEffect (Upscale.final run) = "" /\
  ((Generation.store (Upscale.final run) = Generation.store s /\
    exists a, Upscale.alerts run = [a])
   \/
   exists l w h,
     Upscale.alerts run = [] /\
     Store.layers (Generation.store (Upscale.final run))
       = l :: Store.layers (Generation.store s) /\
     Store.selectedLayerIds (Generation.store (Upscale.final run)) = [Layer.id l] /\
     Store.redoStack (Generation.store (Upscale.final run)) = [] /\
     Layer.x l = Rect.x selRect /\ Layer.y l = Rect.y selRect /\
     Layer.width l = Fin w /\ Layer.height l = Fin h /\
     w <= 4096 /\ h <= 4096 /\
     Layer.visible l = true /\ Layer.locked l = false /\
     LayerDrag.pristine l).
Proof.
  intros Hsel Hr Hpos Hq run. subst run.
  unfold Upscale.handleUpscale4K. rewrite Hsel.
  destruct (target_fits Math_sqrt selRect r q Hr Hpos Hq) as (w & h & Ht & Hw & Hh).
  unfold Upscale.attempt.
  destruct (orNull (Upscale.snapshot env)); cbn [fst snd];
    [|cbn; repeat split; left; split; eauto].
  destruct (Upscale.context env); cbn [negb];
    [|cbn; repeat split; left; split; eauto].
  destruct (Upscale.imageLoads env); cbn [negb];
    [|cbn; repeat split; left; split; eauto].
  destruct (Gemini.generateImageContent (Upscale.callable env)) as [e|[result|]];
    try (cbn; repeat split; left; split; eauto; fail).
  cbn. repeat split. right.
  unfold Upscale.newLayer. rewrite Ht. cbn.
  exists (Layer.mk (Functions.showZ (Upscale.now env)) "4K Upscale" true false generation
            (Some result) None (Rect.x selRect) (Rect.y selRect) (Fin w) (Fin h)
            (Some (Rect.x selRect)) (Some (Rect.y selRect)) (Some (Fin w)) (Some (Fin h))
            (Some (Fin 0)) (Some fill) None None), w, h.
  cbn. unfold LayerDrag.pristine. cbn. repeat split; auto.
Qed.

Lemma upscale_witness :
  let s := Generation.mk (Some (Rect.mk (Fin 0) (Fin 0) (Fin 100) (Fin 1600)))
             (Store.mk [] [] [] false) false "" in
  let env := Upscale.mkEnv 0 (Some "data:image/png;base64,AAAA") true true
               (Resolved (Some "data:image/png;base64,BBBB")) 1700000000000 in
  let run := Upscale.handleUpscale4K (fun _ => Fin (2828 # 4)) env s in
  Generation.isGenerating (Upscale.final run) = false /\
  map Layer.width (Store.layers (Generation.store (Upscale.final run))) = [Fin 256] /\
  map Layer.height (Store.layers (Generation.store (Upscale.final run))) = [Fin 4096].
Proof.
  pose proof (upscale_fits_4k (fun _ => Fin (2828 # 4))
    (Upscale.mkEnv 0 (Some "data:image/png;base64,AAAA") true true
               (Resolved (Some "data:image/png;base64,BBBB")) 1700000000000)
    (Generation.mk (Some (Rect.mk (Fin 0) (Fin 0) (Fin 100) (Fin 1600)))
             (Store.mk [] [] [] false) false "")
    (Rect.mk (Fin 0) (Fin 0) (Fin 100) (Fin 1600)) (100 / 1600) (2828 # 4)
    eq_refl eq_refl eq_refl eq_refl) as H.
  cbv zeta in H |- *. destruct H as (H1 & _).
  split; [exact H1|]. split; vm_compute; reflexivity.
Defined.


(* ------------------------------------------------------------------ *)
(** ** Decor zones *)

Lemma ltb_Fin (a b : Q) : (Fin a <? Fin b) = true <-> a < b.
Proof. exact (gtb_Fin b a). Qed.

Lemma ltb_Fin_false (a b : Q) : (Fin a <? Fin b) = false <-> b <= a.
Proof. exact (gtb_Fin_false b a). Qed.

Lemma max_Fin (a b : Q) :
  exists m, Num.max (Fin a) (Fin b) = Fin m /\ a <= m /\ b <= m /\ (m = a \/ m = b).
Proof.
  unfold Num.max. destruct (Fin a <? Fin b) eqn:E.
  - apply ltb_Fin in E. exists b. repeat split; auto using Qle_refl, Qlt_le_weak.
  - apply ltb_Fin_false in E. exists a. repeat split; auto using Qle_refl.
Qed.

Lemma min_Fin (a b : Q) :
  exists m, Num.min (Fin a) (Fin b) = Fin m /\ m <= a /\ m <= b.
Proof.
  unfold Num.min. destruct (Fin b <? Fin a) eqn:E.
  - apply ltb_Fin in E. exists b. repeat split; auto using Qle_refl, Qlt_le_weak.
  - apply ltb_Fin_false in E. exists a. repeat split; auto using Qle_refl.
Qed.

Lemma round_near (x : Q) : x <= inject_Z (Qfloor (x + (1 # 2))) + (1 # 2).
Proof.
  assert (H := Qlt_floor (x + (1 # 2))).
  rewrite inject_Z_plus in H. change (inject_Z 1) with 1 in H.
  remember (inject_Z (Qfloor (x + (1 # 2)))) as n. lra.
Qed.

Lemma finite_finitePoint (p : Point.t) : Point.finite p = true -> Zone.finitePoint p.
Proof.
  destruct p as [[px| | |] [py| | |]]; cbn; try discriminate.
  intros _. now exists px, py.
Qed.

Lemma holds_weaken (a b c d a' b' c' d' : Q) (pts : list Point.t) :
  a' <= a -> b' <= b -> c <= c' -> d <= d' ->
  Zone.holds a b c d pts -> Zone.holds a' b' c' d' pts.
Proof.
  intros Ha Hb Hc Hd H. unfold Zone.holds in *. rewrite Forall_forall in *.
  intros p Hp. destruct (H p Hp) as (px & py & -> & H1 & H2 & H3 & H4).
  exists px, py. repeat split; lra.
Qed.

Lemma decor_bounds (pts : list Point.t) :
  pts <> [] -> Forall Zone.finitePoint pts ->
  exists a b c d,
    fold_left Decor.grow pts Bounds.empty = Bounds.mk (Fin a) (Fin b) (Fin c) (Fin d) /\
    Zone.holds a b c d pts.
Proof.
  induction pts as [|p l IH] using rev_ind; [congruence|].
  intros _ Hall. apply Forall_app in Hall. destruct Hall as (Hl & Hp).
  inversion Hp as [|? ? (px & py & ->) _]; subst.
  rewrite fold_left_app. cbn [fold_left].
  destruct l as [|q l'].
  - cbn. exists px, py, px, py. split; [reflexivity|].
    constructor; [|constructor]. exists px, py. repeat split; apply Qle_refl.
  - destruct (IH ltac:(discriminate) Hl) as (a & b & c & d & -> & Hh).
    unfold Decor.grow. cbn [Point.x Point.y Bounds.minX Bounds.minY Bounds.maxX Bounds.maxY].
    destruct (Fin px <? Fin a) eqn:E1; destruct (Fin py <? Fin b) eqn:E2;
      destruct (Fin px >? Fin c) eqn:E3; destruct (Fin py >? Fin d) eqn:E4;
      try apply ltb_Fin in E1; try apply ltb_Fin_false in E1;
      try apply ltb_Fin in E2; try apply ltb_Fin_false in E2;
      try apply gtb_Fin in E3; try apply gtb_Fin_false in E3;
      try apply gtb_Fin in E4; try apply gtb_Fin_false in E4;
      assert (Hq : exists qx qy, a <= qx /\ qx <= c /\ b <= qy /\ qy <= d)
        by (inversion Hh as [|? ? (qx & qy & _ & ?) _]; subst; now exists qx, qy);
      destruct Hq as (qx & qy & Hq1 & Hq2 & Hq3 & Hq4);
      eexists _, _, _, _; (split; [reflexivity|]);
      (apply Forall_app; split;
       [eapply holds_weaken; [| | | |exact Hh]; lra
       |constructor; [|constructor]; exists px, py; repeat split; lra]).
Qed.

Lemma boundingBox_finite (pts : list Point.t) :
  pts <> [] -> Forall Zone.finitePoint pts ->
  exists a b c d,
    Decor.boundingBox pts = Rect.mk (Fin a) (Fin b) (Fin (c + - a)) (Fin (d + - b)) /\
    Zone.holds a b c d pts.
Proof.
  intros Hne Hall. destruct (decor_bounds pts Hne Hall) as (a & b & c & d & E & Hh).
  exists a, b, c, d. split; [|exact Hh]. unfold Decor.boundingBox. now rewrite E.
Qed.

Lemma sum_finite (f : Point.t -> num) (pts : list Point.t) (s : Q) :
  Forall (fun p => exists q, f p = Fin q) pts ->
  exists t, fold_left (fun s p => s +' f p) pts (Fin s) = Fin t.
Proof.
  revert s. induction pts as [|p l IH]; intros s Hall; cbn [fold_left].
  - now exists s.
  - inversion Hall as [|? ? (q & Eq) Hl]; subst. rewrite Eq. cbn [Num.add]. now apply IH.
Qed.

Lemma centroid_finite (pts : list Point.t) :
  Forall Zone.finitePoint pts -> Zone.finitePoint (Decor.centroid pts).
Proof.
  intros Hall. destruct pts as [|p l]; [now exists 0, 0|].
  unfold Decor.centroid.
  destruct (sum_finite Point.x (p :: l) 0) as (sx & Ex).
  { eapply Forall_impl; [|exact Hall]. intros ? (px & py & ->). now exists px. }
  destruct (sum_finite Point.y (p :: l) 0) as (sy & Ey).
  { eapply Forall_impl; [|exact Hall]. intros ? (px & py & ->). now exists py. }
  rewrite Ex, Ey. unfold Decor.count.
  assert (Hn : 0 < inject_Z (Z.of_nat (List.length (p :: l)))).
  { change 0 with (inject_Z 0). rewrite <- Zlt_Qlt. cbn [List.length]. lia. }
  rewrite !div_by_positive by exact Hn. now eexists _, _.
Qed.

Section DecorLayout.

Variable toUpperCase : string -> string.
Variable measureText : num -> string -> num.

Hypothesis measured :
  forall fontSize line, exists q, measureText fontSize line = Fin q /\ 0 <= q.

Lemma widest_finite (fontSize : num) (lines : list string) (m : Q) :
  0 <= m ->
  exists w,
    fold_left (fun maxLineW line =>
                 if measureText fontSize line >? maxLineW
                 then measureText fontSize line else maxLineW) lines (Fin m) = Fin w /\
    0 <= w.
Proof.
  revert m. induction lines as [|line l IH]; intros m Hm; cbn [fold_left].
  - now exists m.
  - destruct (measured fontSize line) as (q & -> & Hq).
    destruct (Fin q >? Fin m); now apply IH.
Qed.

Lemma layout_spec (points : list Point.t) (label : string) (f bx by_ bw bh cx cy : Q) :
  Decor.centroid points = Point.mk (Fin cx) (Fin cy) ->
  exists lines lh tw th pl pr pt pb W H,
    Decor.layout toUpperCase measureText points label (Fin f)
      (Rect.mk (Fin bx) (Fin by_) (Fin bw) (Fin bh))
    = Decor.mkLayout lines (Fin lh) (Fin tw) (Fin th) (Fin pl) (Fin pr) (Fin pt) (Fin pb)
        (Fin W) (Fin H) /\
    20 <= pl /\ 20 <= pr /\ 20 <= pt /\ 20 <= pb /\
    bx - (cx - tw * (1 # 2)) + 20 <= pl /\
    cx + tw * (1 # 2) - (bx + bw) + 20 <= pr /\
    by_ - (cy - th * (1 # 2)) + 20 <= pt /\
    cy + th * (1 # 2) - (by_ + bh) + 20 <= pb /\
    bw + pl + pr <= W + (1 # 2) /\
    bh + pt + pb <= H + (1 # 2).
Proof.
  intros Ec. unfold Decor.layout. rewrite Ec.
  set (lines := match filter _ _ with [] => [""] | _ => _ end).
  destruct (widest_finite (Fin f) lines 0 (Qle_refl 0)) as (mw & Emw & Hmw).
  cbv zeta. rewrite Emw.
  cbn [Num.add Num.sub Num.neg Num.mul Decor.count Point.x Point.y
       Rect.x Rect.y Rect.w Rect.h].
  rewrite !(div_by_positive _ 2) by reflexivity.
  cbn [Num.add Num.sub Num.neg Num.mul].
  repeat match goal with
  | |- context [Num.max (Fin ?a) (Fin ?b)] =>
      let m := fresh "m" in let E := fresh "E" in
      destruct (max_Fin a b) as (m & E & ? & ? & _); rewrite E; clear E
  end.
  cbn [Num.add JsMath.round].
  eexists _, _, _, _, _, _, _, _, _, _. split; [reflexivity|].
  match goal with |- context [Qfloor (?x + (1 # 2))] => pose proof (round_near x) end.
  match goal with |- context [inject_Z (Qfloor (bh + ?a + ?b + (1 # 2)))] =>
     pose proof (round_near (bh + a + b)) end.
  unfold Qdiv in *. change (/ 2) with (1 # 2) in *.
  repeat match goal with
  | H : context [inject_Z (Qfloor ?x)] |- _ =>
      let n := fresh "n" in set (n := inject_Z (Qfloor x)) in *; clearbody n
  end.
  repeat split; lra.
Qed.

End DecorLayout.

(** X21.  For a polygon of at least 3 points with finite coordinates, text widths
    that are finite and not negative, a finite font size if one is given,
    canvases that give a context and a PNG that is not empty,
    createLayerFromPolygon returns a layer, visible and unlocked, at its
    initial position and size, whose zone data are the points, label and
    colour given and the font size used, which lies between 18 and 56 when
    none was given. The layer is as wide and high as the painted canvas, and
    its position plus the position of a vertex on the painted canvas is the
    point itself; every vertex and the label pill keep a margin of 20 from
    the left and top edges of the canvas and of 19.5 from its right and
    bottom edges. *)
Theorem decor_layer_overlays_polygon
    (toUpperCase : string -> string) (measureText : num -> string -> num)
    (canvas : Decor.Canvas) (now : Z) (points : list Point.t) (label color : string)
    (fontSize : option num) :
  (3 <= List.length points)%nat ->
  Forall (fun p => Point.finite p = true) points ->
  (forall f line, exists q, measureText f line = Fin q /\ 0 <= q) ->
  match fontSize with Some f => Num.is_fin f = true | None => True end ->
  Decor.layoutMeasure canvas = true -> Decor.pngMeasure canvas = true ->
  Decor.pngContext canvas = true ->
  (forall d, Decor.toDataURL canvas d <> "") ->
  exists layer fs lx ly w h,
    Decor.createLayerFromPolygon toUpperCase measureText canvas now points label color
      fontSize = Decor.Returns (Some layer) /\
    Layer.decorData layer = Some (DecorData.mk points label color (Fin fs)) /\
    match fontSize with Some f => f = Fin fs | None => 18 <= fs /\ fs <= 56 end /\
    Layer.visible layer = true /\ Layer.locked layer = false /\
    LayerDrag.pristine layer /\
    Layer.x layer = Fin lx /\ Layer.y layer = Fin ly /\
    Layer.width layer = Fin w /\ Layer.height layer = Fin h /\
    let d := Decor.drawing toUpperCase measureText points label (Fin fs)
               (Decor.boundingBox points) in
    Layer.src layer = Some (Decor.toDataURL canvas d) /\
    Decor.canvasW d = Fin w /\ Decor.canvasH d = Fin h /\
    Forall2 (fun p v =>
               exists px py vx vy,
                 p = Point.mk (Fin px) (Fin py) /\ v = Point.mk (Fin vx) (Fin vy) /\
                 lx + vx == px /\ ly + vy == py /\
                 20 <= vx /\ vx + 20 <= w + (1 # 2) /\
                 20 <= vy /\ vy + 20 <= h + (1 # 2))
            points (Decor.path d) /\
    exists rx ry rw rh,
      Decor.pill d = Rect.mk (Fin rx) (Fin ry) (Fin rw) (Fin rh) /\
      20 <= rx /\ rx + rw + 20 <= w + (1 # 2) /\
      20 <= ry /\ ry + rh + 20 <= h + (1 # 2).
Proof.
  intros Hlen Hfin Hm Hfs Hc1 Hc2 Hc3 Hpng.
  assert (Hall : Forall Zone.finitePoint points).
  { eapply Forall_impl; [|exact Hfin]. intros p. apply finite_finitePoint. }
  assert (Hne : points <> []) by (intros ->; cbn in Hlen; lia).
  destruct (boundingBox_finite points Hne Hall) as (a & b & c & d & Ebb & Hh).
  destruct (centroid_finite points Hall) as (cx & cy & Ec).
  assert (Hfs' : exists fs,
     match fontSize with
     | Some fontSize => fontSize
     | None => Num.max (Fin 18)
                 (Num.min (Num.min (Rect.w (Decor.boundingBox points) /' Fin 5)
                                   (Rect.h (Decor.boundingBox points) /' Fin 3)) (Fin 56))
     end = Fin fs /\
     match fontSize with Some f => f = Fin fs | None => 18 <= fs /\ fs <= 56 end).
  { destruct fontSize as [[f| | |]|]; try discriminate.
    - now exists f.
    - rewrite Ebb. cbn [Rect.w Rect.h].
      rewrite (div_by_positive _ 5), (div_by_positive _ 3) by reflexivity.
      destruct (min_Fin ((c + - a) / 5) ((d + - b) / 3)) as (m1 & -> & _ & _).
      destruct (min_Fin m1 56) as (m2 & -> & _ & H2).
      destruct (max_Fin 18 m2) as (m3 & -> & H3 & _ & [->| ->]).
      + exists 18. repeat split; lra.
      + exists m2. repeat split; lra. }
  destruct Hfs' as (fs & Efs & Hfsb).
  destruct (layout_spec toUpperCase measureText Hm points label fs a b (c + - a) (d + - b)
              cx cy Ec)
    as (lines & lh & tw & th & pl & pr & pt & pb & W & H & El & Hpl & Hpr & Hpt & Hpb
        & Hl & Hr & Ht & Hb & HW & HH).
  assert (Ed : Decor.drawing toUpperCase measureText points label (Fin fs)
                 (Decor.boundingBox points)
             = Decor.mkDrawing (Fin W) (Fin H)
                 (map (fun pt0 => Point.mk (Point.x pt0 +' Fin (- a + pl))
                                           (Point.y pt0 +' Fin (- b + pt))) points)
                 (Rect.mk (Fin (cx + (- a + pl) + - (tw / 2)))
                          (Fin (cy + (- b + pt) + - (th / 2))) (Fin tw) (Fin th))
                 (Decor.text (Decor.drawing toUpperCase measureText points label (Fin fs)
                                (Decor.boundingBox points)))).
  { unfold Decor.drawing. rewrite Ebb, El, Ec.
    cbn [Decor.layoutW Decor.layoutH Decor.padLeft Decor.padTop Decor.textPillW
         Decor.textPillH Decor.text Rect.x Rect.y Point.x Point.y Num.neg Num.add Num.sub].
    rewrite !(div_by_positive _ 2) by reflexivity.
    cbn [Num.neg Num.add]. reflexivity. }
  eexists _, fs, (a + - pl), (b + - pt), W, H.
  split.
  { unfold Decor.createLayerFromPolygon.
    destruct (List.length points <? 3)%nat eqn:E3; [apply Nat.ltb_lt in E3; lia|].
    rewrite Efs. unfold Decor.renderPolygonWithLayout, Decor.renderPolygonPng.
    rewrite Hc1, Hc2, Hc3. cbn [negb].
    destruct points as [|p0 rest]; [congruence|].
    unfold orNull.
    destruct (String.eqb _ "") eqn:Ee; [apply String.eqb_eq in Ee; now apply Hpng in Ee|].
    rewrite Ebb, El.
    cbn [Decor.padLeft Decor.padTop Decor.layoutW Decor.layoutH Decor.placedSrc
         Decor.placedPadLeft Decor.placedPadTop Decor.placedW Decor.placedH
         Rect.x Rect.y Num.sub Num.neg Num.add].
    reflexivity. }
  cbn [Layer.decorData Layer.visible Layer.locked Layer.x Layer.y Layer.width
       Layer.height Layer.src].
  split; [reflexivity|]. split; [exact Hfsb|].
  split; [reflexivity|]. split; [reflexivity|].
  split; [unfold LayerDrag.pristine; cbn; auto|].
  split; [reflexivity|]. split; [reflexivity|]. split; [reflexivity|].
  split; [reflexivity|].
  cbv zeta. split; [now rewrite Ebb|].
  rewrite Ed. cbn [Decor.canvasW Decor.canvasH Decor.path Decor.pill].
  split; [reflexivity|]. split; [reflexivity|].
  split.
  - clear - Hh Hpl Hpr Hpt Hpb HW HH. induction Hh as [|p l (px & py & -> & H1 & H2 & H3 & H4) _ IH];
      cbn [map]; constructor; [|exact IH].
    exists px, py, (px + (- a + pl)), (py + (- b + pt)).
    cbn [Point.x Point.y Num.add]. repeat split; lra.
  - eexists _, _, _, _. split; [reflexivity|].
    unfold Qdiv. change (/ 2) with (1 # 2). repeat split; lra.
Qed.

Lemma decor_witness :
  let pts := [Point.mk (Fin 0) (Fin 0); Point.mk (Fin 100) (Fin 0); Point.mk (Fin 0) (Fin 100)] in
  let canvas := Decor.mkCanvas true true true (fun _ => "data:image/png;base64,AAAA") in
  exists layer,
    Decor.createLayerFromPolygon (fun s => s) (fun _ _ => Fin 40) canvas 0 pts
      "Sofa" "#e91e8c" None = Decor.Returns (Some layer) /\
    LayerDrag.pristine layer.
Proof.
  cbv zeta.
  destruct (decor_layer_overlays_polygon (fun s => s) (fun _ _ => Fin 40)
              (Decor.mkCanvas true true true (fun _ => "data:image/png;base64,AAAA")) 0
              [Point.mk (Fin 0) (Fin 0); Point.mk (Fin 100) (Fin 0); Point.mk (Fin 0) (Fin 100)]
              "Sofa" "#e91e8c" None)
    as (layer & fs & lx & ly & w & h & H1 & _ & _ & _ & _ & H2 & _).
  - cbn. lia.
  - repeat constructor.
  - intros f line. exists 40. split; [reflexivity|discriminate].
  - exact I.
  - reflexivity.
  - reflexivity.
  - reflexivity.
  - intros d. discriminate.
  - exists layer. split; [exact H1|exact H2].
Defined.

(** What [createLayerFromPolygon] puts in a layer it returns. *)
Lemma created_layer (toUpperCase : string -> string) (measureText : num -> string -> num)
    (canvas : Decor.Canvas) (now : Z) (points : list Point.t) (label color : string)
    (fontSize : option num) (layer : Layer.t) :
  Decor.createLayerFromPolygon toUpperCase measureText canvas now points label color fontSize
    = Decor.Returns (Some layer) ->
  (3 <= List.length points)%nat /\
  Layer.name layer = Decor.zoneName label /\
  Layer.type layer = generation /\
  LayerDrag.pristine layer /\
  exists fs, Layer.decorData layer = Some (DecorData.mk points label color fs).
Proof.
  unfold Decor.createLayerFromPolygon.
  destruct (List.length points <? 3)%nat eqn:E; [discriminate|].
  apply Nat.ltb_ge in E. cbv zeta.
  destruct (Decor.renderPolygonWithLayout _ _ _ _ _ _ _ _) as [|[result|]]; try discriminate.
  intros H. injection H as <-. cbn. unfold LayerDrag.pristine. cbn.
  repeat split; eauto.
Qed.

Section DecorHook.

Variable toUpperCase : string -> string.
Variable measureText : num -> string -> num.
Variable Math_sqrt : num -> num.

Lemma commit_cycling (canvas : Decor.Canvas) (now : Z) (s : Decor.t)
    (created : list Layer.t) :
  Zone.cycling (s, created) ->
  Zone.cycling
    (fst (Decor.commitPolygon toUpperCase measureText canvas now (Decor.drawingPoints s)
            (Decor.nextLabel s) (Decor.nextColor s) s),
     match snd (Decor.commitPolygon toUpperCase measureText canvas now (Decor.drawingPoints s)
                  (Decor.nextLabel s) (Decor.nextColor s) s) with
     | Some layer => (created ++ [layer])%list
     | None => created
     end).
Proof.
  intros (Hc & Hl). cbn [fst snd] in Hc.
  unfold Decor.commitPolygon.
  destruct (Decor.createLayerFromPolygon _ _ _ _ _ _ _ _) as [|[layer|]] eqn:E;
    cbn [fst snd]; try (split; [exact Hc|exact Hl]).
  apply created_layer in E. destruct E as (H3 & Hn & Ht & Hp & fs & Hd).
  split; cbn [fst snd Decor.zoneCount].
  - rewrite length_app. cbn. lia.
  - intros i l Hi.
    destruct (Nat.lt_ge_cases i (List.length created)) as [Hlt|Hge].
    + rewrite nth_error_app1 in Hi by exact Hlt. now apply Hl.
    + rewrite nth_error_app2 in Hi by exact Hge.
      destruct (i - List.length created)%nat as [|n] eqn:En;
        [|destruct n; discriminate].
      injection Hi as <-.
      assert (i = Decor.zoneCount s) by lia. subst i.
      split; [exact Hn|]. split; [exact Ht|]. split; [exact Hp|].
      exists (Decor.drawingPoints s), fs. split; [exact H3|exact Hd].
Qed.

Lemma step_cycling (acc : Decor.t * list Layer.t) (e : Decor.Event) :
  Zone.cycling acc -> Zone.cycling (Decor.step toUpperCase measureText Math_sqrt acc e).
Proof.
  destruct acc as (s, created). intros H.
  assert (Hsame : forall s', Decor.zoneCount s' = Decor.zoneCount s -> Zone.cycling (s', created)).
  { intros s' E. destruct H as (Hc & Hl). split; [cbn [fst snd] in *; congruence|exact Hl]. }
  destruct e as [canvas now x y|canvas now| | |v|v]; cbn [Decor.step].
  - unfold Decor.addPoint.
    destruct (3 <=? List.length (Decor.drawingPoints s))%nat;
      [|cbn [fst snd]; now apply Hsame].
    destruct (Decor.drawingPoints s) as [|first rest] eqn:Ed;
      [cbn [fst snd]; now apply Hsame|].
    destruct (_ <? Fin 15); [|cbn [fst snd]; now apply Hsame].
    rewrite <- Ed. now apply commit_cycling.
  - unfold Decor.closePolygon.
    destruct (List.length (Decor.drawingPoints s) <? 3)%nat;
      [cbn [fst snd]; now apply Hsame|].
    now apply commit_cycling.
  - now apply Hsame.
  - now apply Hsame.
  - now apply Hsame.
  - now apply Hsame.
Qed.

End DecorHook.

(** X22.  After any sequence of addPoint, closePolygon, cancelDrawing,
    undoLastPoint, setIsDecorMode and setCursorPos calls from the initial
    state, zoneCount equals the number of layers handed to onLayerCreated,
    and the layer of rank i (from 0) is a generation layer at its initial
    position and size, made from at least 3 points, named after and carrying
    the label DEFAULT_LABELS[i mod 8] and the colour ZONE_COLORS[i mod 8]. *)
Theorem decor_zones_cycle (toUpperCase : string -> string)
    (measureText : num -> string -> num) (Math_sqrt : num -> num)
    (events : list Decor.Event) :
  let state := fst (Decor.run toUpperCase measureText Math_sqrt events) in
  let created := snd (Decor.run toUpperCase measureText Math_sqrt events) in
  Decor.zoneCount state = List.length created /\
  forall i layer, nth_error created i = Some layer ->
    Layer.name layer = Decor.zoneName (nth (i mod 8) Decor.DEFAULT_LABELS "") /\
    Layer.type layer = generation /\
    LayerDrag.pristine layer /\
    exists points fs,
      (3 <= List.length points)%nat /\
      Layer.decorData layer
        = Some (DecorData.mk points (nth (i mod 8) Decor.DEFAULT_LABELS "")
                  (nth (i mod 8) Decor.ZONE_COLORS "") fs).
Proof.
  cbv zeta. unfold Decor.run.
  assert (H : forall acc, Zone.cycling acc ->
            Zone.cycling (fold_left (Decor.step toUpperCase measureText Math_sqrt) events acc)).
  { induction events as [|e l IH]; intros acc Hacc; cbn [fold_left]; [exact Hacc|].
    apply IH. now apply step_cycling. }
  apply (H (Decor.initial, [])). split; [reflexivity|].
  intros [|i] layer Hi; discriminate.
Qed.


(* ------------------------------------------------------------------ *)
(** ** Updating a layer *)

Lemma find_by_id_unique (id : string) (ls : list Layer.t) (l0 l : Layer.t) :
  NoDup (map Layer.id ls) ->
  find (fun l => String.eqb (Layer.id l) id) ls = Some l0 ->
  In l ls -> Layer.id l = id -> l = l0.
Proof.
  induction ls as [|a ls IH]; intros Hnd Hf Hin Hid; [contradiction|].
  cbn in Hnd. inversion Hnd as [|? ? Hna Hnd']; subst.
  cbn [find] in Hf. destruct (String.eqb (Layer.id a) (Layer.id l)) eqn:E.
  - injection Hf as <-. destruct Hin as [->|Hin]; [reflexivity|].
    apply String.eqb_eq in E. exfalso. apply Hna. rewrite E. now apply in_map.
  - destruct Hin as [->|Hin]; [rewrite String.eqb_refl in E; discriminate|].
    now apply IH.
Qed.

Lemma find_by_id_none (id : string) (ls : list Layer.t) (l : Layer.t) :
  find (fun l => String.eqb (Layer.id l) id) ls = None ->
  In l ls -> String.eqb (Layer.id l) id = false.
Proof. intros Hf Hin. exact (find_none _ _ Hf l Hin). Qed.

Lemma toggle_layers (id : string) (s : Store.t) :
  NoDup (map Layer.id (Store.layers s)) ->
  Store.layers (LayerEdit.onToggleVisibility id s)
  = map (fun l => if String.eqb (Layer.id l) id
                  then LayerEdit.spread l (LayerEdit.visibleOnly (negb (Layer.visible l)))
                  else l) (Store.layers s).
Proof.
  intros Hnd. unfold LayerEdit.onToggleVisibility, LayerEdit.handleUpdateLayer.
  cbn [Store.layers Store.setLayers]. apply map_ext_in. intros l Hin.
  destruct (String.eqb (Layer.id l) id) eqn:E; [|reflexivity].
  apply String.eqb_eq in E.
  destruct (find _ (Store.layers s)) as [l0|] eqn:Hf.
  - now rewrite (find_by_id_unique id _ l0 l Hnd Hf Hin E).
  - apply (find_by_id_none id _ l Hf) in Hin. rewrite E, String.eqb_refl in Hin. discriminate.
Qed.

(** X23.  When the layer ids are pairwise distinct, the eye of the layer panel
    flips the visible flag of the layer with the given id and changes
    nothing else in the store; clicking it twice restores the store. *)
Theorem visibility_toggle_round_trip (id : string) (s : Store.t) :
  NoDup (map Layer.id (Store.layers s)) ->
  Store.layers (LayerEdit.onToggleVisibility id s)
  = map (fun l => if String.eqb (Layer.id l) id
                  then LayerEdit.spread l (LayerEdit.visibleOnly (negb (Layer.visible l)))
                  else l) (Store.layers s) /\
  Store.selectedLayerIds (LayerEdit.onToggleVisibility id s) = Store.selectedLayerIds s /\
  Store.redoStack (LayerEdit.onToggleVisibility id s) = Store.redoStack s /\
  LayerEdit.onToggleVisibility id (LayerEdit.onToggleVisibility id s) = s.
Proof.
  intros Hnd. split; [now apply toggle_layers|]. split; [reflexivity|]. split; [reflexivity|].
  assert (Hids : map Layer.id (Store.layers (LayerEdit.onToggleVisibility id s))
                 = map Layer.id (Store.layers s)).
  { rewrite toggle_layers by exact Hnd. rewrite map_map. apply map_ext. intros l.
    destruct (String.eqb (Layer.id l) id); reflexivity. }
  assert (Hl : Store.layers (LayerEdit.onToggleVisibility id (LayerEdit.onToggleVisibility id s))
               = Store.layers s).
  { rewrite toggle_layers by (rewrite Hids; exact Hnd).
    rewrite toggle_layers by exact Hnd. rewrite map_map.
    rewrite <- (map_id (Store.layers s)) at 2. apply map_ext. intros l.
    destruct (String.eqb (Layer.id l) id) eqn:E; [|now rewrite E].
    cbn [LayerEdit.spread LayerEdit.visibleOnly LayerEdit.over LayerEdit.p_id Layer.id].
    rewrite E. destruct l. cbn. now rewrite negb_involutive. }
  destruct s as [ls rs sel menu]. 
  unfold LayerEdit.onToggleVisibility, LayerEdit.handleUpdateLayer, Store.setLayers in *.
  cbn [Store.layers Store.redoStack Store.selectedLayerIds Store.showLayerMenuMobile] in *.
  f_equal. exact Hl.
Qed.

Lemma toggle_witness :
  let eye := Layer.mk "a" "A" true false image None None (Fin 0) (Fin 0) (Fin 10) (Fin 10)
               None None None None None None None None in
  let s := Store.mk [eye] [] [] false in
  map Layer.visible (Store.layers (LayerEdit.onToggleVisibility "a" s)) = [false] /\
  LayerEdit.onToggleVisibility "a" (LayerEdit.onToggleVisibility "a" s) = s.
Proof.
  cbv zeta. split; [reflexivity|].
  apply (visibility_toggle_round_trip "a").
  cbn. constructor; [intros []|constructor].
Defined.

Lemma update_keeps_frame (id : string) (updates : LayerEdit.Partial) (label : string)
    (decorData : DecorData.t) (fontSize : num) (active : Layer.t) (s : Store.t) :
  id = Layer.id active ->
  updates = LayerEdit.mkPartial None (Some (Decor.zoneName label)) None None None
              (LayerEdit.p_src updates) None None None None None None None None None None
              None None
              (Some (Some (DecorData.mk (DecorData.points decorData) label
                             (DecorData.color decorData) fontSize))) ->
  Zone.relabelled active decorData label fontSize s (LayerEdit.handleUpdateLayer id updates s).
Proof.
  intros -> Hu. split; [reflexivity|]. split; [reflexivity|].
  unfold LayerEdit.handleUpdateLayer. cbn [Store.layers Store.setLayers].
  induction (Store.layers s) as [|l ls IH]; cbn [map]; constructor; [|exact IH].
  destruct (String.eqb (Layer.id l) (Layer.id active)) eqn:E.
  - apply String.eqb_eq in E. rewrite Hu. split.
    + unfold Zone.sameFrame. cbn. repeat split; reflexivity.
    + right. cbn. auto.
  - split; [unfold Zone.sameFrame; repeat split; reflexivity|now left].
Qed.

Lemma relabelled_refl (active : Layer.t) (decorData : DecorData.t) (label : string)
    (fontSize : num) (s : Store.t) :
  Zone.relabelled active decorData label fontSize s s.
Proof.
  split; [reflexivity|]. split; [reflexivity|].
  induction (Store.layers s) as [|l ls IH]; constructor; [|exact IH].
  split; [unfold Zone.sameFrame; repeat split; reflexivity|now left].
Qed.

Lemma rerender_keeps_frame (toUpperCase : string -> string)
    (measureText : num -> string -> num) (canvas : Decor.Canvas)
    (active : Layer.t) (decorData : DecorData.t) (label : option string)
    (fontSize : option num) (s : Store.t) :
  Zone.relabelled active decorData
    (LayerEdit.over label (DecorData.label decorData))
    (LayerEdit.over fontSize (DecorData.fontSize decorData)) s
    (LayerMenu.onUpdate active
       (Decor.rerenderDecorLayer toUpperCase measureText canvas decorData label fontSize) s).
Proof.
  unfold Decor.rerenderDecorLayer.
  destruct (Decor.renderPolygonPng _ _ _ _ _ _ _ _) as [|src];
    [apply relabelled_refl|].
  destruct (orNull src) as [png|]; [|apply relabelled_refl].
  cbn [LayerMenu.onUpdate]. apply update_keeps_frame; reflexivity.
Qed.

(** X24.  Editing the label or the font size of a zone through the layer menu
    never moves or resizes a layer: every layer keeps its id, position,
    size, initial position and size, visibility, lock, type, feather, render
    mode and playing flag, and the selection and the redo stack are
    unchanged. A layer is either left as it was, or it has the id of the
    active layer and takes the new name and zone data with the same points
    and colour, the edited label or font size, and the other of the two as
    stored. *)
Theorem zone_edit_keeps_frame (toUpperCase : string -> string)
    (measureText : num -> string -> num) (canvas : Decor.Canvas)
    (active : Layer.t) (decorData : DecorData.t) (s : Store.t) :
  Layer.decorData active = Some decorData ->
  (forall newLabel,
     Zone.relabelled active decorData newLabel (DecorData.fontSize decorData) s
       (LayerMenu.onUpdate active
          (LayerMenu.handleDecorLabelChange canvas toUpperCase measureText active newLabel) s)) /\
  (forall newSize,
     Zone.relabelled active decorData (DecorData.label decorData) newSize s
       (LayerMenu.onUpdate active
          (LayerMenu.handleDecorFontSizeChange canvas toUpperCase measureText active newSize) s)).
Proof.
  intros Hd. split.
  - intros newLabel. unfold LayerMenu.handleDecorLabelChange. rewrite Hd.
    exact (rerender_keeps_frame toUpperCase measureText canvas active decorData
             (Some newLabel) None s).
  - intros newSize. unfold LayerMenu.handleDecorFontSizeChange. rewrite Hd.
    exact (rerender_keeps_frame toUpperCase measureText canvas active decorData
             None (Some newSize) s).
Qed.

Lemma zone_edit_witness :
  let dd := DecorData.mk [Point.mk (Fin 0) (Fin 0); Point.mk (Fin 100) (Fin 0);
                          Point.mk (Fin 0) (Fin 100)] "Sofa" "#e91e8c" (Fin 20) in
  let zone := Layer.mk "decor-1" (Decor.zoneName "Sofa") true false generation
                (Some "data:image/png;base64,AAAA") None (Fin (-20)) (Fin (-20))
                (Fin 140) (Fin 140) None None None None (Some (Fin 0)) (Some fill) None
                (Some dd) in
  let canvas := Decor.mkCanvas true true true (fun _ => "data:image/png;base64,BBBB") in
  let s := Store.mk [zone] [] ["decor-1"] false in
  Zone.relabelled zone dd "Mesa" (Fin 20) s
    (LayerMenu.onUpdate zone
       (LayerMenu.handleDecorLabelChange canvas (fun t => t) (fun _ _ => Fin 40) zone "Mesa") s).
Proof.
  intros dd zone canvas s.
  exact (proj1 (zone_edit_keeps_frame (fun t => t) (fun _ _ => Fin 40) canvas zone dd s
                  eq_refl) "Mesa").
Defined.


(* ------------------------------------------------------------------ *)
(** ** The storyboard *)

Lemma scene_filter_length (id : string) (scenes : list Scene.t) :
  NoDup (map Scene.id scenes) ->
  (List.length scenes
   <= S (List.length (filter (fun s => negb (String.eqb (Scene.id s) id)) scenes)))%nat.
Proof.
  induction scenes as [|a l IH]; intros Hnd; [cbn; lia|].
  cbn in Hnd. inversion Hnd as [|? ? Hna Hnd']; subst.
  cbn [filter]. destruct (String.eqb (Scene.id a) id) eqn:E; cbn [negb List.length].
  - apply String.eqb_eq in E.
    assert (Hf : filter (fun s => negb (String.eqb (Scene.id s) id)) l = l).
    { apply forallb_filter_id. apply forallb_forall. intros s Hs.
      destruct (String.eqb (Scene.id s) id) eqn:E'; [|reflexivity].
      apply String.eqb_eq in E'. exfalso. apply Hna. rewrite E, <- E'. now apply in_map. }
    rewrite Hf. lia.
  - specialize (IH Hnd'). lia.
Qed.

(** X25.  On a non-empty storyboard whose scene ids are pairwise distinct,
    handleDeleteScene never empties the list: it removes at most one scene,
    keeps every scene with another id, and with two scenes or more no scene
    with the given id is left. *)
Theorem delete_scene_keeps_one (id : string) (scenes : list Scene.t) :
  NoDup (map Scene.id scenes) -> scenes <> [] ->
  Storyboard.handleDeleteScene id scenes <> [] /\
  (List.length scenes <= S (List.length (Storyboard.handleDeleteScene id scenes)))%nat /\
  (forall s, In s (Storyboard.handleDeleteScene id scenes) -> In s scenes) /\
  (forall s, In s scenes -> Scene.id s <> id ->
             In s (Storyboard.handleDeleteScene id scenes)) /\
  ((2 <= List.length scenes)%nat ->
   forall s, In s (Storyboard.handleDeleteScene id scenes) -> Scene.id s <> id).
Proof.
  intros Hnd Hne. unfold Storyboard.handleDeleteScene.
  destruct (List.length scenes <=? 1)%nat eqn:E.
  - apply Nat.leb_le in E. repeat split; auto; try lia.
  - apply Nat.leb_gt in E. pose proof (scene_filter_length id scenes Hnd) as Hlen.
    split; [|split; [exact Hlen|split; [|split]]].
    + intros Hf. rewrite Hf in Hlen. cbn in Hlen. lia.
    + intros s Hs. apply filter_In in Hs. tauto.
    + intros s Hs Hid. apply filter_In. split; [exact Hs|].
      destruct (String.eqb (Scene.id s) id) eqn:E'; [|reflexivity].
      apply String.eqb_eq in E'. contradiction.
    + intros _ s Hs. apply filter_In in Hs. destruct Hs as (_ & Hs).
      intros Hid. rewrite Hid, String.eqb_refl in Hs. discriminate.
Qed.

Lemma delete_scene_witness :
  let a := Storyboard.newScene 1 None in
  let b := Storyboard.newScene 2 None in
  Storyboard.handleDeleteScene "1" [a; b] = [b] /\
  Storyboard.handleDeleteScene "2" (Storyboard.handleDeleteScene "1" [a; b]) <> [].
Proof.
  cbv zeta. split; [reflexivity|].
  apply (delete_scene_keeps_one "2" [Storyboard.newScene 2 None]).
  - cbn. constructor; [intros []|constructor].
  - discriminate.
Defined.

Section Row.

Variable scenes : list Scene.t.
Variable index : nat.
Variable scene : Scene.t.
Variable now : nat -> Z.

Hypothesis distinct : NoDup (map Scene.id scenes).
Hypothesis rendered : nth_error scenes index = Some scene.
Hypothesis fresh : forall k, Functions.showZ (now k) <> Scene.id scene.









End Row.






(** X27.  handleAddScene appends one scene with the id printed from Date.now(), no
    end frame, no videos, selectedVideoIndex -1 and isGenerating false,
    whose start frame is the end frame of the last scene when that is a non-
    empty string and the start frame of the last scene otherwise. When that
    id is not the id of a scene already there, deleting it with
    handleDeleteScene gives back the storyboard as it was. *)
Theorem add_then_delete_scene (now : Z) (scenes : list Scene.t) (lastScene : Scene.t) :
  nth_error scenes (List.length scenes - 1) = Some lastScene ->
  ~ In (Functions.showZ now) (map Scene.id scenes) ->
  exists added,
    Storyboard.handleAddScene now scenes = (scenes ++ [added])%list /\
    Scene.id added = Functions.showZ now /\
    Scene.startFrame added
      = match orNull (Scene.endFrame lastScene) with
        | Some endFrame => Some endFrame
        | None => Scene.startFrame lastScene
        end /\
    Scene.endFrame added = None /\ Scene.videos added = [] /\
    Scene.selectedVideoIndex added = (-1)%Z /\ Scene.isGenerating added = false /\
    Storyboard.handleDeleteScene (Functions.showZ now) (Storyboard.handleAddScene now scenes)
      = scenes.
Proof.
  intros Hlast Hfresh. unfold Storyboard.handleAddScene. rewrite Hlast.
  eexists. split; [reflexivity|]. cbn [Storyboard.newScene Scene.id Scene.startFrame
    Scene.endFrame Scene.videos Scene.selectedVideoIndex Scene.isGenerating].
  repeat (split; [reflexivity|]).
  unfold Storyboard.handleDeleteScene. rewrite length_app. cbn [List.length].
  assert (Hne : (1 <= List.length scenes)%nat).
  { destruct scenes; [discriminate|cbn; lia]. }
  destruct (List.length scenes + 1 <=? 1)%nat eqn:E; [apply Nat.leb_le in E; lia|].
  rewrite filter_app. cbn [filter Scene.id]. rewrite String.eqb_refl. cbn [negb].
  rewrite app_nil_r. apply forallb_filter_id. apply forallb_forall. intros s Hs.
  destruct (String.eqb (Scene.id s) (Functions.showZ now)) eqn:E'; [|reflexivity].
  apply String.eqb_eq in E'. exfalso. apply Hfresh. rewrite <- E'. now apply in_map.
Qed.

Lemma add_scene_witness :
  let first := Scene.mk "1" (Some "data:image/png;base64,AA") (Some "data:image/png;base64,ZZ")
                 [Shot.mk "pan left" "5"] [] (-1) false 1 in
  map Scene.startFrame (Storyboard.handleAddScene 1700000000000 [first])
    = [Some "data:image/png;base64,AA"; Some "data:image/png;base64,ZZ"] /\
  Storyboard.handleDeleteScene (Functions.showZ 1700000000000)
    (Storyboard.handleAddScene 1700000000000 [first]) = [first].
Proof.
  intros first. split; [reflexivity|].
  destruct (add_then_delete_scene 1700000000000 [first] first) as (added & _ & _ & _ & _ & _ & _ & _ & H).
  - reflexivity.
  - vm_compute. intros [H|[]]. discriminate.
  - exact H.
Defined.


(* ------------------------------------------------------------------ *)
(** ** The thumbnail of a project *)

Lemma shown_filter (layers : list Layer.t) :
  Forall (fun l => Thumbnail.shown l = true -> Bounds.measurable l = true) layers ->
  Forall (fun l => Bounds.measurable l = true) (filter Thumbnail.shown layers).
Proof.
  intro H. rewrite Forall_forall in *. intros l Hin. apply filter_In in Hin.
  destruct Hin as [Hin Hi]. apply H; assumption.
Qed.

Lemma leb_fin_false (x y : Q) : (Fin x <=? Fin y) = false <-> y < x.
Proof.
  split; intros H.
  - apply Qnot_le_lt. intros Hle. apply leb_fin in Hle. congruence.
  - destruct (Fin x <=? Fin y) eqn:E; [|reflexivity].
    apply leb_fin in E. lra.
Qed.

Lemma round_nonneg (x : Q) : 0 <= x -> 0 <= inject_Z (Qfloor (x + (1 # 2))).
Proof.
  intros Hx. change 0 with (inject_Z 0). rewrite <- Zle_Qle.
  apply Qfloor_resp_le in Hx.
  assert (H : (Qfloor x <= Qfloor (x + (1 # 2)))%Z) by (apply Qfloor_resp_le; lra).
  change (Qfloor 0) with 0%Z in Hx. lia.
Qed.

(** The size of the thumbnail and the scale of its content, for a full
    picture of [fw] by [fh] and a whole [maxSize]. *)
Lemma thumbnail_size (m : Z) (fw fh : Q) :
  (0 < m)%Z -> 0 < fw -> 0 < fh ->
  exists tw th sc,
    (if Fin fw /' Fin fh >=? Fin 1 then Fin (inject_Z m)
     else JsMath.round (Fin (inject_Z m) *' (Fin fw /' Fin fh))) = Fin tw /\
    (if Fin fw /' Fin fh >=? Fin 1 then JsMath.round (Fin (inject_Z m) /' (Fin fw /' Fin fh))
     else Fin (inject_Z m)) = Fin th /\
    Fin tw /' Fin fw = Fin sc /\
    0 <= tw /\ tw <= inject_Z m /\ 0 <= th /\ th <= inject_Z m /\
    (tw = inject_Z m \/ th = inject_Z m) /\
    0 <= sc /\ sc * fw == tw /\
    (fh <= fw -> sc * fh <= th + (1 # 2)).
Proof.
  intros Hm Hfw Hfh.
  assert (HM : 1 <= inject_Z m).
  { change 1 with (inject_Z 1). rewrite <- Zle_Qle. lia. }
  rewrite (div_by_positive fw fh Hfh).
  assert (Hr : 0 < fw / fh).
  { unfold Qdiv. apply Qmult_lt_0_compat; [exact Hfw|now apply Qinv_lt_0_compat]. }
  assert (Hrf : fw / fh * fh == fw) by (field; lra).
  unfold Num.geb.
  destruct (Fin 1 <=? Fin (fw / fh)) eqn:E.
  - apply leb_fin in E.
    exists (inject_Z m), (inject_Z (Qfloor (inject_Z m / (fw / fh) + (1 # 2)))),
           (inject_Z m / fw).
    rewrite (div_by_positive _ _ Hr). cbn [JsMath.round].
    rewrite (div_by_positive _ fw Hfw).
    assert (Hq : inject_Z m / (fw / fh) * (fw / fh) == inject_Z m) by (field; split; lra).
    assert (Hq0 : 0 <= inject_Z m / (fw / fh)).
    { unfold Qdiv at 1. apply Qmult_le_0_compat; [lra|].
      apply Qlt_le_weak. now apply Qinv_lt_0_compat. }
    assert (Hsc : inject_Z m / fw * fw == inject_Z m) by (field; lra).
    assert (Hsc0 : 0 <= inject_Z m / fw).
    { unfold Qdiv. apply Qmult_le_0_compat; [lra|].
      apply Qlt_le_weak. now apply Qinv_lt_0_compat. }
    assert (Hle : inject_Z m / (fw / fh) <= inject_Z m).
    { remember (inject_Z m / (fw / fh)) as y. remember (fw / fh) as r. nra. }
    split; [reflexivity|]. split; [reflexivity|]. split; [reflexivity|].
    split; [lra|]. split; [lra|].
    split; [now apply round_nonneg|].
    split.
    { apply round_le. rewrite inject_Z_plus. change (inject_Z 1) with 1. lra. }
    split; [now left|]. split; [exact Hsc0|]. split; [exact Hsc|].
    intros _. pose proof (round_near (inject_Z m / (fw / fh))) as Hn.
    assert (Heq : inject_Z m / fw * fh == inject_Z m / (fw / fh)) by (field; split; lra).
    rewrite Heq. exact Hn.
  - apply leb_fin_false in E. cbn [Num.mul JsMath.round].
    set (tw := inject_Z (Qfloor (inject_Z m * (fw / fh) + (1 # 2)))).
    exists tw, (inject_Z m), (tw / fw).
    rewrite (div_by_positive _ fw Hfw).
    assert (Htw0 : 0 <= tw).
    { apply round_nonneg. apply Qmult_le_0_compat; lra. }
    assert (Htw : tw <= inject_Z m).
    { apply round_le. rewrite inject_Z_plus. change (inject_Z 1) with 1.
      remember (fw / fh) as r. remember (inject_Z m) as M. nra. }
    assert (Hsc : tw / fw * fw == tw) by (field; lra).
    assert (Hsc0 : 0 <= tw / fw).
    { unfold Qdiv. apply Qmult_le_0_compat; [lra|].
      apply Qlt_le_weak. now apply Qinv_lt_0_compat. }
    split; [reflexivity|]. split; [reflexivity|]. split; [reflexivity|].
    split; [exact Htw0|]. split; [exact Htw|]. split; [lra|]. split; [lra|].
    split; [now right|]. split; [exact Hsc0|]. split; [exact Hsc|].
    intros Hle. exfalso.
    assert (H1 : 1 <= fw / fh).
    { apply Qle_shift_div_l; [exact Hfh|lra]. }
    lra.
Qed.

(** X28.  When generateThumbnailFromLayers paints a thumbnail for a whole positive
    maxSize and the layers it shows (visible, with a source, not videos)
    have finite positions and finite sizes that are not negative, the
    bounding box of the shown layers has a positive width and height, the
    thumbnail is at most maxSize wide and high and exactly maxSize on one
    side, and the layers whose images load are drawn from the last of the
    list to the first, all at one scale, the thumbnail width over the width
    of the bounding box. Each is drawn inside the thumbnail horizontally and
    not above its top edge; its lower edge is at most the scaled height of
    the bounding box, which exceeds the thumbnail height by at most half a
    pixel when the bounding box is at least as wide as high. *)
Theorem thumbnail_fits_max_size (ctx : bool) (loads : Layer.t -> bool)
    (layers : list Layer.t) (m : Z) (width height : num) (drawn : list (Layer.t * Rect.t)) :
  (0 < m)%Z ->
  Forall (fun l => Thumbnail.shown l = true -> Bounds.measurable l = true) layers ->
  Thumbnail.generateThumbnailFromLayers ctx loads layers (Fin (inject_Z m))
    = Thumbnail.Jpeg width height drawn ->
  exists a b c d tw th sc,
    Bounds.ofAll (filter Thumbnail.shown layers) = Bounds.mk (Fin a) (Fin b) (Fin c) (Fin d) /\
    a < c /\ b < d /\
    width = Fin tw /\ height = Fin th /\
    0 <= tw /\ tw <= inject_Z m /\ 0 <= th /\ th <= inject_Z m /\
    (tw = inject_Z m \/ th = inject_Z m) /\
    0 <= sc /\ sc * (c - a) == tw /\
    map fst drawn = filter loads (rev (filter Thumbnail.shown layers)) /\
    Forall (fun item =>
              exists lx ly w h,
                Layer.x (fst item) = Fin lx /\ Layer.y (fst item) = Fin ly /\
                Layer.width (fst item) = Fin w /\ Layer.height (fst item) = Fin h /\
                snd item = Rect.mk (Fin ((lx + - a) * sc)) (Fin ((ly + - b) * sc))
                             (Fin (w * sc)) (Fin (h * sc)) /\
                0 <= (lx + - a) * sc /\ 0 <= (ly + - b) * sc /\
                0 <= w * sc /\ 0 <= h * sc /\
                (lx + - a) * sc + w * sc <= tw /\
                (ly + - b) * sc + h * sc <= sc * (d - b) /\
                (d - b <= c - a -> (ly + - b) * sc + h * sc <= th + (1 # 2)))
           drawn.
Proof.
  intros Hm Hmeas Hres. unfold Thumbnail.generateThumbnailFromLayers in Hres.
  pose proof (shown_filter _ Hmeas) as Hmf. cbv zeta in Hres.
  destruct (filter Thumbnail.shown layers) as [|v vs] eqn:Hf; [discriminate|].
  destruct (ofAll_fin v vs Hmf) as (a & b & c & d & Hb & Hall & _).
  rewrite Hb in Hres. cbn [Bounds.minX Bounds.minY Bounds.maxX Bounds.maxY] in Hres.
  cbn [Num.sub Num.neg Num.add] in Hres.
  destruct (Fin (c + - a) <=? Fin 0) eqn:Ew; [discriminate|].
  destruct (Fin (d + - b) <=? Fin 0) eqn:Eh; [discriminate|].
  apply leb_fin_false in Ew. apply leb_fin_false in Eh. cbn [orb] in Hres.
  destruct (thumbnail_size m (c + - a) (d + - b) Hm Ew Eh)
    as (tw & th & sc & Etw & Eth & Esc & Htw0 & Htw & Hth0 & Hth & Hone & Hsc0 & Hsc & Hv).
  rewrite Etw, Eth, Esc in Hres.
  destruct (negb ctx); [discriminate|]. injection Hres as Hw Hh Hd.
  exists a, b, c, d, tw, th, sc.
  split; [exact Hb|]. split; [lra|]. split; [lra|].
  split; [now symmetry|]. split; [now symmetry|].
  split; [exact Htw0|]. split; [exact Htw|]. split; [exact Hth0|]. split; [exact Hth|].
  split; [exact Hone|]. split; [exact Hsc0|].
  split; [rewrite <- Hsc; ring|].
  subst drawn. split.
  { rewrite map_map. cbn [fst]. apply map_id. }
  apply Forall_forall. intros item Hin. apply in_map_iff in Hin.
  destruct Hin as (l & <- & Hin). apply filter_In in Hin. destruct Hin as [Hin _].
  change (rev vs ++ [v])%list with (rev (v :: vs)) in Hin.
  apply in_rev in Hin. rewrite Forall_forall in Hall.
  destruct (Hall l Hin) as (x & y & w & h & Hx & Hy & Hlw & Hlh & Hw0 & Hh0 & H1 & H2 & H3 & H4).
  cbn [fst snd]. rewrite Hx, Hy, Hlw, Hlh. cbn [Num.sub Num.neg Num.add Num.mul].
  exists x, y, w, h. repeat (split; [reflexivity|]).
  assert (Hx0 : 0 <= x + - a) by lra. assert (Hy0 : 0 <= y + - b) by lra.
  assert (Hxw : x + - a + w <= c + - a) by lra.
  assert (Hyh : y + - b + h <= d + - b) by lra.
  assert (Hxs : (x + - a + w) * sc <= (c + - a) * sc) by (apply Qmult_le_compat_r; assumption).
  assert (Hys : (y + - b + h) * sc <= (d + - b) * sc) by (apply Qmult_le_compat_r; assumption).
  assert (Hv' : d - b <= c - a -> sc * (d + - b) <= th + (1 # 2)).
  { intros Hle. apply Hv. lra. }
  split; [apply Qmult_le_0_compat; assumption|].
  split; [apply Qmult_le_0_compat; assumption|].
  split; [apply Qmult_le_0_compat; assumption|].
  split; [apply Qmult_le_0_compat; assumption|].
  remember ((x + - a) * sc) as p1. remember (w * sc) as p2.
  remember ((y + - b) * sc) as p3. remember (h * sc) as p4.
  assert (E1 : (x + - a + w) * sc == p1 + p2) by (subst; ring).
  assert (E2 : (y + - b + h) * sc == p3 + p4) by (subst; ring).
  assert (E3 : (c + - a) * sc == tw) by (rewrite <- Hsc; ring).
  assert (E4 : (d + - b) * sc == sc * (d - b)) by ring.
  split; [lra|]. split; [lra|].
  intros Hle. specialize (Hv' Hle).
  assert (E5 : sc * (d + - b) == sc * (d - b)) by ring. lra.
Qed.

Lemma thumbnail_witness :
  let wide := Layer.mk "a" "A" true false image (Some "data:image/png;base64,AA") None
                (Fin 0) (Fin 0) (Fin 400) (Fin 100)
                None None None None None None None None in
  exists drawn,
    Thumbnail.generateThumbnailFromLayers true (fun _ => true) [wide] Thumbnail.defaultMaxSize
      = Thumbnail.Jpeg (Fin 200) (Fin 50) drawn /\
    map fst drawn = [wide].
Proof.
  intros wide. eexists. split; [vm_compute; reflexivity|].
  destruct (thumbnail_fits_max_size true (fun _ => true) [wide] 200 (Fin 200) (Fin 50) _
              ltac:(lia) ltac:(repeat constructor) eq_refl)
    as (a & b & c & d & tw & th & sc & _ & _ & _ & _ & _ & _ & _ & _ & _ & _ & _ & _ & H & _).
  exact H.
Defined.


(* ------------------------------------------------------------------ *)
(** ** The initial view and the second finger *)

(** X29.  With no layers, fit to screen sets the zoom and the offset that the hook
    starts with for the same window, and leaves the selection alone: the
    zoom is at least 0.05, it makes 2500 world units span the window width
    when the window is at least 125 wide, and the centre of the 4000-unit
    canvas shows on screen half the width and half the height of the window
    away from the top-left corner of the canvas element (the centre of the
    window only when the canvas element starts at the corner of the window). *)
Theorem fit_empty_canvas_is_initial_view (w h rx ry : Q) (s : Interaction.t) :
  let rect := Point.mk (Fin rx) (Fin ry) in
  let s' := CanvasUtils.handleFitScreen (Fin w) (Fin h) []
              (Interaction.initialZoom (Some (Fin w))) Interaction.CANVAS_SIZE s in
  Interaction.zoom s' = Interaction.initialZoom (Some (Fin w)) /\
  Interaction.canvasOffset s'
    = Interaction.initialCanvasOffset (Some (Fin w)) (Some (Fin h)) /\
  Interaction.selection s' = Interaction.selection s /\
  exists z px py,
    Interaction.zoom s' = Fin z /\
    (5 # 100) <= z /\
    (125 <= w -> z * 2500 == w) /\
    Viewport.toClient s' rect
      (Point.mk (Interaction.CANVAS_SIZE /' Fin 2) (Interaction.CANVAS_SIZE /' Fin 2))
    = Point.mk (Fin px) (Fin py) /\
    px == rx + w * (1 # 2) /\
    py == ry + h * (1 # 2).
Proof.
  cbv zeta. split; [reflexivity|]. split; [reflexivity|]. split; [reflexivity|].
  unfold CanvasUtils.handleFitScreen, Interaction.initialZoom,
    Interaction.INITIAL_VIEWPORT_WIDTH, Interaction.CANVAS_SIZE, Viewport.toClient.
  cbn [Interaction.zoom Interaction.canvasOffset Interaction.setZoom
       Interaction.setCanvasOffset Point.x Point.y].
  rewrite (div_by_positive w 2500) by reflexivity.
  rewrite (div_by_positive w 2), (div_by_positive h 2), (div_by_positive 4000 2)
    by reflexivity.
  destruct (max_Fin (5 # 100) (w / 2500)) as (z & -> & Hz1 & Hz2 & Hz).
  cbn [Num.mul Num.sub Num.neg Num.add].
  eexists _, _, _. split; [reflexivity|].
  assert (Hw : w / 2500 * 2500 == w) by (field; discriminate).
  assert (H4 : 4000 / 2 == 2000) by reflexivity.
  assert (Hw2 : w / 2 == w * (1 # 2)) by reflexivity.
  assert (Hh2 : h / 2 == h * (1 # 2)) by reflexivity.
  split; [exact Hz1|]. split.
  - intros H125. destruct Hz as [->| ->]; [|exact Hw].
    remember (w / 2500) as q. lra.
  - split; [reflexivity|]. rewrite H4, Hw2, Hh2. split; ring.
Qed.

Lemma touch_start_two (Math_sqrt : num -> num) (p : Interaction.Props)
    (canvasRef : option Point.t) (t0 t1 : Point.t) (s : Interaction.t) (st : Store.t) :
  Interaction.handleTouchStart Math_sqrt p canvasRef [t0; t1] s st
  = (Interaction.set_lastTouchCenter (Some (Interaction.getTouchCenter t0 t1))
       (Interaction.set_lastTouchDist (Some (Interaction.getTouchDistance Math_sqrt t0 t1))
          (Interaction.set_dragStartRef None
             (Interaction.setDragStart None
                (Interaction.setIsDragging false (Interaction.set_isDraggingRef false s))))),
     st).
Proof. reflexivity. Qed.

(** X30.  When a second finger lands while no layer drag and no selection drag is
    under way, handleTouchStart ends the gesture in progress: the three drag
    flags are down, the selection, the zoom, the offset and the store are
    unchanged, the centre of the two fingers is recorded, no sequence of
    pointer moves changes anything afterwards, and a touch move with any
    number of fingers changes neither the selection nor the store. *)
Theorem second_finger_ends_the_drawing (Math_sqrt : num -> num)
    (p p' : Interaction.Props) (canvasRef : option Point.t) (t0 t1 : Point.t)
    (s : Interaction.t) (st : Store.t) :
  Interaction.isDraggingLayerRef s = false ->
  Interaction.isDraggingSelectionRef s = false ->
  let r := Interaction.handleTouchStart Math_sqrt p canvasRef [t0; t1] s st in
  snd r = st /\
  LayerDrag.released (fst r) /\
  Interaction.selection (fst r) = Interaction.selection s /\
  Interaction.zoom (fst r) = Interaction.zoom s /\
  Interaction.canvasOffset (fst r) = Interaction.canvasOffset s /\
  Interaction.lastTouchCenter (fst r) = Some (Interaction.getTouchCenter t0 t1) /\
  (forall ms, Gesture.moves p' canvasRef ms (fst r) st = (fst r, st)) /\
  (forall touches,
     Interaction.selection
       (fst (Interaction.handleTouchMove Math_sqrt p' canvasRef touches (fst r) st))
     = Interaction.selection s /\
     snd (Interaction.handleTouchMove Math_sqrt p' canvasRef touches (fst r) st) = st).
Proof.
  intros Hl Hs r. subst r. rewrite touch_start_two. cbn [fst snd].
  set (s1 := Interaction.set_lastTouchCenter _ _).
  assert (Hrel : LayerDrag.released s1).
  { unfold LayerDrag.released. subst s1. cbn. auto. }
  split; [reflexivity|]. split; [exact Hrel|].
  split; [reflexivity|]. split; [reflexivity|]. split; [reflexivity|].
  split; [reflexivity|]. split.
  - intro ms. induction ms as [|m ms IH]; [reflexivity|].
    rewrite moves_cons, (handleMove_released p' canvasRef _ _ s1 st Hrel). exact IH.
  - intros touches. unfold Interaction.handleTouchMove.
    destruct touches as [|a [|b [|c rest]]]; try (split; reflexivity).
    + rewrite (handleMove_released p' canvasRef _ _ s1 st Hrel). split; reflexivity.
    + destruct (Interaction.lastTouchDist s1), (Interaction.lastTouchCenter s1), canvasRef;
        try (split; reflexivity).
      destruct (Num.truthy _); split; reflexivity.
Qed.

Lemma second_finger_witness :
  let p := Interaction.mkProps select [] false in
  let s := Interaction.mk None true (Some (Point.mk (Fin 10) (Fin 10))) None None (Fin 1)
             (Point.mk (Fin 0) (Fin 0)) false (Some (Point.mk (Fin 10) (Fin 10))) true
             false false None None None None None in
  let st := Store.mk [] [] [] false in
  let r := Interaction.handleTouchStart (fun _ => Fin 100) p (Some (Point.mk (Fin 0) (Fin 0)))
             [Point.mk (Fin 10) (Fin 10); Point.mk (Fin 110) (Fin 10)] s st in
  Interaction.isDraggingRef s = true /\ LayerDrag.released (fst r).
Proof.
  intros p s st r. split; [reflexivity|].
  exact (proj1 (proj2 (second_finger_ends_the_drawing (fun _ => Fin 100) p p
                         (Some (Point.mk (Fin 0) (Fin 0)))
                         (Point.mk (Fin 10) (Fin 10)) (Point.mk (Fin 110) (Fin 10)) s st
                         eq_refl eq_refl))).
Defined.
